(* ===== verification/_CoqProject ===== *)
-Q . S2P
Prelude.v
CString.v
StringUtils.v
Types.v
Packet.v
RawSocket.v
Evasion.v
Processor.v
Netfilter.v
Callback.v
Config.v
Sni.v
Conntrack.v
TtlTracker.v
Hash.v
NetUtils.v
UtHash.v
UtHashRep.v
UtHashTable.v
UtHashSort.v
UtHashFsck.v
UtHashMore.v
UtHashInorder.v
UtHashFuncs.v
UtHashBloom.v
UtHashSelect.v
DnsTracker.v
Turkey.v
Logging.v
Daemon.v
DaemonC.v
Firewall.v
Main.v
Signals.v
Service.v
Privileges.v
Systemd.v
StringReplace.v
Routes.v
