(* ===== verification/Prelude.v ===== *)
(** * A verification of GoodbyeDPI-Linux

    GoodbyeDPI-Linux is a C daemon that takes packets from a netfilter queue,
    parses them, rewrites or fragments HTTP and HTTPS traffic so that deep packet
    inspection does not recognise it, and gives the kernel a verdict.  This
    library models its sources (src/src/...) function by function and proves what
    the functions do, including where they leave their buffers.

    ** The program and its model

    The program starts in src/main.c: it reads its options, opens the log, writes
    the PID file, becomes a daemon, sets the firewall rules that send packets to
    the queue, and runs the main loop until a signal ends it.

    A packet's way through the program is: src/capture/netfilter_capture.c
    receives a queue message and calls [packet_process_callback] of src/main.c;
    that parses the datagram (src/capture/packet_utils.c), runs [packet_process]
    of src/core/packet_processor.c, which uses the evasion techniques of
    src/evasion and the string functions of src/utils, sends the verdict and
    frees the packet.  The configuration is made at start-up by src/core/config.c
    and the option parser of src/main.c.  The trackers of src/tracking, the
    Turkey-specific techniques, src/service/privileges.c and systemd.c, and most
    of the helpers of src/utils stand beside this path.

    - Prelude (this file): machine integers with their wrap-around, outcomes
      (a value or the first undefined behaviour), the heap of byte objects with
      allocations that may fail, the monad [M] of functions that touch memory,
      record update [r <| field := v |>], tactics and the lemmas all files share.
    - CString: the part of the C library on characters, strings and numbers.
    - StringUtils: src/utils/string_utils.c; StringReplace: its
      [string_replace_all], which works in place on the heap.
    - Types: the structures of src/include/goodbyedpi.h.
    - Packet: src/capture/packet_utils.c.
    - RawSocket: src/capture/raw_socket.c.
    - Evasion: src/evasion/fragmentation.c, fake_packets.c, header_mangle.c.
    - Processor: src/core/packet_processor.c.
    - Netfilter: src/capture/netfilter_capture.c.
    - Callback: [packet_process_callback] and the counters of src/main.c.
    - Config: src/core/config.c, and [parse_arguments] and
      [config_apply_legacy_mode] of src/main.c.
    - Sni: src/evasion/sni_extractor.c.
    - Conntrack: src/tracking/conntrack.c and the abstract cache it refines.
    - TtlTracker: src/tracking/ttl_tracker.c.
    - Hash: src/utils/hash.c.  NetUtils: src/utils/net_utils.c; Routes: its
      [get_default_interface].
    - UtHash: the macros of src/utils/uthash.h that the program uses, on a store of
      linked objects; UtHashRep: which store represents which table, and what each
      macro does to it; UtHashTable: the class [HashTable], what a client may rely
      on, and its implementation by the macros.  The macros the program does not
      use are in UtHashSort (the merge sort [HASH_SRT]), UtHashInorder (ordered
      insertion and replacement), UtHashMore ([HASH_REPLACE_STR], [HASH_CLEAR],
      [HASH_OVERHEAD]), UtHashSelect ([HASH_SELECT]), UtHashFsck (the integrity
      check of HASH_DEBUG), UtHashBloom (the bloom filter) and UtHashFuncs (the
      other hash functions).
    - DnsTracker: src/tracking/dns_tracker.c, proved against [HashTable].
    - Turkey: src/evasion/turkey_specific.c.
    - Logging: src/core/logging.c.
    - Daemon: src/service/daemon_funcs.c, the state [world] of the whole process,
      the class [Os] of the system's answers, and the weakest preconditions in
      which the runs of Firewall and Main are proved.
    - DaemonC: src/service/daemon.c, a larger version of the same functions that
      the build leaves out, on the same state.
    - Firewall: the iptables commands of src/main.c.
    - Main: [main] and its loop, over the components above; the loop is a function
      of the list of its turns.
    - Signals: the main loop as a step relation in which SIGINT and SIGTERM come
      between any two steps, and its agreement with the function of Main.
    - Service: the parts composed: what the program answers to a stream of packets.
    - Privileges, Systemd: src/service/privileges.c and systemd.c.

    Definitions keep the names of the C functions.  File-scope state is a record
    that operations take and return; out parameters are results; a null argument
    is [None] or [Null].  A function that writes through pointers runs in [M]; a
    function that only reads a string takes the bytes from the pointer to the end
    of its object.  Log output is modelled
    where the state of the log decides what a run does (Logging, Daemon, Firewall,
    Main) and left out elsewhere.  What the operating system,
    libnetfilter_queue, the clock and [getopt_long] answer is an argument, and
    what is handed to them (packets sent, verdicts, descriptors closed) a result.
    The host is little-endian with 64-bit [size_t], as the sources assume.

    ** What is proved

    - The way of a packet (Service, Callback, Packet, Processor, Netfilter, Evasion):
      a stream of TCP datagrams is answered packet for packet and in order;
      parsing a TCP datagram yields its fields and exact copies of its parts;
      parse and free balance for every input and every pattern of allocation
      failures, and so does the whole callback; copying is deep; the Host header
      is rewritten exactly in its value; nothing but the payload copy is ever
      written; the verdict of a packet is "accept the captured bytes", or there
      is none when the processor reports a modification.  Also where the code
      leaves its buffers: overlong headers, short payloads, the space options.
    - Set-up (Netfilter, RawSocket): resources are all acquired or all released,
      and released once.
    - Configuration (Config): lines, values and files mean what an abstract
      reading of them says; every string stays terminated and every number in
      range whatever options and files are given; validation decides validity;
      defaults and legacy modes are valid.
    - SNI (Sni): the host name of a hello in the code's layout is found, the
      extension parser stays in bounds, no real ClientHello is recognised, and a
      length that wraps around leads out of the buffer.
    - Trackers: the connection table refines a cache with eviction by slot; TTL
      learning completes at the tenth segment of a connection, undisturbed by the
      segments of others, keeps its invariant and never evicts an established
      connection; its in-place clean-up is a filter.
    - Hash table (UtHashTable): insertion, search, deletion and iteration refine a
      list of entries, through bucket expansion and for every pattern of
      allocation failures (which end the program, as the macros do); one class,
      [MemLimit], states that no allocation of 64 GiB or more succeeds, which keeps
      the 32-bit number of buckets from wrapping around.  Sorting (UtHashSort) ends
      with a complete table of the same elements, sorted and stable; ordered
      insertion (UtHashInorder) keeps a sorted table sorted; replacement
      (UtHashMore) updates a finite map; the integrity check (UtHashFsck) passes
      exactly on consistent links and counts, and on every table the macros build;
      a bloom filter (UtHashBloom) is exact modulo its size and changes no answer
      of a search; the hash functions (UtHashFuncs) read exactly the key, and three
      of them tell keys apart that differ in one byte, for keys of less than 2^32
      bytes, beyond which some of them do not end.  By example (UtHashSelect):
      an addition after a selection loses elements from the order.
    - DNS tracker (DnsTracker): its operations refine a list of connections; what
      was stored is found again from both directions; exchanges are stored once;
      clean-up removes exactly the expired entries.
    - The process (Logging, Firewall, Main, Signals, DaemonC): the log is usable
      from its set-up to its clean-up; the firewall rules are installed all or
      none, and of those the program removes only such remain as iptables refused
      to delete; every interleaving of signals with the main loop is a run of its
      function, up to the order and the time stamps of the log lines, leaks
      nothing at any moment, and ends within two steps of a stop signal; every way
      out of [main] has released what was acquired (the handles of the queue are
      counted from what the library gave); the PID file of a running process is
      never taken (daemon.c).  Also what goes wrong: the
      stop signal that is lost between the test of the loop and its wait, the last
      message after the log is closed, and the PID file of a daemon.
    - Privileges: a drop is complete or leaves the process root.
    - Utilities (StringUtils, StringReplace, Hash, NetUtils, Routes): first
      case-insensitive match, trimming, bounded copies, replacement of
      occurrences, hashes as polynomials, the Internet checksum verifies, printing
      and parsing IPv4 addresses are inverse, the default route is found.

    ** What is assumed of the system

    Answers of the system, of libnetfilter_queue and of allocations are arbitrary,
    with two exceptions, both classes with an instance that the witnesses use.
    [PacketFilterLaws] (Firewall) is what system(3) and iptables(8) document: a
    command exits or is not run at all, [-I] and [-D] do what they say if they
    exit with 0 and nothing otherwise; deletions may fail.  [MemLimit] (UtHashRep)
    says that single allocations of 64 GiB fail.  The theorems on the normal way of
    a packet say where they need allocations to succeed ([no_oom]).

    ** Loops and fuel

    Loops over a string or a list are structural recursions; the main loop is
    one over the list of its turns.  The other loops take fuel, each with a proof
    that its fuel suffices: counting occurrences (the length of the string),
    replacing them (the length of the object, a round passes the pattern), loading
    a file or the routing table (its length, a round reads at least a byte), the
    TLS extensions (the bytes left, a round consumes four), the clean-up of the TTL
    table (its size), folding a 32-bit sum to 16 bits (three rounds), the walks
    along the chains of the hash table (the number of objects of the store), and the
    passes of its merge sort (33: the runs double from one element on, and a table
    has fewer than 2^32), and the 32-bit counters of the hash functions (the length
    of the key, which is enough below 2^32; from there on they do not end).

    ** What is not modelled

    The variants of the macros of uthash.h for HASH_NONFATAL_OOM and NO_DECLTYPE,
    which the program does not switch on, and the general theory of HASH_SELECT;
    src/include/packet.h, whose declarations no source uses;
    functions that only print ([config_print], [print_usage], [print_packet_info],
    [log_privilege_status]); and the file CMake generates under build.  Data races,
    the validity of computing (without using) a pointer outside its object, and
    alignment are outside the model. *)

(** ** Shared definitions *)

From stdpp Require Export base numbers list gmap strings.
From Stdlib Require Export ZArith Lia.

#[global] Open Scope Z_scope.

#[global] Arguments Z.eqb : simpl never.
#[global] Arguments Z.leb : simpl never.
#[global] Arguments Z.ltb : simpl never.
#[global] Arguments Z.pow : simpl never.
#[global] Arguments Z.modulo : simpl never.
#[global] Arguments Z.div : simpl never.
#[global] Arguments Z.add : simpl never.
#[global] Arguments Z.sub : simpl never.
#[global] Arguments Z.mul : simpl never.
#[global] Arguments Z.to_nat : simpl never.

(** ** Notation scope of the development *)

Declare Scope c_scope.
Delimit Scope c_scope with C.
#[global] Open Scope c_scope.

(** ** Machine integers

    Every C integer is a [Z]; the wrap-around of an unsigned type of [w] bits
    is written out where the code computes in that type. *)

Definition wrap (w x : Z) : Z := x mod 2 ^ w.
Definition u8 : Z → Z := wrap 8.
Definition u16 : Z → Z := wrap 16.
Definition u32 : Z → Z := wrap 32.
Definition u64 : Z → Z := wrap 64.

(** Two's complement reinterpretation of a value as a signed [w]-bit integer. *)
Definition sint (w x : Z) : Z :=
  let y := x mod 2 ^ w in if y <? 2 ^ (w - 1) then y else y - 2 ^ w.

Definition is_byte (b : Z) : Prop := 0 ≤ b < 256.

#[global] Instance is_byte_dec b : Decision (is_byte b).
Proof. unfold is_byte. apply _. Defined.

Definition PTRDIFF_MAX : Z := 2 ^ 63 - 1.

(** Host byte order is little-endian: a 16- or 32-bit load composes bytes from
    the lowest address up, and [ntohs]/[ntohl] swap them. *)
Definition le16 (b0 b1 : Z) : Z := b0 + 256 * b1.
Definition be16 (b0 b1 : Z) : Z := 256 * b0 + b1.
Definition le32 (b0 b1 b2 b3 : Z) : Z := b0 + 256 * (b1 + 256 * (b2 + 256 * b3)).

Definition ntohs (x : Z) : Z := 256 * (x mod 256) + (x / 256) mod 256.
Definition ntohl (x : Z) : Z :=
  let b0 := x mod 256 in
  let b1 := (x / 256) mod 256 in
  let b2 := (x / 65536) mod 256 in
  let b3 := (x / 16777216) mod 256 in
  le32 b3 b2 b1 b0.
Definition htonl : Z → Z := ntohl.

(** ** Outcomes

    A run of a C function ends with a value or with the first undefined
    behaviour it commits. *)

Inductive ub : Type :=
  | OobRead      (* read outside the object *)
  | OobWrite     (* write outside the object *)
  | NullDeref    (* access through a null pointer *)
  | Dangling     (* access to a freed object *)
  | BadFree      (* free of a pointer that is not the start of a live object *).

Inductive outcome (A : Type) : Type :=
  | Ok (a : A)
  | UB (u : ub).
Arguments Ok {A} a.
Arguments UB {A} u.

#[global] Instance ub_eq_dec : EqDecision ub.
Proof. solve_decision. Defined.

#[global] Instance outcome_ret : MRet outcome := λ A a, Ok a.
#[global] Instance outcome_bind : MBind outcome := λ A B k m,
  match m with Ok a => k a | UB u => UB u end.
#[global] Instance outcome_fmap : FMap outcome := λ A B f m,
  match m with Ok a => Ok (f a) | UB u => UB u end.

(** ** Heap

    Objects are byte lists indexed by a block number; a pointer is null or a
    block with an offset. [mfail n] says whether the [n]-th allocation fails,
    [junk n i] is the indeterminate byte [i] of the [n]-th allocation. *)

Inductive ptr : Type :=
  | Null
  | Ptr (b : nat) (o : Z).

#[global] Instance ptr_eq_dec : EqDecision ptr.
Proof. solve_decision. Defined.

Record heap : Type := mkHeap {
  blocks : gmap nat (list Z);
  nxt : nat;
  mfail : nat → bool;
  junk : nat → nat → Z
}.

Definition with_blocks (h : heap) (m : gmap nat (list Z)) : heap :=
  mkHeap m (nxt h) (mfail h) (junk h).

Definition is_null (p : ptr) : bool := match p with Null => true | _ => false end.

Definition padd (p : ptr) (n : Z) : ptr :=
  match p with Null => Null | Ptr b o => Ptr b (o + n) end.

(** The computation monad of the functions that touch memory. *)
Definition M (A : Type) : Type := heap → outcome (A * heap).

#[global] Instance M_ret : MRet M := λ A a h, Ok (a, h).
#[global] Instance M_bind : MBind M := λ A B k m h,
  match m h with Ok (a, h') => k a h' | UB u => UB u end.

Definition throw {A} (u : ub) : M A := λ _, UB u.
Definition lift {A} (o : outcome A) : M A := λ h,
  match o with Ok a => Ok (a, h) | UB u => UB u end.

(** Length and slices of byte lists with [Z] indices. *)
Definition lenZ {A} (l : list A) : Z := Z.of_nat (length l).
Definition slice {A} (o n : Z) (l : list A) : list A :=
  take (Z.to_nat n) (drop (Z.to_nat o) l).
Definition splice {A} (o : Z) (bs l : list A) : list A :=
  take (Z.to_nat o) l ++ bs ++ drop (Z.to_nat o + length bs) l.

(** The object a pointer points into. *)
Definition obj (p : ptr) : M (list Z * nat * Z) := λ h,
  match p with
  | Null => UB NullDeref
  | Ptr b o => match blocks h !! b with
               | None => UB Dangling
               | Some bs => Ok (bs, b, o, h)
               end
  end.

(** [n] consecutive bytes read from [p]. *)
Definition get_bytes (p : ptr) (n : Z) : M (list Z) := λ h,
  match obj p h with
  | UB u => UB u
  | Ok (bs, b, o, h) =>
      if (0 <=? o) && (0 <=? n) && (o + n <=? lenZ bs)
      then Ok (slice o n bs, h) else UB OobRead
  end.

(** The bytes [bs] written at [p]. *)
Definition put_bytes (p : ptr) (bs : list Z) : M unit := λ h,
  match obj p h with
  | UB u => UB u
  | Ok (old, b, o, h) =>
      if (0 <=? o) && (o + lenZ bs <=? lenZ old)
      then Ok (tt, with_blocks h (<[b := splice o bs old]> (blocks h)))
      else UB OobWrite
  end.

(** All bytes from [p] to the end of its object: what a scanning loop may
    read before it leaves the object. *)
Definition tail_bytes (p : ptr) : M (list Z) := λ h,
  match obj p h with
  | UB u => UB u
  | Ok (bs, b, o, h) =>
      if (0 <=? o) && (o <=? lenZ bs)
      then Ok (drop (Z.to_nat o) bs, h) else UB OobRead
  end.

Definition load8 (p : ptr) : M Z := λ h,
  match get_bytes p 1 h with
  | Ok ([v], h') => Ok (v, h')
  | Ok (_, _) => UB OobRead
  | UB u => UB u
  end.

Definition load16 (p : ptr) : M Z :=
  b0 ← load8 p; b1 ← load8 (padd p 1); mret (le16 b0 b1).

Definition load32 (p : ptr) : M Z :=
  b0 ← load8 p; b1 ← load8 (padd p 1);
  b2 ← load8 (padd p 2); b3 ← load8 (padd p 3);
  mret (le32 b0 b1 b2 b3).

Definition store8 (p : ptr) (v : Z) : M unit := put_bytes p [v].

(** [memcpy] and [memmove] of zero bytes touch nothing. *)
Definition memmove (dst src : ptr) (n : Z) : M unit :=
  if n =? 0 then mret tt else bs ← get_bytes src n; put_bytes dst bs.
Definition memcpy : ptr → ptr → Z → M unit := memmove.

(** glibc refuses sizes over [PTRDIFF_MAX]; [malloc 0] yields an empty object. *)
Definition malloc (n : Z) : M ptr := λ h,
  let b := nxt h in
  if (PTRDIFF_MAX <? n) || mfail h b
  then Ok (Null, mkHeap (blocks h) (S b) (mfail h) (junk h))
  else Ok (Ptr b 0, mkHeap (<[b := junk h b <$> seq 0 (Z.to_nat n)]> (blocks h))
                           (S b) (mfail h) (junk h)).

Definition free (p : ptr) : M unit := λ h,
  match p with
  | Null => Ok (tt, h)
  | Ptr b o => match blocks h !! b with
               | Some _ => if o =? 0 then Ok (tt, with_blocks h (delete b (blocks h)))
                           else UB BadFree
               | None => UB BadFree
               end
  end.

(** Every live block has been handed out. *)
Definition heap_wf (h : heap) : Prop :=
  ∀ b, is_Some (blocks h !! b) → (b < nxt h)%nat.

(** Heaps that differ only in the number of allocations made. *)
Definition same_blocks (h h' : heap) : Prop :=
  blocks h' = blocks h ∧ mfail h' = mfail h ∧ junk h' = junk h ∧ (nxt h ≤ nxt h')%nat.

(** ** Updating one field of a record

    [upd f v r] is [r] with field [f] set to [v]: the record is rebuilt from
    its eta expansion with the projection [f r] abstracted and replaced. *)

Class Eta (R : Type) := eta : R → R.
Class Upd {R E : Type} (f : R → E) := upd : E → R → R.
Arguments upd {R E} f {_} v r.

Ltac solve_upd :=
  match goal with
  | |- @Upd ?R ?E ?f =>
      let v := fresh "v" in let r := fresh "r" in
      unfold Upd; intros v r;
      let i := constr:(_ : Eta R) in
      let e := eval hnf in (i r) in
      match eval pattern (f r) in e with
      | ?g _ => let body := eval cbv beta in (g v) in exact body
      end
  end.
#[export] Hint Extern 0 (Upd _) => solve_upd : typeclass_instances.

Notation "r '<|' f ':=' v '|>'" := (upd f v r)
  (at level 1, left associativity, f constr at level 0, v constr at level 200,
   format "r '<|' f  ':='  v '|>'") : c_scope.

(** ** Automation *)

Create HintDb cmem.

(** Runs [lia] after turning boolean comparisons of the context into
    propositions and div/mod into their equations. *)
Ltac bprop :=
  repeat match goal with
  | H : (_ && _) = true |- _ => apply andb_true_iff in H as [? ?]
  | H : (_ && _) = false |- _ => apply andb_false_iff in H
  | H : (_ || _) = false |- _ => apply orb_false_iff in H as [? ?]
  | H : (_ || _) = true |- _ => apply orb_true_iff in H
  | H : negb _ = true |- _ => apply negb_true_iff in H
  | H : negb _ = false |- _ => apply negb_false_iff in H
  | H : (_ =? _) = true |- _ => apply Z.eqb_eq in H
  | H : (_ =? _) = false |- _ => apply Z.eqb_neq in H
  | H : (_ <=? _) = true |- _ => apply Z.leb_le in H
  | H : (_ <=? _) = false |- _ => apply Z.leb_gt in H
  | H : (_ <? _) = true |- _ => apply Z.ltb_lt in H
  | H : (_ <? _) = false |- _ => apply Z.ltb_ge in H
  end.
(** Splits on every integer comparison of the goal. *)
Ltac zcases :=
  repeat match goal with
  | |- context [?a <=? ?b] => destruct (Z.leb_spec a b); cbn; try lia
  | |- context [?a <? ?b] => destruct (Z.ltb_spec a b); cbn; try lia
  | |- context [?a =? ?b] => destruct (Z.eqb_spec a b); cbn; try lia
  end.
Ltac zmod := Z.div_mod_to_equations; lia.
(** Proves a decidable closed proposition by evaluating its decision. *)
Ltac vm_decide := apply (bool_decide_unpack _); vm_compute; exact I.
Ltac unfold_u := unfold u8, u16, u32, u64, wrap in *.

(** ** Lemmas on the monads *)

Section monad.
Context {A B : Type}.
Implicit Types (m : M A) (k : A → M B) (h : heap).

Lemma bind_ok m k h a h' : m h = Ok (a, h') → (m ≫= k) h = k a h'.
Proof. intros E. unfold mbind, M_bind. by rewrite E. Qed.

Lemma bind_ub m k h u : m h = UB u → (m ≫= k) h = UB u.
Proof. intros E. unfold mbind, M_bind. by rewrite E. Qed.

Lemma bind_inv m k h b h'' :
  (m ≫= k) h = Ok (b, h'') → ∃ a h', m h = Ok (a, h') ∧ k a h' = Ok (b, h'').
Proof. unfold mbind, M_bind. destruct (m h) as [[a h']|]; [eauto | done]. Qed.

Lemma lift_ok (o : outcome A) h a : o = Ok a → lift o h = Ok (a, h).
Proof. by intros ->. Qed.
End monad.

(** Opens the hypothesis that a monadic computation ended with a value. *)
Ltac minv H :=
  let a := fresh "a" in let h := fresh "h" in let E := fresh "E" in
  apply bind_inv in H as (a & h & E & H).

(** ** Lemmas on slices and splices *)

Section slices.
Context {A : Type}.
Implicit Types (l bs : list A).

Lemma lenZ_nonneg l : 0 ≤ lenZ l.
Proof. unfold lenZ. lia. Qed.

Lemma to_nat_lenZ l : Z.to_nat (lenZ l) = length l.
Proof. apply Nat2Z.id. Qed.

Lemma lenZ_app l bs : lenZ (l ++ bs) = lenZ l + lenZ bs.
Proof. unfold lenZ. rewrite length_app. lia. Qed.

Lemma lenZ_cons (x : A) l : lenZ (x :: l) = 1 + lenZ l.
Proof. unfold lenZ. cbn [length]. lia. Qed.

Lemma lenZ_slice o n l : 0 ≤ o → 0 ≤ n → o + n ≤ lenZ l → lenZ (slice o n l) = n.
Proof. unfold lenZ, slice. intros. rewrite length_take, length_drop. lia. Qed.

Lemma length_splice o bs l :
  0 ≤ o → o + lenZ bs ≤ lenZ l → length (splice o bs l) = length l.
Proof.
  unfold lenZ, splice. intros. rewrite !length_app, length_take, length_drop. lia.
Qed.

Lemma splice_all bs l : length bs = length l → splice 0 bs l = bs.
Proof.
  intros E. unfold splice. rewrite drop_ge by (cbn; lia). cbn. apply app_nil_r.
Qed.

Lemma splice_0 bs l : splice 0 bs l = bs ++ drop (length bs) l.
Proof. done. Qed.

(** Writing right after [l]. *)
Lemma splice_after o bs l r :
  o = lenZ l → splice o bs (l ++ r) = l ++ bs ++ drop (length bs) r.
Proof.
  intros ->. unfold splice. by rewrite to_nat_lenZ, take_app_length, drop_app_add.
Qed.

Lemma slice_all n l : n = lenZ l → slice 0 n l = l.
Proof.
  intros ->. unfold slice, lenZ. cbn. rewrite Nat2Z.id, drop_0. by apply firstn_all.
Qed.

Lemma slice_cat o n l : 0 ≤ o → 0 ≤ n → o + n = lenZ l → slice 0 o l ++ slice o n l = l.
Proof.
  unfold slice, lenZ. intros. rewrite drop_0.
  rewrite (take_ge (drop _ _)) by (rewrite length_drop; lia). apply take_drop.
Qed.

Lemma lookup_slice o n i l :
  0 ≤ o → (i < Z.to_nat n)%nat → slice o n l !! i = l !! (Z.to_nat o + i)%nat.
Proof. intros ? Hi. unfold slice. by rewrite lookup_take_lt, lookup_drop by lia. Qed.

Lemma slice_one o l v : 0 ≤ o → l !! Z.to_nat o = Some v → slice o 1 l = [v].
Proof.
  intros ? E. unfold slice. change (Z.to_nat 1) with 1%nat.
  by rewrite (drop_S _ _ _ E).
Qed.
End slices.

(** ** Lemmas on memory accesses *)

Section memory.
Implicit Types (h : heap) (bs : list Z).

Lemma get_bytes_ok h b o n bs :
  blocks h !! b = Some bs → 0 ≤ o → 0 ≤ n → o + n ≤ lenZ bs →
  get_bytes (Ptr b o) n h = Ok (slice o n bs, h).
Proof.
  intros E Ho Hn Hl. unfold get_bytes, obj. rewrite E.
  rewrite (proj2 (Z.leb_le 0 o)), (proj2 (Z.leb_le 0 n)), (proj2 (Z.leb_le _ _)) by done.
  done.
Qed.

Lemma get_bytes_oob h b o n bs :
  blocks h !! b = Some bs → 0 ≤ n → lenZ bs < o + n →
  get_bytes (Ptr b o) n h = UB OobRead.
Proof.
  intros E Hn Hl. unfold get_bytes, obj. rewrite E.
  by rewrite (proj2 (Z.leb_gt (o + n) (lenZ bs))), andb_false_r by done.
Qed.

Lemma put_bytes_ok h b o new bs :
  blocks h !! b = Some bs → 0 ≤ o → o + lenZ new ≤ lenZ bs →
  put_bytes (Ptr b o) new h =
    Ok (tt, with_blocks h (<[b := splice o new bs]> (blocks h))).
Proof.
  intros E Ho Hl. unfold put_bytes, obj. rewrite E.
  by rewrite (proj2 (Z.leb_le 0 o)), (proj2 (Z.leb_le _ _)) by done.
Qed.

Lemma put_bytes_oob h b o new bs :
  blocks h !! b = Some bs → lenZ bs < o + lenZ new →
  put_bytes (Ptr b o) new h = UB OobWrite.
Proof.
  intros E Hl. unfold put_bytes, obj. rewrite E.
  by rewrite (proj2 (Z.leb_gt (o + lenZ new) (lenZ bs))), andb_false_r by done.
Qed.

Lemma tail_bytes_ok h b o bs :
  blocks h !! b = Some bs → 0 ≤ o ≤ lenZ bs →
  tail_bytes (Ptr b o) h = Ok (drop (Z.to_nat o) bs, h).
Proof.
  intros E [Ho Hl]. unfold tail_bytes, obj. rewrite E.
  by rewrite (proj2 (Z.leb_le 0 o)), (proj2 (Z.leb_le _ _)) by done.
Qed.

Lemma load8_ok h b o v bs :
  blocks h !! b = Some bs → 0 ≤ o → bs !! Z.to_nat o = Some v →
  load8 (Ptr b o) h = Ok (v, h).
Proof.
  intros E Ho Ev. unfold load8.
  assert (o + 1 ≤ lenZ bs) by (apply lookup_lt_Some in Ev; unfold lenZ; lia).
  rewrite (get_bytes_ok _ _ _ _ bs) by (done || lia).
  by rewrite (slice_one _ _ v).
Qed.

Lemma load8_oob h b o bs :
  blocks h !! b = Some bs → lenZ bs ≤ o → load8 (Ptr b o) h = UB OobRead.
Proof. intros E Hl. unfold load8. by rewrite (get_bytes_oob _ _ _ _ bs) by (done || lia). Qed.

Lemma memcpy_ok h b o c s n src dst :
  blocks h !! c = Some src → blocks h !! b = Some dst →
  0 ≤ o → 0 ≤ s → 0 < n → s + n ≤ lenZ src → o + n ≤ lenZ dst →
  memcpy (Ptr b o) (Ptr c s) n h =
    Ok (tt, with_blocks h (<[b := splice o (slice s n src) dst]> (blocks h))).
Proof.
  intros. unfold memcpy, memmove. rewrite (proj2 (Z.eqb_neq n 0)) by lia.
  erewrite bind_ok by (eapply get_bytes_ok; [done|lia..]).
  apply put_bytes_ok; [done..|]. rewrite lenZ_slice; lia.
Qed.

Lemma memcpy_oob_src h b o c s n src :
  blocks h !! c = Some src → 0 < n → lenZ src < s + n →
  memcpy (Ptr b o) (Ptr c s) n h = UB OobRead.
Proof.
  intros. unfold memcpy, memmove. rewrite (proj2 (Z.eqb_neq n 0)) by lia.
  apply bind_ub. eapply get_bytes_oob; [done|lia..].
Qed.

Lemma memcpy_zero p q h : memcpy p q 0 h = Ok (tt, h).
Proof. done. Qed.
End memory.

(** ** Allocation *)

Definition alloc (h : heap) (bs : list Z) : heap :=
  mkHeap (<[nxt h := bs]> (blocks h)) (S (nxt h)) (mfail h) (junk h).
Definition skip_alloc (h : heap) : heap :=
  mkHeap (blocks h) (S (nxt h)) (mfail h) (junk h).
Definition alloc_fails (h : heap) (n : Z) : bool :=
  (PTRDIFF_MAX <? n) || mfail h (nxt h).

(** The idiom [p = malloc(n); if (p) memcpy(p, src, n);] of the sources. *)
Definition malloc_copy (src : ptr) (n : Z) : M ptr :=
  p ← malloc n;
  if is_null p then mret Null else memcpy p src n ;; mret p.

Section allocation.
Implicit Types (h : heap) (bs : list Z).

Lemma malloc_eq n h :
  malloc n h = if alloc_fails h n then Ok (Null, skip_alloc h)
               else Ok (Ptr (nxt h) 0, alloc h (junk h (nxt h) <$> seq 0 (Z.to_nat n))).
Proof. done. Qed.

Lemma malloc_copy_eq h b o n src :
  heap_wf h → blocks h !! b = Some src → 0 ≤ o → 0 ≤ n → o + n ≤ lenZ src →
  malloc_copy (Ptr b o) n h =
    if alloc_fails h n then Ok (Null, skip_alloc h)
    else Ok (Ptr (nxt h) 0, alloc h (slice o n src)).
Proof.
  intros Hwf Hb Ho Hn Hl. unfold malloc_copy. unfold mbind at 1, M_bind at 1.
  rewrite malloc_eq. destruct (alloc_fails h n) eqn:Hf; [done|]. cbn [is_null].
  assert (b ≠ nxt h) as Hne by (specialize (Hwf b ltac:(eauto)); lia).
  set (jk := junk h (nxt h) <$> _).
  assert (length jk = Z.to_nat n) as Hjk by (unfold jk; rewrite length_fmap, length_seq; done).
  destruct (decide (n = 0)) as [->|Hn0].
  - unfold mbind, M_bind. rewrite memcpy_zero. unfold mret, M_ret.
    by apply length_zero_iff_nil in Hjk as ->.
  - erewrite bind_ok.
    2: { eapply memcpy_ok with (src := src) (dst := jk);
         cbn; rewrite ?lookup_insert_ne, ?lookup_insert_eq by done; try done; unfold lenZ; lia. }
    unfold mret, M_ret, alloc, with_blocks. cbn. rewrite insert_insert_eq.
    rewrite splice_all; [done|].
    pose proof (lenZ_slice o n src). unfold lenZ in *. lia.
Qed.

Lemma malloc_copy_oob h b o n src :
  heap_wf h → blocks h !! b = Some src → 0 < n → lenZ src < o + n →
  alloc_fails h n = false → malloc_copy (Ptr b o) n h = UB OobRead.
Proof.
  intros Hwf Hb Hn Hl Hf. unfold malloc_copy. unfold mbind at 1, M_bind at 1.
  rewrite malloc_eq, Hf. cbn [is_null].
  assert (b ≠ nxt h) as Hne by (specialize (Hwf b ltac:(eauto)); lia).
  apply bind_ub, memcpy_oob_src with src; [|done..].
  cbn. by rewrite lookup_insert_ne.
Qed.

Lemma malloc_copy_fail src h n :
  alloc_fails h n = true → malloc_copy src n h = Ok (Null, skip_alloc h).
Proof.
  intros Hf. unfold malloc_copy, mbind, M_bind. by rewrite malloc_eq, Hf.
Qed.

Lemma alloc_wf h bs : heap_wf h → heap_wf (alloc h bs).
Proof.
  intros Hwf b. cbn. rewrite lookup_insert. case_decide; [lia|].
  intros ?%Hwf. lia.
Qed.

Lemma skip_alloc_wf h : heap_wf h → heap_wf (skip_alloc h).
Proof. intros Hwf b ?%Hwf. cbn. lia. Qed.

Lemma fresh_None h : heap_wf h → blocks h !! nxt h = None.
Proof.
  intros Hwf. destruct (blocks h !! nxt h) eqn:E; [|done].
  specialize (Hwf (nxt h) ltac:(eauto)). lia.
Qed.

Lemma alloc_lookup_old h bs b l :
  heap_wf h → blocks h !! b = Some l → blocks (alloc h bs) !! b = Some l.
Proof.
  intros Hwf E. cbn. rewrite lookup_insert_ne; [done|].
  specialize (Hwf b ltac:(eauto)). lia.
Qed.

Lemma alloc_lookup_new h bs : blocks (alloc h bs) !! nxt h = Some bs.
Proof. apply lookup_insert_eq. Qed.

Lemma with_blocks_id h b l :
  blocks h !! b = Some l → with_blocks h (<[b := l]> (blocks h)) = h.
Proof. intros E. unfold with_blocks. rewrite insert_id by done. by destruct h. Qed.

Lemma free_ok h b bs :
  blocks h !! b = Some bs →
  free (Ptr b 0) h = Ok (tt, with_blocks h (delete b (blocks h))).
Proof. intros E. unfold free. by rewrite E. Qed.
End allocation.

#[export] Hint Resolve alloc_wf skip_alloc_wf alloc_lookup_old alloc_lookup_new
  fresh_None : cmem.

(** A heap with the single object [bs], in which no allocation fails; for
    concrete runs. *)
Definition heap1 (bs : list Z) : heap := mkHeap {[0%nat := bs]} 1 (λ _, false) (λ _ _, 0).

Lemma heap1_wf bs : heap_wf (heap1 bs).
Proof. intros b. cbn. rewrite lookup_singleton. case_decide; [lia|]. by intros []. Qed.
#[export] Hint Resolve heap1_wf : cmem.

(** The same with two objects. *)
Definition heap2 (bs bs' : list Z) : heap :=
  mkHeap {[0%nat := bs; 1%nat := bs']} 2 (λ _, false) (λ _ _, 0).

Lemma heap2_wf bs bs' : heap_wf (heap2 bs bs').
Proof.
  intros b. cbn. rewrite lookup_insert, lookup_singleton. repeat case_decide; [lia..|]. by intros [].
Qed.
#[export] Hint Resolve heap2_wf : cmem.

Lemma heap1_insert bs bs' :
  with_blocks (heap1 bs) (<[0%nat := bs']> (blocks (heap1 bs))) = heap1 bs'.
Proof. unfold with_blocks, heap1. cbn. by rewrite insert_singleton_eq. Qed.

(** ** Reading the fields of a byte buffer *)

Definition byte_at (l : list Z) (i : Z) : Z := default 0 (l !! Z.to_nat i).

Lemma byte_at_lookup l i : 0 ≤ i < lenZ l → l !! Z.to_nat i = Some (byte_at l i).
Proof.
  intros Hi. unfold byte_at. destruct (l !! Z.to_nat i) eqn:E; [done|].
  apply lookup_ge_None in E. unfold lenZ in Hi. lia.
Qed.

Lemma byte_at_byte l i : Forall is_byte l → is_byte (byte_at l i).
Proof.
  intros Hl. unfold byte_at. destruct (l !! Z.to_nat i) eqn:E; cbn.
  - by eapply Forall_lookup_1.
  - unfold is_byte. lia.
Qed.

Section fields.
Context {h : heap} {b : nat} {d : list Z}.
Hypothesis Hd : blocks h !! b = Some d.

Lemma load8_at o : 0 ≤ o < lenZ d → load8 (Ptr b o) h = Ok (byte_at d o, h).
Proof. intros Ho. apply load8_ok with d; [done|lia|by apply byte_at_lookup]. Qed.

Lemma load16_at o :
  0 ≤ o → o + 2 ≤ lenZ d →
  load16 (Ptr b o) h = Ok (le16 (byte_at d o) (byte_at d (o + 1)), h).
Proof.
  intros. unfold load16. cbn [padd].
  do 2 erewrite bind_ok by (apply load8_at; lia). done.
Qed.

Lemma load32_at o :
  0 ≤ o → o + 4 ≤ lenZ d →
  load32 (Ptr b o) h =
    Ok (le32 (byte_at d o) (byte_at d (o + 1)) (byte_at d (o + 2)) (byte_at d (o + 3)), h).
Proof.
  intros. unfold load32. cbn [padd].
  do 4 erewrite bind_ok by (apply load8_at; lia). done.
Qed.
End fields.

Lemma ntohs_le16 a b : is_byte a → is_byte b → ntohs (le16 a b) = be16 a b.
Proof.
  unfold is_byte, ntohs, le16, be16. intros. zmod.
Qed.

(** ** Allocation whatever its outcome *)

Lemma malloc_copy_cases src n h p h' :
  malloc_copy src n h = Ok (p, h') →
  (p = Null ∧ h' = skip_alloc h) ∨
  (∃ bs, p = Ptr (nxt h) 0 ∧ h' = alloc h bs).
Proof.
  unfold malloc_copy. intros H. minv H. rewrite malloc_eq in E.
  destruct (alloc_fails h n); injection E as <- <-; cbn [is_null] in H.
  - injection H as <- <-. by left.
  - right. minv H. injection H as <- <-. unfold memcpy, memmove in E.
    destruct (n =? 0).
    + injection E as <- <-. by eexists.
    + minv E. unfold get_bytes in E0. destruct (obj src _) as [[[[? ?] ?] ?]|] eqn:Eo; [|done].
      destruct (_ && _); [|done]. injection E0 as <- <-.
      unfold obj in Eo. destruct src as [|sb so]; [done|].
      destruct (blocks _ !! sb); [|done]. injection Eo as <- <- <- <-.
      unfold put_bytes, obj in E. rewrite alloc_lookup_new in E.
      destruct (_ && _); [|done]. injection E as <- <-.
      eexists. split; [done|]. unfold with_blocks, alloc. cbn. by rewrite insert_insert_eq.
Qed.

(** No allocation fails. *)
Definition no_oom (h : heap) : Prop := ∀ n, mfail h n = false.

Lemma no_oom_alloc h bs : no_oom h → no_oom (alloc h bs).
Proof. done. Qed.
Lemma no_oom_skip h : no_oom h → no_oom (skip_alloc h).
Proof. done. Qed.

Lemma alloc_fails_no_oom h n : no_oom h → n ≤ PTRDIFF_MAX → alloc_fails h n = false.
Proof. intros Hn Hl. unfold alloc_fails. rewrite Hn, (proj2 (Z.ltb_ge _ _)) by done. done. Qed.

#[export] Hint Resolve no_oom_alloc no_oom_skip : cmem.

(** ** Computations that only read memory *)

Class ReadOnly {A} (m : M A) : Prop :=
  read_only : ∀ h a h', m h = Ok (a, h') → h' = h.

#[export] Instance ret_read_only {A} (a : A) : ReadOnly (mret a).
Proof. intros h x h' [= _ <-]. done. Qed.

#[export] Instance throw_read_only {A} u : ReadOnly (throw (A := A) u).
Proof. done. Qed.

#[export] Instance lift_read_only {A} (o : outcome A) : ReadOnly (lift o).
Proof. intros h x h'. unfold lift. destruct o; [|done]. by intros [= _ <-]. Qed.

#[export] Instance bind_read_only {A B} (m : M A) (k : A → M B) :
  ReadOnly m → (∀ a, ReadOnly (k a)) → ReadOnly (m ≫= k).
Proof.
  intros Hm Hk h b h' H. minv H. apply Hm in E as ->. by apply Hk in H.
Qed.

#[export] Instance if_read_only {A} (c : bool) (m1 m2 : M A) :
  ReadOnly m1 → ReadOnly m2 → ReadOnly (if c then m1 else m2).
Proof. by destruct c. Qed.

#[export] Instance obj_read_only p : ReadOnly (obj p).
Proof.
  intros h a h'. unfold obj. destruct p; [done|]. destruct (_ !! _); [|done].
  by intros [= _ <-].
Qed.

#[export] Instance get_bytes_read_only p n : ReadOnly (get_bytes p n).
Proof.
  intros h a h'. unfold get_bytes.
  destruct (obj p h) as [[[[bs b] o] h1]|] eqn:E; [|done]. apply read_only in E as ->.
  destruct (_ && _); [|done]. by intros [= _ <-].
Qed.

#[export] Instance tail_bytes_read_only p : ReadOnly (tail_bytes p).
Proof.
  intros h a h'. unfold tail_bytes.
  destruct (obj p h) as [[[[bs b] o] h1]|] eqn:E; [|done]. apply read_only in E as ->.
  destruct (_ && _); [|done]. by intros [= _ <-].
Qed.

#[export] Instance load8_read_only p : ReadOnly (load8 p).
Proof.
  intros h a h'. unfold load8.
  destruct (get_bytes p 1 h) as [[l h1]|] eqn:E; [|done]. apply read_only in E as ->.
  destruct l as [|v [|]]; try done. by intros [= _ <-].
Qed.

#[export] Instance load16_read_only p : ReadOnly (load16 p).
Proof. unfold load16. apply _. Qed.

#[export] Instance load32_read_only p : ReadOnly (load32 p).
Proof. unfold load32. apply _. Qed.

(** Opens a run of [m ≫= k] whose first step only reads. *)
Ltac mread H :=
  let a := fresh "v" in let h := fresh "h" in let E := fresh "E" in
  apply bind_inv in H as (a & h & E & H); pose proof (read_only _ _ _ E); subst h.

(** ** Writes stay in the object of the pointer they go through *)

Lemma put_bytes_inv b o bs h u h' :
  put_bytes (Ptr b o) bs h = Ok (u, h') →
  ∃ l, is_Some (blocks h !! b) ∧ h' = with_blocks h (<[b := l]> (blocks h)).
Proof.
  unfold put_bytes, obj. destruct (blocks h !! b) eqn:E; [|done].
  destruct (_ && _); [|done]. intros [= _ <-]. eauto.
Qed.

Lemma memcpy_inv b o src n h u h' :
  memcpy (Ptr b o) src n h = Ok (u, h') →
  h' = h ∨ ∃ l, is_Some (blocks h !! b) ∧ h' = with_blocks h (<[b := l]> (blocks h)).
Proof.
  unfold memcpy, memmove. destruct (n =? 0); [intros [= _ <-]; by left|].
  intros H. mread H. apply put_bytes_inv in H. eauto.
Qed.

Lemma memcpy_alloc_inv h l o src n u h' :
  memcpy (Ptr (nxt h) o) src n (alloc h l) = Ok (u, h') → ∃ l', h' = alloc h l'.
Proof.
  intros [->|(l' & _ & ->)]%memcpy_inv; [eauto|]. exists l'.
  unfold with_blocks, alloc. cbn. by rewrite insert_insert_eq.
Qed.

Lemma put_bytes_alloc_inv h l o bs u h' :
  put_bytes (Ptr (nxt h) o) bs (alloc h l) = Ok (u, h') → ∃ l', h' = alloc h l'.
Proof.
  intros (l' & _ & ->)%put_bytes_inv. exists l'.
  unfold with_blocks, alloc. cbn. by rewrite insert_insert_eq.
Qed.

Lemma free_alloc h l : heap_wf h → free (Ptr (nxt h) 0) (alloc h l) = Ok (tt, skip_alloc h).
Proof.
  intros Hwf. erewrite free_ok by apply alloc_lookup_new.
  unfold with_blocks, alloc, skip_alloc. cbn. by rewrite delete_insert_id by by apply fresh_None.
Qed.

(** ** Properties of the heap that computations keep *)

Class Keeps {A} (I : heap → Prop) (m : M A) : Prop :=
  keeps_inv : ∀ h a h', I h → m h = Ok (a, h') → I h'.

(** A property that the three operations that change the heap keep is kept by
    everything made of them. *)
Class HeapInv (I : heap → Prop) : Prop := {
  inv_put_bytes q bs :: Keeps I (put_bytes q bs);
  inv_malloc n :: Keeps I (malloc n);
  inv_free q :: Keeps I (free q)
}.

#[export] Instance read_only_keeps {A} I (m : M A) : ReadOnly m → Keeps I m | 10.
Proof. intros Hm h a h' Hi H. by rewrite (Hm _ _ _ H). Qed.

#[export] Instance bind_keeps {A B} I (m : M A) (k : A → M B) :
  Keeps I m → (∀ a, Keeps I (k a)) → Keeps I (m ≫= k) | 5.
Proof. intros Hm Hk h b h' Hi H. minv H. eapply Hk, H. by eapply Hm. Qed.

#[export] Instance memmove_keeps I q src n : HeapInv I → Keeps I (memmove q src n).
Proof. intros Hi. unfold memmove. destruct (n =? 0); apply _. Qed.

#[export] Instance heap_wf_inv : HeapInv heap_wf.
Proof.
  split.
  - intros q bs h u h' Hwf. destruct q as [|b o]; [done|]. intros (l & Hb & ->)%put_bytes_inv.
    intros c. cbn. rewrite lookup_insert. case_decide; [subst; eauto|apply Hwf].
  - intros n h q h' Hwf. rewrite malloc_eq. destruct (alloc_fails h n); intros [= _ <-];
      [by apply skip_alloc_wf|by apply alloc_wf].
  - intros q h u h' Hwf. unfold free. destruct q as [|b o]; [by intros [= _ <-]|].
    destruct (_ !! _); [|done]. destruct (o =? 0); [|done]. intros [= _ <-] c. cbn.
    rewrite lookup_delete. case_decide; [by intros [? ?]|apply Hwf].
Qed.

#[export] Instance no_oom_inv : HeapInv no_oom.
Proof.
  split.
  - intros q bs h u h' Hn. destruct q as [|b o]; [done|]. by intros (l & Hb & ->)%put_bytes_inv.
  - intros n h q h' Hn. rewrite malloc_eq. destruct (alloc_fails h n); intros [= _ <-]; auto with cmem.
  - intros q h u h' Hn. unfold free. destruct q as [|b o]; [by intros [= _ <-]|].
    destruct (_ !! _); [|done]. destruct (o =? 0); [|done]. by intros [= _ <-].
Qed.

(** Decomposes a computation, cases included, down to the instances. *)
Ltac keeps :=
  repeat first
    [ apply _
    | apply bind_keeps
    | progress intros
    | match goal with |- Keeps _ (match ?x with _ => _ end) => destruct x end ].
