(* ===== verification/CString.v ===== *)
(** * The part of the C string library the sources use

    A read-only string argument is the list of bytes of its object from the
    pointer on ([None] is a null pointer); a loop that would read past the last
    byte of that list commits [OobRead].  Characters are taken in the "C"
    locale, the locale of a program that never calls [setlocale]. *)

From S2P Require Import Prelude.

(** ** Characters *)

Definition tolower (c : Z) : Z := if (65 <=? c) && (c <=? 90) then c + 32 else c.
Definition toupper (c : Z) : Z := if (97 <=? c) && (c <=? 122) then c - 32 else c.
Definition isspace (c : Z) : bool := (c =? 32) || ((9 <=? c) && (c <=? 13)).
Definition isdigit (c : Z) : bool := (48 <=? c) && (c <=? 57).

Definition lower (s : list Z) : list Z := tolower <$> s.

(** The characters of a literal, and the literal as a C object. *)
Definition chars (s : string) : list Z :=
  (λ c, Z.of_nat (Ascii.nat_of_ascii c)) <$> String.list_ascii_of_string s.
Definition lit (s : string) : list Z := chars s ++ [0].

(** ** Strings *)

(** The characters before the terminator. *)
Fixpoint cstr (l : list Z) : outcome (list Z) :=
  match l with
  | [] => UB OobRead
  | c :: l => if c =? 0 then Ok [] else (c ::.) <$> cstr l
  end.

Definition strlen_list (l : list Z) : outcome Z := lenZ <$> cstr l.

Definition strlen (p : ptr) : M Z := l ← tail_bytes p; lift (strlen_list l).

(** Comparison of at most [n] characters, as unsigned chars. *)
Fixpoint strncmp (n : nat) (l1 l2 : list Z) : outcome Z :=
  match n with
  | O => Ok 0
  | S n =>
      match l1, l2 with
      | a :: l1, b :: l2 =>
          if a =? b then if a =? 0 then Ok 0 else strncmp n l1 l2 else Ok (a - b)
      | _, _ => UB OobRead
      end
  end.

Fixpoint strcmp (l1 l2 : list Z) : outcome Z :=
  match l1, l2 with
  | a :: l1, b :: l2 =>
      if a =? b then if a =? 0 then Ok 0 else strcmp l1 l2 else Ok (a - b)
  | _, _ => UB OobRead
  end.

Fixpoint prefixb (p s : list Z) : bool :=
  match p, s with
  | [], _ => true
  | a :: p, b :: s => (a =? b) && prefixb p s
  | _, _ => false
  end.

(** Offset of the first occurrence of [nd] in the characters [s]. *)
Fixpoint find_sub (nd s : list Z) : option nat :=
  if prefixb nd s then Some 0%nat
  else match s with [] => None | _ :: s => S <$> find_sub nd s end.

(** [strstr] takes two strings: both must be terminated. *)
Definition strstr (l nd : list Z) : outcome (option nat) :=
  s ← cstr l; n ← cstr nd; mret (find_sub n s).

Fixpoint strchr (l : list Z) (c : Z) : outcome (option nat) :=
  match l with
  | [] => UB OobRead
  | a :: l => if a =? c then Ok (Some 0%nat)
              else if a =? 0 then Ok None else option_map S <$> strchr l c
  end.

(** The [n] bytes [strncpy] writes: the source up to its terminator, then zeros. *)
Fixpoint strncpy_bytes (n : nat) (l : list Z) : outcome (list Z) :=
  match n with
  | O => Ok []
  | S n => match l with
           | [] => UB OobRead
           | c :: l => if c =? 0 then Ok (replicate (S n) 0) else (c ::.) <$> strncpy_bytes n l
           end
  end.

Definition strncpy (dst : ptr) (src : list Z) (n : Z) : M unit :=
  bs ← lift (strncpy_bytes (Z.to_nat n) src);
  if n =? 0 then mret tt else put_bytes dst bs.

(** ** Numbers *)

Definition LONG_MAX : Z := 2 ^ 63 - 1.
Definition LONG_MIN : Z := - 2 ^ 63.

Fixpoint skip_spaces (s : list Z) : list Z :=
  match s with c :: s' => if isspace c then skip_spaces s' else s | [] => [] end.

Fixpoint digits (acc : Z) (s : list Z) : Z * list Z :=
  match s with
  | c :: s' => if isdigit c then digits (10 * acc + (c - 48)) s' else (acc, s)
  | [] => (acc, [])
  end.

(** [strtol(s, &endptr, 10)]: the value, what [endptr] points to and whether
    [errno] is set.  With no digits the whole input is left. *)
Definition strtol (s : list Z) : Z * list Z * bool :=
  let t := skip_spaces s in
  let '(neg, t) := match t with
                   | c :: t' => if c =? 45 then (true, t') else if c =? 43 then (false, t') else (false, t)
                   | [] => (false, t)
                   end in
  match t with
  | c :: _ =>
      if isdigit c then
        let '(v, r) := digits 0 t in
        let v := if neg : bool then - v else v in
        if LONG_MAX <? v then (LONG_MAX, r, true)
        else if v <? LONG_MIN then (LONG_MIN, r, true)
        else (v, r, false)
      else (0, s, false)
  | [] => (0, s, false)
  end.

(** glibc's [atoi] truncates [strtol]'s result to [int]. *)
Definition atoi (s : list Z) : Z := let '(v, _, _) := strtol s in sint 32 v.

(** ** Lemmas *)

Definition no_nul (s : list Z) : Prop := 0 ∉ s.

#[export] Instance no_nul_dec s : Decision (no_nul s).
Proof. unfold no_nul. apply _. Defined.

Lemma no_nul_cons c s : no_nul (c :: s) ↔ c ≠ 0 ∧ no_nul s.
Proof. unfold no_nul. rewrite not_elem_of_cons. split; intros []; auto. Qed.

Lemma no_nul_app s t : no_nul (s ++ t) ↔ no_nul s ∧ no_nul t.
Proof. unfold no_nul. rewrite elem_of_app. tauto. Qed.

Lemma no_nul_drop n s : no_nul s → no_nul (drop n s).
Proof. unfold no_nul. intros H. contradict H. eapply subseteq_drop; eauto. Qed.

Lemma no_nul_take n s : no_nul s → no_nul (take n s).
Proof. unfold no_nul. intros H. contradict H. eapply subseteq_take; eauto. Qed.

Lemma cstr_ok s rest : no_nul s → cstr (s ++ 0 :: rest) = Ok s.
Proof.
  induction s as [|c s IH]; [done|]. intros [Hc Hs]%no_nul_cons. cbn.
  rewrite (proj2 (Z.eqb_neq c 0)) by done. by rewrite IH.
Qed.

Lemma cstr_oob s : no_nul s → cstr s = UB OobRead.
Proof.
  induction s as [|c s IH]; [done|]. intros [Hc Hs]%no_nul_cons. cbn.
  rewrite (proj2 (Z.eqb_neq c 0)) by done. by rewrite IH.
Qed.

Lemma cstr_inv l s : cstr l = Ok s → no_nul s ∧ ∃ rest, l = s ++ 0 :: rest.
Proof.
  revert s. induction l as [|c l IH]; intros s; [done|]. cbn.
  destruct (Z.eqb_spec c 0) as [->|Hc].
  - intros [= <-]. split; [apply not_elem_of_nil|]. by exists l.
  - destruct (cstr l) as [t|] eqn:E; [|done]. intros [= <-].
    destruct (IH t eq_refl) as [Ht [rest ->]]. split; [by apply no_nul_cons|]. by exists rest.
Qed.

Lemma prefixb_spec p s : prefixb p s = true ↔ p `prefix_of` s.
Proof.
  revert s. induction p as [|a p IH]; intros s; cbn.
  - split; [intros; apply prefix_nil|done].
  - destruct s as [|b s]; [split; [done|intros H; by apply prefix_nil_not in H]|].
    rewrite andb_true_iff, Z.eqb_eq, IH. split.
    + intros [-> H]. by apply prefix_cons.
    + intros H. split; [by apply prefix_cons_inv_1 in H|by apply prefix_cons_inv_2 in H].
Qed.

Lemma find_sub_Some nd s i :
  find_sub nd s = Some i →
  nd `prefix_of` drop i s ∧ ∀ j, (j < i)%nat → ¬ nd `prefix_of` drop j s.
Proof.
  revert i. induction s as [|c s IH]; intros i; cbn [find_sub].
  - destruct (prefixb nd []) eqn:E; [|done]. intros [= <-]. rewrite drop_0.
    split; [by apply prefixb_spec|lia].
  - destruct (prefixb nd (c :: s)) eqn:E.
    + intros [= <-]. rewrite drop_0. split; [by apply prefixb_spec|lia].
    + destruct (find_sub nd s) as [k|]; [|done]. intros [= <-].
      destruct (IH k eq_refl) as [H1 H2]. split; [done|]. intros [|j] Hj.
      * rewrite drop_0, <- prefixb_spec, E. done.
      * cbn. apply H2. lia.
Qed.

Lemma find_sub_None nd s : find_sub nd s = None → ∀ j, (j ≤ length s)%nat → ¬ nd `prefix_of` drop j s.
Proof.
  induction s as [|c s IH]; cbn [find_sub].
  - destruct (prefixb nd []) eqn:E; [done|]. intros _ j _ H.
    rewrite drop_nil in H. apply prefixb_spec in H. congruence.
  - destruct (prefixb nd (c :: s)) eqn:E; [done|].
    destruct (find_sub nd s) as [k|]; [done|]. intros _ [|j] Hj.
    + rewrite drop_0, <- prefixb_spec, E. done.
    + cbn. apply IH; [done|cbn in Hj; lia].
Qed.

Lemma strcmp_eq s t r1 r2 :
  no_nul s → no_nul t → ∃ v, strcmp (s ++ 0 :: r1) (t ++ 0 :: r2) = Ok v ∧ (v = 0 ↔ s = t).
Proof.
  revert t. induction s as [|a s IH]; intros [|b t]; cbn.
  - by exists 0.
  - intros _ [Hb _]%no_nul_cons. rewrite (proj2 (Z.eqb_neq 0 b)) by done.
    eexists; split; [done|]. split; [lia|done].
  - intros [Ha _]%no_nul_cons _. rewrite (proj2 (Z.eqb_neq a 0)) by done.
    eexists; split; [done|]. split; [lia|done].
  - intros [Ha Hs]%no_nul_cons [Hb Ht]%no_nul_cons.
    destruct (Z.eqb_spec a b) as [->|Hab].
    + rewrite (proj2 (Z.eqb_neq b 0)) by done.
      destruct (IH t Hs Ht) as (v & E & Hv). exists v. split; [done|]. rewrite Hv. split; [by intros ->|by intros [=]].
    + eexists; split; [done|]. split; [lia|by intros [=]].
Qed.

Lemma strncpy_bytes_ok n s rest :
  no_nul s →
  strncpy_bytes n (s ++ 0 :: rest) = Ok (take n s ++ replicate (n - length s) 0).
Proof.
  revert n. induction s as [|c s IH]; intros [|n] Hs; cbn; [done..|].
  apply no_nul_cons in Hs as [Hc Hs]. rewrite (proj2 (Z.eqb_neq c 0)) by done.
  by rewrite IH.
Qed.

(** The bytes [strncpy] leaves in a buffer [old]. *)
Definition strncpy_into (n : nat) (s old : list Z) : list Z :=
  take n s ++ replicate (n - length s) 0 ++ drop n old.

Lemma length_strncpy_into n s old :
  (n ≤ length old)%nat → length (strncpy_into n s old) = length old.
Proof.
  intros. unfold strncpy_into.
  rewrite !length_app, length_take, length_replicate, length_drop. lia.
Qed.

Lemma strncpy_ok h b old s rest n :
  blocks h !! b = Some old → no_nul s → 0 ≤ n ≤ lenZ old →
  strncpy (Ptr b 0) (s ++ 0 :: rest) n h =
    Ok (tt, with_blocks h (<[b := strncpy_into (Z.to_nat n) s old]> (blocks h))).
Proof.
  intros Hb Hs [Hn0 Hn]. unfold lenZ in Hn. unfold strncpy.
  erewrite bind_ok by (by apply lift_ok, strncpy_bytes_ok).
  destruct (Z.eqb_spec n 0) as [->|E].
  - unfold strncpy_into. cbn. change (Z.to_nat 0) with 0%nat. rewrite take_0, drop_0. cbn.
    by rewrite with_blocks_id.
  - assert (length (take (Z.to_nat n) s ++ replicate (Z.to_nat n - length s) 0) = Z.to_nat n)
      as Hc by (rewrite length_app, length_take, length_replicate; lia).
    erewrite put_bytes_ok; [|done|lia|unfold lenZ; lia].
    unfold splice, strncpy_into. cbn. change (Z.to_nat 0) with 0%nat.
    by rewrite take_0, Nat.add_0_l, Hc, <- app_assoc.
Qed.

Lemma tolower_idem c : tolower (tolower c) = tolower c.
Proof.
  unfold tolower. destruct ((65 <=? c) && (c <=? 90)) eqn:E; [|by rewrite E].
  bprop. by rewrite (proj2 (Z.leb_gt (c + 32) 90)), andb_false_r by lia.
Qed.

Lemma tolower_toupper c : tolower (toupper c) = tolower c.
Proof.
  unfold tolower, toupper. destruct ((97 <=? c) && (c <=? 122)) eqn:E; [|done]. bprop.
  rewrite (proj2 (Z.leb_le 65 (c - 32))), (proj2 (Z.leb_le (c - 32) 90)) by lia.
  rewrite (proj2 (Z.leb_gt c 90)), andb_false_r by lia. cbn. lia.
Qed.

Lemma tolower_byte c : is_byte c → is_byte (tolower c).
Proof. unfold is_byte, tolower. intros. destruct (_ && _) eqn:E; bprop; lia. Qed.

Lemma toupper_byte c : is_byte c → is_byte (toupper c).
Proof. unfold is_byte, toupper. intros. destruct (_ && _) eqn:E; bprop; lia. Qed.

Lemma tolower_nul c : tolower c = 0 ↔ c = 0.
Proof. unfold tolower. destruct (_ && _) eqn:E; bprop; lia. Qed.

Lemma toupper_nul c : toupper c = 0 ↔ c = 0.
Proof. unfold toupper. destruct (_ && _) eqn:E; bprop; lia. Qed.

#[export] Hint Resolve tolower_byte toupper_byte no_nul_drop no_nul_take : cmem.
