(* ===== verification/StringUtils.v ===== *)
(** * src/utils/string_utils.c

    Functions that write through their argument run on the heap; functions that
    only read take their arguments as byte lists (see CString).  A loop over a
    string is a recursion over the bytes from the pointer to the end of its
    object, so leaving the object is [OobRead]. *)

From S2P Require Import Prelude CString.

(** [for (i = 0; str[i]; i++) str[i] = f(str[i])] *)
Fixpoint map_str (f : Z → Z) (l : list Z) : outcome (list Z) :=
  match l with
  | [] => UB OobRead
  | c :: l => if c =? 0 then Ok (c :: l) else (f c ::.) <$> map_str f l
  end.

(** Rewrites the object of [p] from [p] on. *)
Definition rewrite_tail (p : ptr) (f : list Z → outcome (list Z)) : M unit :=
  l ← tail_bytes p; l' ← lift (f l); put_bytes p l'.

Definition string_to_lower (str : ptr) : M unit :=
  if is_null str then mret tt else rewrite_tail str (map_str tolower).

Definition string_to_upper (str : ptr) : M unit :=
  if is_null str then mret tt else rewrite_tail str (map_str toupper).

(** [for (i = 0; i < len && str[i]; i++)] with the case chosen by [up i]; [n]
    is [len - i]. *)
Fixpoint case_loop (up : Z → bool) (n : nat) (i : Z) (l : list Z) : outcome (list Z) :=
  match n with
  | O => Ok l
  | S n =>
      match l with
      | [] => UB OobRead
      | c :: l' =>
          if c =? 0 then Ok l
          else ((if up i then toupper c else tolower c) ::.) <$> case_loop up n (i + 1) l'
      end
  end.

Definition mix_case (str : ptr) (len : Z) : M unit :=
  if is_null str || (len =? 0) then mret tt
  else rewrite_tail str (case_loop (λ i, negb (i mod 2 =? 0)) (Z.to_nat len) 0).

(** [rnd i] is the value of the [i]-th call to [rand()]. *)
Definition mix_case_random (rnd : Z → Z) (str : ptr) (len : Z) : M unit :=
  if is_null str || (len =? 0) then mret tt
  else rewrite_tail str (case_loop (λ i, negb (rnd i mod 2 =? 0)) (Z.to_nat len) 0).

Fixpoint whitespace_loop (l : list Z) : outcome bool :=
  match l with
  | [] => UB OobRead
  | c :: l => if c =? 0 then Ok true
              else if isspace c then whitespace_loop l else Ok false
  end.

Definition is_whitespace (str : option (list Z)) : outcome bool :=
  match str with None => Ok true | Some l => whitespace_loop l end.

(** How far [trim_left] advances. *)
Fixpoint trim_left_loop (l : list Z) : outcome Z :=
  match l with
  | [] => UB OobRead
  | c :: l => if isspace c then Z.succ <$> trim_left_loop l else Ok 0
  end.

Definition trim_left (str : ptr) : M ptr :=
  if is_null str then mret Null
  else l ← tail_bytes str; n ← lift (trim_left_loop l); mret (padd str n).

(** [end] is [str + n - 1]; the loop stops when [end < str]. *)
Fixpoint trim_right_loop (n : nat) (l : list Z) : list Z :=
  match n with
  | O => l
  | S k => match l !! k with
           | Some c => if isspace c then trim_right_loop k (<[k := 0]> l) else l
           | None => l
           end
  end.

Definition trim_right_list (l : list Z) : outcome (list Z) :=
  n ← strlen_list l; mret (trim_right_loop (Z.to_nat n) l).

Definition trim_right (str : ptr) : M ptr :=
  if is_null str then mret Null
  else rewrite_tail str trim_right_list ;; mret str.

Definition trim (str : ptr) : M ptr :=
  if is_null str then mret Null else p ← trim_right str; trim_left p.

Definition safe_string_copy (dest : ptr) (src : option (list Z)) (dest_size : Z) : M unit :=
  match src with
  | None => mret tt
  | Some src =>
      if is_null dest || (dest_size =? 0) then mret tt
      else strncpy dest src (dest_size - 1) ;; store8 (padd dest (dest_size - 1)) 0
  end.

Definition ends_with (str suffix : option (list Z)) : outcome bool :=
  match str, suffix with
  | Some str, Some suffix =>
      str_len ← strlen_list str;
      suffix_len ← strlen_list suffix;
      if str_len <? suffix_len then Ok false
      else v ← strcmp (drop (Z.to_nat (str_len - suffix_len)) str) suffix;
           mret (v =? 0)
  | _, _ => Ok false
  end.

Definition starts_with (str prefix : option (list Z)) : outcome bool :=
  match str, prefix with
  | Some str, Some prefix =>
      prefix_len ← strlen_list prefix;
      str_len ← strlen_list str;
      if str_len <? prefix_len then Ok false
      else v ← strncmp (Z.to_nat prefix_len) str prefix; mret (v =? 0)
  | _, _ => Ok false
  end.

(** The inner loop of [stristr] and the test of [*n] after it: [*h] is read
    before [*n]. *)
Fixpoint stristr_match (h n : list Z) : outcome bool :=
  match h with
  | [] => UB OobRead
  | a :: h' =>
      match n with
      | [] => UB OobRead
      | b :: n' =>
          if a =? 0 then Ok (b =? 0)
          else if b =? 0 then Ok true
          else if tolower a =? tolower b then stristr_match h' n'
          else Ok false
      end
  end.

(** The outer loop; the result is the offset of the match. *)
Fixpoint stristr_loop (n0 : Z) (needle : list Z) (h : list Z) : outcome (option nat) :=
  match h with
  | [] => UB OobRead
  | c :: h' =>
      if c =? 0 then Ok None
      else if tolower c =? tolower n0 then
        m ← stristr_match h needle;
        if m : bool then Ok (Some 0%nat) else option_map S <$> stristr_loop n0 needle h'
      else option_map S <$> stristr_loop n0 needle h'
  end.

Definition stristr_list (h needle : list Z) : outcome (option nat) :=
  match needle with
  | [] => UB OobRead
  | n0 :: _ => if n0 =? 0 then Ok (Some 0%nat) else stristr_loop n0 needle h
  end.

Definition stristr (haystack : ptr) (needle : option (list Z)) : M ptr :=
  match needle with
  | None => mret Null
  | Some needle =>
      if is_null haystack then mret Null
      else l ← tail_bytes haystack;
           r ← lift (stristr_list l needle);
           mret (match r with Some i => padd haystack (Z.of_nat i) | None => Null end)
  end.

(** [while ((pos = strstr(pos, find)) != NULL) { count++; pos += find_len; }]:
    every round moves past at least one character, so the length of the string
    bounds the number of rounds. *)
Fixpoint count_loop (fuel : nat) (s find : list Z) (count : Z) : Z :=
  match fuel with
  | O => count
  | S fuel =>
      match find_sub find s with
      | None => count
      | Some i => count_loop fuel (drop (i + length find) s) find (count + 1)
      end
  end.

Definition string_count_occurrences (str find : option (list Z)) : outcome Z :=
  match str, find with
  | Some str, Some find =>
      f ← cstr find;
      if lenZ f =? 0 then Ok 0
      else s ← cstr str; mret (count_loop (S (length s)) s f 0)
  | _, _ => Ok 0
  end.

(** The fuel of [string_count_occurrences] is enough: more changes nothing. *)
Lemma count_loop_fuel n m s f c :
  f ≠ [] → (length s < n)%nat → (length s < m)%nat → count_loop n s f c = count_loop m s f c.
Proof.
  intros Hf. revert m s c. induction n as [|n IH]; intros [|m] s c Hn Hm; try lia. cbn.
  destruct (find_sub f s) as [i|] eqn:E; [|done].
  apply find_sub_Some in E as [[t Ht] _]. apply (f_equal length) in Ht.
  rewrite length_drop, length_app in Ht. destruct f as [|x f]; [done|]. cbn in *.
  apply IH; rewrite length_drop; lia.
Qed.

(** ** Case changes *)

(** The characters [s] with the case at position [k] chosen by [up (i + k)]. *)
Fixpoint recase (up : Z → bool) (i : Z) (s : list Z) : list Z :=
  match s with
  | [] => []
  | c :: s => (if up i then toupper c else tolower c) :: recase up (i + 1) s
  end.

Lemma length_recase up i s : length (recase up i s) = length s.
Proof. revert i. induction s as [|c s IH]; intros i; cbn; [done|]. by rewrite IH. Qed.

Lemma recase_lookup up i s k :
  recase up i s !! k = (λ c, if up (i + Z.of_nat k) then toupper c else tolower c) <$> s !! k.
Proof.
  revert i k. induction s as [|c s IH]; intros i [|k]; cbn; [done..| |].
  - by rewrite Z.add_0_r.
  - rewrite IH. by replace (i + 1 + Z.of_nat k) with (i + Z.of_nat (S k)) by lia.
Qed.

Lemma lower_recase up i s : lower (recase up i s) = lower s.
Proof.
  revert i. induction s as [|c s IH]; intros i; cbn; [done|]. f_equal; [|apply IH].
  destruct (up i); [apply tolower_toupper|apply tolower_idem].
Qed.

Lemma recase_byte up i s : Forall is_byte s → Forall is_byte (recase up i s).
Proof.
  intros H. revert i. induction H as [|c s Hc Hs IH]; intros i; cbn; constructor; [|done].
  destruct (up i); auto with cmem.
Qed.

Lemma recase_no_nul up i s : no_nul s → no_nul (recase up i s).
Proof.
  revert i. induction s as [|c s IH]; intros i; [done|]. cbn.
  rewrite !no_nul_cons. intros [Hc Hs]. split; [|by apply IH].
  destruct (up i); [by rewrite toupper_nul|by rewrite tolower_nul].
Qed.

Lemma case_loop_ok up s rest i :
  no_nul s → case_loop up (length s) i (s ++ rest) = Ok (recase up i s ++ rest).
Proof.
  revert i. induction s as [|c s IH]; intros i; [done|].
  intros [Hc Hs]%no_nul_cons. cbn. rewrite (proj2 (Z.eqb_neq c 0)) by done.
  by rewrite IH.
Qed.

Lemma case_loop_length up n i l l' :
  case_loop up n i l = Ok l' → length l' = length l ∧ lower l' = lower l.
Proof.
  revert n i l'. induction l as [|c l IH]; intros [|n] i l'; cbn; try done; try by intros [= <-].
  destruct (c =? 0); [by intros [= <-]|].
  destruct (case_loop up n (i + 1) l) as [t|] eqn:E; [|done]. intros [= <-].
  destruct (IH _ _ _ E) as [H1 H2]. cbn. rewrite H1. split; [done|].
  unfold lower in *. cbn. rewrite H2. f_equal.
  destruct (up i); [apply tolower_toupper|apply tolower_idem].
Qed.

Lemma rewrite_tail_ok h b o bs f l' :
  blocks h !! b = Some bs → 0 ≤ o ≤ lenZ bs →
  f (drop (Z.to_nat o) bs) = Ok l' → length l' = (length bs - Z.to_nat o)%nat →
  rewrite_tail (Ptr b o) f h =
    Ok (tt, with_blocks h (<[b := take (Z.to_nat o) bs ++ l']> (blocks h))).
Proof.
  intros Hb Ho Hf Hl. unfold rewrite_tail.
  erewrite bind_ok by (by apply tail_bytes_ok).
  erewrite bind_ok by (by apply lift_ok).
  erewrite put_bytes_ok; [|done|lia|unfold lenZ in *; lia].
  unfold splice. rewrite drop_ge by lia. by rewrite app_nil_r.
Qed.

Lemma rewrite_tail_ub h b o bs f u :
  blocks h !! b = Some bs → 0 ≤ o ≤ lenZ bs →
  f (drop (Z.to_nat o) bs) = UB u → rewrite_tail (Ptr b o) f h = UB u.
Proof.
  intros Hb Ho Hf. unfold rewrite_tail.
  erewrite bind_ok by (by apply tail_bytes_ok). apply bind_ub. unfold lift. by rewrite Hf.
Qed.

(** Of an object [pre ++ s ++ rest] with [s] free of NULs, [mix_case] at [s]
    with its length changes exactly [s], to alternating lower and upper case. *)
Lemma mix_case_ok h b pre s rest :
  blocks h !! b = Some (pre ++ s ++ rest) → no_nul s → s ≠ [] →
  mix_case (Ptr b (lenZ pre)) (lenZ s) h =
    Ok (tt, with_blocks h
         (<[b := pre ++ recase (λ i, negb (i mod 2 =? 0)) 0 s ++ rest]> (blocks h))).
Proof.
  intros Hb Hs Hne. unfold mix_case. cbn [is_null].
  rewrite (proj2 (Z.eqb_neq (lenZ s) 0)) by (destruct s; [done|rewrite lenZ_cons; pose proof (lenZ_nonneg s); lia]).
  cbn [orb].
  pose proof (to_nat_lenZ pre) as Hp.
  erewrite rewrite_tail_ok; [|exact Hb| |rewrite Hp, drop_app_length|].
  - rewrite Hp, take_app_length. reflexivity.
  - rewrite !lenZ_app. pose proof (lenZ_nonneg pre). pose proof (lenZ_nonneg s).
    pose proof (lenZ_nonneg rest). lia.
  - unfold lenZ. rewrite Nat2Z.id. by apply case_loop_ok.
  - rewrite Hp, !length_app, length_recase. lia.
Qed.

(** ** Case-insensitive search *)

(** [nd] occurs in the characters [s] at offset [j], up to case. *)
Definition occurs_ci (nd s : list Z) (j : nat) : Prop := lower nd `prefix_of` lower (drop j s).

#[export] Instance occurs_ci_dec nd s j : Decision (occurs_ci nd s j).
Proof. unfold occurs_ci. apply _. Defined.

(** The inner loop decides a case-insensitive match when it finds a character
    after it, which need not be the terminator. *)
Lemma stristr_match_ok nd s c rest :
  no_nul nd → no_nul s → c = 0 ∨ (length nd ≤ length s)%nat →
  stristr_match (s ++ c :: rest) (nd ++ [0]) = Ok (prefixb (lower nd) (lower s)).
Proof.
  revert nd. induction s as [|a s IH]; intros [|b nd] Hnd Hs Hc; cbn.
  - destruct (c =? 0); done.
  - apply no_nul_cons in Hnd as [Hb _]. destruct Hc as [->|Hc]; [|cbn in Hc; lia].
    by rewrite (proj2 (Z.eqb_neq b 0)) by done.
  - apply no_nul_cons in Hs as [Ha _]. by rewrite (proj2 (Z.eqb_neq a 0)) by done.
  - apply no_nul_cons in Hnd as [Hb Hnd]. apply no_nul_cons in Hs as [Ha Hs].
    rewrite (proj2 (Z.eqb_neq a 0)), (proj2 (Z.eqb_neq b 0)), (Z.eqb_sym (tolower a)) by done.
    destruct (tolower b =? tolower a); [|done]. apply IH; [done..|cbn in Hc; destruct Hc; [by left|right; lia]].
Qed.

(** Offset of the first case-insensitive occurrence. *)
Definition find_ci (nd s : list Z) : option nat := find_sub (lower nd) (lower s).

Lemma find_ci_Some nd s i :
  find_ci nd s = Some i → occurs_ci nd s i ∧ ∀ j, (j < i)%nat → ¬ occurs_ci nd s j.
Proof.
  intros [H1 H2]%find_sub_Some. unfold occurs_ci, lower in *.
  setoid_rewrite fmap_drop. split; [done|]. apply H2.
Qed.

Lemma find_ci_None nd s j :
  nd ≠ [] → find_ci nd s = None → ¬ occurs_ci nd s j.
Proof.
  intros Hnd H Hoc. destruct (decide (j ≤ length s)%nat) as [Hj|Hj].
  - eapply find_sub_None in H; [|unfold lower; by rewrite length_fmap]. apply H.
    unfold occurs_ci, lower in *. by rewrite <- fmap_drop.
  - unfold occurs_ci in Hoc. rewrite drop_ge in Hoc by lia.
    apply prefix_nil_inv in Hoc. by apply fmap_nil_inv in Hoc.
Qed.

Lemma stristr_loop_ok n0 nd s c rest :
  no_nul (n0 :: nd) → no_nul s →
  c = 0 ∨ (∃ i, find_ci (n0 :: nd) s = Some i) →
  stristr_loop n0 (n0 :: nd ++ [0]) (s ++ c :: rest) = Ok (find_ci (n0 :: nd) s).
Proof.
  intros Hnd. induction s as [|a s IH]; intros Hs Hc.
  - destruct Hc as [->|[i Hi]]; done.
  - pose proof Hs as [Ha Hs']%no_nul_cons.
    cbn [stristr_loop app]. rewrite (proj2 (Z.eqb_neq a 0)) by done.
    assert (prefixb (lower (n0 :: nd)) (lower (a :: s)) = false →
            (option_map S <$> stristr_loop n0 (n0 :: nd ++ [0]) (s ++ c :: rest)) =
            Ok (find_ci (n0 :: nd) (a :: s))) as Hmiss.
    { intros E. rewrite IH; [|done|].
      - unfold find_ci. change (lower (a :: s)) with (tolower a :: lower s) in *.
        cbn [find_sub]. by rewrite E.
      - destruct Hc as [->|[i Hi]]; [by left|right].
        unfold find_ci in *. change (lower (a :: s)) with (tolower a :: lower s) in *.
        cbn [find_sub] in Hi. rewrite E in Hi.
        destruct (find_sub _ (lower s)) as [k|]; [by exists k|done]. }
    destruct (tolower a =? tolower n0) eqn:Et.
    + change (a :: s ++ c :: rest) with ((a :: s) ++ c :: rest).
      change (n0 :: nd ++ [0]) with ((n0 :: nd) ++ [0]).
      rewrite stristr_match_ok; [|done|done|].
      * unfold mbind, outcome_bind. destruct (prefixb _ _) eqn:E; [|by apply Hmiss].
        unfold find_ci. change (lower (a :: s)) with (tolower a :: lower s) in *.
        cbn [find_sub]. by rewrite E.
      * destruct Hc as [->|[i Hi]]; [by left|right]. unfold find_ci in Hi.
        apply find_sub_Some in Hi as [Hi _]. apply prefix_length in Hi.
        rewrite length_drop in Hi. unfold lower in Hi. rewrite !length_fmap in Hi. lia.
    + apply Hmiss. change (lower (a :: s)) with (tolower a :: lower s).
      change (lower (n0 :: nd)) with (tolower n0 :: lower nd). cbn.
      by rewrite Z.eqb_sym, Et.
Qed.

(** ** Trimming *)

Definition rstrip (s : list Z) : list Z := reverse (skip_spaces (reverse s)).

Lemma rstrip_snoc s c : rstrip (s ++ [c]) = if isspace c then rstrip s else s ++ [c].
Proof.
  unfold rstrip. rewrite reverse_snoc. cbn [skip_spaces]. destruct (isspace c); [done|].
  by rewrite reverse_cons, reverse_involutive.
Qed.

Lemma rstrip_prefix s : ∃ t, s = rstrip s ++ t.
Proof.
  induction s as [|c s [t IH]] using rev_ind; [by exists []|].
  rewrite rstrip_snoc. destruct (isspace c).
  - exists (t ++ [c]). by rewrite IH at 1; rewrite app_assoc.
  - exists []. by rewrite app_nil_r.
Qed.

Lemma rstrip_no_nul s : no_nul s → no_nul (rstrip s).
Proof. destruct (rstrip_prefix s) as [t Ht]. rewrite Ht at 1. by intros [? _]%no_nul_app. Qed.

Lemma trim_right_loop_ok s rest :
  ∃ z, trim_right_loop (length s) (s ++ rest) = rstrip s ++ replicate z 0 ++ rest ∧
       (length (rstrip s) + z = length s)%nat.
Proof.
  revert rest. induction s as [|c s IH] using rev_ind; intros rest; [by exists 0%nat|].
  rewrite length_app, Nat.add_1_r. cbn [trim_right_loop].
  rewrite <- app_assoc. cbn [app].
  rewrite lookup_app_r, Nat.sub_diag by lia. cbn [lookup list_lookup]. rewrite rstrip_snoc.
  destruct (isspace c).
  - rewrite insert_app_r_alt, Nat.sub_diag by lia. cbn.
    destruct (IH (0 :: rest)) as (z & -> & Hz). exists (S z). split; [|lia].
    by rewrite replicate_S_end, <- app_assoc.
  - exists 0%nat. rewrite length_app. cbn. split; [by rewrite <- app_assoc|lia].
Qed.

Lemma trim_left_loop_ok s rest :
  ∃ n, trim_left_loop (s ++ 0 :: rest) = Ok (Z.of_nat n) ∧
       (n ≤ length s)%nat ∧ drop n s = skip_spaces s.
Proof.
  induction s as [|c s (n & E & Hn & Hd)]; [by exists 0%nat|]. cbn.
  destruct (isspace c).
  - exists (S n). rewrite E. cbn. split; [f_equal; lia|]. split; [lia|done].
  - exists 0%nat. split; [done|]. split; [lia|done].
Qed.

Lemma skip_spaces_suffix s : ∃ t, s = t ++ skip_spaces s.
Proof.
  induction s as [|c s [t IH]]; [by exists []|]. cbn. destruct (isspace c); [|by exists []].
  exists (c :: t). cbn. by rewrite <- IH.
Qed.

(** [trim] of a string returns a pointer into the same object at which the
    string without its leading and trailing white space starts; the object
    keeps its length, its bytes before the string and every other object. *)
Theorem trim_strips_both_ends h b pre s rest :
  blocks h !! b = Some (pre ++ s ++ 0 :: rest) → no_nul s →
  ∃ o bs, trim (Ptr b (lenZ pre)) h = Ok (Ptr b o, with_blocks h (<[b := bs]> (blocks h))) ∧
    lenZ pre ≤ o ≤ lenZ bs ∧
    cstr (drop (Z.to_nat o) bs) = Ok (skip_spaces (rstrip s)) ∧
    take (length pre) bs = pre ∧ length bs = length (pre ++ s ++ 0 :: rest).
Proof.
  intros Hb Hs. unfold trim, trim_right. cbn [is_null].
  pose proof (to_nat_lenZ pre) as Hp.
  destruct (trim_right_loop_ok s (0 :: rest)) as (z & Ez & Hz).
  set (t := rstrip s) in *. set (bs := pre ++ t ++ replicate z 0 ++ 0 :: rest).
  assert (length bs = length (pre ++ s ++ 0 :: rest)) as Hlen
    by (unfold bs; rewrite !length_app, length_replicate; lia).
  assert (no_nul t) as Ht by by apply rstrip_no_nul.
  assert (∃ r, replicate z 0 ++ 0 :: rest = 0 :: r) as [r Hr] by (destruct z; cbn; eauto).
  destruct (trim_left_loop_ok t r) as (n & En & Hn & Hd).
  assert (∀ x, Z.to_nat (lenZ pre + Z.of_nat x) = length pre + x)%nat as Hadd
    by (intros; unfold lenZ; lia).
  exists (lenZ pre + Z.of_nat n), bs. split_and!.
  - erewrite bind_ok; last first.
    { erewrite bind_ok; [done|]. erewrite rewrite_tail_ok; [done|exact Hb| |rewrite Hp, drop_app_length|].
      - rewrite !lenZ_app. pose proof (lenZ_nonneg (A := Z)). split; [done|]. 
        pose proof (H s). pose proof (H (0 :: rest)). lia.
      - unfold trim_right_list, strlen_list. rewrite cstr_ok by done. cbn.
        unfold lenZ. rewrite Nat2Z.id, Ez. done.
      - rewrite Hp. unfold bs in Hlen. rewrite !length_app in *. lia. }
    rewrite Hp, take_app_length. fold bs. unfold trim_left. cbn [is_null].
    erewrite bind_ok.
    2: { apply tail_bytes_ok with (bs := bs); [cbn; apply lookup_insert_eq|].
         unfold lenZ. split; [lia|]. rewrite Hlen, !length_app. lia. }
    unfold bs at 1. rewrite Hp, drop_app_length, Hr.
    by erewrite bind_ok by (by apply lift_ok).
  - lia.
  - unfold lenZ. rewrite Hlen, !length_app. cbn. unfold t in *. lia.
  - rewrite Hadd. unfold bs. rewrite drop_app_add, drop_app_le, Hr by lia.
    rewrite Hd. apply cstr_ok. destruct (skip_spaces_suffix t) as [u Hu].
    rewrite Hu in Ht. by apply no_nul_app in Ht as [_ Ht].
  - unfold bs. by rewrite take_app_length.
  - done.
Qed.

Lemma trim_strips_both_ends_witness :
  ∃ o bs, trim (Ptr 0 (lenZ (chars "k="))) (heap1 (lit "k=  v 1 "))
    = Ok (Ptr 0 o, heap1 bs) ∧
    cstr (drop (Z.to_nat o) bs) = Ok (chars "v 1").
Proof.
  destruct (trim_strips_both_ends
              (heap1 (lit "k=  v 1 ")) 0
              (chars "k=") (chars "  v 1 ") []) as (o & bs & E & _ & Ec & _).
  - reflexivity.
  - vm_decide.
  - exists o, bs. rewrite heap1_insert in E. by split.
Defined.

(** C26: [stristr] of a terminated string returns a pointer to its first
    case-insensitive occurrence of the needle, and the null pointer exactly when
    there is none; memory is unchanged. *)
Theorem stristr_first_match h b pre s rest nd :
  blocks h !! b = Some (pre ++ s ++ 0 :: rest) → no_nul s → no_nul nd → nd ≠ [] →
  ∃ r, stristr (Ptr b (lenZ pre)) (Some (nd ++ [0])) h = Ok (r, h) ∧
    match r with
    | Null => ∀ j, ¬ occurs_ci nd s j
    | Ptr b' o => b' = b ∧ ∃ j, o = lenZ pre + Z.of_nat j ∧ occurs_ci nd s j ∧
                  ∀ j', (j' < j)%nat → ¬ occurs_ci nd s j'
    end.
Proof.
  intros Hb Hs Hnd Hne. destruct nd as [|n0 nd]; [done|]. clear Hne.
  unfold stristr. cbn [is_null app].
  erewrite bind_ok.
  2: { eapply tail_bytes_ok; [exact Hb|]. rewrite lenZ_app.
       pose proof (lenZ_nonneg pre). pose proof (lenZ_nonneg (s ++ 0 :: rest)). lia. }
  rewrite to_nat_lenZ, drop_app_length.
  erewrite bind_ok.
  2: { apply lift_ok. unfold stristr_list.
       rewrite (proj2 (Z.eqb_neq n0 0)) by by apply no_nul_cons in Hnd as [? _].
       apply stristr_loop_ok; [done..|by left]. }
  eexists. split; [done|]. destruct (find_ci (n0 :: nd) s) as [j|] eqn:E.
  - apply find_ci_Some in E. cbn. eauto.
  - intros j. by apply find_ci_None.
Qed.

Lemma stristr_first_match_witness :
  ∃ r, stristr (Ptr 0 0) (Some (lit "Host:"))
         (heap1 (lit "GET / hOST: x"))
       = Ok (r, heap1 (lit "GET / hOST: x")) ∧
       r = Ptr 0 6.
Proof.
  destruct (stristr_first_match
              (heap1 (lit "GET / hOST: x")) 0
              [] (chars "GET / hOST: x") [] (chars "Host:")) as (r & E & _).
  - reflexivity.
  - vm_decide.
  - vm_decide.
  - done.
  - exists r. split; [exact E|]. revert E. vm_compute. by intros [= <-].
Defined.

(** [mix_case] on [len] characters of a string rewrites exactly those
    characters, even positions to lower and odd positions to upper case, so the
    text is unchanged up to case, and touches no other byte of memory. *)
Theorem mix_case_alternates h b pre s rest :
  blocks h !! b = Some (pre ++ s ++ rest) → no_nul s → s ≠ [] →
  ∃ s', mix_case (Ptr b (lenZ pre)) (lenZ s) h =
          Ok (tt, with_blocks h (<[b := pre ++ s' ++ rest]> (blocks h))) ∧
    lower s' = lower s ∧
    ∀ i c, s !! i = Some c →
      s' !! i = Some (if Z.of_nat i mod 2 =? 0 then tolower c else toupper c).
Proof.
  intros Hb Hs Hne. eexists. split; [by apply mix_case_ok|]. split; [apply lower_recase|].
  intros i c. rewrite recase_lookup. intros ->. cbn. f_equal.
  change (0 + Z.of_nat i) with (Z.of_nat i). by destruct (_ =? _).
Qed.

Lemma mix_case_alternates_witness :
  ∃ s', mix_case (Ptr 0 (lenZ (chars "Host: "))) (lenZ (chars "abc.com"))
          (heap1 (chars "Host: abc.com" ++ [13; 10])) =
        Ok (tt, heap1 (chars "Host: " ++ s' ++ [13; 10])) ∧ s' = chars "aBc.cOm".
Proof.
  destruct (mix_case_alternates (heap1 (chars "Host: abc.com" ++ [13; 10])) 0
              (chars "Host: ") (chars "abc.com") [13; 10]) as (s' & E & Hl & H).
  - reflexivity.
  - vm_decide.
  - done.
  - exists s'. rewrite heap1_insert in E. split; [exact E|].
    apply list_eq. intros i. destruct (decide (i < 7)%nat) as [Hi|Hi].
    + specialize (H i). do 7 (destruct i as [|i]; [by rewrite (H _ eq_refl)|]). lia.
    + rewrite !lookup_ge_None_2; [done|cbn; lia|].
      apply (f_equal length) in Hl. unfold lower in Hl. rewrite !length_fmap in Hl.
      rewrite Hl. cbn. lia.
Defined.

(** [safe_string_copy] into a buffer of [dest_size] bytes stores the first
    [dest_size - 1] characters of the source, always terminated, and writes
    nothing outside those [dest_size] bytes. *)
Theorem safe_string_copy_terminates_dest h b old s rest dest_size :
  blocks h !! b = Some old → no_nul s → 0 < dest_size ≤ lenZ old →
  ∃ bs, safe_string_copy (Ptr b 0) (Some (s ++ 0 :: rest)) dest_size h =
          Ok (tt, with_blocks h (<[b := bs]> (blocks h))) ∧
    cstr bs = Ok (take (Z.to_nat (dest_size - 1)) s) ∧
    length bs = length old ∧ drop (Z.to_nat dest_size) bs = drop (Z.to_nat dest_size) old.
Proof.
  intros Hb Hs [Hd0 Hd]. unfold safe_string_copy. cbn [is_null].
  rewrite (proj2 (Z.eqb_neq dest_size 0)) by lia. cbn [orb].
  set (n := dest_size - 1) in *. unfold lenZ in Hd.
  set (cp := take (Z.to_nat n) s ++ replicate (Z.to_nat n - length s) 0).
  assert (length cp = Z.to_nat n) as Hcp
    by (unfold cp; rewrite length_app, length_take, length_replicate; lia).
  exists (cp ++ 0 :: drop (Z.to_nat dest_size) old). split_and!.
  - erewrite bind_ok by (apply strncpy_ok; [done..|unfold lenZ; lia]).
    unfold store8. cbn [padd]. erewrite put_bytes_ok; [|cbn; apply lookup_insert_eq|lia|].
    2: { unfold lenZ. rewrite length_strncpy_into by lia. cbn. lia. }
    unfold with_blocks. cbn. rewrite insert_insert_eq. do 4 f_equal.
    unfold splice, strncpy_into. rewrite Z.add_0_l, (app_assoc (take _ s)). fold cp.
    rewrite take_app_length' by lia. cbn. rewrite Nat.add_1_r. do 2 f_equal.
    rewrite drop_app_ge, Hcp, drop_drop by lia. f_equal. unfold n in *. lia.
  - unfold cp. rewrite <- app_assoc.
    assert (∃ r, replicate (Z.to_nat n - length s) 0 ++ 0 :: drop (Z.to_nat dest_size) old = 0 :: r)
      as [r ->] by (destruct (Z.to_nat n - length s)%nat; cbn; eauto).
    apply cstr_ok. auto with cmem.
  - rewrite length_app, Hcp. cbn. rewrite length_drop. unfold n. lia.
  - rewrite drop_app_ge by (unfold n in *; lia). rewrite Hcp.
    replace (Z.to_nat dest_size - Z.to_nat n)%nat with 1%nat by (unfold n; lia). done.
Qed.

Lemma safe_string_copy_terminates_dest_witness :
  ∃ bs, safe_string_copy (Ptr 0 0) (Some (lit "eth0.100")) 5 (heap1 (replicate 8 7)) =
          Ok (tt, heap1 bs) ∧ cstr bs = Ok (chars "eth0").
Proof.
  destruct (safe_string_copy_terminates_dest (heap1 (replicate 8 7)) 0 (replicate 8 7)
              (chars "eth0.100") [] 5) as (bs & E & Ec & _).
  - reflexivity.
  - vm_decide.
  - by vm_compute.
  - exists bs. rewrite heap1_insert in E. by split.
Defined.
