(* ===== verification/Types.v ===== *)
(** * Data types of src/include/goodbyedpi.h and src/include/config.h *)

From S2P Require Import Prelude CString.

(** ** Constants *)

Definition MAX_HOSTNAME_LEN : Z := 256.
Definition INET6_ADDRSTRLEN : Z := 46.
Definition IPPROTO_TCP : Z := 6.
Definition IPPROTO_UDP : Z := 17.

(** [sizeof] of the wire headers. *)
Definition sizeof_iphdr : Z := 20.
Definition sizeof_tcphdr : Z := 20.
Definition sizeof_udphdr : Z := 8.

(** ** Packets *)

Inductive packet_type_t : Type :=
  | PACKET_UNKNOWN
  | PACKET_IPV4_TCP
  | PACKET_IPV4_TCP_DATA
  | PACKET_IPV4_UDP_DATA
  | PACKET_IPV6_TCP
  | PACKET_IPV6_TCP_DATA
  | PACKET_IPV6_UDP_DATA.

#[export] Instance packet_type_eq_dec : EqDecision packet_type_t.
Proof. solve_decision. Defined.

Inductive packet_direction_t : Type :=
  | DIRECTION_UNKNOWN
  | DIRECTION_OUTBOUND
  | DIRECTION_INBOUND.

#[export] Instance packet_direction_eq_dec : EqDecision packet_direction_t.
Proof. solve_decision. Defined.

(** The enumerators' values. *)
Definition packet_type_val (t : packet_type_t) : Z :=
  match t with
  | PACKET_UNKNOWN => 0
  | PACKET_IPV4_TCP => 1
  | PACKET_IPV4_TCP_DATA => 2
  | PACKET_IPV4_UDP_DATA => 3
  | PACKET_IPV6_TCP => 4
  | PACKET_IPV6_TCP_DATA => 5
  | PACKET_IPV6_UDP_DATA => 6
  end.
Definition packet_direction_val (d : packet_direction_t) : Z :=
  match d with
  | DIRECTION_UNKNOWN => 0
  | DIRECTION_OUTBOUND => 1
  | DIRECTION_INBOUND => 2
  end.

Definition type_eqb (a b : packet_type_t) : bool := bool_decide (a = b).

(** [uint32_t addr[4]]; an IPv4 address is in the first word. *)
Record ip_addr : Type := mkIp { w0 : Z; w1 : Z; w2 : Z; w3 : Z }.

#[export] Instance ip_addr_eq_dec : EqDecision ip_addr.
Proof. solve_decision. Defined.

Definition ip_zero : ip_addr := mkIp 0 0 0 0.
Definition ip_words (a : ip_addr) : list Z := [w0 a; w1 a; w2 a; w3 a].

Record packet_t : Type := mkPacket {
  is_ipv6 : bool;
  is_outbound : bool;
  direction : packet_direction_t;
  type : packet_type_t;
  ttl : Z;
  src_ip : ip_addr;
  dst_ip : ip_addr;
  src_port : Z;
  dst_port : Z;
  payload : ptr;
  payload_len : Z;
  headers : ptr;
  headers_len : Z;
  nfqueue_id : Z;
  raw_packet : ptr;
  raw_packet_len : Z
}.

#[export] Instance eta_packet : Eta packet_t := λ p,
  mkPacket (is_ipv6 p) (is_outbound p) (direction p) (type p) (ttl p) (src_ip p) (dst_ip p)
    (src_port p) (dst_port p) (payload p) (payload_len p) (headers p) (headers_len p)
    (nfqueue_id p) (raw_packet p) (raw_packet_len p).

(** [memset(packet, 0, sizeof(packet_t))] *)
Definition packet_zero : packet_t :=
  mkPacket false false DIRECTION_UNKNOWN PACKET_UNKNOWN 0 ip_zero ip_zero 0 0
    Null 0 Null 0 0 Null 0.

(** ** Configuration *)

(** A [char] array is the list of its bytes. *)
Record goodbyedpi_config_t : Type := mkConfig {
  http_fragment_size : Z;
  https_fragment_size : Z;
  native_fragmentation : bool;
  reverse_fragmentation : bool;
  fragment_http_persistent : bool;
  fragment_http_persistent_nowait : bool;
  host_mixedcase : bool;
  additional_space : bool;
  host_removespace : bool;
  wrong_checksum : bool;
  wrong_sequence : bool;
  auto_ttl : bool;
  fake_packet : bool;
  ttl_of_fake_packet : Z;
  ttl_min_nhops : Z;
  auto_ttl_1 : Z;
  auto_ttl_2 : Z;
  auto_ttl_max : Z;
  host_uppercase : bool;
  host_lowercase_mixed : bool;
  enable_blacklist : bool;
  enable_whitelist : bool;
  blacklist_file : list Z;
  whitelist_file : list Z;
  allow_no_sni : bool;
  fragment_by_sni : bool;
  dns_redirect_ipv4 : bool;
  dns_redirect_ipv6 : bool;
  dns_server_v4 : list Z;
  dns_server_v6 : list Z;
  dns_port_v4 : Z;
  dns_port_v6 : Z;
  daemon_mode : bool;
  systemd_mode : bool;
  debug_mode : bool;
  verbose_mode : bool;
  block_quic : bool;
  max_payload_size : Z;
  pid_file : list Z;
  log_file : list Z;
  interface : list Z;
  additional_ports : list Z;
  additional_ports_count : Z;
  ip_ids : list Z;
  nfqueue_num : Z;
  ip_ids_count : Z
}.

#[export] Instance eta_config : Eta goodbyedpi_config_t := λ c,
  mkConfig (http_fragment_size c) (https_fragment_size c) (native_fragmentation c)
    (reverse_fragmentation c) (fragment_http_persistent c) (fragment_http_persistent_nowait c)
    (host_mixedcase c) (additional_space c) (host_removespace c) (wrong_checksum c)
    (wrong_sequence c) (auto_ttl c) (fake_packet c) (ttl_of_fake_packet c) (ttl_min_nhops c)
    (auto_ttl_1 c) (auto_ttl_2 c) (auto_ttl_max c) (host_uppercase c) (host_lowercase_mixed c)
    (enable_blacklist c) (enable_whitelist c) (blacklist_file c) (whitelist_file c)
    (allow_no_sni c) (fragment_by_sni c) (dns_redirect_ipv4 c) (dns_redirect_ipv6 c)
    (dns_server_v4 c) (dns_server_v6 c) (dns_port_v4 c) (dns_port_v6 c) (daemon_mode c)
    (systemd_mode c) (debug_mode c) (verbose_mode c) (block_quic c) (max_payload_size c)
    (pid_file c) (log_file c) (interface c) (additional_ports c) (additional_ports_count c)
    (ip_ids c) (nfqueue_num c) (ip_ids_count c).

(** [memset(cfg, 0, sizeof(goodbyedpi_config_t))] *)
Definition config_zero : goodbyedpi_config_t :=
  mkConfig 0 0 false false false false false false false false false false false
    0 0 0 0 0 false false false false (replicate 256 0) (replicate 256 0) false false
    false false (replicate 46 0) (replicate 46 0) 0 0 false false false false false 0
    (replicate 256 0) (replicate 256 0) (replicate 32 0) (replicate 16 0) 0
    (replicate 32 0) 0 0.
