(* ===== verification/Packet.v ===== *)
(** * src/capture/packet_utils.c: packet structures and IPv4/IPv6 parsing

    A [packet_t *] that the function checks against NULL is an [option]; the
    three buffers of a packet are objects of the heap.  Header fields are read
    at the offsets of [struct iphdr], [struct tcphdr] and [struct udphdr]. *)

From S2P Require Import Prelude CString Types.

Definition packet_init (packet : option packet_t) : Z * option packet_t :=
  match packet with
  | None => (-1, None)
  | Some _ =>
      let packet := packet_zero in
      let packet := packet <| type := PACKET_UNKNOWN |> in
      let packet := packet <| direction := DIRECTION_UNKNOWN |> in
      (0, Some packet)
  end.

(** What [packet_init] leaves in a structure that is there. *)
Definition initialised (packet : packet_t) : packet_t :=
  default packet (packet_init (Some packet)).2.

Definition packet_free (packet : option packet_t) : M (option packet_t) :=
  match packet with
  | None => mret None
  | Some packet =>
      packet ← (if is_null (payload packet) then mret packet
                else free (payload packet) ;; mret (packet <| payload := Null |>));
      packet ← (if is_null (headers packet) then mret packet
                else free (headers packet) ;; mret (packet <| headers := Null |>));
      packet ← (if is_null (raw_packet packet) then mret packet
                else free (raw_packet packet) ;; mret (packet <| raw_packet := Null |>));
      mret (packet_init (Some packet)).2
  end.

(** Stores [payload_len] bytes at [src] as the payload. *)
Definition store_payload (src : ptr) (plen : Z) (packet : packet_t) : M packet_t :=
  p ← malloc_copy src plen;
  let packet := packet <| payload := p |> in
  mret (if is_null p then packet else packet <| payload_len := plen |>).

(** The transport part of [packet_parse_ipv4]; [None] is its [return -1]. *)
Definition parse_ipv4_tcp (data : ptr) (len ihl : Z) (packet : packet_t) : M (option packet_t) :=
  if len <? sizeof_iphdr + sizeof_tcphdr then mret None else
  let tcp_hdr := padd data (ihl * 4) in
  source ← load16 tcp_hdr;
  dest ← load16 (padd tcp_hdr 2);
  let packet := packet <| src_port := ntohs source |> <| dst_port := ntohs dest |> in
  off ← load8 (padd tcp_hdr 12);
  let doff := Z.shiftr off 4 in
  let plen := u64 (u64 (len - ihl * 4) - doff * 4) in
  if 0 <? plen then
    packet ← store_payload (padd tcp_hdr (doff * 4)) plen (packet <| type := PACKET_IPV4_TCP_DATA |>);
    mret (Some packet)
  else mret (Some (packet <| type := PACKET_IPV4_TCP |>)).

Definition parse_ipv4_udp (data : ptr) (len ihl : Z) (packet : packet_t) : M (option packet_t) :=
  if len <? sizeof_iphdr + sizeof_udphdr then mret None else
  let udp_hdr := padd data (ihl * 4) in
  source ← load16 udp_hdr;
  dest ← load16 (padd udp_hdr 2);
  let packet := packet <| src_port := ntohs source |> <| dst_port := ntohs dest |> in
  let plen := u64 (u64 (len - ihl * 4) - sizeof_udphdr) in
  if 0 <? plen then
    packet ← store_payload (padd udp_hdr sizeof_udphdr) plen (packet <| type := PACKET_IPV4_UDP_DATA |>);
    mret (Some packet)
  else mret (Some packet).

(** The tail of [packet_parse_ipv4]: raw copy and header copy. *)
Definition store_raw (data : ptr) (len : Z) (packet : packet_t) : M packet_t :=
  p ← malloc_copy data len;
  mret (packet <| raw_packet_len := len |> <| raw_packet := p |>).

Definition store_headers (data : ptr) (ihl protocol : Z) (packet : packet_t) : M packet_t :=
  hlen ← (if protocol =? IPPROTO_TCP then
            off ← load8 (padd data (ihl * 4 + 12)); mret (ihl * 4 + Z.shiftr off 4 * 4)
          else if protocol =? IPPROTO_UDP then mret (ihl * 4 + sizeof_udphdr)
          else mret (ihl * 4));
  p ← malloc_copy data hlen;
  mret (packet <| headers_len := hlen |> <| headers := p |>).

Definition packet_parse_ipv4 (data : ptr) (len : Z) (packet : packet_t) : M (Z * packet_t) :=
  if is_null data || (len <? sizeof_iphdr) then mret (-1, packet) else
  vihl ← load8 data;
  let version := Z.shiftr vihl 4 in
  let ihl := Z.land vihl 15 in
  if negb (version =? 4) then mret (-1, packet) else
  let packet := initialised packet in
  ip_ttl ← load8 (padd data 8);
  saddr ← load32 (padd data 12);
  daddr ← load32 (padd data 16);
  let packet := packet <| is_ipv6 := false |> <| direction := DIRECTION_UNKNOWN |>
                       <| ttl := ip_ttl |>
                       <| src_ip := mkIp saddr 0 0 0 |> <| dst_ip := mkIp daddr 0 0 0 |>
                       <| is_outbound := ntohl saddr <? ntohl daddr |> in
  protocol ← load8 (padd data 9);
  r ← (if protocol =? IPPROTO_TCP then parse_ipv4_tcp data len ihl packet
       else if protocol =? IPPROTO_UDP then parse_ipv4_udp data len ihl packet
       else mret (Some packet));
  match r with
  | None => mret (-1, packet)
  | Some packet =>
      packet ← store_raw data len packet;
      packet ← store_headers data ihl protocol packet;
      mret (0, packet)
  end.

Definition packet_parse_ipv6 (data : ptr) (len : Z) (packet : packet_t) : M (Z * packet_t) :=
  let packet := (initialised packet) <| is_ipv6 := true |> <| direction := DIRECTION_UNKNOWN |>
                                   <| type := PACKET_IPV6_TCP |> in
  packet ← store_raw data len packet;
  mret (0, packet).

Definition packet_parse (data : ptr) (len : Z) (packet : option packet_t) : M (Z * option packet_t) :=
  match packet with
  | None => mret (-1, None)
  | Some pk =>
      if is_null data || (len <? sizeof_iphdr) then mret (-1, packet) else
      b0 ← load8 data;
      let version := Z.land (Z.shiftr b0 4) 15 in
      if version =? 4 then '(r, pk) ← packet_parse_ipv4 data len pk; mret (r, Some pk)
      else if version =? 6 then '(r, pk) ← packet_parse_ipv6 data len pk; mret (r, Some pk)
      else mret (-1, packet)
  end.

(** ** Classification *)

Definition packet_is_tcp (packet : option packet_t) : bool :=
  match packet with
  | None => false
  | Some p => type_eqb (type p) PACKET_IPV4_TCP || type_eqb (type p) PACKET_IPV4_TCP_DATA ||
              type_eqb (type p) PACKET_IPV6_TCP || type_eqb (type p) PACKET_IPV6_TCP_DATA
  end.

Definition packet_is_udp (packet : option packet_t) : bool :=
  match packet with
  | None => false
  | Some p => type_eqb (type p) PACKET_IPV4_UDP_DATA || type_eqb (type p) PACKET_IPV6_UDP_DATA
  end.

(** [strncmp(l, s, n) == 0 || ...], left to right. *)
Fixpoint any_strncmp (l : list Z) (tests : list (list Z * nat)) : outcome bool :=
  match tests with
  | [] => Ok false
  | (s, n) :: tests => v ← strncmp n l s; if v =? 0 then Ok true else any_strncmp l tests
  end.

Definition http_methods : list (list Z * nat) :=
  [(lit "GET", 3%nat); (lit "POST", 4%nat); (lit "HEAD", 4%nat); (lit "PUT", 3%nat);
   (lit "DELETE", 6%nat)].

Definition packet_is_http (packet : option packet_t) : M bool :=
  match packet with
  | None => mret false
  | Some p =>
      if negb (packet_is_tcp packet) || is_null (payload p) then mret false
      else if (dst_port p =? 80) && (3 <=? payload_len p)
      then l ← tail_bytes (payload p); lift (any_strncmp l http_methods)
      else mret false
  end.

Definition packet_is_https (packet : option packet_t) : bool :=
  match packet with
  | None => false
  | Some p => packet_is_tcp packet && (dst_port p =? 443)
  end.

(** ** Copying and modification *)

(** One buffer of [packet_copy]: the copy and its recorded length. *)
Definition copy_buffer (src : ptr) (n : Z) : M (ptr * Z) :=
  if negb (is_null src) && (0 <? n) then
    p ← malloc_copy src n; mret (p, if is_null p then 0 else n)
  else mret (Null, 0).

Definition packet_copy (src dst : option packet_t) : M (Z * option packet_t) :=
  match src, dst with
  | Some src, Some d =>
      let d := (initialised d)
        <| is_ipv6 := is_ipv6 src |> <| is_outbound := is_outbound src |>
        <| type := type src |> <| direction := direction src |> <| ttl := ttl src |>
        <| src_port := src_port src |> <| dst_port := dst_port src |>
        <| nfqueue_id := nfqueue_id src |>
        <| src_ip := src_ip src |> <| dst_ip := dst_ip src |> in
      '(p, n) ← copy_buffer (payload src) (payload_len src);
      let d := d <| payload := p |> <| payload_len := n |> in
      '(p, n) ← copy_buffer (headers src) (headers_len src);
      let d := d <| headers := p |> <| headers_len := n |> in
      '(p, n) ← copy_buffer (raw_packet src) (raw_packet_len src);
      let d := d <| raw_packet := p |> <| raw_packet_len := n |> in
      mret (0, Some d)
  | _, _ => mret (-1, dst)
  end.

(** [iph->ttl] is byte 8 of the datagram, [ip6h->ip6_hlim] byte 7. *)
Definition packet_set_ttl (packet : option packet_t) (t : Z) : M (Z * option packet_t) :=
  match packet with
  | None => mret (-1, None)
  | Some p =>
      if is_null (raw_packet p) then mret (-1, packet) else
      let p := p <| ttl := t |> in
      if type_eqb (type p) PACKET_IPV4_TCP then
        store8 (padd (raw_packet p) 8) t ;; mret (0, Some p)
      else if type_eqb (type p) PACKET_IPV6_TCP then
        store8 (padd (raw_packet p) 7) t ;; mret (0, Some p)
      else mret (-1, Some p)
  end.

(** ** Ownership of a packet's buffers *)

(** A pointer [free] accepts, and two pointers that are not to the same object. *)
Definition live (m : gmap nat (list Z)) (q : ptr) : Prop :=
  match q with Null => True | Ptr b o => o = 0 ∧ is_Some (m !! b) end.
Definition apart (q q' : ptr) : Prop :=
  match q, q' with Ptr b _, Ptr b' _ => b ≠ b' | _, _ => True end.

Definition buffers_live (p : packet_t) (m : gmap nat (list Z)) : Prop :=
  live m (payload p) ∧ live m (headers p) ∧ live m (raw_packet p) ∧
  apart (payload p) (headers p) ∧ apart (payload p) (raw_packet p) ∧
  apart (headers p) (raw_packet p).

Definition free_block (q : ptr) (m : gmap nat (list Z)) : gmap nat (list Z) :=
  match q with Null => m | Ptr b _ => delete b m end.

(** The objects left when the buffers of [p] are freed. *)
Definition without_buffers (p : packet_t) (m : gmap nat (list Z)) : gmap nat (list Z) :=
  free_block (raw_packet p) (free_block (headers p) (free_block (payload p) m)).

Lemma live_free_block m q q' : live m q → apart q' q → live (free_block q' m) q.
Proof.
  destruct q as [|b o], q' as [|b' o']; cbn; try done.
  intros [-> Hb] Hne. by rewrite lookup_delete_ne.
Qed.

(** One field of [packet_free]. *)
Lemma free_field_ok q (pk pk' : packet_t) h :
  live (blocks h) q → (q = Null → pk' = pk) →
  (if is_null q then mret pk else free q ;; mret pk') h =
    Ok (pk', with_blocks h (free_block q (blocks h))).
Proof.
  destruct q as [|b o]; cbn [is_null live].
  - intros _ Hq. rewrite Hq by done. unfold mret, M_ret, with_blocks. cbn. by destruct h.
  - intros [-> [bs Hb]] _. by erewrite bind_ok by (by eapply free_ok).
Qed.

Lemma packet_free_ok p h :
  buffers_live p (blocks h) →
  packet_free (Some p) h = Ok (Some packet_zero, with_blocks h (without_buffers p (blocks h))).
Proof.
  intros (Hp & Hh & Hr & Hph & Hpr & Hhr). unfold packet_free.
  erewrite bind_ok by (apply (free_field_ok _ _ (p <| payload := Null |>)); [done|];
                       destruct p; cbn; by intros ->).
  erewrite bind_ok by (apply (free_field_ok _ _ (p <| payload := Null |> <| headers := Null |>));
                       [by apply live_free_block|]; destruct p; cbn; by intros ->).
  erewrite bind_ok by (apply (free_field_ok _ _
                         (p <| payload := Null |> <| headers := Null |> <| raw_packet := Null |>));
                       [by apply live_free_block; [apply live_free_block|]|];
                       destruct p; cbn; by intros ->).
  done.
Qed.

(** A step that leaves the heap [h] as it is except for one more allocation
    attempt, whose object (if any) is [q]. *)
Definition allocates (h : heap) (q : ptr) (h' : heap) : Prop :=
  (q = Null ∧ h' = skip_alloc h) ∨ ∃ bs, q = Ptr (nxt h) 0 ∧ h' = alloc h bs.

Lemma allocates_wf h q h' : allocates h q h' → heap_wf h → heap_wf h'.
Proof. intros [[-> ->]|(bs & -> & ->)]; auto with cmem. Qed.

Lemma allocates_live h q h' r :
  allocates h q h' → heap_wf h → live (blocks h) r →
  live (blocks h') r ∧ live (blocks h') q ∧ apart r q ∧ apart q r ∧
  free_block q (blocks h') = blocks h.
Proof.
  intros Ha Hwf Hr.
  assert (∀ b o, r = Ptr b o → b ≠ nxt h) as Hne.
  { intros b o ->. cbn in Hr. destruct Hr as [-> Hb]. specialize (Hwf b Hb). lia. }
  destruct Ha as [[-> ->]|(bs & -> & ->)]; cbn.
  - split_and!; by destruct r.
  - rewrite lookup_insert_eq, delete_insert_id by by apply fresh_None.
    split_and!; [|done|by eexists|..].
    + destruct r as [|b o]; cbn in *; [done|]. rewrite lookup_insert_ne; [done|].
      by intros <-; eapply Hne.
    + destruct r; cbn in *; [done|by eapply Hne].
    + destruct r; cbn in *; [done|]. intros <-. by eapply Hne.
    + done.
Qed.

(** ** What parsing does to memory *)

(** A parse that allocated: an optional payload, the raw copy, the headers. *)
Definition parse_allocs (h : heap) (p : packet_t) (h' : heap) : Prop :=
  ∃ h1 h2, (payload p = Null ∧ h1 = h ∨ allocates h (payload p) h1) ∧
           allocates h1 (raw_packet p) h2 ∧
           (headers p = Null ∧ h' = h2 ∨ allocates h2 (headers p) h').

Definition no_buffers (p : packet_t) : Prop :=
  payload p = Null ∧ headers p = Null ∧ raw_packet p = Null.

Lemma store_payload_cases src n p h p' h' :
  store_payload src n p h = Ok (p', h') →
  allocates h (payload p') h' ∧ headers p' = headers p ∧ raw_packet p' = raw_packet p.
Proof.
  unfold store_payload. intros H. minv H. apply malloc_copy_cases in E.
  injection H as <- <-. by destruct (is_null a).
Qed.

Lemma store_raw_cases data len p h p' h' :
  store_raw data len p h = Ok (p', h') →
  allocates h (raw_packet p') h' ∧ payload p' = payload p ∧ headers p' = headers p.
Proof.
  unfold store_raw. intros H. minv H. apply malloc_copy_cases in E. by injection H as <- <-.
Qed.

Lemma store_headers_cases data ihl proto p h p' h' :
  store_headers data ihl proto p h = Ok (p', h') →
  allocates h (headers p') h' ∧ payload p' = payload p ∧ raw_packet p' = raw_packet p.
Proof.
  unfold store_headers. intros H. mread H. minv H. apply malloc_copy_cases in E0.
  by injection H as <- <-.
Qed.

(** The transport part allocates a payload or nothing, and nothing on failure. *)
Definition transport_ok (h : heap) (r : option packet_t) (h' : heap) : Prop :=
  match r with
  | None => h' = h
  | Some p => headers p = Null ∧ raw_packet p = Null ∧
              (payload p = Null ∧ h' = h ∨ allocates h (payload p) h')
  end.

Lemma parse_ipv4_tcp_cases data len ihl p h r h' :
  no_buffers p → parse_ipv4_tcp data len ihl p h = Ok (r, h') → transport_ok h r h'.
Proof.
  intros (Hp & Hh & Hr). unfold parse_ipv4_tcp. destruct (len <? _); [by intros [= <- <-]|].
  intros H. mread H. mread H. mread H. destruct (0 <? _).
  - minv H. injection H as <- <-. apply store_payload_cases in E2 as (Ha & Hh1 & Hr1). cbn. rewrite Hh1, Hr1. auto.
  - injection H as <- <-. cbn. auto.
Qed.

Lemma parse_ipv4_udp_cases data len ihl p h r h' :
  no_buffers p → parse_ipv4_udp data len ihl p h = Ok (r, h') → transport_ok h r h'.
Proof.
  intros (Hp & Hh & Hr). unfold parse_ipv4_udp. destruct (len <? _); [by intros [= <- <-]|].
  intros H. mread H. mread H. destruct (0 <? _).
  - minv H. injection H as <- <-. apply store_payload_cases in E1 as (Ha & Hh1 & Hr1). cbn. rewrite Hh1, Hr1. auto.
  - injection H as <- <-. cbn. auto.
Qed.

(** Every run of [packet_parse] that returns: it failed and allocated nothing,
    or it succeeded and allocated the packet's buffers only. *)
Definition parse_ok (h : heap) (p0 : packet_t) (r : Z) (p : packet_t) (h' : heap) : Prop :=
  (r = -1 ∧ h' = h ∧ (p = p0 ∨ no_buffers p)) ∨ (r = 0 ∧ parse_allocs h p h').

Lemma packet_parse_ipv4_cases data len p0 h r p h' :
  packet_parse_ipv4 data len p0 h = Ok ((r, p), h') → parse_ok h p0 r p h'.
Proof.
  unfold packet_parse_ipv4. destruct (is_null data || _); [intros [= <- <- <-]; left; auto|].
  intros H. mread H. destruct (negb _); [injection H as <- <- <-; left; auto|].
  mread H. mread H. mread H. mread H. minv H.
  assert (transport_ok h a h0) as Ht.
  { revert E4. destruct (_ =? IPPROTO_TCP); [by apply parse_ipv4_tcp_cases|].
    destruct (_ =? IPPROTO_UDP); [by apply parse_ipv4_udp_cases|].
    intros [= <- <-]. cbn. auto. }
  destruct a as [q|]; cbn in Ht.
  - minv H. minv H. injection H as <- <- <-. right. split; [done|].
    destruct Ht as (Hh & Hr & Hp).
    apply store_raw_cases in E5 as (Ha & Hpe & _).
    apply store_headers_cases in E6 as (Ha' & Hpe' & Hre).
    exists h0, h1. rewrite Hpe', Hpe, Hre. auto.
  - injection H as <- <- <-. left. split_and!; [done..|]. right. done.
Qed.

Lemma packet_parse_cases data len p0 h r q h' :
  packet_parse data len (Some p0) h = Ok ((r, q), h') →
  ∃ p, q = Some p ∧ parse_ok h p0 r p h'.
Proof.
  unfold packet_parse. destruct (is_null data || _); [intros [= <- <- <-]; eexists; split; [done|left; auto]|].
  intros H. mread H. destruct (_ =? 4); [|destruct (_ =? 6)].
  - minv H. destruct a as [r' p']. injection H as <- <- <-.
    apply packet_parse_ipv4_cases in E0. eauto.
  - minv H. destruct a as [r' p']. injection H as <- <- <-. unfold packet_parse_ipv6 in E0.
    minv E0. injection E0 as <- <- <-. apply store_raw_cases in E1 as (Ha & Hpe & Hhe).
    eexists. split; [done|]. right. split; [done|]. exists h, h1. rewrite Hpe, Hhe. cbn. auto.
  - injection H as <- <- <-. eexists. split; [done|]. left. auto.
Qed.

Lemma free_block_comm q q' m : free_block q (free_block q' m) = free_block q' (free_block q m).
Proof. destruct q, q'; cbn; try done. apply delete_delete. Qed.

Lemma allocates_opt_live (h : heap) q h' r :
  (q = Null ∧ h' = h ∨ allocates h q h') → heap_wf h → live (blocks h) r →
  heap_wf h' ∧ live (blocks h') r ∧ live (blocks h') q ∧ apart r q ∧ apart q r ∧
  free_block q (blocks h') = blocks h.
Proof.
  intros [[-> ->]|Ha] Hwf Hr.
  - split_and!; try done; by destruct r.
  - split; [by eapply allocates_wf|]. by eapply allocates_live.
Qed.

Lemma parse_allocs_live h p h' :
  heap_wf h → parse_allocs h p h' →
  buffers_live p (blocks h') ∧ without_buffers p (blocks h') = blocks h ∧ heap_wf h'.
Proof.
  intros Hwf (h1 & h2 & Hp & Hr & Hh).
  destruct (allocates_opt_live _ _ _ Null Hp Hwf I) as (Hwf1 & _ & Lp1 & _ & _ & F1).
  destruct (allocates_opt_live _ _ _ (payload p) (or_intror Hr) Hwf1 Lp1)
    as (Hwf2 & Lp2 & Lr2 & Apr & _ & F2).
  destruct (allocates_opt_live _ _ _ (payload p) Hh Hwf2 Lp2) as (Hwf3 & Lp3 & Lh3 & Aph & _ & F3).
  destruct (allocates_opt_live _ _ _ (raw_packet p) Hh Hwf2 Lr2) as (_ & Lr3 & _ & _ & Ahr & _).
  split_and!; [done| |done].
  - unfold without_buffers.
    rewrite (free_block_comm (headers p)), (free_block_comm (raw_packet p)), F3, F2. done.
Qed.

(** A failed [packet_parse] has not allocated, written or freed anything. *)
Lemma packet_parse_failure data len packet h q h' :
  packet_parse data len packet h = Ok ((-1, q), h') → h' = h.
Proof.
  destruct packet as [p0|]; [|by intros [= _ <-]].
  intros (p & _ & [(_ & -> & _)|[? _]])%packet_parse_cases; [done|lia].
Qed.

(** *** The raw copy, if it was allocated, is the datagram *)

Definition holds_raw (d : list Z) (p : packet_t) (h : heap) : Prop :=
  raw_packet_len p = lenZ d ∧
  (raw_packet p = Null ∨ ∃ b, raw_packet p = Ptr b 0 ∧ blocks h !! b = Some d).

Lemma allocates_keeps h q h' b l :
  allocates h q h' → heap_wf h → blocks h !! b = Some l → blocks h' !! b = Some l.
Proof.
  intros [[_ ->]|(bs & _ & ->)] Hwf Hb; [done|]. cbn.
  assert (b < nxt h)%nat by (apply Hwf; eauto). by rewrite lookup_insert_ne by lia.
Qed.

Lemma store_raw_holds h b d p p' h' :
  blocks h !! b = Some d → heap_wf h → store_raw (Ptr b 0) (lenZ d) p h = Ok (p', h') →
  holds_raw d p' h'.
Proof.
  intros Hb Hwf. unfold store_raw. intros H. minv H. injection H as <- <-. split; [done|]. cbn.
  pose proof (lenZ_nonneg d). rewrite (malloc_copy_eq h b 0 (lenZ d) d) in E by (done || lia).
  destruct (alloc_fails h _); injection E as <- <-; [by left|]. right.
  eexists. split; [done|]. cbn. rewrite lookup_insert_eq. by rewrite slice_all.
Qed.

Lemma store_headers_holds data ihl proto d p h p' h' :
  heap_wf h → holds_raw d p h → store_headers data ihl proto p h = Ok (p', h') → holds_raw d p' h'.
Proof.
  intros Hwf [Hl Hr] H. pose proof (store_headers_cases _ _ _ _ _ _ _ H) as (Ha & _ & E).
  unfold store_headers in H. mread H. minv H. injection H as <- <-. split; [done|].
  destruct Hr as [Hr|(b & Hr & Hb)]; [by left|]. right. exists b. split; [done|].
  by eapply allocates_keeps.
Qed.

Lemma packet_parse_raw h b d p0 p h' :
  blocks h !! b = Some d → heap_wf h →
  packet_parse (Ptr b 0) (lenZ d) (Some p0) h = Ok ((0, Some p), h') → holds_raw d p h'.
Proof.
  intros Hb Hwf. unfold packet_parse. destruct (is_null _ || _); [done|].
  intros H. mread H. destruct (_ =? 4); [|destruct (_ =? 6)]; [| |done].
  - minv H. destruct a as [r' p']. injection H as -> <- <-. revert E0.
    unfold packet_parse_ipv4. destruct (is_null _ || _); [done|].
    intros H. mread H. destruct (negb _); [done|]. do 4 mread H. minv H.
    assert (transport_ok h a h1) as Ht.
    { revert E5. destruct (_ =? IPPROTO_TCP); [by apply parse_ipv4_tcp_cases|].
      destruct (_ =? IPPROTO_UDP); [by apply parse_ipv4_udp_cases|]. intros [= <- <-]. cbn. auto. }
    destruct a as [q|]; cbn in Ht; [|done]. destruct Ht as (_ & _ & Hp).
    assert (heap_wf h1 ∧ blocks h1 !! b = Some d) as [Hwf1 Hb1].
    { destruct Hp as [[_ ->]|Ha]; [done|].
      split; [by eapply allocates_wf|by eapply allocates_keeps]. }
    minv H. minv H. injection H as <- <-.
    eapply store_headers_holds; [|by eapply store_raw_holds|done].
    apply store_raw_cases in E6 as [Ha _]. by eapply allocates_wf.
  - minv H. destruct a as [r' p']. injection H as -> <- <-. unfold packet_parse_ipv6 in E0.
    minv E0. injection E0 as <- <-. by eapply store_raw_holds.
Qed.

(** C8: whatever the bytes and whichever allocations fail, freeing the packet
    that [packet_parse] filled in frees each of its buffers once and leaves
    exactly the objects that were there before the parse; a parse that returns an
    error has not touched memory at all, so its caller has nothing to clean up. *)
Theorem packet_parse_free_restores_heap data len h r q h' :
  heap_wf h → packet_parse data len (Some packet_zero) h = Ok ((r, q), h') →
  (∃ h'', packet_free q h' = Ok (Some packet_zero, h'') ∧ blocks h'' = blocks h) ∧
  (r = 0 ∨ r = -1 ∧ h' = h).
Proof.
  intros Hwf H. split; [|apply packet_parse_cases in H as (p & _ & [(-> & -> & _)|[-> _]]); auto].
  apply packet_parse_cases in H as (p & -> & Hp).
  destruct Hp as [(-> & -> & Hp)|[-> Hp]].
  - assert (no_buffers p) as (E1 & E2 & E3) by by destruct Hp as [->|].
    eexists. split; [apply packet_free_ok; unfold buffers_live; by rewrite E1, E2, E3|].
    cbn. unfold without_buffers. by rewrite E1, E2, E3.
  - destruct (parse_allocs_live _ _ _ Hwf Hp) as (Hl & Hw & _).
    eexists. split; [by apply packet_free_ok|]. done.
Qed.

(** A TCP segment carrying [GET /] behind 20-byte IPv4 and TCP headers. *)
Definition sample_datagram : list Z :=
  [69; 0; 0; 45; 0; 1; 64; 0; 64; 6; 0; 0; 10; 0; 0; 1; 93; 184; 216; 34] ++
  [156; 64; 0; 80; 0; 0; 0; 1; 0; 0; 0; 0; 80; 24; 16; 0; 0; 0; 0; 0] ++ chars "GET /".

Lemma packet_parse_free_restores_heap_witness :
  let h := heap1 sample_datagram in
  ∃ r q h' h'', packet_parse (Ptr 0 0) 45 (Some packet_zero) h = Ok ((r, q), h') ∧
    packet_free q h' = Ok (Some packet_zero, h'') ∧ blocks h'' = blocks h.
Proof.
  destruct (packet_parse (Ptr 0 0) 45 (Some packet_zero) (heap1 sample_datagram))
    as [[[r q] h']|u] eqn:E; [|vm_compute in E; discriminate].
  destruct (packet_parse_free_restores_heap (Ptr 0 0) 45 (heap1 sample_datagram) r q h')
    as [(h'' & Ef & Eb) _]; [auto with cmem|exact E|].
  by exists r, q, h', h''.
Defined.

(** ** Parsing a well-formed TCP datagram *)

Definition ip_hlen (d : list Z) : Z := Z.land (byte_at d 0) 15 * 4.
Definition tcp_hlen (d : list Z) : Z := Z.shiftr (byte_at d (ip_hlen d + 12)) 4 * 4.

(** An IPv4 datagram whose two headers lie inside it. *)
Record tcp_datagram (d : list Z) : Prop := {
  td_bytes : Forall is_byte d;
  td_version : Z.shiftr (byte_at d 0) 4 = 4;
  td_protocol : byte_at d 9 = IPPROTO_TCP;
  td_ihl : 20 ≤ ip_hlen d;
  td_doff : 20 ≤ tcp_hlen d;
  td_fits : ip_hlen d + tcp_hlen d ≤ lenZ d;
  td_max : lenZ d ≤ 65535
}.

(** The packet the datagram describes, without its buffers. *)
Definition tcp_fields (d : list Z) (p : packet_t) : Prop :=
  is_ipv6 p = false ∧ ttl p = byte_at d 8 ∧
  w0 (src_ip p) = le32 (byte_at d 12) (byte_at d 13) (byte_at d 14) (byte_at d 15) ∧
  w0 (dst_ip p) = le32 (byte_at d 16) (byte_at d 17) (byte_at d 18) (byte_at d 19) ∧
  src_port p = be16 (byte_at d (ip_hlen d)) (byte_at d (ip_hlen d + 1)) ∧
  dst_port p = be16 (byte_at d (ip_hlen d + 2)) (byte_at d (ip_hlen d + 3)).

Section exec.
Context {h : heap} {b : nat} {d : list Z}.
Hypotheses (Hb : blocks h !! b = Some d) (Hwf : heap_wf h) (Hoom : no_oom h)
  (Hmax : lenZ d ≤ 65535).

Lemma malloc_copy_good o n :
  0 ≤ o → 0 ≤ n → o + n ≤ lenZ d →
  malloc_copy (Ptr b o) n h = Ok (Ptr (nxt h) 0, alloc h (slice o n d)).
Proof.
  intros. rewrite (malloc_copy_eq _ _ _ _ d) by done.
  rewrite alloc_fails_no_oom; [done..|unfold PTRDIFF_MAX; lia].
Qed.

Lemma store_raw_good p :
  store_raw (Ptr b 0) (lenZ d) p h =
    Ok (p <| raw_packet_len := lenZ d |> <| raw_packet := Ptr (nxt h) 0 |>, alloc h d).
Proof.
  unfold store_raw. pose proof (lenZ_nonneg d).
  erewrite bind_ok by (apply malloc_copy_good; lia). by rewrite slice_all.
Qed.

Lemma store_headers_tcp_good p :
  ip_hlen d + tcp_hlen d ≤ lenZ d → 20 ≤ ip_hlen d → 20 ≤ tcp_hlen d →
  store_headers (Ptr b 0) (Z.land (byte_at d 0) 15) IPPROTO_TCP p h =
    Ok (p <| headers_len := ip_hlen d + tcp_hlen d |> <| headers := Ptr (nxt h) 0 |>,
        alloc h (slice 0 (ip_hlen d + tcp_hlen d) d)).
Proof.
  intros Hfit Hi Ht. unfold store_headers. rewrite Z.eqb_refl. cbn [padd].
  fold (ip_hlen d). rewrite Z.add_0_l.
  erewrite bind_ok; [|erewrite bind_ok by (apply (load8_at Hb); lia); done].
  fold (tcp_hlen d). by erewrite bind_ok by (apply malloc_copy_good; lia).
Qed.

Lemma parse_ipv4_tcp_good p :
  Forall is_byte d → ip_hlen d + tcp_hlen d ≤ lenZ d → 20 ≤ ip_hlen d → 20 ≤ tcp_hlen d →
  let hl := ip_hlen d + tcp_hlen d in
  let p' := p <| src_port := be16 (byte_at d (ip_hlen d)) (byte_at d (ip_hlen d + 1)) |>
              <| dst_port := be16 (byte_at d (ip_hlen d + 2)) (byte_at d (ip_hlen d + 3)) |> in
  parse_ipv4_tcp (Ptr b 0) (lenZ d) (Z.land (byte_at d 0) 15) p h =
    if hl <? lenZ d then
      Ok (Some (p' <| type := PACKET_IPV4_TCP_DATA |> <| payload := Ptr (nxt h) 0 |>
                   <| payload_len := lenZ d - hl |>),
          alloc h (slice hl (lenZ d - hl) d))
    else Ok (Some (p' <| type := PACKET_IPV4_TCP |>), h).
Proof.
  intros Hby Hfit Hi Ht hl p'. unfold parse_ipv4_tcp. cbn [padd]. fold (ip_hlen d).
  rewrite Z.add_0_l, (proj2 (Z.ltb_ge (lenZ d) _)) by (unfold sizeof_iphdr, sizeof_tcphdr; lia).
  do 2 erewrite bind_ok by (apply (load16_at Hb); lia).
  erewrite bind_ok by (apply (load8_at Hb); lia). fold (tcp_hlen d).
  rewrite !ntohs_le16 by by apply byte_at_byte.
  replace (ip_hlen d + 2 + 1) with (ip_hlen d + 3) by lia. fold p'.
  assert (u64 (u64 (lenZ d - ip_hlen d) - tcp_hlen d) = lenZ d - hl) as ->
    by (unfold_u; unfold hl; rewrite (Z.mod_small (lenZ d - ip_hlen d)), Z.mod_small by lia; lia).
  destruct (Z.ltb_spec hl (lenZ d)).
  - rewrite (proj2 (Z.ltb_lt 0 _)) by lia. fold hl.
    erewrite bind_ok; [done|]. unfold store_payload.
    by erewrite bind_ok by (apply malloc_copy_good; unfold hl in *; lia).
  - by rewrite (proj2 (Z.ltb_ge 0 _)) by lia.
Qed.
End exec.

(** [h'] has the objects of [h] as they were and the buffers of [p], which are new
    objects, each its own: the headers, the payload and the raw packet of [d]. *)
Definition tcp_buffers (d : list Z) (h : heap) (p : packet_t) (h' : heap) : Prop :=
  let hl := ip_hlen d + tcp_hlen d in
  let owned q bs := ∃ b, q = Ptr b 0 ∧ blocks h !! b = None ∧ blocks h' !! b = Some bs in
  (∀ b l, blocks h !! b = Some l → blocks h' !! b = Some l) ∧
  (owned (raw_packet p) d ∧ raw_packet_len p = lenZ d) ∧
  (owned (headers p) (slice 0 hl d) ∧ headers_len p = hl) ∧
  (raw_packet p ≠ headers p ∧ raw_packet p ≠ payload p ∧ headers p ≠ payload p) ∧
  if hl <? lenZ d then
    type p = PACKET_IPV4_TCP_DATA ∧
    owned (payload p) (slice hl (lenZ d - hl) d) ∧ payload_len p = lenZ d - hl
  else type p = PACKET_IPV4_TCP ∧ payload p = Null ∧ payload_len p = 0.

Lemma store_tail_good h0 b d p :
  blocks h0 !! b = Some d → heap_wf h0 → no_oom h0 → tcp_datagram d →
  ∃ p' h', (p1 ← store_raw (Ptr b 0) (lenZ d) p;
            p2 ← store_headers (Ptr b 0) (Z.land (byte_at d 0) 15) IPPROTO_TCP p1;
            mret (0, p2)) h0 = Ok ((0, p'), h') ∧
    p' = p <| raw_packet_len := lenZ d |> <| raw_packet := Ptr (nxt h0) 0 |>
           <| headers_len := ip_hlen d + tcp_hlen d |> <| headers := Ptr (S (nxt h0)) 0 |> ∧
    blocks h' = <[S (nxt h0) := slice 0 (ip_hlen d + tcp_hlen d) d]>
                  (<[nxt h0 := d]> (blocks h0)).
Proof.
  intros Hb Hwf Hoom [].
  erewrite bind_ok by by apply store_raw_good.
  erewrite bind_ok by (apply store_headers_tcp_good; eauto with cmem).
  by eexists _, _.
Qed.

Lemma fresh_lookup h b : heap_wf h → (nxt h ≤ b)%nat → blocks h !! b = None.
Proof. intros Hwf Hb. apply eq_None_not_Some. intros H%Hwf. lia. Qed.

(** Finds a buffer among the blocks just allocated. *)
Ltac buffer_at :=
  eexists; split_and!; [done|apply fresh_lookup; [done|lia]|
  repeat first [rewrite lookup_insert_eq; done | rewrite lookup_insert_ne by lia]].

Lemma packet_parse_ipv4_tcp_exec h b d p0 :
  blocks h !! b = Some d → heap_wf h → no_oom h → tcp_datagram d →
  ∃ p h', packet_parse_ipv4 (Ptr b 0) (lenZ d) p0 h = Ok ((0, p), h') ∧
    tcp_fields d p ∧ tcp_buffers d h p h'.
Proof.
  intros Hb Hwf Hoom Hd. pose proof Hd as [Hby Hver Hpro Hihl Hdoff Hfit Hmax].
  unfold packet_parse_ipv4. cbn [is_null orb padd]. rewrite !Z.add_0_l.
  rewrite (proj2 (Z.ltb_ge (lenZ d) _)) by (unfold sizeof_iphdr; lia).
  erewrite bind_ok by (apply (load8_at Hb); lia). rewrite Hver. cbn [negb Z.eqb Pos.eqb].
  change (4 =? 4) with true. cbn [negb].
  erewrite bind_ok by (apply (load8_at Hb); lia).
  do 2 erewrite bind_ok by (apply (load32_at Hb); lia).
  erewrite bind_ok by (apply (load8_at Hb); lia). rewrite Hpro, Z.eqb_refl.
  set (p1 := upd is_outbound _ _). set (hl := ip_hlen d + tcp_hlen d).
  pose proof (parse_ipv4_tcp_good Hb Hwf Hoom Hmax p1 Hby Hfit Hihl Hdoff) as Ht.
  cbn zeta in Ht. fold hl in Ht.
  destruct (Z.ltb_spec hl (lenZ d)) as [Hlt|Hge].
  - erewrite bind_ok by exact Ht.
    set (h1 := alloc h _) in *.
    edestruct (store_tail_good h1 b d) as (p' & h' & -> & -> & Hbl);
      [unfold h1; eauto with cmem..|].
    eexists _, _. split; [done|]. split; [done|].
    unfold tcp_buffers. fold hl. rewrite Hbl, (proj2 (Z.ltb_lt hl _)) by done. unfold h1. cbn.
    fold hl. split_and!.
    + intros b' l Hb'. assert (b' < nxt h)%nat by (apply Hwf; eauto).
      by rewrite !lookup_insert_ne by lia.
    + buffer_at.
    + done.
    + buffer_at.
    + done.
    + intros [=]; lia.
    + intros [=]; lia.
    + intros [=]; lia.
    + done.
    + buffer_at.
    + done.
  - erewrite bind_ok by exact Ht.
    edestruct (store_tail_good h b d) as (p' & h' & -> & -> & Hbl); [done..|].
    eexists _, _. split; [done|]. split; [done|].
    unfold tcp_buffers. fold hl. rewrite Hbl, (proj2 (Z.ltb_ge hl _)) by done. cbn.
    fold hl. split_and!.
    + intros b' l Hb'. assert (b' < nxt h)%nat by (apply Hwf; eauto).
      by rewrite !lookup_insert_ne by lia.
    + buffer_at.
    + done.
    + buffer_at.
    + done.
    + intros [=]; lia.
    + done.
    + done.
    + done.
    + done.
    + done.
Qed.

Lemma packet_parse_tcp_exec h b d p0 :
  blocks h !! b = Some d → heap_wf h → no_oom h → tcp_datagram d →
  ∃ p h', packet_parse (Ptr b 0) (lenZ d) (Some p0) h = Ok ((0, Some p), h') ∧
    tcp_fields d p ∧ tcp_buffers d h p h'.
Proof.
  intros Hb Hwf Hoom Hd.
  destruct (packet_parse_ipv4_tcp_exec h b d p0 Hb Hwf Hoom Hd) as (p & h' & E & Hf & Hbuf).
  pose proof Hd as [_ Hver _ Hi Ht Hfit _].
  exists p, h'. split_and!; [|done..]. unfold packet_parse. cbn [is_null orb].
  rewrite (proj2 (Z.ltb_ge (lenZ d) _)) by (unfold sizeof_iphdr; lia).
  erewrite bind_ok by (apply (load8_at Hb); lia). rewrite Hver.
  change (Z.land 4 15 =? 4) with true. cbv iota. by erewrite bind_ok by exact E.
Qed.

(** C3: a TCP/IPv4 datagram whose headers lie inside it is parsed, unless an
    allocation fails, into its TTL, addresses and host-order ports; the packet
    gets three new objects of its own, a copy of the datagram, of its two headers
    and of its payload if there is one, the header copy followed by the payload
    is the datagram, and the objects that were there, the caller's datagram among
    them, are unchanged. *)
Theorem packet_parse_tcp_correct h b d p0 :
  blocks h !! b = Some d → heap_wf h → no_oom h → tcp_datagram d →
  ∃ p h', packet_parse (Ptr b 0) (lenZ d) (Some p0) h = Ok ((0, Some p), h') ∧
    tcp_fields d p ∧ tcp_buffers d h p h' ∧
    slice 0 (headers_len p) d ++ slice (headers_len p) (payload_len p) d = d.
Proof.
  intros Hb Hwf Hoom Hd.
  destruct (packet_parse_tcp_exec h b d p0 Hb Hwf Hoom Hd) as (p & h' & E & Hf & Hbuf).
  pose proof Hd as [_ _ _ Hi Ht Hfit _]. exists p, h'. split_and!; [done..|].
  destruct Hbuf as (_ & _ & (_ & ->) & _ & Hp).
  destruct (Z.ltb_spec (ip_hlen d + tcp_hlen d) (lenZ d)).
  - destruct Hp as (_ & _ & ->). apply slice_cat; lia.
  - destruct Hp as (_ & _ & ->). apply slice_cat; lia.
Qed.

Lemma packet_parse_tcp_correct_witness :
  ∃ p h', packet_parse (Ptr 0 0) 45 (Some packet_zero) (heap1 sample_datagram)
            = Ok ((0, Some p), h') ∧
    tcp_fields sample_datagram p ∧ tcp_buffers sample_datagram (heap1 sample_datagram) p h'.
Proof.
  destruct (packet_parse_tcp_correct (heap1 sample_datagram) 0 sample_datagram packet_zero)
    as (p & h' & E & Hf & Hb & _).
  - reflexivity.
  - auto with cmem.
  - done.
  - split; [vm_decide|vm_compute; congruence..].
  - by exists p, h'.
Defined.

(** ** Parsing a datagram whose headers run past its end *)

(** An IPv4/TCP datagram of at least 40 bytes whose IHL and data offset say that
    the headers are longer than the datagram. *)
Record overlong_headers (d : list Z) : Prop := {
  oh_version : Z.shiftr (byte_at d 0) 4 = 4;
  oh_protocol : byte_at d 9 = IPPROTO_TCP;
  oh_min : 40 ≤ lenZ d;
  oh_max : lenZ d ≤ 65535;
  oh_bytes : Forall is_byte d;
  oh_doff_inside : ip_hlen d + 13 ≤ lenZ d;
  oh_over : lenZ d < ip_hlen d + tcp_hlen d
}.

Lemma hlen_bounds d : Forall is_byte d → 0 ≤ ip_hlen d ≤ 60 ∧ 0 ≤ tcp_hlen d ≤ 60.
Proof.
  intros Hd. unfold tcp_hlen. rewrite Z.shiftr_div_pow2 by lia.
  pose proof (byte_at_byte d (ip_hlen d + 12) Hd) as Hb. unfold is_byte in Hb.
  unfold ip_hlen at 1 2. change 15 with (Z.ones 4). rewrite Z.land_ones by lia.
  change (2 ^ 4) with 16. zmod.
Qed.

(** The payload length wraps to a size [malloc] refuses. *)
Lemma parse_ipv4_tcp_overlong h b d p :
  blocks h !! b = Some d → overlong_headers d →
  ∃ p', parse_ipv4_tcp (Ptr b 0) (lenZ d) (Z.land (byte_at d 0) 15) p h =
    Ok (Some p', skip_alloc h).
Proof.
  intros Hb [_ _ Hmin Hmax Hby Hin Hov]. unfold parse_ipv4_tcp. cbn [padd]. fold (ip_hlen d).
  destruct (hlen_bounds d Hby) as [Hi Ht].
  rewrite Z.add_0_l, (proj2 (Z.ltb_ge (lenZ d) _)) by (unfold sizeof_iphdr, sizeof_tcphdr; lia).
  do 2 erewrite bind_ok by (apply (load16_at Hb); lia).
  erewrite bind_ok by (apply (load8_at Hb); lia). fold (tcp_hlen d).
  set (plen := u64 (u64 (lenZ d - ip_hlen d) - tcp_hlen d)).
  assert (PTRDIFF_MAX < plen).
  { unfold plen, PTRDIFF_MAX. unfold_u. rewrite (Z.mod_small (lenZ d - ip_hlen d)) by lia.
    rewrite <- (Z.mod_add _ 1), Z.mod_small by lia. lia. }
  rewrite (proj2 (Z.ltb_lt 0 _)) by (unfold PTRDIFF_MAX in *; lia).
  eexists. erewrite bind_ok; [done|]. unfold store_payload.
  erewrite bind_ok; [done|]. apply malloc_copy_fail.
  unfold alloc_fails. by rewrite (proj2 (Z.ltb_lt _ _)).
Qed.

Lemma store_headers_overlong h b d p :
  blocks h !! b = Some d → heap_wf h → no_oom h → overlong_headers d →
  store_headers (Ptr b 0) (Z.land (byte_at d 0) 15) IPPROTO_TCP p h = UB OobRead.
Proof.
  intros Hb Hwf Hoom [_ _ Hmin Hmax Hby Hin Hov]. destruct (hlen_bounds d Hby) as [Hi Ht].
  unfold store_headers. rewrite Z.eqb_refl. cbn [padd]. fold (ip_hlen d). rewrite Z.add_0_l.
  erewrite bind_ok; [|erewrite bind_ok by (apply (load8_at Hb); lia); done].
  fold (tcp_hlen d). apply bind_ub, malloc_copy_oob with d; [done..|lia|lia|].
  apply alloc_fails_no_oom; [done|]. unfold PTRDIFF_MAX. lia.
Qed.

(** C27: [packet_parse] checks the datagram against the smallest headers only:
    when IHL and data offset announce longer headers than the datagram has, it
    reads past the end of the datagram while copying the headers. *)
Theorem packet_parse_overreads_headers h b d p0 :
  blocks h !! b = Some d → heap_wf h → no_oom h → overlong_headers d →
  packet_parse (Ptr b 0) (lenZ d) (Some p0) h = UB OobRead.
Proof.
  intros Hb Hwf Hoom Hd. pose proof Hd as [Hver Hpro Hmin Hmax Hby _ _].
  unfold packet_parse. cbn [is_null orb].
  rewrite (proj2 (Z.ltb_ge (lenZ d) _)) by (unfold sizeof_iphdr; lia).
  erewrite bind_ok by (apply (load8_at Hb); lia). rewrite Hver.
  change (Z.land 4 15 =? 4) with true. cbv iota. apply bind_ub.
  unfold packet_parse_ipv4. cbn [is_null orb padd]. rewrite !Z.add_0_l.
  rewrite (proj2 (Z.ltb_ge (lenZ d) _)) by (unfold sizeof_iphdr; lia).
  erewrite bind_ok by (apply (load8_at Hb); lia). rewrite Hver.
  change (4 =? 4) with true. cbn [negb].
  erewrite bind_ok by (apply (load8_at Hb); lia).
  do 2 erewrite bind_ok by (apply (load32_at Hb); lia).
  erewrite bind_ok by (apply (load8_at Hb); lia). rewrite Hpro, Z.eqb_refl.
  set (p1 := upd is_outbound _ _).
  destruct (parse_ipv4_tcp_overlong h b d p1 Hb Hd) as [p2 E].
  erewrite bind_ok by exact E. cbv beta iota.
  erewrite bind_ok by (apply store_raw_good; auto with cmem).
  apply bind_ub, store_headers_overlong; auto with cmem.
Qed.

Lemma packet_parse_overreads_headers_witness :
  packet_parse (Ptr 0 0) 40 (Some packet_zero)
    (heap1 (take 32 sample_datagram ++ [240] ++ replicate 7 0)) = UB OobRead.
Proof.
  apply (packet_parse_overreads_headers
           (heap1 (take 32 sample_datagram ++ [240] ++ replicate 7 0)) 0
           (take 32 sample_datagram ++ [240] ++ replicate 7 0) packet_zero).
  - reflexivity.
  - auto with cmem.
  - done.
  - split; [vm_compute; congruence..|vm_decide|vm_compute; congruence|by vm_compute].
Defined.

(** ** Copying *)

(** [q] and [n] describe a buffer holding [o] ([None]: there is no buffer). *)
Definition buffer_is (h : heap) (q : ptr) (n : Z) (o : option (list Z)) : Prop :=
  match o with
  | None => q = Null
  | Some bs => bs ≠ [] ∧ lenZ bs ≤ PTRDIFF_MAX ∧ n = lenZ bs ∧
               ∃ b, q = Ptr b 0 ∧ blocks h !! b = Some bs
  end.

(** [h'] is [h] with more objects. *)
Definition extends (h h' : heap) : Prop :=
  (heap_wf h → heap_wf h') ∧ (no_oom h → no_oom h') ∧ (nxt h ≤ nxt h')%nat ∧
  ∀ b l, heap_wf h → blocks h !! b = Some l → blocks h' !! b = Some l.

#[export] Instance extends_preorder : PreOrder extends.
Proof.
  split.
  - intros h. unfold extends. auto.
  - intros h1 h2 h3 (W1 & O1 & N1 & B1) (W2 & O2 & N2 & B2). unfold extends.
    split_and!; auto. lia.
Qed.

Lemma extends_alloc h bs : extends h (alloc h bs).
Proof. unfold extends. split_and!; eauto with cmem. cbn. lia. Qed.

Lemma buffer_is_extends h h' q n o :
  extends h h' → heap_wf h → buffer_is h q n o → buffer_is h' q n o.
Proof.
  intros (_ & _ & _ & He) Hwf. destruct o as [bs|]; cbn; [|done].
  intros (? & ? & ? & b & -> & Hb). eauto 10.
Qed.

(** A buffer pointer of [h'] that [h] did not have. *)
Definition fresh_in (h : heap) (q : ptr) (h' : heap) : Prop :=
  match q with Null => True | Ptr b _ => (nxt h ≤ b < nxt h')%nat end.

Lemma copy_buffer_ok h q n o :
  heap_wf h → no_oom h → buffer_is h q n o →
  ∃ q' n' h', copy_buffer q n h = Ok ((q', n'), h') ∧
    buffer_is h' q' n' o ∧ fresh_in h q' h' ∧ extends h h'.
Proof.
  intros Hwf Hoom. destruct o as [bs|]; cbn.
  - intros (Hne & Hmax & -> & b & -> & Hb). unfold copy_buffer. cbn [is_null negb andb].
    assert (0 < lenZ bs) by (destruct bs; [done|rewrite lenZ_cons; pose proof (lenZ_nonneg bs); lia]).
    rewrite (proj2 (Z.ltb_lt 0 _)) by done.
    eexists _, _, _. split.
    { erewrite bind_ok; [done|]. rewrite (malloc_copy_eq _ _ _ _ bs) by (done || lia).
      rewrite alloc_fails_no_oom by done. by rewrite slice_all. }
    split; [|split; [cbn; lia|apply extends_alloc]].
    split_and!; [done..|]. eexists. split; [done|]. apply lookup_insert_eq.
  - intros ->. eexists _, _, _. split; [done|]. done.
Qed.

(** [packet_copy] is a deep copy: every scalar field is copied, each buffer
    is a new object with the same contents and length, and no object of the
    source is touched. *)
Theorem packet_copy_deep h src d pl hd rw :
  heap_wf h → no_oom h →
  buffer_is h (payload src) (payload_len src) pl →
  buffer_is h (headers src) (headers_len src) hd →
  buffer_is h (raw_packet src) (raw_packet_len src) rw →
  ∃ c h', packet_copy (Some src) (Some d) h = Ok ((0, Some c), h') ∧
    (is_ipv6 c, is_outbound c, direction c, type c, ttl c) =
      (is_ipv6 src, is_outbound src, direction src, type src, ttl src) ∧
    (src_ip c, dst_ip c, src_port c, dst_port c, nfqueue_id c) =
      (src_ip src, dst_ip src, src_port src, dst_port src, nfqueue_id src) ∧
    buffer_is h' (payload c) (payload_len c) pl ∧
    buffer_is h' (headers c) (headers_len c) hd ∧
    buffer_is h' (raw_packet c) (raw_packet_len c) rw ∧
    Forall (λ q, fresh_in h q h') [payload c; headers c; raw_packet c] ∧
    ∀ b l, blocks h !! b = Some l → blocks h' !! b = Some l.
Proof.
  intros Hwf Hoom Hp Hh Hr.
  destruct (copy_buffer_ok _ _ _ _ Hwf Hoom Hp) as (p1 & n1 & h1 & E1 & B1 & F1 & X1).
  pose proof X1 as (W1 & O1 & N1 & _).
  eapply (buffer_is_extends h h1) in Hh, Hr; [|done..].
  destruct (copy_buffer_ok _ _ _ _ (W1 Hwf) (O1 Hoom) Hh) as (p2 & n2 & h2 & E2 & B2 & F2 & X2).
  pose proof X2 as (W2 & O2 & N2 & _).
  eapply (buffer_is_extends h1 h2) in Hr, B1; [|auto..].
  destruct (copy_buffer_ok _ _ _ _ (W2 (W1 Hwf)) (O2 (O1 Hoom)) Hr)
    as (p3 & n3 & h3 & E3 & B3 & F3 & X3).
  pose proof X3 as (_ & _ & N3 & _).
  eapply (buffer_is_extends h2 h3) in B1, B2; [|auto..].
  assert (extends h h3) as (_ & _ & _ & B) by (etrans; [done|]; by etrans).
  unfold packet_copy. eexists _, h3. split.
  { erewrite bind_ok by exact E1. cbv beta iota. erewrite bind_ok by exact E2. cbv beta iota.
    by erewrite bind_ok by exact E3. }
  do 2 (split; [done|]). split; [exact B1|]. split; [exact B2|]. split; [exact B3|].
  split; [|eauto]. repeat constructor; cbn; unfold fresh_in in *;
    [destruct p1|destruct p2|destruct p3]; (done || lia).
Qed.

Lemma packet_copy_deep_witness :
  let p := packet_zero <| type := PACKET_IPV4_TCP_DATA |> <| payload := Ptr 0 0 |>
                       <| payload_len := 5 |> in
  ∃ c h', packet_copy (Some p) (Some packet_zero) (heap1 (chars "GET /")) = Ok ((0, Some c), h') ∧
    buffer_is h' (payload c) (payload_len c) (Some (chars "GET /")).
Proof.
  intros p. destruct (packet_copy_deep (heap1 (chars "GET /")) p packet_zero
                        (Some (chars "GET /")) None None) as (c & h' & E & _ & _ & B & _).
  - auto with cmem.
  - done.
  - split_and!; [done|by vm_compute|done|]. by exists 0%nat.
  - done.
  - done.
  - by exists c, h'.
Defined.

(** ** Classification *)

(** The methods [packet_is_http] looks for. *)
Definition method_names : list (list Z) :=
  [chars "GET"; chars "POST"; chars "HEAD"; chars "PUT"; chars "DELETE"].

Lemma strncmp_lit m l :
  no_nul m → (length m ≤ length l)%nat →
  ∃ v, strncmp (length m) l (m ++ [0]) = Ok v ∧ (v =? 0) = prefixb m l.
Proof.
  revert l. induction m as [|a m IH]; intros [|c l] Hm Hl; cbn in *; try lia; eauto.
  apply no_nul_cons in Hm as [Ha Hm]. rewrite (Z.eqb_sym a c).
  destruct (Z.eqb_spec c a) as [->|Hne].
  - rewrite (proj2 (Z.eqb_neq a 0)) by done. apply IH; [done|lia].
  - eexists. split; [done|]. cbn. apply Z.eqb_neq. lia.
Qed.

Lemma any_strncmp_ok l ms :
  Forall no_nul ms → Forall (λ m, (length m ≤ length l)%nat) ms →
  any_strncmp l ((λ m, (m ++ [0], length m)) <$> ms) = Ok (existsb (λ m, prefixb m l) ms).
Proof.
  induction ms as [|m ms IH]; [done|]. intros [Hm Hms]%Forall_cons [Hl Hls]%Forall_cons. cbn.
  destruct (strncmp_lit m l Hm Hl) as (v & -> & Hv). unfold mbind, outcome_bind. rewrite Hv.
  destruct (prefixb m l); [done|]. by apply IH.
Qed.

(** An HTTP request to port 80, of at least six bytes. *)
Definition http_request (p : packet_t) (l : list Z) : bool :=
  packet_is_tcp (Some p) && (dst_port p =? 80) && existsb (λ m, prefixb m l) method_names.

Lemma packet_is_http_ok h b p l :
  payload p = Ptr b 0 → blocks h !! b = Some l → payload_len p = lenZ l → 6 ≤ lenZ l →
  packet_is_http (Some p) h = Ok (http_request p l, h).
Proof.
  intros Hp Hb Hl Hlen. unfold packet_is_http, http_request. rewrite Hp. cbn [is_null].
  rewrite orb_false_r. destruct (packet_is_tcp (Some p)); [|done]. cbn [negb].
  rewrite Hl, (proj2 (Z.leb_le 3 (lenZ l))), andb_true_r by lia.
  destruct (dst_port p =? 80); [|done].
  erewrite bind_ok by (apply tail_bytes_ok with (bs := l); [done|lia]). rewrite drop_0.
  apply lift_ok. apply (any_strncmp_ok l method_names).
  - repeat constructor; vm_decide.
  - unfold lenZ in Hlen. repeat constructor; cbn; lia.
Qed.

(** On a payload of six bytes or more [packet_is_http] says whether the
    segment goes to port 80 and starts with one of the five methods; on the
    three bytes [POS], which pass its length test, it reads past the payload. *)
Theorem packet_is_http_decides h b p l :
  payload p = Ptr b 0 → blocks h !! b = Some l → payload_len p = lenZ l →
  (6 ≤ lenZ l →
   ∃ r, packet_is_http (Some p) h = Ok (r, h) ∧
     (r = true ↔ packet_is_tcp (Some p) = true ∧ dst_port p = 80 ∧
                 ∃ m, m ∈ method_names ∧ m `prefix_of` l)) ∧
  (packet_is_tcp (Some p) = true → dst_port p = 80 → l = chars "POS" →
   packet_is_http (Some p) h = UB OobRead).
Proof.
  intros Hp Hb Hl. split.
  - intros Hlen. eexists. split; [by eapply packet_is_http_ok|]. unfold http_request.
    rewrite !andb_true_iff, Z.eqb_eq, existsb_exists.
    setoid_rewrite prefixb_spec. setoid_rewrite <- list_elem_of_In. tauto.
  - intros Ht Hd ->. unfold packet_is_http. rewrite Ht, Hp, Hd, Hl. cbn [is_null negb orb].
    change ((80 =? 80) && (3 <=? lenZ (chars "POS"))) with true. cbv iota.
    erewrite bind_ok by (apply tail_bytes_ok with (bs := chars "POS"); [done|by vm_compute]).
    reflexivity.
Qed.

Lemma packet_is_http_decides_witness :
  let p := packet_zero <| type := PACKET_IPV4_TCP_DATA |> <| payload := Ptr 0 0 |>
                       <| payload_len := 14 |> <| dst_port := 80 |> in
  ∃ r, packet_is_http (Some p) (heap1 (chars "GET / HTTP/1.1")) =
         Ok (r, heap1 (chars "GET / HTTP/1.1")).
Proof.
  intros p. destruct (packet_is_http_decides (heap1 (chars "GET / HTTP/1.1")) 0 p
                        (chars "GET / HTTP/1.1")) as [H _]; [done..|].
  destruct H as (r & E & _); [by vm_compute|]. by exists r.
Defined.

(** ** Changing the TTL *)

(** [packet_set_ttl] on a header-only IPv4 segment changes byte 8 of the raw
    packet and no other byte of memory (in particular not the header checksum);
    on a segment with data it reports an error after changing the structure. *)
Theorem packet_set_ttl_changes_one_byte h b p l t :
  raw_packet p = Ptr b 0 → blocks h !! b = Some l → 20 ≤ lenZ l →
  (type p = PACKET_IPV4_TCP →
   packet_set_ttl (Some p) t h =
     Ok ((0, Some (p <| ttl := t |>)), with_blocks h (<[b := <[8%nat := t]> l]> (blocks h)))) ∧
  (type p = PACKET_IPV4_TCP_DATA →
   packet_set_ttl (Some p) t h = Ok ((-1, Some (p <| ttl := t |>)), h)).
Proof.
  intros Hr Hb Hl. split; intros Ht; unfold packet_set_ttl; rewrite Hr; cbn [is_null].
  - change (type (p <| ttl := t |>)) with (type p). rewrite Ht. cbn [type_eqb].
    change (type_eqb PACKET_IPV4_TCP PACKET_IPV4_TCP) with true. cbv iota.
    change (raw_packet (p <| ttl := t |>)) with (raw_packet p). rewrite Hr. cbn [padd].
    erewrite bind_ok; [done|]. unfold store8. unfold lenZ in Hl.
    rewrite (put_bytes_ok _ _ _ _ l); [|done|lia|unfold lenZ; cbn; lia].
    do 4 f_equal. unfold splice. change (Z.to_nat (0 + 8)) with 8%nat. cbn [length].
    symmetry. apply insert_take_drop. lia.
  - change (type (p <| ttl := t |>)) with (type p). by rewrite Ht.
Qed.

Lemma packet_set_ttl_changes_one_byte_witness :
  let p := packet_zero <| type := PACKET_IPV4_TCP |> <| raw_packet := Ptr 0 0 |> in
  packet_set_ttl (Some p) 5 (heap1 (take 40 sample_datagram)) =
    Ok ((0, Some (p <| ttl := 5 |>)), heap1 (<[8%nat := 5]> (take 40 sample_datagram))).
Proof.
  intros p. destruct (packet_set_ttl_changes_one_byte (heap1 (take 40 sample_datagram)) 0 p
                        (take 40 sample_datagram) 5) as [H _]; [done|done|by vm_compute|].
  rewrite H by done. by rewrite heap1_insert.
Defined.
