(* ===== verification/RawSocket.v ===== *)
(** * src/capture/raw_socket.c: the two raw sockets

    The file-scope descriptors are a record; what the operating system answers
    to [socket], [send] and [recvfrom] is a parameter, and the effects on it
    ([close], [send]) are returned. *)

From S2P Require Import Prelude.

Record raw_sockets : Type := mkSockets { raw_socket_fd : Z; raw_socket_ipv6_fd : Z }.

#[export] Instance eta_sockets : Eta raw_sockets := λ s,
  mkSockets (raw_socket_fd s) (raw_socket_ipv6_fd s).

(** Static initialisers. *)
Definition raw_sockets_init : raw_sockets := mkSockets (-1) (-1).

(** [fd4] and [fd6] are the results of the two [socket] calls; the last
    component of the result are the descriptors closed.  The [setsockopt] calls
    only log. *)
Definition setup_raw_socket (fd4 fd6 : Z) (s : raw_sockets) : Z * raw_sockets * list Z :=
  let s := s <| raw_socket_fd := fd4 |> in
  if raw_socket_fd s <? 0 then (-1, s, []) else
  let s := s <| raw_socket_ipv6_fd := fd6 |> in
  if raw_socket_ipv6_fd s <? 0 then (-1, s <| raw_socket_fd := -1 |>, [raw_socket_fd s])
  else (0, s, []).

Definition cleanup_raw_socket (s : raw_sockets) : raw_sockets * list Z :=
  let '(s, c4) := if 0 <=? raw_socket_fd s
                  then (s <| raw_socket_fd := -1 |>, [raw_socket_fd s]) else (s, []) in
  let '(s, c6) := if 0 <=? raw_socket_ipv6_fd s
                  then (s <| raw_socket_ipv6_fd := -1 |>, [raw_socket_ipv6_fd s]) else (s, []) in
  (s, c4 ++ c6).

Definition is_raw_socket_ready (s : raw_sockets) : bool :=
  (0 <=? raw_socket_fd s) && (0 <=? raw_socket_ipv6_fd s).

Definition get_raw_socket_fds (s : raw_sockets) : Z * Z * Z :=
  (raw_socket_fd s, raw_socket_ipv6_fd s, if is_raw_socket_ready s then 0 else -1).

(** A packet handed to [send]: the descriptor and the bytes. *)
Definition sent : Type := Z * list Z.

Section send.
(** The operating system's answer to [send(fd, bytes)]. *)
Variable os_send : Z → list Z → Z.

Definition send_raw_packet (s : raw_sockets) (data : ptr) (len : Z) (is_ipv6 : bool)
    : M (Z * list sent) :=
  let sock_fd := if is_ipv6 then raw_socket_ipv6_fd s else raw_socket_fd s in
  if sock_fd <? 0 then mret (-1, []) else
  bs ← get_bytes data len;
  let n := os_send sock_fd bs in
  if n <? 0 then mret (-1, [(sock_fd, bs)]) else mret (0, [(sock_fd, bs)]).
End send.

(** [received] is the result of [recvfrom] and [again] whether [errno] is
    [EAGAIN] or [EWOULDBLOCK]. *)
Definition receive_raw_packet (s : raw_sockets) (is_ipv6 : bool) (received : Z) (again : bool) : Z :=
  let sock_fd := if is_ipv6 then raw_socket_ipv6_fd s else raw_socket_fd s in
  if sock_fd <? 0 then -1 else
  if received <? 0 then if again then 0 else -1 else sint 32 received.

(** ** Lemmas *)

#[export] Instance send_raw_packet_read_only os s d n v6 : ReadOnly (send_raw_packet os s d n v6).
Proof. unfold send_raw_packet. destruct v6; apply _. Qed.

(** [setup_raw_socket] opens both sockets or none: on success both
    descriptors are usable and nothing was closed; on failure no descriptor is
    left open, so calling [cleanup_raw_socket] after it closes nothing twice;
    after a success [cleanup_raw_socket] closes exactly the two descriptors. *)
Theorem setup_raw_socket_all_or_nothing fd4 fd6 :
  let '(r, s, closed) := setup_raw_socket fd4 fd6 raw_sockets_init in
  if is_raw_socket_ready s
  then r = 0 ∧ closed = [] ∧ 0 ≤ fd4 ∧ 0 ≤ fd6 ∧
       cleanup_raw_socket s = (raw_sockets_init, [fd4; fd6])
  else r = -1 ∧ raw_socket_fd s < 0 ∧ raw_socket_ipv6_fd s < 0 ∧
       closed = (if 0 <=? fd4 then [fd4] else []) ∧ (cleanup_raw_socket s).2 = [].
Proof.
  unfold setup_raw_socket, cleanup_raw_socket, is_raw_socket_ready. cbn.
  zcases; split_and!; try done; lia.
Qed.
