(* ===== verification/Evasion.v ===== *)
(** * src/evasion/fragmentation.c, fake_packets.c and header_mangle.c

    The global [config] is an argument.  The out parameters of the packet
    builders are results: the return value, the buffer and its length. *)

From S2P Require Import Prelude CString StringUtils Types Packet RawSocket.

(** ** fragmentation.c *)

Definition evasion_fragment_packet (packet : option packet_t) (fragment_size : Z) : Z :=
  match packet with
  | None => -1
  | Some p => if is_null (raw_packet p) || (fragment_size =? 0) then -1 else 0
  end.

(** ** fake_packets.c *)

Definition create_fake_reset_packet (original_packet : option packet_t) : M (Z * ptr * Z) :=
  match original_packet with
  | None => mret (-1, Null, 0)
  | Some p =>
      let fake_packet_len := headers_len p in
      fake_packet ← malloc fake_packet_len;
      if is_null fake_packet then mret (-1, Null, fake_packet_len) else
      memcpy fake_packet (headers p) (headers_len p) ;;
      mret (0, fake_packet, fake_packet_len)
  end.

Definition CRLF : list Z := [13; 10].

Definition fake_response : list Z :=
  chars "HTTP/1.1 200 OK" ++ CRLF ++ chars "Content-Type: text/html" ++ CRLF ++
  chars "Content-Length: 0" ++ CRLF ++ chars "Connection: close" ++ CRLF ++ CRLF.

(** Headers of the original packet followed by the constant bytes [body]. *)
Definition headers_and_body (original_packet : option packet_t) (body : list Z) : M (Z * ptr * Z) :=
  match original_packet with
  | None => mret (-1, Null, 0)
  | Some p =>
      let fake_packet_len := u64 (headers_len p + lenZ body) in
      fake_packet ← malloc fake_packet_len;
      if is_null fake_packet then mret (-1, Null, fake_packet_len) else
      memcpy fake_packet (headers p) (headers_len p) ;;
      put_bytes (padd fake_packet (headers_len p)) body ;;
      mret (0, fake_packet, fake_packet_len)
  end.

Definition create_fake_http_response (original_packet : option packet_t) : M (Z * ptr * Z) :=
  headers_and_body original_packet fake_response.

(** [fake_dns[64] = {0}; fake_dns[2] = 0x81; fake_dns[3] = 0x80;] *)
Definition fake_dns : list Z := [0; 0; 129; 128] ++ replicate 60 0.

Definition create_fake_dns_response (original_packet : option packet_t) : M (Z * ptr * Z) :=
  headers_and_body original_packet fake_dns.

Section inject.
Variable os_send : Z → list Z → Z.
Variable config : goodbyedpi_config_t.
Variable socks : raw_sockets.

Definition evasion_inject_fake_packet (original_packet : option packet_t) : M (Z * list sent) :=
  match original_packet with
  | None => mret (-1, [])
  | Some p =>
      '(result, fake, fake_len) ←
        (if type_eqb (type p) PACKET_IPV4_TCP || type_eqb (type p) PACKET_IPV6_TCP then
           if fake_packet config then create_fake_reset_packet original_packet
           else mret (-1, Null, 0)
         else if type_eqb (type p) PACKET_IPV4_UDP_DATA || type_eqb (type p) PACKET_IPV6_UDP_DATA then
           if (src_port p =? 53) || (dst_port p =? 53)
           then create_fake_dns_response original_packet
           else mret (-1, Null, 0)
         else mret (-1, Null, 0));
      '(result, out) ←
        (if (result =? 0) && negb (is_null fake) && (0 <? fake_len)
         then send_raw_packet os_send socks fake fake_len (is_ipv6 p)
         else mret (result, []));
      (if is_null fake then mret tt else free fake) ;;
      mret (result, out)
  end.

Definition send_fake_packet_with_ttl (original_packet : option packet_t) (t : Z)
    : M (Z * list sent) :=
  match original_packet with
  | None => mret (-1, [])
  | Some p =>
      '(result, fake, fake_len) ← create_fake_reset_packet original_packet;
      if negb (result =? 0) then mret (result, []) else
      '(result, out) ← send_raw_packet os_send socks fake fake_len (is_ipv6 p);
      free fake ;;
      mret (result, out)
  end.
End inject.

(** ** header_mangle.c *)

Section mangle.
Variable config : goodbyedpi_config_t.

(** [host_header] is the offset of "\r\nHost:" in the payload [pb].  The
    structure's [payload_len] is updated; the local [payload_len] is not. *)
Definition mangle_mixedcase (pb : ptr) (host_header : Z) : M unit :=
  if host_mixedcase config then
    let host_start := padd pb (host_header + 7) in
    l ← tail_bytes host_start;
    r ← lift (strstr l (CRLF ++ [0]));
    match r with
    | Some n => mix_case host_start (Z.of_nat n)
    | None => mret tt
    end
  else mret tt.

Definition host_key : list Z := CRLF ++ chars "Host:".

Definition mangle_addspace (pb : ptr) (host_header plen : Z) (p : packet_t) : M packet_t :=
  if additional_space config then
    l ← tail_bytes (padd pb host_header);
    v ← (if 7 <=? plen then lift (strncmp 7 l (host_key ++ [0])) else mret 1);
    if v =? 0 then
      memmove (padd pb (host_header + 8)) (padd pb (host_header + 7)) (u64 (u64 (plen - host_header) - 7)) ;;
      store8 (padd pb (host_header + 7)) 32 ;;
      store8 (padd pb (host_header + 8)) 32 ;;
      mret (p <| payload_len := u64 (payload_len p + 1) |>)
    else mret p
  else mret p.

Definition mangle_removespace (pb : ptr) (host_header plen : Z) (p : packet_t) : M packet_t :=
  if host_removespace config then
    l ← tail_bytes (padd pb host_header);
    v ← (if 8 <=? plen then lift (strncmp 8 l (host_key ++ [32; 0])) else mret 1);
    if v =? 0 then
      memmove (padd pb (host_header + 7)) (padd pb (host_header + 8)) (u64 (u64 (plen - host_header) - 8)) ;;
      mret (p <| payload_len := u64 (payload_len p - 1) |>)
    else mret p
  else mret p.

Definition mangle_uppercase (pb : ptr) (host_header : Z) : M unit :=
  if host_uppercase config then
    let host_start := padd pb (host_header + 7) in
    l ← tail_bytes host_start;
    r ← lift (strstr l (CRLF ++ [0]));
    match r with Some _ => string_to_upper host_start | None => mret tt end
  else mret tt.

Definition modify_http_headers (p : packet_t) : M (Z * packet_t) :=
  let pb := payload p in
  let plen := payload_len p in
  l ← tail_bytes pb;
  r ← lift (strstr l (host_key ++ [0]));
  match r with
  | None => mret (-1, p)
  | Some n =>
      let host_header := Z.of_nat n in
      mangle_mixedcase pb host_header ;;
      p ← mangle_addspace pb host_header plen p;
      p ← mangle_removespace pb host_header plen p;
      mangle_uppercase pb host_header ;;
      mret (0, p)
  end.

Definition modify_tcp_headers (p : packet_t) : Z := 0.

Definition evasion_modify_headers (packet : option packet_t) : M (Z * option packet_t) :=
  match packet with
  | None => mret (-1, None)
  | Some p =>
      if is_null (payload p) || (payload_len p =? 0) then mret (-1, packet) else
      if negb (type_eqb (type p) PACKET_IPV4_TCP_DATA) && negb (type_eqb (type p) PACKET_IPV6_TCP_DATA)
      then mret (-1, packet) else
      let is_http := (dst_port p =? 80) || (src_port p =? 80) in
      let is_https := (dst_port p =? 443) || (src_port p =? 443) in
      if negb is_http && negb is_https then mret (-1, packet) else
      if is_http then '(r, p) ← modify_http_headers p; mret (r, Some p)
      else mret (modify_tcp_headers p, packet)
  end.
End mangle.

Definition apply_wrong_checksum (packet : option packet_t) : Z :=
  match packet with Some p => if is_null (raw_packet p) then -1 else 0 | None => -1 end.
Definition apply_wrong_sequence (packet : option packet_t) : Z :=
  match packet with Some p => if is_null (raw_packet p) then -1 else 0 | None => -1 end.

(** ** Fake packets *)

Lemma malloc_cases n h q h' :
  malloc n h = Ok (q, h') →
  (q = Null ∧ h' = skip_alloc h) ∨ ∃ l, q = Ptr (nxt h) 0 ∧ h' = alloc h l.
Proof. rewrite malloc_eq. destruct (alloc_fails h n); intros [= <- <-]; eauto. Qed.

(** A builder hands out one new object or reports an error with none. *)
Definition builds (h : heap) (r : Z) (q : ptr) (h' : heap) : Prop :=
  (r = -1 ∧ q = Null ∧ blocks h' = blocks h) ∨
  ∃ l, r = 0 ∧ q = Ptr (nxt h) 0 ∧ h' = alloc h l.

Lemma create_fake_reset_packet_builds p h r q n h' :
  create_fake_reset_packet p h = Ok ((r, q, n), h') → builds h r q h'.
Proof.
  unfold create_fake_reset_packet. destruct p as [p|]; [|intros [= <- <- _ <-]; by left].
  intros H. minv H. apply malloc_cases in E as [[-> ->]|(l & -> & ->)]; cbn [is_null] in H.
  - injection H as <- <- _ <-. by left.
  - minv H. apply memcpy_alloc_inv in E as [l' ->]. injection H as <- <- _ <-. right. eauto.
Qed.

Lemma headers_and_body_builds p body h r q n h' :
  headers_and_body p body h = Ok ((r, q, n), h') → builds h r q h'.
Proof.
  unfold headers_and_body. destruct p as [p|]; [|intros [= <- <- _ <-]; by left].
  intros H. minv H. apply malloc_cases in E as [[-> ->]|(l & -> & ->)]; cbn [is_null] in H.
  - injection H as <- <- _ <-. by left.
  - minv H. apply memcpy_alloc_inv in E as [l' ->]. minv H.
    apply put_bytes_alloc_inv in E as [l'' ->]. injection H as <- <- _ <-. right. eauto.
Qed.

Lemma inject_builds config p h r q n h' :
  (if type_eqb (type p) PACKET_IPV4_TCP || type_eqb (type p) PACKET_IPV6_TCP then
     if fake_packet config then create_fake_reset_packet (Some p) else mret (-1, Null, 0)
   else if type_eqb (type p) PACKET_IPV4_UDP_DATA || type_eqb (type p) PACKET_IPV6_UDP_DATA then
     if (src_port p =? 53) || (dst_port p =? 53) then create_fake_dns_response (Some p)
     else mret (-1, Null, 0)
   else mret (-1, Null, 0)) h = Ok ((r, q, n), h') → builds h r q h'.
Proof.
  repeat match goal with |- context [if ?c then _ else _] => destruct c end;
    first [apply create_fake_reset_packet_builds | apply headers_and_body_builds
          | intros [= <- <- _ <-]; by left].
Qed.

(** [evasion_inject_fake_packet] frees what it allocates and nothing else. *)
Lemma inject_blocks os config socks packet h r out h' :
  heap_wf h → evasion_inject_fake_packet os config socks packet h = Ok ((r, out), h') →
  blocks h' = blocks h.
Proof.
  intros Hwf. unfold evasion_inject_fake_packet. destruct packet as [p|]; [|by intros [= _ _ <-]].
  intros H. minv H. destruct a as [[r0 q] n]. apply inject_builds in E.
  assert (∃ r1 o1, (if (r0 =? 0) && negb (is_null q) && (0 <? n)
            then send_raw_packet os socks q n (is_ipv6 p) else mret (r0, [])) h0 = Ok ((r1, o1), h0)
            ∧ ((if is_null q then mret tt else free q) ;; mret (r1, o1)) h0 = Ok ((r, out), h'))
    as (r1 & o1 & _ & Hf).
  { minv H. destruct a as [r1 o1]. pose proof (read_only _ _ _ E0) as ->. by exists r1, o1. }
  destruct E as [(-> & -> & Eb)|(l & -> & -> & ->)]; cbn [is_null] in Hf.
  - unfold mbind, M_bind in Hf. cbn in Hf. by injection Hf as _ _ <-.
  - erewrite bind_ok in Hf by by apply free_alloc. by injection Hf as _ _ <-.
Qed.

Section inject_lemmas.
Context (os_send : Z → list Z → Z) (config : goodbyedpi_config_t) (socks : raw_sockets).

Definition sock_for (v6 : bool) : Z := if v6 then raw_socket_ipv6_fd socks else raw_socket_fd socks.

(** What sending the bytes [bs] over the socket of the family does. *)
Definition send_result (v6 : bool) (bs : list Z) : Z * list sent :=
  let fd := sock_for v6 in
  if fd <? 0 then (-1, []) else (if os_send fd bs <? 0 then -1 else 0, [(fd, bs)]).

Lemma send_raw_packet_ok h b bs v6 :
  blocks h !! b = Some bs →
  send_raw_packet os_send socks (Ptr b 0) (lenZ bs) v6 h = Ok (send_result v6 bs, h).
Proof.
  intros Hb. unfold send_raw_packet, send_result, sock_for.
  set (fd := if v6 then _ else _). destruct (fd <? 0); [done|].
  pose proof (lenZ_nonneg bs).
  erewrite bind_ok by (eapply get_bytes_ok; [done|lia..]). rewrite slice_all by done.
  by destruct (os_send fd bs <? 0).
Qed.

Lemma create_fake_reset_packet_ok h p hd :
  heap_wf h → no_oom h → buffer_is h (headers p) (headers_len p) (Some hd) →
  create_fake_reset_packet (Some p) h = Ok ((0, Ptr (nxt h) 0, lenZ hd), alloc h hd).
Proof.
  intros Hwf Hoom (Hne & Hmax & Hlen & b & Hp & Hb). unfold create_fake_reset_packet.
  rewrite Hp, Hlen. pose proof (lenZ_nonneg hd).
  pose proof (malloc_copy_eq h b 0 (lenZ hd) hd Hwf Hb) as Hc.
  rewrite alloc_fails_no_oom, slice_all in Hc by done. specialize (Hc ltac:(lia) ltac:(lia) ltac:(lia)).
  unfold malloc_copy, mbind, M_bind in *.
  rewrite malloc_eq, alloc_fails_no_oom in Hc by done.
  rewrite malloc_eq, alloc_fails_no_oom by done. cbn [is_null] in *.
  destruct (memcpy _ _ _ _) as [[[] h1]|]; [|done]. by injection Hc as ->.
Qed.

Lemma inject_header_only h p hd :
  heap_wf h → no_oom h → buffer_is h (headers p) (headers_len p) (Some hd) →
  type p = PACKET_IPV4_TCP → fake_packet config = true →
  evasion_inject_fake_packet os_send config socks (Some p) h =
    Ok (send_result (is_ipv6 p) hd, skip_alloc h).
Proof.
  intros Hwf Hoom Hb Ht Hf. unfold evasion_inject_fake_packet. rewrite Ht, Hf.
  change (type_eqb PACKET_IPV4_TCP PACKET_IPV4_TCP) with true. cbn [orb].
  erewrite bind_ok by by apply create_fake_reset_packet_ok. cbv beta iota.
  destruct Hb as (Hne & _). change (0 =? 0) with true. cbn [is_null negb andb].
  rewrite (proj2 (Z.ltb_lt 0 (lenZ hd))).
  2: { destruct hd; [done|]. rewrite lenZ_cons. pose proof (lenZ_nonneg hd). lia. }
  erewrite bind_ok by apply send_raw_packet_ok, alloc_lookup_new.
  destruct (send_result _ hd) as [r out]. by erewrite bind_ok by by apply free_alloc.
Qed.

Lemma inject_with_data p :
  type p = PACKET_IPV4_TCP_DATA →
  evasion_inject_fake_packet os_send config socks (Some p) = mret (-1, []).
Proof. intros Ht. unfold evasion_inject_fake_packet. by rewrite Ht. Qed.
End inject_lemmas.

(** With fake packets enabled, a header-only TCP segment makes
    [evasion_inject_fake_packet] hand exactly the copied headers, with no flag
    changed, to the raw socket of its family if that socket is open, and report
    whether [send] failed; a segment with data is refused and nothing is sent.
    Either way the objects of the heap are the same afterwards. *)
Theorem inject_fake_packet_sends_headers os_send config socks h p hd :
  heap_wf h → no_oom h → buffer_is h (headers p) (headers_len p) (Some hd) →
  fake_packet config = true → is_ipv6 p = false →
  (type p = PACKET_IPV4_TCP →
   ∃ r out h', evasion_inject_fake_packet os_send config socks (Some p) h = Ok ((r, out), h') ∧
    blocks h' = blocks h ∧
    (raw_socket_fd socks < 0 → r = -1 ∧ out = []) ∧
    (0 ≤ raw_socket_fd socks →
       out = [(raw_socket_fd socks, hd)] ∧ (r = 0 ↔ 0 ≤ os_send (raw_socket_fd socks) hd))) ∧
  (type p = PACKET_IPV4_TCP_DATA →
   evasion_inject_fake_packet os_send config socks (Some p) h = Ok ((-1, []), h)).
Proof.
  intros Hwf Hoom Hb Hf H4. split; intros Ht; [|by rewrite inject_with_data].
  pose proof (inject_header_only os_send config socks h p hd Hwf Hoom Hb Ht Hf) as E.
  rewrite H4 in E. unfold send_result, sock_for in E. rewrite E.
  destruct (Z.ltb_spec (raw_socket_fd socks) 0); eexists _, _, _; (split; [done|]);
    (split; [done|]); (split; [try done; lia|]); [lia|].
  intros _. split; [done|]. zcases; split; (done || lia).
Qed.

Lemma inject_fake_packet_sends_headers_witness :
  let p := packet_zero <| type := PACKET_IPV4_TCP |> <| headers := Ptr 0 0 |>
                       <| headers_len := 40 |> in
  let config := config_zero <| fake_packet := true |> in
  let h := heap1 (take 40 sample_datagram) in
  ∃ r out h', evasion_inject_fake_packet (λ _ bs, lenZ bs) config (mkSockets 5 6) (Some p) h
      = Ok ((r, out), h') ∧ r = 0 ∧ out = [(5, take 40 sample_datagram)].
Proof.
  intros p config h.
  destruct (inject_fake_packet_sends_headers (λ _ bs, lenZ bs) config (mkSockets 5 6) h p
              (take 40 sample_datagram)) as [H _].
  - apply heap1_wf.
  - done.
  - split_and!; [done|by vm_compute|done|]. by exists 0%nat.
  - done.
  - done.
  - destruct (H eq_refl) as (r & out & h' & E & _ & _ & Ho).
    destruct Ho as [-> Hr]; [done|]. exists r, [(5, take 40 sample_datagram)], h'.
    split; [exact E|]. split; [|done]. by apply Hr.
Defined.

(** ** Header rewriting of header_mangle.c *)

(** With [additional_space] set, [modify_http_headers] on a payload buffer
    of exactly [payload_len] bytes that holds a Host header writes one byte past
    the end of the buffer. *)
Theorem modify_http_headers_overflows config h b p pre s rest :
  additional_space config = true → host_mixedcase config = false →
  payload p = Ptr b 0 → payload_len p = lenZ (pre ++ host_key ++ s ++ 0 :: rest) →
  blocks h !! b = Some (pre ++ host_key ++ s ++ 0 :: rest) →
  no_nul (pre ++ host_key ++ s) → find_sub host_key (pre ++ host_key ++ s) = Some (length pre) →
  lenZ (pre ++ host_key ++ s ++ 0 :: rest) ≤ 65535 →
  modify_http_headers config p h = UB OobWrite.
Proof.
  intros Ha Hm Hp Hl Hb Hn Hf Hmax. unfold modify_http_headers. rewrite Hp.
  set (l := pre ++ host_key ++ s ++ 0 :: rest) in *.
  pose proof (lenZ_nonneg l). pose proof (lenZ_nonneg pre). pose proof (lenZ_nonneg s).
  pose proof (lenZ_nonneg rest).
  assert (lenZ l = lenZ pre + 7 + lenZ s + 1 + lenZ rest) as Hlen
    by (unfold l; rewrite !lenZ_app, lenZ_cons; change (lenZ host_key) with 7; lia).
  erewrite bind_ok by (by apply tail_bytes_ok with (bs := l); [|lia]). rewrite drop_0.
  erewrite bind_ok.
  2: { apply lift_ok. unfold strstr. change (host_key ++ [0]) with (host_key ++ 0 :: []).
       rewrite (cstr_ok host_key []) by vm_decide.
       assert (l = (pre ++ host_key ++ s) ++ 0 :: rest) as -> by (unfold l; by rewrite <- !app_assoc).
       rewrite cstr_ok by done. unfold mbind, outcome_bind. by rewrite Hf. }
  cbv beta iota. erewrite bind_ok; [|unfold mangle_mixedcase; by rewrite Hm].
  apply bind_ub. unfold mangle_addspace. rewrite Ha. cbn [padd].
  erewrite bind_ok by (apply tail_bytes_ok with (bs := l); [done|]; unfold lenZ in *; lia).
  rewrite !Z.add_0_l, Nat2Z.id. unfold l at 1. rewrite drop_app_length, Hl.
  rewrite (proj2 (Z.leb_le 7 _)) by lia.
  erewrite bind_ok by (by apply lift_ok). change (0 =? 0) with true. cbv iota.
  apply bind_ub. unfold memmove.
  assert (u64 (u64 (lenZ l - Z.of_nat (length pre)) - 7) = lenZ s + 1 + lenZ rest) as ->.
  { change (Z.of_nat (length pre)) with (lenZ pre). unfold_u.
    rewrite (Z.mod_small (lenZ l - lenZ pre)), Z.mod_small by lia. lia. }
  rewrite (proj2 (Z.eqb_neq _ 0)) by lia. change (Z.of_nat (length pre)) with (lenZ pre).
  erewrite bind_ok by (eapply get_bytes_ok; [done|lia..]).
  eapply put_bytes_oob; [done|]. rewrite lenZ_slice; lia.
Qed.

Lemma modify_http_headers_overflows_witness :
  let l := chars "GET / HTTP/1.1" ++ host_key ++ chars " a.b" ++ [0] in
  let config := config_zero <| additional_space := true |> in
  let p := packet_zero <| payload := Ptr 0 0 |> <| payload_len := lenZ l |> in
  modify_http_headers config p (heap1 l) = UB OobWrite.
Proof.
  intros l config p.
  apply (modify_http_headers_overflows config (heap1 l) 0 p (chars "GET / HTTP/1.1")
           (chars " a.b") []); try done.
  - vm_decide.
Defined.
