(* ===== verification/Processor.v ===== *)
(** * src/core/packet_processor.c: rewriting of the Host header and the
    per-packet policy

    [packet_process] takes the global [config] and the raw socket descriptors;
    it returns its C result and the packets it handed to [send].  The
    structure [packet_t] itself is not changed, only its payload object. *)

From S2P Require Import Prelude CString StringUtils Types Packet RawSocket Evasion.

Definition host_name : list Z := chars "Host:".

Definition find_host_header (payload : ptr) (payload_len : Z) : M ptr :=
  if is_null payload || (payload_len <? 6) then mret Null
  else stristr payload (Some (host_name ++ [0])).

(** [while ( *v && ( *v == ' ' || *v == '\t')) v++;] *)
Fixpoint skip_blanks (l : list Z) : outcome nat :=
  match l with
  | [] => UB OobRead
  | c :: l => if c =? 0 then Ok 0%nat
              else if (c =? 32) || (c =? 9) then S <$> skip_blanks l else Ok 0%nat
  end.

(** [while ( *e && *e != '\r' && *e != '\n') e++;] *)
Fixpoint value_span (l : list Z) : outcome nat :=
  match l with
  | [] => UB OobRead
  | c :: l => if (c =? 0) || (c =? 13) || (c =? 10) then Ok 0%nat
              else S <$> value_span l
  end.

Definition apply_host_mixedcase (payload : ptr) (payload_len : Z) : M Z :=
  host_pos ← find_host_header payload payload_len;
  if is_null host_pos then mret (-1) else
  let value_start := padd host_pos 5 in
  l ← tail_bytes value_start;
  n ← lift (skip_blanks l);
  let value_start := padd value_start (Z.of_nat n) in
  l ← tail_bytes value_start;
  value_len ← lift (value_span l);
  if 0 <? Z.of_nat value_len then mix_case value_start (Z.of_nat value_len) ;; mret 0
  else mret (-1).

Definition apply_host_removespace (payload : ptr) (payload_len : Z) : M Z :=
  host_pos ← find_host_header payload payload_len;
  if is_null host_pos then mret (-1) else
  let after_colon := padd host_pos 5 in
  c ← load8 after_colon;
  if c =? 32 then
    n ← strlen (padd after_colon 1);
    memmove after_colon (padd after_colon 1) (n + 1) ;;
    mret 0
  else mret (-1).

Definition apply_additional_space (payload : ptr) (payload_len : Z) : M Z :=
  host_pos ← find_host_header payload payload_len;
  if is_null host_pos then mret (-1) else
  let insert_pos := padd host_pos 5 in
  n ← strlen insert_pos;
  let remaining_len := n + 1 in
  if 0 <? remaining_len then
    memmove (padd insert_pos 1) insert_pos remaining_len ;;
    store8 insert_pos 32 ;;
    mret 0
  else mret (-1).

(** [if (option && packet->payload) if (apply(...) == 0) modified = 1;] *)
Definition apply_option (opt : bool) (f : ptr → Z → M Z) (p : packet_t) (modified : Z) : M Z :=
  if opt && negb (is_null (payload p)) then
    r ← f (payload p) (payload_len p); mret (if r =? 0 then 1 else modified)
  else mret modified.

Section process.
Variable os_send : Z → list Z → Z.
Variable config : goodbyedpi_config_t.
Variable socks : raw_sockets.

Definition too_large (p : packet_t) : bool :=
  (0 <? max_payload_size config) && (max_payload_size config <? payload_len p).

Definition process_http (p : packet_t) : M Z :=
  modified ← apply_option (host_mixedcase config) apply_host_mixedcase p 0;
  modified ← apply_option (host_removespace config) apply_host_removespace p modified;
  modified ← apply_option (additional_space config) apply_additional_space p modified;
  mret (if (0 <? http_fragment_size config) &&
           (evasion_fragment_packet (Some p) (http_fragment_size config) =? 0)
        then 1 else modified).

Definition process_https (p : packet_t) : M (Z * list sent) :=
  let modified := if (0 <? https_fragment_size config) &&
                     (evasion_fragment_packet (Some p) (https_fragment_size config) =? 0)
                  then 1 else 0 in
  if fake_packet config then
    '(r, out) ← evasion_inject_fake_packet os_send config socks (Some p);
    mret (if r =? 0 then 1 else modified, out)
  else mret (modified, []).

Definition packet_process (packet : option packet_t) : M (Z * list sent) :=
  match packet with
  | None => mret (-1, [])
  | Some p =>
      if too_large p then mret (0, []) else
      http ← packet_is_http packet;
      if http : bool then modified ← process_http p; mret (modified, [])
      else if packet_is_https packet then process_https p
      else mret (0, [])
  end.
End process.

(** ** The payload is the only object it writes *)

(** [h'] has the objects of [h], except that the object of [q] may have changed
    contents. *)
Definition only_object (q : ptr) (h h' : heap) : Prop :=
  dom (blocks h') = dom (blocks h) ∧
  ∀ b, (∀ b' o, q = Ptr b' o → b' ≠ b) → blocks h' !! b = blocks h !! b.

Lemma only_object_refl q h : only_object q h h.
Proof. done. Qed.
Lemma only_object_trans q h1 h2 h3 :
  only_object q h1 h2 → only_object q h2 h3 → only_object q h1 h3.
Proof.
  intros [D1 H1] [D2 H2]. split; [congruence|]. intros b Hb. by rewrite (H2 b Hb), (H1 b Hb).
Qed.

(** Offsets do not change the object. *)
Lemma only_object_padd q n h h' : only_object (padd q n) h h' → only_object q h h'.
Proof.
  destruct q as [|b o]; [done|]. intros [D H]. split; [done|]. intros c Hc. apply H. cbn.
  intros b' o' [= <- _]. eauto.
Qed.

Lemma put_bytes_only q bs h u h' : put_bytes q bs h = Ok (u, h') → only_object q h h'.
Proof.
  destruct q as [|b o]; [done|]. intros (l & Hl & ->)%put_bytes_inv. split; cbn.
  - by apply dom_insert_lookup_L.
  - intros c Hc. rewrite lookup_insert_ne; [done|]. eauto.
Qed.

Lemma memmove_only q src n h u h' : memmove q src n h = Ok (u, h') → only_object q h h'.
Proof.
  unfold memmove. destruct (n =? 0); [intros [= _ <-]; done|].
  intros H. mread H. by eapply put_bytes_only.
Qed.

Lemma mix_case_only q n h u h' : mix_case q n h = Ok (u, h') → only_object q h h'.
Proof.
  unfold mix_case, rewrite_tail. destruct (is_null q || _); [by intros [= _ <-]|].
  intros H. mread H. mread H. by eapply put_bytes_only.
Qed.

#[export] Instance stristr_read_only q nd : ReadOnly (stristr q nd).
Proof. unfold stristr. destruct nd; apply _. Qed.
#[export] Instance find_host_header_read_only q n : ReadOnly (find_host_header q n).
Proof. unfold find_host_header. apply _. Qed.
#[export] Instance strlen_read_only q : ReadOnly (strlen q).
Proof. unfold strlen. apply _. Qed.
#[export] Instance packet_is_http_read_only p : ReadOnly (packet_is_http p).
Proof. unfold packet_is_http. destruct p; apply _. Qed.

Lemma apply_host_mixedcase_only q n h r h' :
  apply_host_mixedcase q n h = Ok (r, h') → only_object q h h'.
Proof.
  unfold apply_host_mixedcase. intros H. mread H. unfold find_host_header in E.
  destruct (is_null q || _) eqn:Eq; [injection E as <-; by injection H as _ <-|].
  unfold stristr in E. destruct (is_null q) eqn:Eq'; [done|]. mread E. mread E.
  injection E as <-. destruct v1 as [i|]; [|by injection H as _ <-].
  destruct q as [|b o]; [done|]. cbn [is_null padd] in H. mread H. mread H. mread H. mread H.
  destruct (0 <? _); [|by injection H as _ <-].
  minv H. injection H as _ <-. apply mix_case_only in E5 as [D E5]. split; [done|].
  intros c Hc. apply E5. intros b' o' [= <- _]. eauto.
Qed.

(** Where a found header is: at an offset in the object of the payload. *)
Lemma find_host_header_padd q n h v h' :
  find_host_header q n h = Ok (v, h') → v = Null ∨ ∃ i, v = padd q i.
Proof.
  unfold find_host_header, stristr. destruct (is_null q); [intros [= <- _]; by left|].
  destruct (_ || _); [intros [= <- _]; by left|].
  intros H. mread H. mread H. injection H as <- _. destruct v1; eauto.
Qed.

Lemma apply_host_removespace_only q n h r h' :
  apply_host_removespace q n h = Ok (r, h') → only_object q h h'.
Proof.
  unfold apply_host_removespace. intros H. mread H.
  apply find_host_header_padd in E as [->|[i ->]]; [by injection H as _ <-|].
  destruct (is_null _); [by injection H as _ <-|].
  mread H. destruct (v =? 32); [|by injection H as _ <-]. mread H. minv H. injection H as _ <-.
  apply memmove_only in E1. by do 2 apply only_object_padd in E1.
Qed.

Lemma apply_additional_space_only q n h r h' :
  apply_additional_space q n h = Ok (r, h') → only_object q h h'.
Proof.
  unfold apply_additional_space. intros H. mread H.
  apply find_host_header_padd in E as [->|[i ->]]; [by injection H as _ <-|].
  destruct (is_null _); [by injection H as _ <-|].
  mread H. destruct (0 <? _); [|by injection H as _ <-]. minv H. minv H. injection H as _ <-.
  apply memmove_only in E0. apply put_bytes_only in E1.
  do 3 apply only_object_padd in E0. do 2 apply only_object_padd in E1.
  by eapply only_object_trans.
Qed.

Lemma apply_option_only opt f p m h r h' :
  (∀ q n h r h', f q n h = Ok (r, h') → only_object q h h') →
  apply_option opt f p m h = Ok (r, h') → only_object (payload p) h h' ∧ (r = m ∨ r = 1).
Proof.
  intros Hf. unfold apply_option. destruct (opt && _); [|intros [= <- <-]; eauto using only_object_refl].
  intros H. minv H. injection H as <- <-. split; [eauto|]. destruct (a =? 0); eauto.
Qed.

#[export] Hint Resolve apply_host_mixedcase_only apply_host_removespace_only
  apply_additional_space_only only_object_refl : cmem.

Lemma process_http_only config p h r h' :
  process_http config p h = Ok (r, h') → only_object (payload p) h h' ∧ (r = 0 ∨ r = 1).
Proof.
  unfold process_http. intros H. minv H. minv H. minv H. injection H as <- <-.
  apply apply_option_only in E as [? Ha]; [|eauto with cmem].
  apply apply_option_only in E0 as [? Ha0]; [|eauto with cmem].
  apply apply_option_only in E1 as [? Ha1]; [|eauto with cmem].
  split; [eauto using only_object_trans|]. destruct (_ && _); [by right|].
  destruct Ha1 as [->|]; [|by right]. destruct Ha0 as [->|]; [|by right]. done.
Qed.

Lemma process_https_only os config socks p h r out h' :
  heap_wf h → process_https os config socks p h = Ok ((r, out), h') →
  blocks h' = blocks h ∧ (r = 0 ∨ r = 1).
Proof.
  intros Hwf. unfold process_https. set (m := if _ && _ then _ else _).
  assert (m = 0 ∨ m = 1) by (unfold m; destruct (_ && _); eauto).
  destruct (fake_packet config); [|intros [= <- _ <-]; done].
  intros H'. minv H'. destruct a as [r0 o]. apply inject_blocks in E; [|done].
  injection H' as <- _ <-. destruct (r0 =? 0); eauto.
Qed.

Lemma packet_process_only os config socks p h r out h' :
  heap_wf h → packet_process os config socks (Some p) h = Ok ((r, out), h') →
  (r = 0 ∨ r = 1) ∧ only_object (payload p) h h'.
Proof.
  intros Hwf H.
  unfold packet_process in H. destruct (too_large config p); [injection H as <- _ <-; eauto with cmem|].
  mread H. destruct v.
  - minv H. injection H as <- _ <-. by apply process_http_only in E0 as [? ?].
  - destruct (packet_is_https _); [|injection H as <- _ <-; eauto with cmem].
    apply process_https_only in H as [Hb ?]; [|done]. split; [done|].
    unfold only_object. rewrite Hb. done.
Qed.

(** C10: whatever the configuration, when [packet_process] of a packet returns,
    its result is 0 or 1 and no object but the packet's payload buffer has
    changed: the raw packet and the headers are byte for byte what they were, so
    no rewriting of the payload ever shows in the raw packet. *)
Theorem packet_process_writes_only_payload os_send config socks p h r out h' :
  heap_wf h → packet_process os_send config socks (Some p) h = Ok ((r, out), h') →
  (r = 0 ∨ r = 1) ∧ only_object (payload p) h h' ∧
  ∀ b o, raw_packet p = Ptr b o → (∀ b' o', payload p = Ptr b' o' → b' ≠ b) →
         blocks h' !! b = blocks h !! b.
Proof.
  intros Hwf H.
  destruct (packet_process_only os_send config socks p h r out h' Hwf H) as (Hr & HD & Ho).
  split; [done|]. split; [done|]. eauto.
Qed.

(** A request with a Host header, and a packet around it. *)
Definition sample_request : list Z :=
  chars "GET / HTTP/1.1" ++ CRLF ++ chars "Host: abc.com" ++ CRLF ++ CRLF.
Definition sample_packet : packet_t :=
  packet_zero <| type := PACKET_IPV4_TCP_DATA |> <| dst_port := 80 |>
    <| payload := Ptr 0 0 |> <| payload_len := lenZ sample_request |>
    <| raw_packet := Ptr 1 0 |> <| raw_packet_len := lenZ sample_request |>.

Lemma packet_process_writes_only_payload_witness :
  ∃ r out h', packet_process (λ _ _, 0) (config_zero <| host_mixedcase := true |>)
                raw_sockets_init (Some sample_packet) (heap2 sample_request sample_request)
              = Ok ((r, out), h') ∧
    (r = 0 ∨ r = 1) ∧ blocks h' !! 1%nat = Some sample_request.
Proof.
  destruct (packet_process (λ _ _, 0) (config_zero <| host_mixedcase := true |>)
              raw_sockets_init (Some sample_packet) (heap2 sample_request sample_request))
    as [[[r out] h']|u] eqn:E; [|vm_compute in E; discriminate].
  exists r, out, h'. split; [reflexivity|].
  destruct (packet_process_writes_only_payload (λ _ _, 0) (config_zero <| host_mixedcase := true |>)
              raw_sockets_init sample_packet (heap2 sample_request sample_request) r out h')
    as (Hr & _ & Hb).
  - apply heap2_wf.
  - exact E.
  - split; [exact Hr|]. rewrite (Hb 1%nat 0); [reflexivity|reflexivity|]. intros b' o' [= <- _]. lia.
Defined.

(** ** Rewriting of the Host header *)

Section host.
Context (h : heap) (b : nat).

(** The header is found where it first occurs, up to case, in a payload that
    has a further byte. *)
Lemma find_host_header_ok s c rest n i :
  blocks h !! b = Some (s ++ c :: rest) → no_nul s → find_ci host_name s = Some i → 6 ≤ n →
  find_host_header (Ptr b 0) n h = Ok (Ptr b (Z.of_nat i), h).
Proof.
  intros Hb Hs Hi Hn. unfold find_host_header. cbn [is_null orb].
  rewrite (proj2 (Z.ltb_ge n 6)) by done. unfold stristr. cbn [is_null].
  erewrite bind_ok by (eapply tail_bytes_ok; [exact Hb|]; pose proof (lenZ_nonneg (s ++ c :: rest)); lia).
  rewrite drop_0. erewrite bind_ok.
  2: { apply lift_ok with (a := Some i).
       change (stristr_loop 72 (72 :: [111; 115; 116; 58] ++ [0]) (s ++ c :: rest) = Ok (Some i)).
       rewrite <- Hi. apply stristr_loop_ok; [vm_decide|done|eauto]. }
  done.
Qed.

Lemma skip_blanks_ok bl c rest :
  Forall (λ x, x = 32 ∨ x = 9) bl → c ≠ 32 → c ≠ 9 →
  skip_blanks (bl ++ c :: rest) = Ok (length bl).
Proof.
  intros Hbl H1 H2. induction Hbl as [|x bl Hx _ IH]; cbn.
  - destruct (c =? 0); [done|].
    by rewrite (proj2 (Z.eqb_neq c 32)), (proj2 (Z.eqb_neq c 9)) by done.
  - rewrite IH. by destruct Hx as [-> | ->].
Qed.

Lemma value_span_ok v c rest :
  Forall (λ x, x ≠ 0 ∧ x ≠ 13 ∧ x ≠ 10) v → c = 0 ∨ c = 13 ∨ c = 10 →
  value_span (v ++ c :: rest) = Ok (length v).
Proof.
  intros Hv Hc. induction Hv as [|x v (H1 & H2 & H3) _ IH]; cbn.
  - by destruct Hc as [->|[->| ->]].
  - rewrite IH, (proj2 (Z.eqb_neq x 0)), (proj2 (Z.eqb_neq x 13)), (proj2 (Z.eqb_neq x 10)) by done.
    done.
Qed.

(** The payload: text, the header name in any case, blanks, value, end of line. *)
Definition host_line (pre hn bl v : list Z) (c : Z) (rest : list Z) : list Z :=
  pre ++ hn ++ bl ++ v ++ c :: rest.

Definition host_line_wf (pre hn bl v : list Z) (c : Z) : Prop :=
  no_nul (pre ++ hn ++ bl) ∧ lower hn = lower host_name ∧
  find_ci host_name (pre ++ hn ++ bl ++ v) = Some (length pre) ∧
  Forall (λ x, x = 32 ∨ x = 9) bl ∧ v ≠ [] ∧ head v ≠ Some 32 ∧ head v ≠ Some 9 ∧
  Forall (λ x, x ≠ 0 ∧ x ≠ 13 ∧ x ≠ 10) v ∧ (c = 0 ∨ c = 13 ∨ c = 10).

Lemma apply_host_mixedcase_ok pre hn bl v c rest n :
  host_line_wf pre hn bl v c → 6 ≤ n →
  blocks h !! b = Some (host_line pre hn bl v c rest) →
  apply_host_mixedcase (Ptr b 0) n h =
    Ok (0, with_blocks h (<[b := host_line pre hn bl
                (recase (λ i, negb (i mod 2 =? 0)) 0 v) c rest]> (blocks h))).
Proof.
  intros (Hn & Hlow & Hf & Hbl & Hv & Hh1 & Hh2 & Hvc & Hc) H6 Hb. unfold apply_host_mixedcase, host_line in *.
  assert (no_nul v) as Hvn by (intros H0; by eapply Forall_forall in Hvc; [destruct Hvc|]).
  assert (length hn = 5%nat) as Hhn.
  { apply (f_equal length) in Hlow. unfold lower in Hlow. by rewrite !length_fmap in Hlow. }
  erewrite bind_ok.
  2: { eapply (find_host_header_ok (pre ++ hn ++ bl ++ v)); [by rewrite <- !app_assoc| |done..].
       rewrite !no_nul_app in *. tauto. }
  cbn [is_null padd].
  assert (Z.of_nat (length pre) + 5 = lenZ (pre ++ hn)) as ->
    by (unfold lenZ; rewrite length_app; lia).
  erewrite bind_ok.
  2: { eapply tail_bytes_ok; [exact Hb|]. unfold lenZ. rewrite !length_app. lia. }
  rewrite to_nat_lenZ. rewrite (app_assoc pre hn), drop_app_length.
  destruct v as [|v0 v']; [done|].
  erewrite bind_ok by (apply lift_ok, skip_blanks_ok; [done|by intros ->|by intros ->]).
  assert (lenZ (pre ++ hn) + Z.of_nat (length bl) = lenZ (pre ++ hn ++ bl)) as ->
    by (unfold lenZ; rewrite !length_app; lia).
  erewrite bind_ok.
  2: { eapply tail_bytes_ok; [exact Hb|]. unfold lenZ. rewrite !length_app. lia. }
  rewrite to_nat_lenZ.
  assert (∀ t, drop (length (pre ++ hn ++ bl)) (pre ++ hn ++ bl ++ t) = t) as ->.
  { intros t. rewrite (app_assoc hn bl t), (app_assoc pre _ t). apply drop_app_length. }
  erewrite bind_ok by (by apply lift_ok, value_span_ok).
  cbn [length]. rewrite (proj2 (Z.ltb_lt 0 _)) by lia.
  erewrite bind_ok.
  2: { eapply (mix_case_ok h b (pre ++ hn ++ bl) (v0 :: v')); [by rewrite <- !app_assoc|done..]. }
  by rewrite <- !app_assoc.
Qed.
End host.

(** An HTTP request segment that is not skipped for its size. *)
Definition http_segment (config : goodbyedpi_config_t) (h : heap) (b : nat) (p : packet_t)
    (l : list Z) : Prop :=
  payload p = Ptr b 0 ∧ blocks h !! b = Some l ∧ payload_len p = lenZ l ∧ 6 ≤ lenZ l ∧
  http_request p l = true ∧ too_large config p = false.

Lemma packet_process_http os config socks h b p l :
  http_segment config h b p l →
  packet_process os config socks (Some p) h = (r ← process_http config p; mret (r, [])) h.
Proof.
  intros (Hp & Hb & Hl & H6 & Hr & Ht). unfold packet_process. rewrite Ht.
  erewrite bind_ok by by eapply packet_is_http_ok. by rewrite Hr.
Qed.

Lemma apply_option_on opt f p m b :
  payload p = Ptr b 0 → opt = true →
  apply_option opt f p m = (r ← f (Ptr b 0) (payload_len p); mret (if r =? 0 then 1 else m)).
Proof. intros Hp ->. unfold apply_option. by rewrite Hp. Qed.

Lemma bind_option_off {B} opt f p m (k : Z → M B) h :
  opt = false → (apply_option opt f p m ≫= k) h = k m h.
Proof. by intros ->. Qed.

(** C9: with only [host_mixedcase] among the header options, processing an HTTP
    request whose Host header has a value rewrites that value, with alternating
    case, and nothing else: the payload keeps its length and is the same text up
    to case, no other object changes, and the result says "modified". *)
Theorem host_mixedcase_rewrites_value os_send config socks h b p pre hn bl v c rest :
  host_mixedcase config = true → host_removespace config = false → additional_space config = false →
  host_line_wf pre hn bl v c → http_segment config h b p (host_line pre hn bl v c rest) →
  ∃ v', packet_process os_send config socks (Some p) h =
          Ok ((1, []), with_blocks h (<[b := host_line pre hn bl v' c rest]> (blocks h))) ∧
    lower v' = lower v ∧
    ∀ i x, v !! i = Some x →
      v' !! i = Some (if Z.of_nat i mod 2 =? 0 then tolower x else toupper x).
Proof.
  intros Hm Hr Ha Hwf Hs. eexists. split; [|split; [apply lower_recase|]].
  - erewrite packet_process_http by done. destruct Hs as (Hp & Hb & Hl & H6 & _).
    erewrite bind_ok; [done|]. unfold process_http. erewrite apply_option_on by done.
    erewrite bind_ok.
    2: { erewrite bind_ok by (eapply apply_host_mixedcase_ok; [done|lia|done]). done. }
    rewrite !bind_option_off by done. change (0 =? 0) with true. by destruct (_ && _).
  - intros i x. rewrite recase_lookup. intros ->. cbn. f_equal.
    change (0 + Z.of_nat i) with (Z.of_nat i). by destruct (_ =? _).
Qed.

Lemma host_mixedcase_rewrites_value_witness :
  ∃ v', packet_process (λ _ _, 0) (config_zero <| host_mixedcase := true |>)
          raw_sockets_init (Some sample_packet) (heap1 sample_request) =
        Ok ((1, []), heap1 (chars "GET / HTTP/1.1" ++ CRLF ++ chars "Host: " ++ v' ++ CRLF ++ CRLF)) ∧
        lower v' = chars "abc.com".
Proof.
  destruct (host_mixedcase_rewrites_value (λ _ _, 0) (config_zero <| host_mixedcase := true |>)
              raw_sockets_init (heap1 sample_request) 0 sample_packet
              (chars "GET / HTTP/1.1" ++ CRLF) host_name (chars " ") (chars "abc.com") 13
              (10 :: CRLF)) as (v' & E & Hl & _).
  - reflexivity.
  - reflexivity.
  - reflexivity.
  - split_and!; vm_decide.
  - split_and!; done.
  - exists v'. rewrite heap1_insert in E. split; [exact E|]. by rewrite Hl.
Defined.

(** ** Inserting and removing a space *)

Section space.
Context (h : heap) (b : nat) (pre hn : list Z).
Hypothesis Hpre : no_nul (pre ++ hn).
Hypothesis Hhn : lower hn = lower host_name.
Hypothesis Hf : find_ci host_name (pre ++ hn) = Some (length pre).

Lemma length_hn : length hn = 5%nat.
Proof. apply (f_equal length) in Hhn. unfold lower in Hhn. by rewrite !length_fmap in Hhn. Qed.

Lemma after_name : Z.of_nat (length pre) + 5 = lenZ (pre ++ hn).
Proof. unfold lenZ. rewrite length_app, length_hn. lia. Qed.

Lemma find_before c t n :
  blocks h !! b = Some (pre ++ hn ++ c :: t) → 6 ≤ n →
  find_host_header (Ptr b 0) n h = Ok (Ptr b (Z.of_nat (length pre)), h).
Proof.
  intros Hb Hn. eapply (find_host_header_ok h b (pre ++ hn)); [|done..]. by rewrite <- app_assoc.
Qed.

Lemma tail_at t u :
  blocks h !! b = Some (pre ++ hn ++ t ++ u) →
  tail_bytes (Ptr b (lenZ (pre ++ hn ++ t))) h = Ok (u, h).
Proof.
  intros Hb. erewrite tail_bytes_ok; [|exact Hb|unfold lenZ; rewrite !length_app; lia].
  by rewrite to_nat_lenZ, (app_assoc hn t u), (app_assoc pre _ u), drop_app_length.
Qed.

Lemma strlen_at t s u :
  blocks h !! b = Some (pre ++ hn ++ t ++ s ++ 0 :: u) → no_nul s →
  strlen (Ptr b (lenZ (pre ++ hn ++ t))) h = Ok (lenZ s, h).
Proof.
  intros Hb Hs. unfold strlen. erewrite bind_ok by by apply tail_at.
  apply lift_ok. unfold strlen_list. by rewrite cstr_ok.
Qed.

Lemma strlen_unterminated t s :
  blocks h !! b = Some (pre ++ hn ++ t ++ s) → no_nul s →
  strlen (Ptr b (lenZ (pre ++ hn ++ t))) h = UB OobRead.
Proof.
  intros Hb Hs. unfold strlen. erewrite bind_ok by by apply tail_at.
  unfold strlen_list. by rewrite cstr_oob.
Qed.

Lemma removespace_overreads s n :
  blocks h !! b = Some (pre ++ hn ++ 32 :: s) → no_nul s → 6 ≤ n →
  apply_host_removespace (Ptr b 0) n h = UB OobRead.
Proof.
  intros Hb Hs Hn. unfold apply_host_removespace. erewrite bind_ok by by eapply find_before.
  cbn [is_null padd]. rewrite after_name. erewrite bind_ok.
  2: { eapply load8_ok; [exact Hb|apply lenZ_nonneg|].
       by rewrite to_nat_lenZ, (app_assoc pre hn), list_lookup_middle. }
  change (32 =? 32) with true. cbv iota. apply bind_ub.
  replace (lenZ (pre ++ hn) + 1) with (lenZ (pre ++ hn ++ [32]))
    by (unfold lenZ; rewrite !length_app; cbn; lia).
  by apply strlen_unterminated with s.
Qed.

Lemma additional_space_overreads c s n :
  blocks h !! b = Some (pre ++ hn ++ c :: s) → no_nul (c :: s) → 6 ≤ n →
  apply_additional_space (Ptr b 0) n h = UB OobRead.
Proof.
  intros Hb Hs Hn. unfold apply_additional_space. erewrite bind_ok by by eapply find_before.
  cbn [is_null padd]. rewrite after_name. apply bind_ub.
  rewrite <- (app_nil_r hn). by apply strlen_unterminated with (c :: s).
Qed.

(** With a terminator as the last byte there is no room for the space. *)
Lemma additional_space_overflows s n :
  blocks h !! b = Some (pre ++ hn ++ s ++ [0]) → no_nul s → 6 ≤ n →
  apply_additional_space (Ptr b 0) n h = UB OobWrite.
Proof.
  intros Hb Hs Hn. unfold apply_additional_space.
  assert (∃ c t, s ++ [0] = c :: t) as (c & t & Ec) by (destruct s; cbn; eauto).
  erewrite bind_ok by (eapply find_before; [by rewrite <- Ec|done]).
  cbn [is_null padd]. rewrite after_name. erewrite bind_ok.
  2: { rewrite <- (app_nil_r hn). by apply strlen_at with (u := []). }
  pose proof (lenZ_nonneg s). rewrite (proj2 (Z.ltb_lt 0 _)) by lia. apply bind_ub.
  assert (lenZ (pre ++ hn ++ s ++ [0]) = lenZ (pre ++ hn) + lenZ s + 1) as Hl
    by (unfold lenZ; rewrite !length_app; cbn; lia).
  unfold memmove. rewrite (proj2 (Z.eqb_neq _ 0)) by lia. pose proof (lenZ_nonneg (pre ++ hn)).
  erewrite bind_ok by (eapply get_bytes_ok; [exact Hb|lia..]).
  eapply put_bytes_oob; [exact Hb|]. rewrite lenZ_slice; lia.
Qed.
End space.

(** C28: processing an HTTP request without NUL bytes whose first Host header is
    followed by a space, with [host_removespace] set (and [host_mixedcase]
    not), reads past the end of the payload buffer; with [additional_space]
    alone it reads past the end too, and if the request ends in a NUL it writes
    one byte past the end. *)
Theorem host_space_options_leave_buffer os_send config socks h b p pre hn s :
  no_nul (pre ++ hn ++ s) → lower hn = lower host_name →
  find_ci host_name (pre ++ hn) = Some (length pre) →
  host_mixedcase config = false →
  (host_removespace config = true → http_segment config h b p (pre ++ hn ++ 32 :: s) →
   packet_process os_send config socks (Some p) h = UB OobRead) ∧
  (host_removespace config = false → additional_space config = true → s ≠ [] →
   http_segment config h b p (pre ++ hn ++ s) →
   packet_process os_send config socks (Some p) h = UB OobRead) ∧
  (host_removespace config = false → additional_space config = true →
   http_segment config h b p (pre ++ hn ++ s ++ [0]) →
   packet_process os_send config socks (Some p) h = UB OobWrite).
Proof.
  intros Hn Hh Hf Hm. rewrite !no_nul_app in Hn.
  assert (no_nul (pre ++ hn)) as Hph by (rewrite no_nul_app; tauto).
  assert (no_nul s) as Hs by tauto.
  split_and!.
  - intros Hr Hg. erewrite packet_process_http by done. destruct Hg as (Hp & Hb & Hl & H6 & _).
    apply bind_ub. unfold process_http. rewrite bind_option_off by done.
    erewrite apply_option_on by done.
    apply bind_ub, bind_ub. eapply removespace_overreads; [done..|lia].
  - intros Hr Ha Hne Hg. erewrite packet_process_http by done. destruct Hg as (Hp & Hb & Hl & H6 & _).
    apply bind_ub. unfold process_http. rewrite !bind_option_off by done.
    erewrite apply_option_on by done.
    destruct s as [|c s]; [done|].
    apply bind_ub, bind_ub. eapply additional_space_overreads; [done..|lia].
  - intros Hr Ha Hg. erewrite packet_process_http by done. destruct Hg as (Hp & Hb & Hl & H6 & _).
    apply bind_ub. unfold process_http. rewrite !bind_option_off by done.
    erewrite apply_option_on by done.
    apply bind_ub, bind_ub. eapply additional_space_overflows; [done..|lia].
Qed.

Lemma host_space_options_leave_buffer_witness :
  packet_process (λ _ _, 0) (config_zero <| host_removespace := true |>)
    raw_sockets_init (Some sample_packet) (heap1 sample_request) = UB OobRead.
Proof.
  destruct (host_space_options_leave_buffer (λ _ _, 0) (config_zero <| host_removespace := true |>)
              raw_sockets_init (heap1 sample_request) 0 sample_packet
              (chars "GET / HTTP/1.1" ++ CRLF) host_name (chars "abc.com" ++ CRLF ++ CRLF))
    as (H & _ & _).
  - vm_decide.
  - reflexivity.
  - reflexivity.
  - reflexivity.
  - apply H; [reflexivity|]. split_and!; done.
Defined.
