(* ===== verification/Netfilter.v ===== *)
(** * src/capture/netfilter_capture.c: the netfilter queue

    libnetfilter_queue is a parameter: what its calls answer is data given to the
    operations ([nfq_answers], [os_verdict]) and the handles the code releases
    and the verdicts it sends are returned.  A handle is its address, 0 when the
    call failed. *)

From S2P Require Import Prelude.

Definition NF_ACCEPT : Z := 1.

Record netfilter_context_t : Type := mkNfContext {
  nfq_handle : Z;
  queue_handle : Z;
  fd : Z;
  queue_num : Z;
  initialized : bool;
  buffer_len : Z
}.

#[export] Instance eta_nf_context : Eta netfilter_context_t := λ c,
  mkNfContext (nfq_handle c) (queue_handle c) (fd c) (queue_num c) (initialized c) (buffer_len c).

Definition nf_context_zero : netfilter_context_t := mkNfContext 0 0 0 0 false 0.

(** What the library answers to the calls of [netfilter_init]. *)
Record nfq_answers : Type := mkAnswers {
  ans_open : Z; ans_unbind4 : Z; ans_unbind6 : Z; ans_bind4 : Z; ans_bind6 : Z;
  ans_create : Z; ans_mode : Z; ans_fd : Z
}.

Inductive nfq_release : Type :=
  | DestroyQueue (q : Z)
  | CloseHandle (h : Z).

(** The library granted every call. *)
Definition granted (a : nfq_answers) : bool :=
  negb (ans_open a =? 0) && (0 <=? ans_unbind4 a) && (0 <=? ans_unbind6 a) && (0 <=? ans_bind4 a) &&
  (0 <=? ans_bind6 a) && negb (ans_create a =? 0) && (0 <=? ans_mode a) && (0 <=? ans_fd a).

(** What has to be released after [netfilter_init], by the answers alone: the
    handle if [nfq_open] gave one, and the queue if the calls before
    [nfq_create_queue] succeeded and it gave one. *)
Definition opened (a : nfq_answers) : list nfq_release :=
  if ans_open a =? 0 then [] else
  (if (0 <=? ans_unbind4 a) && (0 <=? ans_unbind6 a) && (0 <=? ans_bind4 a) && (0 <=? ans_bind6 a) &&
      negb (ans_create a =? 0)
   then [DestroyQueue (ans_create a)] else []) ++ [CloseHandle (ans_open a)].

(** The result, the context, the registered callback and what was released.
    [C] is the type of callbacks. *)
Definition netfilter_init {C} (a : nfq_answers) (ctx : option netfilter_context_t) (queue : Z)
    (callback : C) (g : option C) : Z * option netfilter_context_t * option C * list nfq_release :=
  match ctx with
  | None => (-1, None, g, [])
  | Some _ =>
      let ctx := nf_context_zero <| queue_num := queue |> in
      let ctx := ctx <| nfq_handle := ans_open a |> in
      if nfq_handle ctx =? 0 then (-1, Some ctx, g, []) else
      let failed := (-1, Some ctx, g, [CloseHandle (nfq_handle ctx)]) in
      if ans_unbind4 a <? 0 then failed else
      if ans_unbind6 a <? 0 then failed else
      if ans_bind4 a <? 0 then failed else
      if ans_bind6 a <? 0 then failed else
      let ctx := ctx <| queue_handle := ans_create a |> in
      if queue_handle ctx =? 0 then (-1, Some ctx, g, [CloseHandle (nfq_handle ctx)]) else
      if ans_mode a <? 0 then
        (-1, Some ctx, g, [DestroyQueue (queue_handle ctx); CloseHandle (nfq_handle ctx)]) else
      let ctx := ctx <| fd := ans_fd a |> in
      if fd ctx <? 0 then
        (-1, Some ctx, g, [DestroyQueue (queue_handle ctx); CloseHandle (nfq_handle ctx)]) else
      (0, Some (ctx <| initialized := true |>), Some callback, [])
  end.

Definition netfilter_cleanup (ctx : option netfilter_context_t)
    : Z * option netfilter_context_t * list nfq_release :=
  match ctx with
  | None => (-1, None, [])
  | Some c =>
      if negb (initialized c) then (-1, ctx, []) else
      (0, Some (c <| initialized := false |>),
       (if queue_handle c =? 0 then [] else [DestroyQueue (queue_handle c)]) ++
       (if nfq_handle c =? 0 then [] else [CloseHandle (nfq_handle c)]))
  end.

(** [received] is the result of [recv], [again] whether [errno] is [EAGAIN] or
    [EWOULDBLOCK], [handled] the result of [nfq_handle_packet], which runs the
    queue's callback. *)
Definition netfilter_receive_packet (ctx : option netfilter_context_t) (received : Z)
    (again : bool) (handled : Z) : Z * option netfilter_context_t :=
  match ctx with
  | None => (-1, None)
  | Some c =>
      if negb (initialized c) then (-1, ctx) else
      if received <? 0 then if again then (0, ctx) else (-1, ctx) else
      let ctx := Some (c <| buffer_len := received |>) in
      if handled <? 0 then (-1, ctx) else (received, ctx)
  end.

(** A verdict given to the kernel: packet id, verdict, replacement bytes. *)
Definition verdict_msg : Type := Z * Z * list Z.

(** A message of the queue: the packet id of its header in network byte order,
    if it has a header, and what [nfq_get_payload] returns and stores. *)
Record nfq_data : Type := mkNfqData {
  packet_hdr : option Z;
  nfq_payload_ret : Z;
  nfq_payload : ptr
}.

Section verdicts.
(** The library's answer to [nfq_set_verdict]. *)
Variable os_verdict : verdict_msg → Z.

(** [nfq_set_verdict] with no replacement. *)
Definition accept_unchanged (packet_id : Z) : Z * list verdict_msg :=
  (os_verdict (packet_id, NF_ACCEPT, []), [(packet_id, NF_ACCEPT, [])]).

Definition netfilter_send_verdict (ctx : option netfilter_context_t) (packet_id verdict : Z)
    (data : ptr) (data_len : Z) : M (Z * list verdict_msg) :=
  match ctx with
  | None => mret (-1, [])
  | Some c =>
      if negb (initialized c) then mret (-1, []) else
      bs ← get_bytes data data_len;
      let v := (packet_id, verdict, bs) in
      mret (if os_verdict v <? 0 then -1 else 0, [v])
  end.

(** [callback] is the registered callback with the message applied; it returns
    its result, the verdicts sent and whatever else [A] it produces. *)
Definition netfilter_callback {A} (g_packet_callback : option (nfq_data → M (Z * list verdict_msg * A)))
    (none : A) (nfa : nfq_data) : M (Z * list verdict_msg * A) :=
  let packet_id := match packet_hdr nfa with Some i => ntohl i | None => 0 end in
  let packet_len := u32 (nfq_payload_ret nfa) in
  if packet_len =? 0 then mret (accept_unchanged packet_id, none) else
  match g_packet_callback with
  | Some callback => callback nfa
  | None => mret (accept_unchanged packet_id, none)
  end.
End verdicts.

(** The result, and the pointer and length stored through the arguments. *)
Definition netfilter_get_packet_data (nfa : option nfq_data) : Z * ptr * Z :=
  match nfa with
  | None => (-1, Null, 0)
  | Some m =>
      let packet_len := u32 (nfq_payload_ret m) in
      (if 0 <? packet_len then 0 else -1, nfq_payload m, packet_len)
  end.

(** [packet_id] is what the caller's variable holds; the callers pass null for
    the other out parameters. *)
Definition netfilter_get_packet_metadata (nfa : option nfq_data) (packet_id : Z) : Z * Z :=
  match nfa with
  | None => (-1, packet_id)
  | Some m => (0, match packet_hdr m with Some i => ntohl i | None => packet_id end)
  end.

(** ** Lemmas *)

#[export] Instance netfilter_send_verdict_read_only os c i v d n :
  ReadOnly (netfilter_send_verdict os c i v d n).
Proof. unfold netfilter_send_verdict. destruct c; apply _. Qed.

Lemma netfilter_send_verdict_ok os c i v h b bs :
  initialized c = true → blocks h !! b = Some bs →
  netfilter_send_verdict os (Some c) i v (Ptr b 0) (lenZ bs) h =
    Ok ((if os (i, v, bs) <? 0 then -1 else 0, [(i, v, bs)]), h).
Proof.
  intros Hc Hb. unfold netfilter_send_verdict. rewrite Hc. cbn [negb]. pose proof (lenZ_nonneg bs).
  erewrite bind_ok by (eapply get_bytes_ok; [done|lia..]). by rewrite slice_all.
Qed.

(** How [netfilter_init] ends. *)
Lemma netfilter_init_cases {C} (a : nfq_answers) c0 queue (callback : C) g :
  match netfilter_init a (Some c0) queue callback g with
  | (r, ctx, g', released) =>
    if granted a then
      r = 0 ∧ released = [] ∧ g' = Some callback ∧
      (∃ c, ctx = Some c ∧ initialized c = true ∧ queue_num c = queue ∧ fd c = ans_fd a ∧
            nfq_handle c = ans_open a ∧ queue_handle c = ans_create a) ∧
      match netfilter_cleanup ctx with
      | (r1, ctx1, rel1) =>
          r1 = 0 ∧ rel1 = opened a ∧ netfilter_cleanup ctx1 = (-1, ctx1, [])
      end
    else
      r = -1 ∧ released = opened a ∧ g' = g ∧ is_Some ctx ∧ netfilter_cleanup ctx = (-1, ctx, [])
  end.
Proof.
  unfold netfilter_init, netfilter_cleanup, opened, granted. rewrite !Z.leb_antisym.
  cbn [nfq_handle queue_handle fd upd].
  destruct (ans_open a =? 0) eqn:Eo; [by split_and!|].
  destruct (ans_unbind4 a <? 0); [by split_and!|]. destruct (ans_unbind6 a <? 0); [by split_and!|].
  destruct (ans_bind4 a <? 0); [by split_and!|]. destruct (ans_bind6 a <? 0); [by split_and!|].
  destruct (ans_create a =? 0) eqn:Ec; [by split_and!|].
  destruct (ans_mode a <? 0); [by split_and!|]. destruct (ans_fd a <? 0); [by split_and!|].
  cbn. rewrite Eo, Ec. split_and!; [done..|by eexists; split_and!|done|done|done].
Qed.

(** C23: Whatever the library answers, [netfilter_init] ends in one of two ways.
    If every call was granted it returns 0, has released nothing, the context is
    usable with the handles the library gave, the callback is registered, and one
    [netfilter_cleanup] releases the queue and the handle, once, a second one
    nothing.  Otherwise it returns -1, exactly what the library had opened by then
    has been released, the old callback is kept, and [netfilter_cleanup] refuses
    the context and releases nothing again. *)
Theorem netfilter_init_releases_once {C} (a : nfq_answers) c0 queue (callback : C) g :
  match netfilter_init a (Some c0) queue callback g with
  | (r, ctx, g', released) =>
    if granted a then
      r = 0 ∧ released = [] ∧ g' = Some callback ∧
      (∃ c, ctx = Some c ∧ initialized c = true ∧ queue_num c = queue ∧ fd c = ans_fd a ∧
            nfq_handle c = ans_open a ∧ queue_handle c = ans_create a) ∧
      match netfilter_cleanup ctx with
      | (r1, ctx1, rel1) =>
          r1 = 0 ∧ rel1 = opened a ∧ netfilter_cleanup ctx1 = (-1, ctx1, [])
      end
    else
      r = -1 ∧ released = opened a ∧ g' = g ∧ is_Some ctx ∧ netfilter_cleanup ctx = (-1, ctx, [])
  end.
Proof. apply netfilter_init_cases. Qed.
