(* ===== verification/Callback.v ===== *)
(** * src/main.c: [packet_process_callback]

    What the daemon does with one packet of the queue: fetch it, count it, parse
    it, process it, give a verdict, free it.  The file-scope counters are a
    record.  The mutex around each update has no effect in the single thread
    that runs the callback. *)

From S2P Require Import Prelude CString StringUtils Types Packet RawSocket Evasion Processor Netfilter.

Record stats : Type := mkStats {
  packets_processed : Z;
  packets_modified : Z;
  bytes_processed : Z
}.

#[export] Instance eta_stats : Eta stats := λ s,
  mkStats (packets_processed s) (packets_modified s) (bytes_processed s).

(** What a run leaves: verdicts sent, raw packets sent, counters. *)
Definition effects : Type := list sent * stats.

Section callback.
Variable os_send : Z → list Z → Z.
Variable os_verdict : verdict_msg → Z.
Variable config : goodbyedpi_config_t.
Variable socks : raw_sockets.
Variable nfq_ctx : netfilter_context_t.
(** The indeterminate value of the uninitialised local [packet_id]. *)
Variable stale_id : Z.

Definition count_received (packet_len : Z) (st : stats) : stats :=
  st <| packets_processed := u64 (packets_processed st + 1) |>
     <| bytes_processed := u64 (bytes_processed st + packet_len) |>.

Definition packet_process_callback (st : stats) (nfa : nfq_data)
    : M (Z * list verdict_msg * effects) :=
  let '(r, packet_id) := netfilter_get_packet_metadata (Some nfa) stale_id in
  if r <? 0 then mret (NF_ACCEPT, [], ([], st)) else
  let '(r, packet_data, packet_len) := netfilter_get_packet_data (Some nfa) in
  if r <? 0 then mret (NF_ACCEPT, [], ([], st)) else
  let st := count_received packet_len st in
  '(r, packet) ← packet_parse packet_data packet_len (Some packet_zero);
  match packet with
  | None => throw NullDeref
  | Some packet =>
      if r <? 0 then mret (NF_ACCEPT, [], ([], st)) else
      let packet := packet <| nfqueue_id := packet_id |> in
      '(r, out) ← packet_process os_send config socks (Some packet);
      '(verdict, vs, st) ←
        (if r =? 0 then
           let st := st <| packets_modified := u64 (packets_modified st + 1) |> in
           if negb (is_null (raw_packet packet)) && (0 <? raw_packet_len packet) then
             '(v, vs) ← netfilter_send_verdict os_verdict (Some nfq_ctx) packet_id NF_ACCEPT
                          (raw_packet packet) (raw_packet_len packet);
             mret (v, vs, st)
           else mret (NF_ACCEPT, [], st)
         else mret (NF_ACCEPT, [], st));
      packet_free (Some packet) ;;
      mret (verdict, vs, (out, st))
  end.
End callback.

(** ** Freeing the packet after processing it *)

Lemma live_dom m m' q : dom m' = dom m → live m q → live m' q.
Proof.
  intros Hd. destruct q as [|b o]; [done|]. cbn. intros [-> Hb]. split; [done|].
  apply elem_of_dom. rewrite Hd. by apply elem_of_dom.
Qed.

Lemma free_block_only q h h' :
  only_object q h h' → free_block q (blocks h') = free_block q (blocks h).
Proof.
  intros [_ Ho]. destruct q as [|b o]; cbn.
  - apply map_eq. intros i. by apply Ho.
  - apply map_eq. intros i. rewrite !lookup_delete. case_decide; [done|].
    apply Ho. by intros ? ? [= <- _].
Qed.

Lemma packet_free_after p h h' :
  buffers_live p (blocks h) → only_object (payload p) h h' →
  packet_free (Some p) h' = Ok (Some packet_zero, with_blocks h' (without_buffers p (blocks h))).
Proof.
  intros (L1 & L2 & L3 & A) Ho. pose proof Ho as [Hd _].
  rewrite packet_free_ok by (split_and!; [by eapply live_dom..|tauto|tauto|tauto]).
  unfold without_buffers. by rewrite (free_block_only _ _ _ Ho).
Qed.

(** Freeing is all that is left to do after the packet has been processed. *)
Lemma callback_heap os_send os_verdict config socks ctx stale st nfa h v vs eff h' :
  heap_wf h →
  packet_process_callback os_send os_verdict config socks ctx stale st nfa h = Ok ((v, vs, eff), h') →
  blocks h' = blocks h ∧
  (vs = [] ∨ ∃ bs, vs = [((netfilter_get_packet_metadata (Some nfa) stale).2, NF_ACCEPT, bs)]).
Proof.
  intros Hwf. unfold packet_process_callback.
  destruct (netfilter_get_packet_metadata _ _) as [r0 id].
  destruct (r0 <? 0); [intros [= _ <- _ <-]; auto|].
  destruct (netfilter_get_packet_data _) as [[r1 data] len].
  destruct (r1 <? 0); [intros [= _ <- _ <-]; auto|].
  intros H. minv H. destruct a as [r q]. apply packet_parse_cases in E as (p & -> & Hp).
  destruct Hp as [(-> & -> & _)|[-> Hp]]; [injection H as _ <- _ <-; auto|].
  change (0 <? 0) with false in H. cbv beta iota zeta in H.
  destruct (parse_allocs_live _ _ _ Hwf Hp) as (Hl & Hw & Hwf1).
  minv H. destruct a as [r2 out]. apply packet_process_only in E as [_ Ho]; [|done].
  minv H. destruct a as [[v1 vs1] st1].
  assert (h2 = h1 ∧ (vs1 = [] ∨ ∃ bs, vs1 = [(id, NF_ACCEPT, bs)])) as [-> Hvs].
  { destruct (r2 =? 0); [|by injection E as _ <- _ <-; auto].
    destruct (_ && _); [|by injection E as _ <- _ <-; auto].
    mread E. destruct v0 as [v2 vs2]. injection E as _ <- _ <-. split; [done|].
    unfold netfilter_send_verdict in E0. destruct (negb _); [by injection E0 as _ <-; auto|].
    mread E0. injection E0 as _ <-. eauto. }
  erewrite bind_ok in H by (eapply (packet_free_after _ h0); [exact Hl|exact Ho]).
  injection H as _ <- _ <-. by split.
Qed.

Section keeps.
Context (I : heap → Prop) `{HI : !HeapInv I}.

#[export] Instance mix_case_keeps q n : Keeps I (mix_case q n).
Proof using HI. unfold mix_case, rewrite_tail. keeps. Qed.

#[export] Instance malloc_copy_keeps q n : Keeps I (malloc_copy q n).
Proof using HI. unfold malloc_copy. keeps. Qed.

#[export] Instance inject_keeps os config socks p :
  Keeps I (evasion_inject_fake_packet os config socks p).
Proof using HI.
  unfold evasion_inject_fake_packet, create_fake_dns_response, headers_and_body,
    create_fake_reset_packet, send_raw_packet. keeps.
Qed.

#[export] Instance packet_process_keeps os config socks p : Keeps I (packet_process os config socks p).
Proof using HI.
  unfold packet_process, process_http, process_https, apply_option, apply_host_mixedcase,
    apply_host_removespace, apply_additional_space, store8. keeps.
Qed.

#[export] Instance packet_free_keeps p : Keeps I (packet_free p).
Proof using HI. unfold packet_free. keeps. Qed.

#[export] Instance packet_parse_keeps data len p : Keeps I (packet_parse data len p).
Proof using HI.
  unfold packet_parse, packet_parse_ipv4, packet_parse_ipv6, parse_ipv4_tcp, parse_ipv4_udp,
    store_payload, store_raw, store_headers. keeps.
Qed.

#[export] Instance packet_process_callback_keeps os_send os_verdict config socks ctx stale st nfa :
  Keeps I (packet_process_callback os_send os_verdict config socks ctx stale st nfa).
Proof using HI. unfold packet_process_callback, netfilter_send_verdict. keeps. Qed.
End keeps.

(** C7: whatever message the queue delivers, whatever the configuration and
    whichever allocations fail, a run of [packet_process_callback] that returns
    has freed everything it allocated and nothing else, and has sent at most one
    verdict, which accepts the packet the message names. *)
Theorem callback_restores_heap os_send os_verdict config socks ctx stale st nfa h v vs eff h' :
  heap_wf h →
  packet_process_callback os_send os_verdict config socks ctx stale st nfa h = Ok ((v, vs, eff), h') →
  blocks h' = blocks h ∧
  (vs = [] ∨ ∃ bs, vs = [((netfilter_get_packet_metadata (Some nfa) stale).2, NF_ACCEPT, bs)]).
Proof. apply callback_heap. Qed.

(** ** The verdict of a TCP datagram *)

Definition tcp_payload (d : list Z) : list Z :=
  let hl := ip_hlen d + tcp_hlen d in slice hl (lenZ d - hl) d.
Definition tcp_dport (d : list Z) : Z := be16 (byte_at d (ip_hlen d + 2)) (byte_at d (ip_hlen d + 3)).

(** No option that rewrites headers or injects packets is set. *)
Definition fragment_only (config : goodbyedpi_config_t) : Prop :=
  host_mixedcase config = false ∧ host_removespace config = false ∧
  additional_space config = false ∧ fake_packet config = false.

Definition is_request (d : list Z) : bool :=
  (tcp_dport d =? 80) && existsb (λ m, prefixb m (tcp_payload d)) method_names.

(** The packets the processor reports as modified. *)
Definition reported_modified (config : goodbyedpi_config_t) (d : list Z) : bool :=
  negb ((0 <? max_payload_size config) && (max_payload_size config <? lenZ (tcp_payload d))) &&
  (is_request d && (0 <? http_fragment_size config) ||
   (tcp_dport d =? 443) && (0 <? https_fragment_size config)).

Lemma lenZ_tcp_payload d :
  tcp_datagram d → lenZ (tcp_payload d) = lenZ d - (ip_hlen d + tcp_hlen d).
Proof. intros []. unfold tcp_payload. rewrite lenZ_slice; lia. Qed.

Section parsed.
Context (config : goodbyedpi_config_t) (d : list Z) (h h1 : heap) (p : packet_t).
Hypotheses (Hd : tcp_datagram d) (Hf : tcp_fields d p) (Hb : tcp_buffers d h p h1).
Hypothesis Hlen : tcp_payload d = [] ∨ 6 ≤ lenZ (tcp_payload d).

Lemma parsed_payload_len : payload_len p = lenZ (tcp_payload d).
Proof.
  rewrite lenZ_tcp_payload by done. destruct Hd, Hb as (_ & _ & _ & _ & Hp).
  destruct (Z.ltb_spec (ip_hlen d + tcp_hlen d) (lenZ d)).
  - destruct Hp as (_ & _ & ->). done.
  - destruct Hp as (_ & _ & ->). lia.
Qed.

Lemma parsed_is_tcp : packet_is_tcp (Some p) = true.
Proof.
  destruct Hb as (_ & _ & _ & _ & Hp). unfold packet_is_tcp.
  destruct (_ <? _); [destruct Hp as (-> & _)|destruct Hp as (-> & _)]; done.
Qed.

Lemma parsed_is_http : packet_is_http (Some p) h1 = Ok (is_request d, h1).
Proof.
  pose proof parsed_payload_len as Hl. pose proof (lenZ_tcp_payload d Hd) as Hn.
  pose proof parsed_is_tcp as Ht. destruct Hf as (_ & _ & _ & _ & _ & Hdp).
  destruct Hb as (_ & _ & _ & _ & Hp).
  destruct (Z.ltb_spec (ip_hlen d + tcp_hlen d) (lenZ d)).
  - destruct Hp as (_ & (b & Hpp & _ & Hpb) & _). destruct Hlen as [E|H6].
    { rewrite E in Hn. change (lenZ []) with 0 in Hn. lia. }
    erewrite packet_is_http_ok by done. unfold http_request. rewrite Ht, Hdp. done.
  - destruct Hp as (_ & Hpp & _). unfold packet_is_http. rewrite Ht, Hpp. cbn.
    destruct Hd. assert (tcp_payload d = []) as E.
    { destruct (tcp_payload d); [done|]. rewrite lenZ_cons in Hn.
      pose proof (lenZ_nonneg l). lia. }
    unfold is_request. rewrite E. by rewrite andb_false_r.
Qed.

Lemma parsed_process os socks :
  fragment_only config →
  packet_process os config socks (Some p) h1 =
    Ok ((if reported_modified config d then 1 else 0, []), h1).
Proof.
  intros (Hm & Hr & Ha & Hk). unfold packet_process, reported_modified, too_large.
  rewrite parsed_payload_len. destruct (_ && (max_payload_size config <? _)); [done|]. cbn [negb andb].
  erewrite bind_ok by apply parsed_is_http.
  assert (evasion_fragment_packet (Some p) (http_fragment_size config) = 0 ∨
          http_fragment_size config = 0) as Hg.
  { destruct Hb as (_ & ((b & E & _) & _) & _). cbn. rewrite E. cbn. destruct (Z.eqb_spec (http_fragment_size config) 0); auto. }
  assert (evasion_fragment_packet (Some p) (https_fragment_size config) = 0 ∨
          https_fragment_size config = 0) as Hgs.
  { destruct Hb as (_ & ((b & E & _) & _) & _). cbn. rewrite E. cbn. destruct (Z.eqb_spec (https_fragment_size config) 0); auto. }
  destruct (is_request d) eqn:Eq; cbn [andb orb].
  - erewrite bind_ok; [done|]. unfold process_http. rewrite !bind_option_off by done.
    unfold is_request in Eq. apply andb_true_iff in Eq as [E80 _]. bprop. rewrite E80.
    change (80 =? 443) with false. cbn [andb]. rewrite orb_false_r.
    destruct Hg as [-> | ->]; [|done]. change (0 =? 0) with true. by rewrite andb_true_r.
  - unfold packet_is_https. rewrite parsed_is_tcp. destruct Hf as (_ & _ & _ & _ & _ & ->).
    fold (tcp_dport d). cbn [andb]. destruct (tcp_dport d =? 443); [|done]. cbn [andb].
    unfold process_https. rewrite Hk.
    destruct Hgs as [-> | ->]; [|done]. change (0 =? 0) with true. by rewrite andb_true_r.
Qed.
End parsed.

(** What the callback does with a TCP datagram. *)
Lemma callback_verdict
    os_send os_verdict config socks ctx stale st h b d id :
  blocks h !! b = Some d → heap_wf h → no_oom h → tcp_datagram d →
  initialized ctx = true → fragment_only config →
  (tcp_payload d = [] ∨ 6 ≤ lenZ (tcp_payload d)) →
  ∃ v h',
    packet_process_callback os_send os_verdict config socks ctx stale st
      (mkNfqData (Some id) (lenZ d) (Ptr b 0)) h =
    Ok ((v, if reported_modified config d then [] else [(ntohl id, NF_ACCEPT, d)],
         ([], let st := count_received (lenZ d) st in
              if reported_modified config d then st
              else st <| packets_modified := u64 (packets_modified st + 1) |>)), h') ∧
    blocks h' = blocks h.
Proof.
  intros Hb Hwf Hoom Hd Hi Hfo Hlen. pose proof Hd as [_ _ _ Hih Hth Hfit Hmax].
  unfold packet_process_callback. cbn [netfilter_get_packet_metadata netfilter_get_packet_data
    packet_hdr nfq_payload_ret nfq_payload].
  change (0 <? 0) with false. cbv iota beta zeta.
  assert (u32 (lenZ d) = lenZ d) as -> by (unfold_u; apply Z.mod_small; lia).
  rewrite (proj2 (Z.ltb_lt 0 (lenZ d))) by lia. change (0 <? 0) with false. cbv iota.
  destruct (packet_parse_tcp_exec h b d packet_zero Hb Hwf Hoom Hd) as (p & h1 & E & Hf & Hbuf).
  pose proof E as Ec. apply packet_parse_cases in Ec as (p' & [= <-] & [[? _]|[_ Hal]]); [done|].
  destruct (parse_allocs_live _ _ _ Hwf Hal) as (Hl & Hw & _).
  erewrite bind_ok by exact E. cbv beta iota. change (0 <? 0) with false. cbv iota.
  set (p1 := p <| nfqueue_id := ntohl id |>).
  assert (tcp_fields d p1 ∧ tcp_buffers d h p1 h1) as [Hf1 Hbuf1] by done.
  erewrite bind_ok by (by eapply parsed_process). cbv beta iota.
  destruct Hbuf as (_ & ((rb & Hrp & _ & Hrb) & Hrl) & _).
  destruct (reported_modified config d).
  - erewrite bind_ok by done. cbv beta iota.
    erewrite bind_ok by (apply (packet_free_after p1 h1); [exact Hl|apply only_object_refl]).
    by eexists _, _.
  - change (0 =? 0) with true. cbv iota zeta.
    change (raw_packet p1) with (raw_packet p). change (raw_packet_len p1) with (raw_packet_len p).
    rewrite Hrp, Hrl, (proj2 (Z.ltb_lt 0 (lenZ d))) by lia. cbn [is_null negb andb].
    erewrite bind_ok by (erewrite bind_ok by (by apply netfilter_send_verdict_ok); done).
    cbv beta iota.
    erewrite bind_ok by (apply (packet_free_after p1 h1); [exact Hl|apply only_object_refl]).
    by eexists _, _.
Qed.

(** The verdict of any message that carries the bytes [d], on every run that
    returns: [packet_process] decides. *)
Lemma callback_follows_process
    os_send os_verdict config socks ctx stale st h b d id v vs eff h' :
  blocks h !! b = Some d → heap_wf h → 0 < lenZ d < 2 ^ 32 → initialized ctx = true →
  packet_process_callback os_send os_verdict config socks ctx stale st
    (mkNfqData (Some id) (lenZ d) (Ptr b 0)) h = Ok ((v, vs, eff), h') →
  ∃ r p h1, packet_parse (Ptr b 0) (lenZ d) (Some packet_zero) h = Ok ((r, Some p), h1) ∧
    (r = -1 ∧ vs = [] ∨
     r = 0 ∧ ∃ r' out h2,
       packet_process os_send config socks (Some (p <| nfqueue_id := ntohl id |>)) h1 =
         Ok ((r', out), h2) ∧ (r' = 0 ∨ r' = 1) ∧
       vs = if (r' =? 0) && negb (is_null (raw_packet p)) then [(ntohl id, NF_ACCEPT, d)] else []).
Proof.
  intros Hb Hwf Hlen Hi. unfold packet_process_callback.
  cbn [netfilter_get_packet_metadata netfilter_get_packet_data packet_hdr nfq_payload_ret nfq_payload].
  change (0 <? 0) with false. cbv iota beta zeta.
  assert (u32 (lenZ d) = lenZ d) as -> by (unfold_u; apply Z.mod_small; lia).
  rewrite (proj2 (Z.ltb_lt 0 (lenZ d))) by lia. change (0 <? 0) with false. cbv iota.
  intros H. minv H. destruct a as [r q]. pose proof E as Ec.
  apply packet_parse_cases in Ec as (p & -> & [(-> & _ & _)|[-> Hal]]).
  { injection H as _ <- _ _. exists (-1), p, h0. auto. }
  exists 0, p, h0. split; [exact E|]. right. split; [done|].
  destruct (packet_parse_raw _ _ _ _ _ _ Hb Hwf E) as [Hrl Hraw].
  destruct (parse_allocs_live _ _ _ Hwf Hal) as (Hl & _ & Hwf1).
  change (0 <? 0) with false in H. cbv beta iota zeta in H.
  minv H. destruct a as [r' out]. exists r', out, h1. split; [exact E0|].
  apply packet_process_only in E0 as [Hr' Ho]; [|done]. split; [done|].
  minv H. destruct a as [[v1 vs1] st1]. minv H. injection H as _ <- _ _.
  destruct (r' =? 0); [|by injection E0 as _ <- _ _]. cbn [andb] in E0 |- *.
  change (raw_packet (upd nfqueue_id _ p)) with (raw_packet p) in E0.
  change (raw_packet_len (upd nfqueue_id _ p)) with (raw_packet_len p) in E0.
  destruct Hraw as [Hr|(rb & Hr & Hrb)]; rewrite Hr in E0 |- *; cbn [is_null negb andb] in E0 |- *;
    [by injection E0 as _ <- _ _|].
  rewrite Hrl, (proj2 (Z.ltb_lt 0 (lenZ d))) in E0 by lia.
  erewrite bind_ok in E0; [|apply (netfilter_send_verdict_ok _ ctx); [done|]].
  2:{ rewrite (proj2 Ho); [exact Hrb|]. intros pb o Hp ->.
      destruct Hl as (_ & _ & _ & _ & Hap & _). cbn in Hp. by rewrite Hp, Hr in Hap. }
  by injection E0 as _ <- _ _.
Qed.

(** C2: [packet_process] decides on the verdict.  On any message that carries an
    id and the bytes [d] (at most 2^32 - 1 of them, at least one) on an open
    queue, a run of the callback that returns has sent no verdict if [d] could
    not be parsed; if it could, it has sent "accept, with exactly the captured
    bytes" when [packet_process] returned 0 and the raw copy of the packet could
    be allocated, and no verdict at all otherwise.  For a TCP/IPv4 datagram with
    its headers inside it and a payload that is empty or at least 6 bytes long,
    if no allocation fails and no option that rewrites headers or injects packets
    is set, the callback does return, and [packet_process] returns 1 exactly for
    the HTTP requests, if an HTTP fragment size is configured, and for the
    segments to port 443, if an HTTPS fragment size is, unless the payload is
    larger than the configured maximum: these get no verdict, all others their
    own bytes.  The counters advance by one packet and the bytes of the datagram;
    memory is as before. *)
Theorem callback_verdict_unless_reported_modified
    os_send os_verdict config socks ctx stale st h b d id :
  blocks h !! b = Some d → heap_wf h → 0 < lenZ d < 2 ^ 32 → initialized ctx = true →
  let run := packet_process_callback os_send os_verdict config socks ctx stale st
               (mkNfqData (Some id) (lenZ d) (Ptr b 0)) h in
  (∀ v vs eff h', run = Ok ((v, vs, eff), h') →
     ∃ r p h1, packet_parse (Ptr b 0) (lenZ d) (Some packet_zero) h = Ok ((r, Some p), h1) ∧
       (r = -1 ∧ vs = [] ∨
        r = 0 ∧ ∃ r' out h2,
          packet_process os_send config socks (Some (p <| nfqueue_id := ntohl id |>)) h1 =
            Ok ((r', out), h2) ∧ (r' = 0 ∨ r' = 1) ∧
          vs = if (r' =? 0) && negb (is_null (raw_packet p))
               then [(ntohl id, NF_ACCEPT, d)] else [])) ∧
  (tcp_datagram d → no_oom h → fragment_only config →
   tcp_payload d = [] ∨ 6 ≤ lenZ (tcp_payload d) →
   ∃ v h',
     run = Ok ((v, if reported_modified config d then [] else [(ntohl id, NF_ACCEPT, d)],
                ([], let st := count_received (lenZ d) st in
                     if reported_modified config d then st
                     else st <| packets_modified := u64 (packets_modified st + 1) |>)), h') ∧
     blocks h' = blocks h).
Proof.
  intros Hb Hwf Hlen Hi run. split.
  - intros v vs eff h'. by apply callback_follows_process.
  - intros Hd Hoom Hf Hp. by apply callback_verdict.
Qed.

(** An HTTP request that is reported as modified; and one whose raw copy cannot
    be allocated: neither gets a verdict. *)
Lemma callback_verdict_unless_reported_modified_witness :
  let d := take 40 sample_datagram ++ chars "GET / HTTP/1.1" in
  let run config h := packet_process_callback (λ _ _, 0) (λ _, 0) config
      raw_sockets_init (nf_context_zero <| initialized := true |>) 0 (mkStats 0 0 0)
      (mkNfqData (Some 16777216) (lenZ d) (Ptr 0 0)) h in
  (∃ v h', run (config_zero <| http_fragment_size := 2 |>) (heap1 d) =
             Ok ((v, [], ([], mkStats 1 0 54)), h') ∧ blocks h' = {[0%nat := d]}) ∧
  (∃ v eff h', run config_zero (mkHeap {[0%nat := d]} 1 (Nat.eqb 2) (λ _ _, 0)) = Ok ((v, [], eff), h')).
Proof.
  intros d run. split.
  - destruct (callback_verdict_unless_reported_modified (λ _ _, 0) (λ _, 0)
              (config_zero <| http_fragment_size := 2 |>) raw_sockets_init
              (nf_context_zero <| initialized := true |>) 0 (mkStats 0 0 0) (heap1 d) 0 d 16777216)
      as (_ & v & h' & E & Hb).
    + reflexivity.
    + apply heap1_wf.
    + split; reflexivity.
    + reflexivity.
    + split; [vm_decide|vm_compute; congruence..].
    + done.
    + done.
    + right. vm_compute. congruence.
    + exists v, h'. split; [exact E|exact Hb].
  - set (h := mkHeap {[0%nat := d]} 1 (Nat.eqb 2) (λ _ _, 0)).
    destruct (run config_zero h) as [[[[v vs] eff] h']|u] eqn:E; [|vm_compute in E; discriminate].
    destruct (callback_verdict_unless_reported_modified (λ _ _, 0) (λ _, 0) config_zero
              raw_sockets_init (nf_context_zero <| initialized := true |>) 0 (mkStats 0 0 0)
              h 0 d 16777216) as [H _].
    + reflexivity.
    + intros b [? Hx]. cbn in Hx |- *. apply lookup_singleton_Some in Hx as [<- _]. lia.
    + split; reflexivity.
    + reflexivity.
    + destruct (H _ _ _ _ E) as (r & p & h1 & Ep & Hr).
      assert (∃ p h1, packet_parse (Ptr 0 0) (lenZ d) (Some packet_zero) h = Ok ((0, Some p), h1) ∧
                      raw_packet p = Null) as (p' & h1' & Ep' & Hn)
        by (vm_compute; eexists _, _; split; reflexivity).
      rewrite Ep in Ep'. injection Ep' as -> -> ->.
      destruct Hr as [[? _]|(_ & r' & out & h2 & _ & _ & ->)]; [discriminate|].
      rewrite Hn, andb_false_r. by eexists _, _, _.
Defined.

Lemma callback_restores_heap_witness :
  let nfa := mkNfqData (Some 16777216) 45 (Ptr 0 0) in
  ∃ v vs eff h',
    packet_process_callback (λ _ _, 0) (λ _, 0) config_zero raw_sockets_init
      (nf_context_zero <| initialized := true |>) 0 (mkStats 0 0 0) nfa (heap1 sample_datagram) =
    Ok ((v, vs, eff), h') ∧ vs = [(1, NF_ACCEPT, sample_datagram)] ∧
    blocks h' = {[0%nat := sample_datagram]}.
Proof.
  intros nfa.
  destruct (packet_process_callback (λ _ _, 0) (λ _, 0) config_zero raw_sockets_init
      (nf_context_zero <| initialized := true |>) 0 (mkStats 0 0 0) nfa (heap1 sample_datagram))
    as [[[[v vs] eff] h']|u] eqn:E; [|vm_compute in E; discriminate].
  exists v, vs, eff, h'. split; [reflexivity|].
  destruct (callback_restores_heap (λ _ _, 0) (λ _, 0) config_zero raw_sockets_init
      (nf_context_zero <| initialized := true |>) 0 (mkStats 0 0 0) nfa (heap1 sample_datagram)
      v vs eff h') as [Hb _].
  - apply heap1_wf.
  - exact E.
  - split; [|exact Hb]. clear Hb. vm_compute in E. by injection E as _ <- _ _.
Defined.
