(* ===== verification/Config.v ===== *)
(** * src/core/config.c and the command line of src/main.c

    A configuration is a value; its [char] arrays and those of a parsed line are
    lists of bytes, and an access outside an array or past the end of a string is
    an [UB] outcome. *)

From S2P Require Import Prelude CString Types.

(** ** Character arrays of a structure *)

(** [strncpy(a, src, n)] into the array [a]. *)
Definition strncpy_field (n : nat) (src a : list Z) : outcome (list Z) :=
  bs ← strncpy_bytes n src;
  if (n <=? length a)%nat then Ok (bs ++ drop n a) else UB OobWrite.

(** [a[i] = c] *)
Definition set_char (i : nat) (c : Z) (a : list Z) : outcome (list Z) :=
  if (i <? length a)%nat then Ok (<[i := c]> a) else UB OobWrite.

(** [strncpy(a, src, sizeof(a) - 1); a[sizeof(a) - 1] = 0;] *)
Definition copy_field (src a : list Z) : outcome (list Z) :=
  a ← strncpy_field (length a - 1) src a; set_char (length a - 1) 0 a.

(** ** Defaults *)

Definition DEFAULT_HTTP_FRAGMENT_SIZE : Z := 2.
Definition DEFAULT_HTTPS_FRAGMENT_SIZE : Z := 2.
Definition DEFAULT_DNS_PORT : Z := 53.
Definition DEFAULT_DNS_SERVER_V4 : list Z := lit "1.1.1.1".
Definition DEFAULT_DNS_SERVER_V6 : list Z := lit "2606:4700:4700::4700".
Definition DEFAULT_PID_FILE : list Z := lit "/run/goodbyedpi.pid".
Definition DEFAULT_LOG_FILE : list Z := lit "/var/log/goodbyedpi.log".
Definition DEFAULT_MAX_PAYLOAD_SIZE : Z := 1200.

Definition config_init (cfg : option goodbyedpi_config_t) : outcome (Z * option goodbyedpi_config_t) :=
  match cfg with
  | None => Ok (-1, None)
  | Some _ =>
      let cfg := config_zero
        <| http_fragment_size := DEFAULT_HTTP_FRAGMENT_SIZE |>
        <| https_fragment_size := DEFAULT_HTTPS_FRAGMENT_SIZE |>
        <| native_fragmentation := true |>
        <| reverse_fragmentation := false |>
        <| fragment_http_persistent := false |>
        <| fragment_http_persistent_nowait := false |>
        <| host_mixedcase := false |>
        <| additional_space := false |>
        <| host_removespace := false |>
        <| wrong_checksum := false |>
        <| wrong_sequence := false |>
        <| auto_ttl := false |>
        <| fake_packet := false |>
        <| ttl_of_fake_packet := 64 |>
        <| ttl_min_nhops := 3 |>
        <| auto_ttl_1 := 1 |>
        <| auto_ttl_2 := 4 |>
        <| auto_ttl_max := 10 |>
        <| host_uppercase := false |>
        <| host_lowercase_mixed := false |>
        <| dns_redirect_ipv4 := false |>
        <| dns_redirect_ipv6 := false |> in
      v4 ← strncpy_field 45 DEFAULT_DNS_SERVER_V4 (dns_server_v4 cfg);
      v6 ← strncpy_field 45 DEFAULT_DNS_SERVER_V6 (dns_server_v6 cfg);
      let cfg := cfg <| dns_server_v4 := v4 |> <| dns_server_v6 := v6 |>
        <| dns_port_v4 := DEFAULT_DNS_PORT |>
        <| dns_port_v6 := DEFAULT_DNS_PORT |>
        <| daemon_mode := false |>
        <| systemd_mode := false |>
        <| debug_mode := false |>
        <| verbose_mode := false |>
        <| block_quic := false |>
        <| max_payload_size := DEFAULT_MAX_PAYLOAD_SIZE |> in
      pid ← strncpy_field 255 DEFAULT_PID_FILE (pid_file cfg);
      log ← strncpy_field 255 DEFAULT_LOG_FILE (log_file cfg);
      let cfg := cfg <| pid_file := pid |> <| log_file := log |> in
      ifc ← set_char 0 0 (interface cfg);
      mret (0, Some (cfg <| interface := ifc |>))
  end.

(** ** Parsing a line *)

Record config_line_t : Type := mkLine { key : list Z; value : list Z }.

#[export] Instance eta_line : Eta config_line_t := λ l, mkLine (key l) (value l).

Definition is_blank (c : Z) : bool := (c =? 32) || (c =? 9).
Definition is_trailing (c : Z) : bool := is_blank c || (c =? 10) || (c =? 13).

(** [while ( *value_start == ' ' || *value_start == '\t') value_start++;] *)
Fixpoint skip_value_blanks (l : list Z) : outcome (list Z) :=
  match l with
  | [] => UB OobRead
  | c :: l' => if is_blank c then skip_value_blanks l' else Ok l
  end.

(** The loop that removes trailing white space, from [end = value + i] down to
    [end > value]. *)
Fixpoint strip_loop (i : nat) (a : list Z) : outcome (list Z) :=
  match i with
  | O => Ok a
  | S k => match a !! i with
           | None => UB OobRead
           | Some c => if is_trailing c then strip_loop k (<[i := 0]> a) else Ok a
           end
  end.

Definition config_parse_line (line : option (list Z)) (config_line : option config_line_t)
    : outcome (Z * option config_line_t) :=
  match line, config_line with
  | Some line, Some cl =>
      match line with
      | [] => UB OobRead
      | c :: _ =>
          if (c =? 0) || (c =? 35) || (c =? 10) then Ok (1, config_line) else
          equals_pos ← strchr line 61;
          match equals_pos with
          | None => Ok (-1, config_line)
          | Some key_len =>
              let rest := drop (S key_len) line in
              _ ← strlen_list rest;
              if (64 <=? key_len)%nat then Ok (-1, config_line) else
              k ← strncpy_field key_len line (key cl);
              k ← set_char key_len 0 k;
              let cl := cl <| key := k |> in
              value_start ← skip_value_blanks rest;
              n ← strlen_list value_start;
              if 256 <=? n then Ok (-1, Some cl) else
              v ← strncpy_field 255 value_start (value cl);
              v ← set_char 255 0 v;
              n ← strlen_list v;
              v ← strip_loop (Z.to_nat (n - 1)) v;
              Ok (0, Some (cl <| value := v |>))
          end
      end
  | _, _ => Ok (-1, config_line)
  end.

(** ** Setting a value *)

(** [strcmp(s, "t") == 0] *)
Definition streq (s : list Z) (t : string) : outcome bool := v ← strcmp s (lit t); mret (v =? 0).

Definition bool_value (v : list Z) : outcome bool :=
  b ← streq v "true"; if b : bool then Ok true else streq v "1".

Definition uint_value (v : list Z) : outcome Z := s ← cstr v; mret (u32 (atoi s)).

(** What a key does with its value. *)
Definition setter : Type := list Z → goodbyedpi_config_t → outcome goodbyedpi_config_t.

Definition set_uint (f : Z → goodbyedpi_config_t → goodbyedpi_config_t) : setter :=
  λ v cfg, x ← uint_value v; mret (f x cfg).
Definition set_bool (f : bool → goodbyedpi_config_t → goodbyedpi_config_t) : setter :=
  λ v cfg, x ← bool_value v; mret (f x cfg).

(** The chain of [strcmp] tests, in order. *)
Definition config_keys : list (string * setter) := [
  ("http_fragment_size", set_uint (λ x c, c <| http_fragment_size := x |>));
  ("https_fragment_size", set_uint (λ x c, c <| https_fragment_size := x |>));
  ("native_fragmentation", set_bool (λ x c, c <| native_fragmentation := x |>));
  ("reverse_fragmentation", set_bool (λ x c, c <| reverse_fragmentation := x |>));
  ("host_mixedcase", set_bool (λ x c, c <| host_mixedcase := x |>));
  ("additional_space", set_bool (λ x c, c <| additional_space := x |>));
  ("host_removespace", set_bool (λ x c, c <| host_removespace := x |>));
  ("wrong_checksum", set_bool (λ x c, c <| wrong_checksum := x |>));
  ("wrong_sequence", set_bool (λ x c, c <| wrong_sequence := x |>));
  ("auto_ttl", set_bool (λ x c, c <| auto_ttl := x |>));
  ("fake_packet", set_bool (λ x c, c <| fake_packet := x |>));
  ("dns_server_v4", λ v c, a ← strncpy_field 45 v (dns_server_v4 c); mret (c <| dns_server_v4 := a |>));
  ("dns_server_v6", λ v c, a ← strncpy_field 45 v (dns_server_v6 c); mret (c <| dns_server_v6 := a |>));
  ("dns_redirect_ipv4", set_bool (λ x c, c <| dns_redirect_ipv4 := x |>));
  ("dns_redirect_ipv6", set_bool (λ x c, c <| dns_redirect_ipv6 := x |>));
  ("debug", set_bool (λ x c, c <| debug_mode := x |>));
  ("verbose", set_bool (λ x c, c <| verbose_mode := x |>));
  ("daemon", set_bool (λ x c, c <| daemon_mode := x |>))
]%string.

Fixpoint dispatch_key (keys : list (string * setter)) (k v : list Z) (cfg : goodbyedpi_config_t)
    : outcome (Z * goodbyedpi_config_t) :=
  match keys with
  | [] => Ok (-1, cfg)
  | (name, f) :: keys =>
      b ← streq k name;
      if b : bool then cfg ← f v cfg; mret (0, cfg) else dispatch_key keys k v cfg
  end.

Definition config_set_value (cfg : option goodbyedpi_config_t) (key value : option (list Z))
    : outcome (Z * option goodbyedpi_config_t) :=
  match cfg, key, value with
  | Some cfg, Some k, Some v => '(r, cfg) ← dispatch_key config_keys k v cfg; mret (r, Some cfg)
  | _, _, _ => Ok (-1, cfg)
  end.

(** ** Loading a file *)

(** [fgets(line, size, fp)] with [n = size - 1] bytes of room: the bytes up to
    and including the next newline, at most [n], and what is left. *)
Fixpoint fgets (n : nat) (file : list Z) : list Z * list Z :=
  match n, file with
  | S n, c :: file =>
      if c =? 10 then ([c], file) else let '(l, rest) := fgets n file in (c :: l, rest)
  | _, _ => ([], file)
  end.

(** The loop over the lines; every round takes at least one byte, so the length
    of the file bounds the number of rounds. *)
Fixpoint load_loop (fuel : nat) (file : list Z) (cl : config_line_t) (cfg : goodbyedpi_config_t)
    : outcome (Z * goodbyedpi_config_t) :=
  match fuel with
  | O => Ok (0, cfg)
  | S fuel =>
      match fgets 511 file with
      | ([], _) => Ok (0, cfg)
      | (line, rest) =>
          '(result, cl') ← config_parse_line (Some (line ++ [0])) (Some cl);
          let cl := default cl cl' in
          if result =? 0 then
            '(_, cfg') ← config_set_value (Some cfg) (Some (key cl)) (Some (value cl));
            load_loop fuel rest cl (default cfg cfg')
          else if result <? 0 then Ok (-1, cfg)
          else load_loop fuel rest cl cfg
      end
  end.

(** [file] is the file's contents, [None] if it cannot be opened; [cl] the
    initial contents of the local [config_line]. *)
Definition config_load_file (file : option (list Z)) (cl : config_line_t)
    (cfg : option goodbyedpi_config_t) : outcome (Z * option goodbyedpi_config_t) :=
  match cfg, file with
  | Some cfg, Some file =>
      '(r, cfg) ← load_loop (length file) file cl cfg; mret (r, Some cfg)
  | _, _ => Ok (-1, cfg)
  end.

(** ** Validation *)

Definition empty_server (on : bool) (server : list Z) : outcome bool :=
  if on then n ← strlen_list server; mret (n =? 0) else Ok false.

Definition config_validate (cfg : option goodbyedpi_config_t) : outcome Z :=
  match cfg with
  | None => Ok (-1)
  | Some c =>
      if 1500 <? http_fragment_size c then Ok (-1) else
      if 1500 <? https_fragment_size c then Ok (-1) else
      if (ttl_of_fake_packet c =? 0) || (255 <? ttl_of_fake_packet c) then Ok (-1) else
      e4 ← empty_server (dns_redirect_ipv4 c) (dns_server_v4 c);
      if e4 : bool then Ok (-1) else
      e6 ← empty_server (dns_redirect_ipv6 c) (dns_server_v6 c);
      if e6 : bool then Ok (-1) else
      if (dns_port_v4 c =? 0) || (65535 <? dns_port_v4 c) then Ok (-1) else
      if (dns_port_v6 c =? 0) || (65535 <? dns_port_v6 c) then Ok (-1) else
      Ok 0
  end.

(** ** Legacy modes *)

Definition config_apply_legacy_mode (mode : Z) (c : goodbyedpi_config_t) : Z * goodbyedpi_config_t :=
  if mode =? 1 then
    (0, c <| host_mixedcase := true |> <| host_removespace := true |>
          <| http_fragment_size := 2 |> <| https_fragment_size := 2 |>
          <| native_fragmentation := true |> <| reverse_fragmentation := false |>
          <| fragment_http_persistent := true |> <| fragment_http_persistent_nowait := true |>)
  else if mode =? 2 then
    (0, c <| host_mixedcase := true |> <| host_removespace := true |>
          <| http_fragment_size := 2 |> <| https_fragment_size := 40 |>
          <| native_fragmentation := true |> <| reverse_fragmentation := false |>
          <| fragment_http_persistent := true |> <| fragment_http_persistent_nowait := true |>)
  else if mode =? 5 then
    (0, c <| http_fragment_size := 2 |> <| https_fragment_size := 2 |>
          <| native_fragmentation := true |> <| reverse_fragmentation := true |>
          <| auto_ttl := true |> <| fake_packet := true |> <| max_payload_size := 1200 |>)
  else if mode =? 6 then
    (0, c <| http_fragment_size := 2 |> <| https_fragment_size := 2 |>
          <| native_fragmentation := true |> <| reverse_fragmentation := true |>
          <| wrong_sequence := true |> <| fake_packet := true |> <| max_payload_size := 1200 |>)
  else if mode =? 7 then
    (0, c <| http_fragment_size := 2 |> <| https_fragment_size := 2 |>
          <| native_fragmentation := true |> <| reverse_fragmentation := true |>
          <| wrong_checksum := true |> <| fake_packet := true |> <| max_payload_size := 1200 |>)
  else if mode =? 9 then
    (0, c <| http_fragment_size := 2 |> <| https_fragment_size := 2 |>
          <| native_fragmentation := true |> <| reverse_fragmentation := true |>
          <| wrong_sequence := true |> <| wrong_checksum := true |> <| fake_packet := true |>
          <| block_quic := true |> <| max_payload_size := 1200 |>)
  else (-1, c).

(** ** Command line

    What [getopt_long] returns and stores in [optarg], one entry per call before
    the final -1; [optarg] is the argument's bytes with its terminator, [] for an
    option without one. *)

Record getopt_result : Type := mkOpt { opt_c : Z; optarg : list Z }.

(** How the [switch] leaves: [return r], or [break] and go on. *)
Inductive opt_step : Type :=
  | Return (r : Z) (c : goodbyedpi_config_t)
  | Continue (c : goodbyedpi_config_t).

(** [val = strtol(optarg, &endptr, 10)] with the test [*endptr != 0 || errno != 0
    || val < lo || val > 65535]: [None] if it fires. *)
Definition number_arg (lo : Z) (arg : list Z) : outcome (option Z) :=
  s ← cstr arg;
  let '(val, endptr, err) := strtol s in
  mret (if negb (bool_decide (endptr = [])) || err || (val <? lo) || (65535 <? val)
        then None else Some val).

(** [if (strlen(optarg) >= sizeof(a)) return -1; strncpy...; a[last] = 0;] *)
Definition string_arg (arg a : list Z) : outcome (option (list Z)) :=
  n ← strlen_list arg;
  if lenZ a <=? n then Ok None else Some <$> copy_field arg a.

Section arguments.
(** The file system: what opening and reading a named file gives. *)
Variable open_file : list Z → option (list Z).

Definition with_number (lo : Z) (arg : list Z) (cfg : goodbyedpi_config_t)
    (f : Z → goodbyedpi_config_t) : outcome opt_step :=
  v ← number_arg lo arg;
  mret (match v with None => Return (-1) cfg | Some x => Continue (f x) end).

Definition with_string (arg a : list Z) (cfg : goodbyedpi_config_t)
    (f : list Z → goodbyedpi_config_t) : outcome opt_step :=
  v ← string_arg arg a;
  mret (match v with None => Return (-1) cfg | Some x => Continue (f x) end).

Definition legacy (mode : Z) (cfg : goodbyedpi_config_t) : outcome opt_step :=
  Ok (Continue (config_apply_legacy_mode mode cfg).2).

Definition handle_option (o : getopt_result) (cl : config_line_t) (cfg : goodbyedpi_config_t)
    : outcome opt_step :=
  let c := opt_c o in
  let arg := optarg o in
  if (c =? 104) || (c =? 86) then Ok (Return 1 cfg)
  else if c =? 100 then Ok (Continue (cfg <| daemon_mode := true |>))
  else if c =? 99 then
    name ← cstr arg;
    '(r, cfg') ← config_load_file (open_file name) cl (Some cfg);
    let cfg := default cfg cfg' in
    mret (if r <? 0 then Return (-1) cfg else Continue cfg)
  else if c =? 112 then with_string arg (pid_file cfg) cfg (λ a, cfg <| pid_file := a |>)
  else if c =? 108 then with_string arg (log_file cfg) cfg (λ a, cfg <| log_file := a |>)
  else if c =? 118 then Ok (Continue (cfg <| verbose_mode := true |>))
  else if c =? 49 then legacy 1 cfg
  else if c =? 50 then legacy 2 cfg
  else if c =? 53 then legacy 5 cfg
  else if c =? 54 then legacy 6 cfg
  else if c =? 55 then legacy 7 cfg
  else if c =? 57 then legacy 9 cfg
  else if c =? 1000 then Ok (Continue (cfg <| debug_mode := true |>))
  else if c =? 1001 then Ok (Continue (cfg <| systemd_mode := true |>))
  else if c =? 1002 then with_number 1 arg cfg (λ v, cfg <| http_fragment_size := u32 v |>)
  else if c =? 1003 then with_number 1 arg cfg (λ v, cfg <| https_fragment_size := u32 v |>)
  else if c =? 1004 then Ok (Continue (cfg <| native_fragmentation := true |>))
  else if c =? 1005 then Ok (Continue (cfg <| reverse_fragmentation := true |>))
  else if c =? 1006 then Ok (Continue (cfg <| host_mixedcase := true |>))
  else if c =? 1007 then Ok (Continue (cfg <| additional_space := true |>))
  else if c =? 1008 then Ok (Continue (cfg <| host_removespace := true |>))
  else if c =? 1009 then
    with_string arg (dns_server_v4 cfg) cfg
      (λ a, cfg <| dns_redirect_ipv4 := true |> <| dns_server_v4 := a |>)
  else if c =? 1010 then
    with_string arg (dns_server_v6 cfg) cfg
      (λ a, cfg <| dns_redirect_ipv6 := true |> <| dns_server_v6 := a |>)
  else if c =? 1011 then
    with_number 1 arg cfg (λ v, cfg <| dns_port_v6 := u16 v |> <| dns_port_v4 := u16 v |>)
  else if c =? 1012 then with_number 0 arg cfg (λ v, cfg <| nfqueue_num := u16 v |>)
  else if c =? 63 then Ok (Return (-1) cfg)
  else Ok (Continue cfg).

Fixpoint parse_arguments (opts : list getopt_result) (cl : config_line_t)
    (cfg : goodbyedpi_config_t) : outcome (Z * goodbyedpi_config_t) :=
  match opts with
  | [] => Ok (0, cfg)
  | o :: opts =>
      s ← handle_option o cl cfg;
      match s with
      | Return r cfg => Ok (r, cfg)
      | Continue cfg => parse_arguments opts cl cfg
      end
  end.
End arguments.

(** ** Terminated arrays *)

(** An array of [n] characters whose last one is the terminator. *)
Definition carray (n : nat) (a : list Z) : Prop := length a = n ∧ last a = Some 0.

Lemma carray_inv n a : carray n a → ∃ a', a = a' ++ [0].
Proof. intros [_ Hl]. apply last_Some in Hl as [a' ->]. by exists a'. Qed.

(** A list with a NUL holds a string. *)
Lemma cstr_snoc a r : ∃ s, cstr (a ++ 0 :: r) = Ok s ∧ (length s ≤ length a)%nat.
Proof.
  induction a as [|c a (s & E & Hs)]; cbn; [by exists []|].
  destruct (c =? 0); [exists []; split; [done|cbn; lia]|].
  exists (c :: s). rewrite E. cbn. split; [done|lia].
Qed.

Lemma carray_cstr n a : carray n a → ∃ s, cstr a = Ok s ∧ (length s < n)%nat.
Proof.
  intros H. pose proof H as [Hn _]. apply carray_inv in H as [a' ->].
  destruct (cstr_snoc a' []) as (s & E & Hs). exists s. split; [done|].
  rewrite length_app in Hn. cbn in Hn. lia.
Qed.

Lemma strncpy_bytes_cstr n src s :
  cstr src = Ok s → strncpy_bytes n src = Ok (take n s ++ replicate (n - length s) 0).
Proof. intros [Hs [r ->]]%cstr_inv. by apply strncpy_bytes_ok. Qed.

Lemma cstr_padded s z r : no_nul s → cstr (s ++ replicate z 0 ++ 0 :: r) = Ok s.
Proof. intros Hs. destruct z; cbn; by apply cstr_ok. Qed.

(** Copying into an array with a terminator at [n] keeps the terminator. *)
Lemma strncpy_field_ok n src a s :
  cstr src = Ok s → carray (S n) a →
  ∃ a', strncpy_field n src a = Ok a' ∧ carray (S n) a' ∧ cstr a' = Ok (take n s).
Proof.
  intros Hc Ha. unfold strncpy_field. erewrite strncpy_bytes_cstr by done.
  cbn. pose proof Ha as [Hn _]. rewrite Hn, (proj2 (Nat.leb_le _ _)) by lia.
  destruct (carray_inv _ _ Ha) as [a' ->]. rewrite length_app in Hn. cbn in Hn.
  rewrite drop_app_length' by lia. eexists. split; [done|]. rewrite <- app_assoc. split.
  - split; [|by rewrite !last_app].
    rewrite !length_app, length_take, length_replicate. cbn. lia.
  - apply cstr_padded. apply cstr_inv in Hc as [Hs _]. auto with cmem.
Qed.

Lemma set_char_last n a : length a = S n → ∃ a', set_char n 0 a = Ok a' ∧ carray (S n) a' ∧
  take n a' = take n a.
Proof.
  intros Hn. unfold set_char. rewrite Hn, (proj2 (Nat.ltb_lt _ _)) by lia.
  eexists. split; [done|]. split; [|by rewrite take_insert_ge by lia].
  split; [by rewrite length_insert|].
  rewrite last_lookup, length_insert, Hn. cbn. rewrite list_lookup_insert_eq; [done|lia].
Qed.

Lemma copy_field_ok n src a s :
  cstr src = Ok s → (length s ≤ n)%nat → length a = S n →
  ∃ a', copy_field src a = Ok a' ∧ carray (S n) a' ∧ cstr a' = Ok s.
Proof.
  intros Hc Hl Hn. unfold copy_field. rewrite Hn. cbn [Nat.sub]. rewrite Nat.sub_0_r.
  unfold strncpy_field. erewrite strncpy_bytes_cstr by done. cbn.
  rewrite Hn, (proj2 (Nat.leb_le _ _)) by lia. cbn.
  set (b := _ ++ _). assert (length b = S n) as Hb.
  { unfold b. rewrite !length_app, length_take, length_replicate, length_drop. lia. }
  rewrite Hb. cbn. rewrite Nat.sub_0_r.
  destruct (set_char_last n b Hb) as (a' & -> & Hca & Ht). exists a'. split_and!; [done..|].
  destruct (carray_inv _ _ Hca) as [a'' Ea]. destruct Hca as [Hla _].
  assert (a'' = s ++ replicate (n - length s) 0) as ->.
  { rewrite Ea in Hla. rewrite length_app in Hla. cbn in Hla.
    rewrite Ea, take_app_length' in Ht by lia. rewrite Ht. unfold b.
    rewrite take_app_length' by (rewrite length_app, length_take, length_replicate; lia).
    by rewrite take_ge by lia. }
  rewrite Ea, <- app_assoc. apply cstr_padded. by apply cstr_inv in Hc as [Hs _].
Qed.

Lemma strlen_list_ok l s : cstr l = Ok s → strlen_list l = Ok (lenZ s).
Proof. intros E. unfold strlen_list. by rewrite E. Qed.

(** ** Lines *)

(** Without the characters satisfying [p] at the start, at the end. *)
Fixpoint drop_while (p : Z → bool) (s : list Z) : list Z :=
  match s with c :: t => if p c then drop_while p t else s | [] => [] end.
Definition rstrip_by (p : Z → bool) (s : list Z) : list Z := reverse (drop_while p (reverse s)).

Lemma rstrip_by_snoc p s c : rstrip_by p (s ++ [c]) = if p c then rstrip_by p s else s ++ [c].
Proof.
  unfold rstrip_by. rewrite reverse_snoc. cbn [drop_while]. destruct (p c); [done|].
  by rewrite reverse_cons, reverse_involutive.
Qed.

Lemma drop_while_suffix p s : ∃ t, s = t ++ drop_while p s.
Proof.
  induction s as [|c s [t IH]]; cbn; [by exists []|]. destruct (p c); [|by exists []].
  exists (c :: t). cbn. by rewrite <- IH.
Qed.

Lemma rstrip_by_prefix p s : ∃ t, s = rstrip_by p s ++ t.
Proof.
  destruct (drop_while_suffix p (reverse s)) as [t Ht]. exists (reverse t). unfold rstrip_by.
  by rewrite <- reverse_app, <- Ht, reverse_involutive.
Qed.

(** The text of a value: without leading blanks; of what is left, the first
    character is kept even if it is white space, trailing white space is not. *)
Definition value_text (v : list Z) : list Z :=
  match drop_while is_blank v with [] => [] | c :: u => c :: rstrip_by is_trailing u end.

(** The parts of a line before and after the first '='. *)
Fixpoint split_eq (s : list Z) : option (list Z * list Z) :=
  match s with
  | [] => None
  | c :: s => if c =? 61 then Some ([], s)
              else match split_eq s with Some (k, v) => Some (c :: k, v) | None => None end
  end.

(** What a line says. *)
Inductive line_meaning : Type :=
  | Skip
  | Bad
  | Setting (k v : list Z).

Definition meaning (s : list Z) : line_meaning :=
  match s with
  | [] => Skip
  | c :: _ =>
      if (c =? 35) || (c =? 10) then Skip else
      match split_eq s with
      | None => Bad
      | Some (k, v) =>
          if (64 <=? length k)%nat || (256 <=? length (drop_while is_blank v))%nat then Bad
          else Setting k (value_text v)
      end
  end.

Lemma strchr_eq s rest :
  no_nul s → strchr (s ++ 0 :: rest) 61 =
    Ok (match split_eq s with Some (k, _) => Some (length k) | None => None end).
Proof.
  induction s as [|c s IH]; [done|]. intros [Hc Hs]%no_nul_cons. cbn.
  destruct (c =? 61); [done|]. rewrite (proj2 (Z.eqb_neq c 0)) by done. rewrite IH by done. cbn.
  by destruct (split_eq s) as [[k v]|].
Qed.

Lemma split_eq_Some s k v : split_eq s = Some (k, v) → s = k ++ 61 :: v.
Proof.
  revert k. induction s as [|c s IH]; intros k; cbn; [done|].
  destruct (Z.eqb_spec c 61) as [->|]; [by intros [= <- <-]|].
  destruct (split_eq s) as [[k' v']|]; [|done]. intros [= <- <-]. cbn. by rewrite (IH k').
Qed.

Lemma skip_value_blanks_ok s rest :
  no_nul s → skip_value_blanks (s ++ 0 :: rest) = Ok (drop_while is_blank s ++ 0 :: rest).
Proof.
  induction s as [|c s IH]; [done|]. intros [Hc Hs]%no_nul_cons. cbn.
  destruct (is_blank c); [by apply IH|done].
Qed.

Lemma strip_loop_ok c u r :
  ∃ z, strip_loop (length u) (c :: u ++ r) = Ok (c :: rstrip_by is_trailing u ++ replicate z 0 ++ r).
Proof.
  revert r. induction u as [|x u IH] using rev_ind; intros r; [by exists 0%nat|].
  rewrite length_app, Nat.add_1_r, <- app_assoc. cbn [strip_loop app].
  change ((c :: u ++ x :: r) !! S (length u)) with ((u ++ x :: r) !! length u).
  rewrite list_lookup_middle by done. rewrite rstrip_by_snoc. destruct (is_trailing x).
  - change (<[S (length u) := 0]> (c :: u ++ x :: r)) with (c :: <[length u := 0]> (u ++ x :: r)).
    rewrite insert_app_r_alt, Nat.sub_diag by lia. cbn [insert list_insert].
    destruct (IH (0 :: r)) as [z ->]. exists (S z). by rewrite replicate_S_end, <- app_assoc.
  - exists 0%nat. by rewrite <- app_assoc.
Qed.

Lemma no_nul_drop_while p s : no_nul s → no_nul (drop_while p s).
Proof. destruct (drop_while_suffix p s) as [t Ht]. rewrite Ht at 1. by intros [_ ?]%no_nul_app. Qed.

Lemma no_nul_rstrip_by p s : no_nul s → no_nul (rstrip_by p s).
Proof. destruct (rstrip_by_prefix p s) as [t Ht]. rewrite Ht at 1. by intros [? _]%no_nul_app. Qed.
#[export] Hint Resolve no_nul_drop_while no_nul_rstrip_by : cmem.

(** The key: [strncpy(key, line, key_len); key[key_len] = 0;] *)
Lemma copy_key_ok k rest a :
  no_nul k → length a = 64%nat → (length k < 64)%nat →
  ∃ a1 a2, strncpy_field (length k) (k ++ rest) a = Ok a1 ∧ set_char (length k) 0 a1 = Ok a2 ∧
    length a2 = 64%nat ∧ cstr a2 = Ok k.
Proof.
  intros Hk Ha Hl. unfold strncpy_field.
  assert (strncpy_bytes (length k) (k ++ rest) = Ok k) as ->.
  { clear Hl. induction k as [|c k IH]; [done|]. apply no_nul_cons in Hk as [Hc Hk]. cbn.
    by rewrite (proj2 (Z.eqb_neq c 0)), IH by done. }
  cbn. rewrite Ha, (proj2 (Nat.leb_le _ _)) by lia. eexists _, _. split; [done|].
  unfold set_char. rewrite (proj2 (Nat.ltb_lt _ _)) by (rewrite length_app, length_drop; lia).
  split; [done|]. split.
  - rewrite length_insert, length_app, length_drop. lia.
  - rewrite insert_app_r_alt, Nat.sub_diag by lia.
    destruct (drop (length k) a) as [|y t] eqn:E.
    { apply (f_equal length) in E. rewrite length_drop in E. cbn in E. lia. }
    cbn. by apply cstr_ok.
Qed.

(** The value: copied, terminated, stripped. *)
Lemma copy_value_ok v rest a :
  no_nul v → length a = 256%nat → (length (drop_while is_blank v) < 256)%nat →
  ∃ a', (a1 ← strncpy_field 255 (drop_while is_blank v ++ 0 :: rest) a;
         a2 ← set_char 255 0 a1;
         n ← strlen_list a2;
         strip_loop (Z.to_nat (n - 1)) a2) = Ok a' ∧
    length a' = 256%nat ∧ cstr a' = Ok (value_text v).
Proof.
  intros Hv Ha Hl. unfold value_text. set (t := drop_while is_blank v) in *.
  assert (no_nul t) as Ht by (unfold t; auto with cmem).
  destruct (copy_field_ok 255 (t ++ 0 :: rest) a t) as (a2 & E & Hca & Hc);
    [by apply cstr_ok|lia|done|].
  unfold copy_field in E. rewrite Ha in E. cbn [Nat.sub] in E.
  destruct (strncpy_field 255 (t ++ 0 :: rest) a) as [a1|] eqn:E1; [|done].
  assert (length a1 = 256%nat) as Hl1.
  { unfold strncpy_field in E1. erewrite strncpy_bytes_cstr in E1 by by apply cstr_ok.
    cbn [mbind outcome_bind] in E1. rewrite Ha in E1. cbn in E1. injection E1 as <-.
    rewrite !length_app, length_take, length_replicate, length_drop. lia. }
  cbn [mbind outcome_bind] in E |- *. rewrite Hl1 in E. cbn [Nat.sub] in E. rewrite E.
  cbn [mbind outcome_bind]. erewrite strlen_list_ok by done. cbn [mbind outcome_bind].
  destruct Hca as [Hl2 _]. apply cstr_inv in Hc as [_ [r Hr]].
  destruct t as [|c u].
  - exists a2. split; [done|]. split; [done|]. by rewrite Hr.
  - rewrite lenZ_cons. replace (Z.to_nat (1 + lenZ u - 1)) with (length u) by (unfold lenZ; lia).
    destruct (strip_loop_ok c u (0 :: r)) as [z Ez]. rewrite Hr. cbn [app]. rewrite Ez.
    eexists. split; [done|]. apply no_nul_cons in Ht as [Hc Hu].
    split; [|apply (cstr_padded (c :: rstrip_by is_trailing u)); apply no_nul_cons; auto with cmem].
    assert (length (c :: u ++ 0 :: r) = 256%nat) as Hlen by by rewrite <- Hl2, Hr.
    rewrite <- Hlen. clear -Ez.
    assert (∀ i (b b' : list Z), strip_loop i b = Ok b' → length b' = length b) as Hs.
    { intros i. induction i as [|i IH]; intros b b'; cbn [strip_loop]; [by intros [= ->]|].
      destruct (b !! S i); [|done]. destruct (is_trailing z0); [|by intros [= ->]].
      intros Hb%IH. by rewrite length_insert in Hb. }
    by apply Hs in Ez.
Qed.

Definition line_wf (cl : config_line_t) : Prop :=
  length (key cl) = 64%nat ∧ length (value cl) = 256%nat.

(** What [config_parse_line] promises of a terminated line. *)
Lemma config_parse_line_ok s rest cl :
  no_nul s → line_wf cl →
  ∃ r cl', config_parse_line (Some (s ++ 0 :: rest)) (Some cl) = Ok (r, Some cl') ∧ line_wf cl' ∧
    match meaning s with
    | Skip => r = 1 ∧ cl' = cl
    | Bad => r = -1
    | Setting k v => r = 0 ∧ cstr (key cl') = Ok k ∧ cstr (value cl') = Ok v
    end.
Proof.
  intros Hs [Hk Hv]. unfold meaning. destruct s as [|c s0]; [by exists 1, cl|].
  pose proof Hs as [Hc _]%no_nul_cons. cbn [config_parse_line app].
  rewrite (proj2 (Z.eqb_neq c 0)) by done. cbn [orb].
  destruct ((c =? 35) || (c =? 10)); [by exists 1, cl|].
  change (c :: s0 ++ 0 :: rest) with ((c :: s0) ++ 0 :: rest). rewrite strchr_eq by done.
  destruct (split_eq (c :: s0)) as [[k v]|] eqn:E; [|by exists (-1), cl].
  apply split_eq_Some in E. rewrite E in *. clear E c s0 Hc.
  apply no_nul_app in Hs as [Hnk [_ Hnv]%no_nul_cons].
  cbn [mbind outcome_bind]. rewrite <- app_assoc. cbn [app].
  replace (drop (S (length k)) (k ++ 61 :: v ++ 0 :: rest)) with (v ++ 0 :: rest).
  2: { rewrite <- Nat.add_1_r, drop_app_add. done. }
  erewrite strlen_list_ok by by apply cstr_ok. cbn [mbind outcome_bind].
  destruct (Nat.leb_spec 64 (length k)); cbn [orb]; [by exists (-1), cl|].
  destruct (copy_key_ok k (61 :: v ++ 0 :: rest) (key cl)) as (a1 & a2 & -> & E2 & Hl2 & Hc2);
    [done..|]. cbn [mbind outcome_bind]. rewrite E2. cbn [mbind outcome_bind].
  rewrite skip_value_blanks_ok by done. cbn [mbind outcome_bind].
  erewrite strlen_list_ok by (apply cstr_ok; auto with cmem). cbn [mbind outcome_bind].
  destruct (Nat.leb_spec 256 (length (drop_while is_blank v))).
  { rewrite (proj2 (Z.leb_le 256 _)) by (unfold lenZ; lia). by exists (-1), (cl <| key := a2 |>). }
  rewrite (proj2 (Z.leb_gt 256 _)) by (unfold lenZ; lia).
  destruct (copy_value_ok v rest (value cl)) as (a' & E & Hl' & Hc'); [done..|].
  change (value (cl <| key := a2 |>)) with (value cl).
  exists 0, (cl <| key := a2 |> <| value := a' |>). split; [|done].
  revert E. destruct (strncpy_field 255 _ (value cl)) as [x1|]; [|done]. cbn [mbind outcome_bind].
  destruct (set_char 255 0 x1) as [x2|]; [|done]. cbn [mbind outcome_bind].
  destruct (strlen_list x2) as [x3|]; [|done]. cbn [mbind outcome_bind]. by intros ->.
Qed.

(** C18: on every terminated line [config_parse_line] stays inside the line and
    the two arrays and answers what the line says: 1 and nothing stored for an
    empty line or a comment, -1 for a line without '=' or with a key of 64 or a
    value of 256 characters or more, and otherwise 0 with the text before the
    '=' as key and the value, without leading blanks and trailing white space
    after its first character, both terminated. *)
Theorem config_parse_line_refines s rest cl :
  no_nul s → line_wf cl →
  ∃ r cl', config_parse_line (Some (s ++ 0 :: rest)) (Some cl) = Ok (r, Some cl') ∧ line_wf cl' ∧
    match meaning s with
    | Skip => r = 1 ∧ cl' = cl
    | Bad => r = -1
    | Setting k v => r = 0 ∧ cstr (key cl') = Ok k ∧ cstr (value cl') = Ok v
    end.
Proof. apply config_parse_line_ok. Qed.

(** An uninitialised [config_line]. *)
Definition some_line : config_line_t := mkLine (replicate 64 170) (replicate 256 170).

Lemma config_parse_line_refines_witness :
  ∃ r cl', config_parse_line (Some (chars "debug = false " ++ [10; 0])) (Some some_line)
           = Ok (r, Some cl') ∧
    r = 0 ∧ cstr (key cl') = Ok (chars "debug ") ∧ cstr (value cl') = Ok (chars "false").
Proof.
  destruct (config_parse_line_refines (chars "debug = false " ++ [10]) [] some_line)
    as (r & cl' & E & _ & H).
  - vm_decide.
  - done.
  - exists r, cl'. split; [exact E|exact H].
Defined.

(** ** Values *)

(** Fields are in the range of their C types and the strings are terminated. *)
Record config_wf (c : goodbyedpi_config_t) : Prop := {
  wf_http : 0 ≤ http_fragment_size c < 2 ^ 32;
  wf_https : 0 ≤ https_fragment_size c < 2 ^ 32;
  wf_ttl : 0 ≤ ttl_of_fake_packet c < 2 ^ 8;
  wf_port4 : 0 ≤ dns_port_v4 c < 2 ^ 16;
  wf_port6 : 0 ≤ dns_port_v6 c < 2 ^ 16;
  wf_queue : 0 ≤ nfqueue_num c < 2 ^ 16;
  wf_payload : 0 ≤ max_payload_size c < 2 ^ 32;
  wf_v4 : carray 46 (dns_server_v4 c);
  wf_v6 : carray 46 (dns_server_v6 c);
  wf_pid : carray 256 (pid_file c);
  wf_log : carray 256 (log_file c)
}.

Definition bool_text (v : list Z) : bool :=
  bool_decide (v = chars "true") || bool_decide (v = chars "1").
Definition uint_text (v : list Z) : Z := u32 (atoi v).

Lemma streq_ok a s t :
  cstr a = Ok s → no_nul (chars t) → streq a t = Ok (bool_decide (s = chars t)).
Proof.
  intros [Hs [r ->]]%cstr_inv Ht. unfold streq, lit.
  destruct (strcmp_eq s (chars t) r [] Hs Ht) as (v & -> & Hv). cbn. f_equal.
  destruct (Z.eqb_spec v 0); case_bool_decide; tauto.
Qed.

Lemma bool_value_ok a v : cstr a = Ok v → bool_value a = Ok (bool_text v).
Proof.
  intros Hc. unfold bool_value, bool_text.
  rewrite !(streq_ok _ _ _ Hc) by vm_decide. cbn [mbind outcome_bind].
  by destruct (bool_decide (v = chars "true")).
Qed.

Lemma uint_value_ok a v : cstr a = Ok v → uint_value a = Ok (uint_text v).
Proof. intros Hc. unfold uint_value. by rewrite Hc. Qed.

(** The configurations after setting a key to a value text, on the abstract
    level: the option [name] with the value text [v] relates [c] to [c']. *)
Inductive field_effect : Type :=
  | UintField (f : Z → goodbyedpi_config_t → goodbyedpi_config_t)
  | BoolField (f : bool → goodbyedpi_config_t → goodbyedpi_config_t)
  | ServerV4
  | ServerV6.

(** [c'] is [c] with the field set: numbers modulo 2^32, "true" and "1" as true
    and any other text as false, a server name cut to 45 characters. *)
Definition has_effect (e : field_effect) (v : list Z) (c c' : goodbyedpi_config_t) : Prop :=
  match e with
  | UintField f => c' = f (uint_text v) c
  | BoolField f => c' = f (bool_text v) c
  | ServerV4 => ∃ a, c' = c <| dns_server_v4 := a |> ∧ cstr a = Ok (take 45 v)
  | ServerV6 => ∃ a, c' = c <| dns_server_v6 := a |> ∧ cstr a = Ok (take 45 v)
  end.

Definition options : list (string * field_effect) := [
  ("http_fragment_size", UintField (λ x c, c <| http_fragment_size := x |>));
  ("https_fragment_size", UintField (λ x c, c <| https_fragment_size := x |>));
  ("native_fragmentation", BoolField (λ x c, c <| native_fragmentation := x |>));
  ("reverse_fragmentation", BoolField (λ x c, c <| reverse_fragmentation := x |>));
  ("host_mixedcase", BoolField (λ x c, c <| host_mixedcase := x |>));
  ("additional_space", BoolField (λ x c, c <| additional_space := x |>));
  ("host_removespace", BoolField (λ x c, c <| host_removespace := x |>));
  ("wrong_checksum", BoolField (λ x c, c <| wrong_checksum := x |>));
  ("wrong_sequence", BoolField (λ x c, c <| wrong_sequence := x |>));
  ("auto_ttl", BoolField (λ x c, c <| auto_ttl := x |>));
  ("fake_packet", BoolField (λ x c, c <| fake_packet := x |>));
  ("dns_server_v4", ServerV4);
  ("dns_server_v6", ServerV6);
  ("dns_redirect_ipv4", BoolField (λ x c, c <| dns_redirect_ipv4 := x |>));
  ("dns_redirect_ipv6", BoolField (λ x c, c <| dns_redirect_ipv6 := x |>));
  ("debug", BoolField (λ x c, c <| debug_mode := x |>));
  ("verbose", BoolField (λ x c, c <| verbose_mode := x |>));
  ("daemon", BoolField (λ x c, c <| daemon_mode := x |>))
]%string.

Definition find_option (k : list Z) : option field_effect :=
  snd <$> List.find (λ o, bool_decide (k = chars o.1)) options.

(** A setter implements an effect and keeps the configuration well formed. *)
Definition implements (f : setter) (e : field_effect) : Prop :=
  ∀ a v c, cstr a = Ok v → config_wf c →
  ∃ c', f a c = Ok c' ∧ has_effect e v c c' ∧ config_wf c'.

Lemma uint_text_range v : 0 ≤ uint_text v < 2 ^ 32.
Proof. unfold uint_text, u32, wrap. apply Z.mod_pos_bound. lia. Qed.

Lemma set_uint_implements f :
  (∀ x c, 0 ≤ x < 2 ^ 32 → config_wf c → config_wf (f x c)) → implements (set_uint f) (UintField f).
Proof.
  intros Hf a v c Hc Hwf. unfold set_uint. erewrite uint_value_ok by done. cbn.
  eexists. split; [done|]. split; [done|]. apply Hf; [apply uint_text_range|done].
Qed.

Lemma set_bool_implements f :
  (∀ x c, config_wf c → config_wf (f x c)) → implements (set_bool f) (BoolField f).
Proof.
  intros Hf a v c Hc Hwf. unfold set_bool. erewrite bool_value_ok by done. cbn.
  eexists. split; [done|]. split; [done|]. by apply Hf.
Qed.

Lemma keys_implement :
  Forall2 (λ k o, k.1 = o.1 ∧ no_nul (chars k.1) ∧ implements k.2 o.2) config_keys options.
Proof.
  unfold config_keys, options.
  repeat apply Forall2_cons_2; try apply Forall2_nil_2;
    (split; [reflexivity|split; [vm_decide|]]); cbn [snd];
    try (apply set_uint_implements; intros x c ? []; by constructor);
    try (apply set_bool_implements; intros x c []; by constructor).
  - intros a v c Hc Hwf. destruct (strncpy_field_ok 45 a (dns_server_v4 c) v Hc (wf_v4 c Hwf))
      as (a' & E & Ha & Hv). cbv beta. rewrite E. eexists. split; [reflexivity|]. split; [by exists a'|].
    destruct Hwf. by constructor.
  - intros a v c Hc Hwf. destruct (strncpy_field_ok 45 a (dns_server_v6 c) v Hc (wf_v6 c Hwf))
      as (a' & E & Ha & Hv). cbv beta. rewrite E. eexists. split; [reflexivity|]. split; [by exists a'|].
    destruct Hwf. by constructor.
Qed.

Lemma dispatch_key_ok keys opts ka k va v c :
  Forall2 (λ k o, k.1 = o.1 ∧ no_nul (chars k.1) ∧ implements k.2 o.2) keys opts →
  cstr ka = Ok k → cstr va = Ok v → config_wf c →
  ∃ c', config_wf c' ∧
    match List.find (λ o : string * field_effect, bool_decide (k = chars o.1)) opts with
    | None => dispatch_key keys ka va c = Ok (-1, c') ∧ c' = c
    | Some o => dispatch_key keys ka va c = Ok (0, c') ∧ has_effect o.2 v c c'
    end.
Proof.
  intros HF Hk Hv Hwf. induction HF as [|[n f] [n' e] keys opts (Hn & Hz & Hi) _ IH];
    cbn [fst snd List.find dispatch_key] in *.
  - by exists c.
  - subst n'. rewrite (streq_ok _ _ _ Hk Hz). cbn [mbind outcome_bind].
    destruct (bool_decide (k = chars n)); [|exact IH].
    destruct (Hi va v c Hv Hwf) as (c' & -> & He & Hw). exists c'. cbn. done.
Qed.

Lemma config_set_value_ok ka k va v c :
  cstr ka = Ok k → cstr va = Ok v → config_wf c →
  ∃ c', config_wf c' ∧
    match find_option k with
    | None => config_set_value (Some c) (Some ka) (Some va) = Ok (-1, Some c') ∧ c' = c
    | Some e => config_set_value (Some c) (Some ka) (Some va) = Ok (0, Some c') ∧ has_effect e v c c'
    end.
Proof.
  intros Hk Hv Hwf. destruct (dispatch_key_ok _ _ _ _ _ _ _ keys_implement Hk Hv Hwf) as (c' & Hw & H).
  exists c'. split; [done|]. unfold find_option.
  destruct (List.find _ options) as [o|]; cbn [fmap option_fmap option_map];
    destruct H as [E H]; cbn [config_set_value]; by rewrite E.
Qed.

(** On terminated key and value [config_set_value] stays inside them; an
    option of the list [options] gets the value's meaning (a number modulo 2^32,
    true exactly for "true" and "1", a server name cut to 45 characters) and
    nothing else of the configuration changes; any other key is refused with -1
    and changes nothing; ranges and terminators of the configuration persist. *)
Theorem config_set_value_sets_option ka k va v c :
  cstr ka = Ok k → cstr va = Ok v → config_wf c →
  ∃ c', config_wf c' ∧
    match find_option k with
    | None => config_set_value (Some c) (Some ka) (Some va) = Ok (-1, Some c') ∧ c' = c
    | Some e => config_set_value (Some c) (Some ka) (Some va) = Ok (0, Some c') ∧ has_effect e v c c'
    end.
Proof. apply config_set_value_ok. Qed.

Lemma config_zero_wf : config_wf config_zero.
Proof. by constructor. Qed.

Lemma config_set_value_sets_option_witness :
  ∃ c', config_set_value (Some config_zero) (Some (lit "http_fragment_size")) (Some (lit " 40x")) =
          Ok (0, Some c') ∧ c' = config_zero <| http_fragment_size := 40 |>.
Proof.
  destruct (config_set_value_sets_option (lit "http_fragment_size") (chars "http_fragment_size")
              (lit " 40x") (chars " 40x") config_zero) as (c' & _ & E & H).
  - reflexivity.
  - reflexivity.
  - apply config_zero_wf.
  - exists c'. split; [exact E|exact H].
Defined.

(** ** Files *)

(** The lines [fgets] delivers, and the string each line buffer holds. *)
Fixpoint read_lines (fuel : nat) (file : list Z) : list (list Z) :=
  match fuel with
  | O => []
  | S fuel => match fgets 511 file with ([], _) => [] | (l, rest) => l :: read_lines fuel rest end
  end.

Lemma fgets_split n file : let '(l, rest) := fgets n file in file = l ++ rest.
Proof.
  revert file. induction n as [|n IH]; intros [|c file]; cbn; try done.
  destruct (c =? 10); [done|]. specialize (IH file). destruct (fgets n file). cbn. by rewrite <- IH.
Qed.

Lemma fgets_progress n c file : (fgets (S n) (c :: file)).1 ≠ [].
Proof. cbn. destruct (c =? 10); [done|]. by destruct (fgets n file). Qed.

(** The fuel of [config_load_file] is enough: the rounds read the whole file. *)
Lemma read_lines_all fuel file : (length file ≤ fuel)%nat → concat (read_lines fuel file) = file.
Proof.
  revert file. induction fuel as [|fuel IH]; intros file Hf.
  { by destruct file; [|cbn in Hf; lia]. }
  cbn [read_lines]. pose proof (fgets_split 511 file) as Hs.
  destruct (fgets 511 file) as [[|c l] rest] eqn:E.
  - destruct file as [|c file]; [done|]. pose proof (fgets_progress 510 c file) as Hp.
    by rewrite E in Hp.
  - subst file. cbn [concat]. rewrite IH; [done|]. rewrite length_app in Hf. cbn in Hf. lia.
Qed.

Fixpoint until_nul (l : list Z) : list Z :=
  match l with [] => [] | c :: l => if c =? 0 then [] else c :: until_nul l end.

Lemma until_nul_spec l : no_nul (until_nul l) ∧ ∃ r, l ++ [0] = until_nul l ++ 0 :: r.
Proof.
  induction l as [|c l (Hn & r & E)]; cbn; [split; [apply not_elem_of_nil|by exists []]|].
  destruct (Z.eqb_spec c 0) as [->|Hc].
  - split; [apply not_elem_of_nil|]. by exists (l ++ [0]).
  - split; [by apply no_nul_cons|]. exists r. cbn. by rewrite E.
Qed.

(** Loading the lines [ls] into [c] returns [r] and leaves [c']: a bad line ends
    it, unknown keys are passed over. *)
Inductive loads : list (list Z) → goodbyedpi_config_t → Z → goodbyedpi_config_t → Prop :=
  | loads_end c : loads [] c 0 c
  | loads_skip s ls c r c' : meaning s = Skip → loads ls c r c' → loads (s :: ls) c r c'
  | loads_bad s ls c : meaning s = Bad → loads (s :: ls) c (-1) c
  | loads_unknown s ls k v c r c' :
      meaning s = Setting k v → find_option k = None → loads ls c r c' → loads (s :: ls) c r c'
  | loads_set s ls k v e c c1 r c' :
      meaning s = Setting k v → find_option k = Some e → has_effect e v c c1 →
      loads ls c1 r c' → loads (s :: ls) c r c'.

Lemma load_loop_ok fuel file cl c :
  line_wf cl → config_wf c →
  ∃ r c', load_loop fuel file cl c = Ok (r, c') ∧ config_wf c' ∧
    loads (until_nul <$> read_lines fuel file) c r c'.
Proof.
  revert file cl c. induction fuel as [|fuel IH]; intros file cl c Hcl Hc.
  { exists 0, c. split_and!; [done..|constructor]. }
  cbn [load_loop read_lines]. destruct (fgets 511 file) as [[|x l] rest].
  { exists 0, c. split_and!; [done..|constructor]. }
  destruct (until_nul_spec (x :: l)) as [Hn [r0 E0]]. rewrite E0.
  destruct (config_parse_line_ok _ r0 cl Hn Hcl) as (r & cl' & -> & Hcl' & Hm).
  cbn [mbind outcome_bind default]. rewrite fmap_cons. set (s := until_nul (x :: l)) in *.
  destruct (meaning s) as [| |k v] eqn:Em.
  - destruct Hm as [-> ->]. change (1 =? 0) with false. change (1 <? 0) with false. cbv iota.
    destruct (IH rest cl c Hcl Hc) as (r & c' & E & Hw & Hl). exists r, c'.
    split_and!; [done..|by apply loads_skip].
  - subst r. exists (-1), c. split_and!; [done..|by apply loads_bad].
  - destruct Hm as (-> & Hk & Hv). change (0 =? 0) with true. cbv iota. cbn [default from_option id].
    destruct (config_set_value_ok _ _ _ _ c Hk Hv Hc) as (c1 & Hw1 & Hs).
    destruct (find_option k) as [e|] eqn:Ek; destruct Hs as [Es He]; rewrite Es;
      cbn [mbind outcome_bind default from_option id];
      destruct (IH rest cl' c1 Hcl' Hw1) as (r & c' & E & Hw & Hl); exists r, c';
      (split_and!; [done..|]).
    + by eapply loads_set.
    + subst c1. by eapply loads_unknown.
Qed.

Lemma fgets_line n s rest :
  10 ∉ s → (length s < n)%nat → fgets n (s ++ 10 :: rest) = (s ++ [10], rest).
Proof.
  revert n. induction s as [|c s IH]; intros [|n] Hs Hn; cbn in *; try lia; [done|].
  apply not_elem_of_cons in Hs as [Hc Hs].
  rewrite (proj2 (Z.eqb_neq c 10)) by done. by rewrite IH by (done || lia).
Qed.

Definition text_line (s : list Z) : Prop := no_nul s ∧ 10 ∉ s ∧ (length s ≤ 510)%nat.
Definition unlines (ls : list (list Z)) : list Z := concat ((λ s, s ++ [10]) <$> ls).

Lemma until_nul_id s : no_nul s → until_nul s = s.
Proof.
  induction s as [|c s IH]; [done|]. intros [Hc Hs]%no_nul_cons. cbn.
  rewrite (proj2 (Z.eqb_neq c 0)) by done. by rewrite IH.
Qed.

Lemma read_unlines fuel ls :
  Forall text_line ls → (length ls ≤ fuel)%nat →
  until_nul <$> read_lines fuel (unlines ls) = (λ s, s ++ [10]) <$> ls.
Proof.
  intros Hls. revert fuel. induction Hls as [|s ls (Hn & H10 & Hl) _ IH]; intros fuel Hf.
  - by destruct fuel.
  - destruct fuel as [|fuel]; [cbn in Hf; lia|]. cbn [read_lines].
    change (unlines (s :: ls)) with ((s ++ [10]) ++ unlines ls). rewrite <- app_assoc. cbn [app].
    rewrite fgets_line by (done || lia).
    destruct (s ++ [10]) as [|x t] eqn:E; [by destruct s|]. rewrite <- E, !fmap_cons.
    f_equal; [|apply IH; cbn in Hf; lia].
    apply until_nul_id, no_nul_app. split; [done|]. vm_decide.
Qed.

Lemma length_unlines ls : (length ls ≤ length (unlines ls))%nat.
Proof.
  induction ls as [|s ls IH]; [done|]. change (unlines (s :: ls)) with ((s ++ [10]) ++ unlines ls).
  rewrite !length_app. cbn in *. lia.
Qed.

(** C19: loading a file made of lines of at most 510 characters processes them
    all, in order, each according to its meaning: options take effect, comments,
    empty lines and unknown keys are passed over, and the first bad line ends
    the load with -1, keeping what was set before it.  The configuration stays
    well formed and nothing outside the buffers is touched. *)
Theorem config_load_file_follows_lines ls cl c :
  Forall text_line ls → line_wf cl → config_wf c →
  ∃ r c', config_load_file (Some (unlines ls)) cl (Some c) = Ok (r, Some c') ∧ config_wf c' ∧
    loads ((λ s, s ++ [10]) <$> ls) c r c'.
Proof.
  intros Hls Hcl Hc. destruct (load_loop_ok (length (unlines ls)) (unlines ls) cl c Hcl Hc)
    as (r & c' & E & Hw & Hl).
  exists r, c'. rewrite read_unlines in Hl by (done || apply length_unlines).
  unfold config_load_file. by rewrite E.
Qed.

Lemma config_load_file_follows_lines_witness :
  let ls := [chars "# c"; chars "auto_ttl=true"; chars "[x]"; chars "daemon=1"] in
  ∃ r c', config_load_file (Some (unlines ls)) some_line (Some config_zero) = Ok (r, Some c') ∧
    r = -1 ∧ c' = config_zero <| auto_ttl := true |>.
Proof.
  intros ls. destruct (config_load_file_follows_lines ls some_line config_zero) as (r & c' & E & _ & _).
  - repeat constructor; try vm_decide; cbn; lia.
  - done.
  - apply config_zero_wf.
  - exists r, c'. split; [exact E|]. vm_compute in E. injection E as <- <-. by split.
Defined.

(** The example configuration the package ships, whose second line is a
    section header, cannot be loaded: whatever follows, the load fails at that
    line and the configuration is unchanged. *)
Theorem example_config_rejected rest cl c :
  config_load_file (Some (chars "# General settings" ++ 10 :: chars "[general]" ++ 10 :: rest)) cl (Some c)
  = Ok (-1, Some c).
Proof. reflexivity. Qed.

(** ** Validation *)

(** The configurations the program accepts. *)
Definition config_valid (c : goodbyedpi_config_t) : Prop :=
  http_fragment_size c ≤ 1500 ∧ https_fragment_size c ≤ 1500 ∧
  1 ≤ ttl_of_fake_packet c ≤ 255 ∧ 1 ≤ dns_port_v4 c ≤ 65535 ∧ 1 ≤ dns_port_v6 c ≤ 65535 ∧
  (dns_redirect_ipv4 c = true → cstr (dns_server_v4 c) ≠ Ok []) ∧
  (dns_redirect_ipv6 c = true → cstr (dns_server_v6 c) ≠ Ok []).

Lemma empty_server_ok n on a :
  carray n a → ∃ e : bool, empty_server on a = Ok e ∧ (e = true ↔ on = true ∧ cstr a = Ok []).
Proof.
  intros (s & E & _)%carray_cstr. unfold empty_server. destruct on; [|exists false; naive_solver].
  rewrite (strlen_list_ok _ _ E). eexists. split; [done|]. rewrite E, Z.eqb_eq.
  destruct s as [|x s]; [naive_solver|]. rewrite lenZ_cons. pose proof (lenZ_nonneg s).
  split; [lia|]. by intros [_ ?].
Qed.

Lemma config_validate_ok c :
  config_wf c → ∃ r, config_validate (Some c) = Ok r ∧
    (r = 0 ∧ config_valid c ∨ r = -1 ∧ ¬ config_valid c).
Proof.
  intros Hwf. unfold config_validate, config_valid.
  destruct (empty_server_ok _ (dns_redirect_ipv4 c) _ (wf_v4 c Hwf)) as (e4 & E4 & H4).
  destruct (empty_server_ok _ (dns_redirect_ipv6 c) _ (wf_v6 c Hwf)) as (e6 & E6 & H6).
  rewrite E4, E6. destruct Hwf. cbn [mbind outcome_bind].
  destruct (Z.ltb_spec 1500 (http_fragment_size c)); [eexists; split; [done|right; split; [done|lia]]|].
  destruct (Z.ltb_spec 1500 (https_fragment_size c)); [eexists; split; [done|right; split; [done|lia]]|].
  destruct ((ttl_of_fake_packet c =? 0) || _) eqn:?; bprop;
    [eexists; split; [done|right; split; [done|intros ?; destruct_or!; bprop; lia]]|].
  destruct e4; [eexists; split; [done|right; split; [done|tauto]]|].
  destruct e6; [eexists; split; [done|right; split; [done|tauto]]|].
  destruct ((dns_port_v4 c =? 0) || _) eqn:?; bprop;
    [eexists; split; [done|right; split; [done|intros ?; destruct_or!; bprop; lia]]|].
  destruct ((dns_port_v6 c =? 0) || _) eqn:?; bprop;
    [eexists; split; [done|right; split; [done|intros ?; destruct_or!; bprop; lia]]|].
  eexists. split; [done|]. left. split; [done|]. split_and!; try lia.
  - intros Hon Hc. by apply diff_false_true, H4.
  - intros Hon Hc. by apply diff_false_true, H6.
Qed.

(** On a well-formed configuration [config_validate] returns 0 exactly when
    both fragment sizes are at most 1500, the TTL of fake packets and the DNS
    ports are non-zero and an enabled DNS redirection has a server; otherwise -1.
    It reads inside the structure's arrays only. *)
Theorem config_validate_decides c :
  config_wf c → ∃ r, config_validate (Some c) = Ok r ∧
    (r = 0 ∧ config_valid c ∨ r = -1 ∧ ¬ config_valid c).
Proof. apply config_validate_ok. Qed.

Lemma config_validate_decides_witness :
  ∃ r, config_validate (Some (config_zero <| http_fragment_size := 40000 |>)) = Ok r ∧ r = -1.
Proof.
  destruct (config_validate_decides (config_zero <| http_fragment_size := 40000 |>)) as (r & E & H).
  - by constructor.
  - exists r. split; [exact E|]. destruct H as [[_ [H _]]|[-> _]]; [|reflexivity]. cbn in H. lia.
Defined.

(** The configuration [config_init] stores. *)
Definition config_defaults : goodbyedpi_config_t := Eval vm_compute in
  match config_init (Some config_zero) with Ok (_, Some c) => c | _ => config_zero end.

Lemma config_init_defaults c0 : config_init (Some c0) = Ok (0, Some config_defaults).
Proof. vm_compute. reflexivity. Qed.

Lemma config_defaults_ok : config_wf config_defaults ∧ config_valid config_defaults.
Proof.
  split; [constructor|unfold config_valid; split_and!]; unfold carray; vm_compute; try done;
    split; congruence.
Qed.

Lemma set_sizes_valid a b c :
  0 ≤ a ≤ 1500 → 0 ≤ b ≤ 1500 → config_wf c → config_valid c →
  let c' := c <| http_fragment_size := a |> <| https_fragment_size := b |> in
  config_wf c' ∧ config_valid c'.
Proof.
  intros Ha Hb [] (? & ? & ?). split; [constructor; try done; cbn; lia|].
  split; [cbn; lia|]. split; [cbn; lia|]. done.
Qed.

(** [config_init] yields a well-formed configuration that
    [config_validate] accepts, whatever was there before; and each legacy mode
    turns an accepted configuration into an accepted one, any other mode number
    being refused without a change. *)
Theorem defaults_and_legacy_modes_are_valid :
  (∀ c0, ∃ c, config_init (Some c0) = Ok (0, Some c) ∧ config_wf c ∧ config_valid c) ∧
  (∀ mode c r c', config_apply_legacy_mode mode c = (r, c') → config_wf c → config_valid c →
     config_wf c' ∧ config_valid c' ∧
     (r = 0 ∧ mode ∈ [1; 2; 5; 6; 7; 9] ∨ r = -1 ∧ c' = c ∧ mode ∉ [1; 2; 5; 6; 7; 9])).
Proof.
  split; [intros c0; eexists; split; [apply config_init_defaults|apply config_defaults_ok]|].
  intros mode c r c' E Hw Hv. unfold config_apply_legacy_mode in E. revert E.
  repeat match goal with
  | |- (if mode =? ?m then _ else _) = _ → _ => destruct (Z.eqb_spec mode m) as [->|]
  end; intros [= <- <-].
  7: { split_and!; [done..|]. right. split_and!; [done..|]. set_solver. }
  2: destruct (set_sizes_valid 2 40 c) as [[] (? & ? & ?)]; try (done || lia).
  all: try (destruct (set_sizes_valid 2 2 c) as [[] (? & ? & ?)]; [done || lia..|]).
  all: split; [by constructor|]; split; [split_and!; (done || tauto)|left; split; [done|vm_decide]].
Qed.

Lemma defaults_and_legacy_modes_are_valid_witness :
  ∃ c, config_init (Some config_zero) = Ok (0, Some c) ∧ config_wf c ∧ config_valid c.
Proof. apply (proj1 defaults_and_legacy_modes_are_valid config_zero). Defined.

(** ** Command line *)

(** The options declared with a required argument have a terminated one. *)
Definition takes_argument (c : Z) : bool :=
  bool_decide (c ∈ [99; 112; 108; 1002; 1003; 1009; 1010; 1011; 1012]).
Definition opt_wf (o : getopt_result) : Prop :=
  takes_argument (opt_c o) = true → ∃ s, cstr (optarg o) = Ok s.

Definition step_config (s : opt_step) : goodbyedpi_config_t :=
  match s with Return _ c => c | Continue c => c end.
Definition step_ok (s : opt_step) : Prop :=
  config_wf (step_config s) ∧ match s with Return r _ => r = 1 ∨ r = -1 | Continue _ => True end.

Lemma number_arg_range lo arg s :
  cstr arg = Ok s →
  ∃ o, number_arg lo arg = Ok o ∧ ∀ v, o = Some v → lo ≤ v ≤ 65535.
Proof.
  intros E. unfold number_arg. rewrite E. cbn [mbind outcome_bind].
  destruct (strtol s) as [[v e] err]. eexists. split; [done|]. intros x.
  destruct (_ || (65535 <? v)) eqn:Eq; [done|]. intros [= <-]. bprop. lia.
Qed.

Lemma with_number_ok lo arg s c f :
  cstr arg = Ok s → config_wf c → (∀ v, lo ≤ v ≤ 65535 → config_wf (f v)) →
  ∃ st, with_number lo arg c f = Ok st ∧ step_ok st.
Proof.
  intros E Hc Hf. destruct (number_arg_range lo arg s E) as (o & Ho & Hr).
  unfold with_number. rewrite Ho. destruct o as [v|]; eexists; (split; [done|]).
  - split; [|done]. apply Hf. by apply Hr.
  - split; [done|]. by right.
Qed.

Lemma with_string_ok n arg s a c f :
  cstr arg = Ok s → carray (S n) a → config_wf c → (∀ a', carray (S n) a' → config_wf (f a')) →
  ∃ st, with_string arg a c f = Ok st ∧ step_ok st.
Proof.
  intros E [Ha _] Hc Hf. unfold with_string, string_arg. rewrite (strlen_list_ok _ _ E).
  cbn [mbind outcome_bind]. destruct (Z.leb_spec (lenZ a) (lenZ s)) as [_|Hl].
  - eexists. split; [done|]. split; [done|]. by right.
  - destruct (copy_field_ok n arg a s E) as (a' & -> & Ha' & _); [unfold lenZ in Hl; lia|done|].
    eexists. split; [done|]. split; [by apply Hf|done].
Qed.

Lemma config_load_file_wf file cl c :
  line_wf cl → config_wf c →
  ∃ r c', config_load_file file cl (Some c) = Ok (r, Some c') ∧ config_wf c'.
Proof.
  intros Hcl Hc. destruct file as [file|]; [|by exists (-1), c].
  destruct (load_loop_ok (length file) file cl c Hcl Hc) as (r & c' & E & Hw & _).
  exists r, c'. unfold config_load_file. by rewrite E.
Qed.

Lemma legacy_wf mode c : config_wf c → config_wf (config_apply_legacy_mode mode c).2.
Proof.
  intros []. unfold config_apply_legacy_mode.
  repeat (destruct (_ =? _); [constructor; try done; cbn; lia|]). by constructor.
Qed.

Lemma handle_option_ok open_file o cl c :
  line_wf cl → config_wf c → opt_wf o →
  ∃ st, handle_option open_file o cl c = Ok st ∧ step_ok st.
Proof.
  intros Hcl Hc Ho. unfold handle_option.
  assert (∀ st, step_ok st → ∃ st', Ok st = Ok st' ∧ step_ok st') as Hret by eauto.
  assert (∀ mode, ∃ st, legacy mode c = Ok st ∧ step_ok st) as Hleg
    by (intros mode; apply Hret; split; [by apply legacy_wf|done]).
  pose proof Hc as [].
  repeat match goal with
  | |- ∃ _, (if ?b then _ else _) = _ ∧ _ => destruct b eqn:?; bprop
  end; try apply Hleg; try (apply Hret; split; [by constructor|by auto]);
  match goal with H : opt_c o = _ |- _ => destruct Ho as [s Es]; [by rewrite H|] end.
  - rewrite Es. cbn [mbind outcome_bind].
    destruct (config_load_file_wf (open_file s) cl c Hcl Hc) as (r & c' & -> & Hw).
    cbn [mbind outcome_bind default from_option id].
    eexists. split; [done|]. destruct (r <? 0); split; auto.
  - by eapply (with_string_ok 255); [| | |intros a' ?; constructor].
  - by eapply (with_string_ok 255); [| | |intros a' ?; constructor].
  - eapply with_number_ok; [done..|]. intros v Hv. constructor; try done. cbn. unfold u32, wrap.
    apply Z.mod_pos_bound. lia.
  - eapply with_number_ok; [done..|]. intros v Hv. constructor; try done. cbn. unfold u32, wrap.
    apply Z.mod_pos_bound. lia.
  - by eapply (with_string_ok 45); [| | |intros a' ?; constructor].
  - by eapply (with_string_ok 45); [| | |intros a' ?; constructor].
  - eapply with_number_ok; [done..|]. intros v Hv. constructor; try done; cbn; unfold u16, wrap;
    apply Z.mod_pos_bound; lia.
  - eapply with_number_ok; [done..|]. intros v Hv. constructor; try done; cbn; unfold u16, wrap;
    apply Z.mod_pos_bound; lia.
Qed.

Lemma parse_arguments_ok open_file opts cl c :
  line_wf cl → config_wf c → Forall opt_wf opts →
  ∃ r c', parse_arguments open_file opts cl c = Ok (r, c') ∧ config_wf c' ∧
          (r = 0 ∨ r = 1 ∨ r = -1).
Proof.
  intros Hcl Hc Ho. revert c Hc. induction Ho as [|o opts Ho _ IH]; intros c Hc.
  - exists 0, c. auto.
  - cbn [parse_arguments]. destruct (handle_option_ok open_file o cl c Hcl Hc Ho) as (st & -> & Hs).
    cbn [mbind outcome_bind]. destruct st as [r c'|c'], Hs as [Hw Hr]; [|by apply IH].
    exists r, c'. auto.
Qed.

(** C22: whatever options [getopt_long] delivers, with whatever terminated
    arguments, and whatever files they name, [parse_arguments] from a well-formed
    configuration ends without leaving a buffer, with result 0, 1 or -1, and
    leaves a well-formed configuration: every string terminated, every number in
    range. *)
Theorem parse_arguments_safe open_file opts cl c :
  line_wf cl → config_wf c → Forall opt_wf opts →
  ∃ r c', parse_arguments open_file opts cl c = Ok (r, c') ∧ config_wf c' ∧
          (r = 0 ∨ r = 1 ∨ r = -1).
Proof. apply parse_arguments_ok. Qed.

Lemma parse_arguments_safe_witness :
  let opts := [mkOpt 1002 (lit "1501"); mkOpt 50 []; mkOpt 1003 (lit "65536")] in
  ∃ r c', parse_arguments (λ _, None) opts some_line config_zero = Ok (r, c') ∧
          r = -1 ∧ https_fragment_size c' = 40.
Proof.
  intros opts.
  destruct (parse_arguments_safe (λ _, None) opts some_line config_zero) as (r & c' & E & _ & _).
  - done.
  - apply config_zero_wf.
  - repeat constructor; intros H; first [discriminate H | eexists; reflexivity].
  - exists r, c'. split; [exact E|]. vm_compute in E. by injection E as <- <-.
Defined.

(** The command line accepts every fragment size from 1 to 65535, as its
    usage text says, but a size above 1500 then fails validation: the option
    alone makes the program refuse its configuration. *)
Theorem fragment_size_over_1500_refused open_file cl v s :
  1500 < v ≤ 65535 → cstr s = Ok (until_nul s) → strtol (until_nul s) = (v, [], false) →
  ∃ c, parse_arguments open_file [mkOpt 1002 s] cl config_defaults = Ok (0, c) ∧
       http_fragment_size c = v ∧ config_validate (Some c) = Ok (-1).
Proof.
  intros Hv Hs Hn. cbn [parse_arguments]. unfold handle_option. cbn [opt_c optarg].
  repeat match goal with |- context [1002 =? ?x] =>
    let b := eval vm_compute in (1002 =? x) in change (1002 =? x) with b end. cbn [orb]. cbv iota zeta.
  unfold with_number, number_arg. rewrite Hs. cbn [mbind outcome_bind]. rewrite Hn.
  rewrite bool_decide_eq_true_2, (proj2 (Z.ltb_ge v 1)), (proj2 (Z.ltb_ge 65535 v)) by (done || lia).
  cbn [negb orb mret outcome_ret mbind outcome_bind].
  assert (u32 v = v) as -> by (unfold_u; apply Z.mod_small; lia).
  eexists. split; [done|]. split; [done|]. unfold config_validate. cbn [http_fragment_size upd].
  change (http_fragment_size (config_defaults <| http_fragment_size := v |>)) with v.
  by rewrite (proj2 (Z.ltb_lt 1500 v)) by lia.
Qed.

Lemma fragment_size_over_1500_refused_witness :
  ∃ c, parse_arguments (λ _, None) [mkOpt 1002 (lit "1501")] some_line config_defaults = Ok (0, c) ∧
       http_fragment_size c = 1501 ∧ config_validate (Some c) = Ok (-1).
Proof. apply (fragment_size_over_1500_refused (λ _, None) some_line 1501 (lit "1501")); [lia|done|done]. Defined.
