(* ===== verification/Sni.v ===== *)
(** * src/evasion/sni_extractor.c: the server name of a TLS ClientHello

    The two header structures are not packed: [tls_record_header_t] has a padding
    byte after [type], so its [version] is bytes 2 and 3 in host order and its
    size is 6; [tls_handshake_header_t] has size 6.  [data] is an offset into the
    object of [tls_data] and [data_len] a [size_t] that may wrap. *)

From S2P Require Import Prelude CString Types Packet.

Definition sizeof_tls_record_header_t : Z := 6.
Definition sizeof_tls_handshake_header_t : Z := 6.

(** [(p[0] << 8) | p[1]] *)
Definition load_be16 (p : ptr) : M Z :=
  a ← load8 p; b ← load8 (padd p 1); mret (be16 a b).

Definition parse_sni_extension (ext_data : ptr) (ext_len : Z) (hostname : ptr) (hostname_len : Z) : M Z :=
  if is_null ext_data || (ext_len <? 5) || is_null hostname || (hostname_len =? 0) then mret (-1) else
  let data := padd ext_data 2 in
  let data_len := ext_len - 2 in
  if data_len <? 3 then mret (-1) else
  t ← load8 data;
  if negb (t =? 0) then mret (-1) else
  name_len ← load_be16 (padd data 1);
  let data := padd data 3 in
  let data_len := data_len - 3 in
  if (data_len <? name_len) || (hostname_len <=? name_len) then mret (-1) else
  memcpy hostname data name_len ;;
  store8 (padd hostname name_len) 0 ;;
  mret 0.

(** The loop over the extensions from offset [data] to [extensions_end].  A round
    moves at least 4 bytes, so [fuel] of the number of bytes left is enough. *)
Fixpoint extension_loop (fuel : nat) (base : ptr) (data extensions_end : Z)
    (hostname : ptr) (hostname_len : Z) : M Z :=
  match fuel with
  | O => mret (-1)
  | S fuel =>
      if negb (data <? extensions_end) then mret (-1) else
      if extensions_end <? data + 4 then mret (-1) else
      ext_type ← load_be16 (padd base data);
      ext_len ← load_be16 (padd base (data + 2));
      let data := data + 4 in
      if extensions_end <? data + ext_len then mret (-1) else
      if ext_type =? 0 then parse_sni_extension (padd base data) ext_len hostname hostname_len
      else extension_loop fuel base (data + ext_len) extensions_end hostname hostname_len
  end.

(** The part of [evasion_extract_sni] after the two headers: skip the session id,
    the cipher suites and the compression methods, then walk the extensions. *)
Definition hello_fields (tls_data : ptr) (data data_len : Z) (hostname : ptr) (hostname_len : Z) : M Z :=
  if data_len <? 1 then mret (-1) else
  session_id_len ← load8 (padd tls_data data);
  let data := data + (1 + session_id_len) in
  let data_len := u64 (data_len - (1 + session_id_len)) in
  if data_len <? 2 then mret (-1) else
  cipher_suites_len ← load_be16 (padd tls_data data);
  let data := data + (2 + cipher_suites_len) in
  let data_len := u64 (data_len - (2 + cipher_suites_len)) in
  if data_len <? 1 then mret (-1) else
  compression_methods_len ← load8 (padd tls_data data);
  let data := data + (1 + compression_methods_len) in
  let data_len := u64 (data_len - (1 + compression_methods_len)) in
  if data_len <? 2 then mret (-1) else
  extensions_len ← load_be16 (padd tls_data data);
  let data := data + 2 in
  let data_len := data_len - 2 in
  if data_len <? extensions_len then mret (-1) else
  extension_loop (Z.to_nat extensions_len) tls_data data (data + extensions_len)
    hostname hostname_len.

Definition evasion_extract_sni (tls_data : ptr) (tls_len : Z) (hostname : ptr) (hostname_len : Z) : M Z :=
  if is_null tls_data || (tls_len <? 5) || is_null hostname || (hostname_len =? 0) then mret (-1) else
  if tls_len <? sizeof_tls_record_header_t then mret (-1) else
  record_type ← load8 tls_data;
  if negb (record_type =? 22) then mret (-1) else
  version ← load16 (padd tls_data 2);
  if negb (version =? 769) && negb (version =? 771) then mret (-1) else
  let data := sizeof_tls_record_header_t in
  let data_len := tls_len - sizeof_tls_record_header_t in
  if data_len <? sizeof_tls_handshake_header_t then mret (-1) else
  handshake_type ← load8 (padd tls_data data);
  if negb (handshake_type =? 1) then mret (-1) else
  l0 ← load8 (padd tls_data (data + 1));
  l1 ← load8 (padd tls_data (data + 2));
  l2 ← load8 (padd tls_data (data + 3));
  let handshake_len := Z.lor (Z.lor (Z.shiftl l0 16) (Z.shiftl l1 8)) l2 in
  let data := data + sizeof_tls_handshake_header_t in
  let data_len := data_len - sizeof_tls_handshake_header_t in
  if data_len <? handshake_len then mret (-1) else
  hello_fields tls_data data data_len hostname hostname_len.

(** The black list, white list and fragmentation branches only log. *)
Definition should_process_by_sni (packet : option packet_t) (hostname : ptr) (hostname_len : Z) : M Z :=
  match packet with
  | None => mret 0
  | Some p =>
      if is_null hostname then mret 0 else
      if negb (type_eqb (type p) PACKET_IPV4_TCP_DATA) && negb (type_eqb (type p) PACKET_IPV6_TCP_DATA)
      then mret 0 else
      if (negb (dst_port p =? 443) && negb (src_port p =? 443)) || is_null (payload p) then mret 0 else
      r ← evasion_extract_sni (payload p) (payload_len p) hostname hostname_len;
      if negb (r =? 0) then mret 0 else mret 1
  end.

Definition extract_sni_from_packet (packet : option packet_t) : M ptr :=
  match packet with
  | None => mret Null
  | Some p =>
      if is_null (payload p) || (payload_len p <? 5) then mret Null else
      hostname ← malloc MAX_HOSTNAME_LEN;
      if is_null hostname then mret Null else
      r ← evasion_extract_sni (payload p) (payload_len p) hostname MAX_HOSTNAME_LEN;
      if r =? 0 then mret hostname else free hostname ;; mret Null
  end.

(** ** Parts of a ClientHello *)

Definition enc16 (n : Z) : list Z := [n / 256; n mod 256].
Lemma be16_enc16 n : be16 (n / 256) (n mod 256) = n.
Proof. unfold be16. zmod. Qed.

Section at_offset.
Context (h : heap) (b : nat) (pre : list Z).

(** Reading what follows [pre]. *)
Lemma load8_after c rest :
  blocks h !! b = Some (pre ++ c :: rest) → load8 (Ptr b (lenZ pre)) h = Ok (c, h).
Proof.
  intros Hb. eapply load8_ok; [done|apply lenZ_nonneg|]. by rewrite to_nat_lenZ, list_lookup_middle.
Qed.

Lemma load_be16_after n rest :
  blocks h !! b = Some (pre ++ enc16 n ++ rest) → load_be16 (Ptr b (lenZ pre)) h = Ok (n, h).
Proof.
  intros Hb. unfold load_be16. erewrite bind_ok
    by by apply load8_after with (c := n / 256) (rest := n mod 256 :: rest).
  cbn [padd]. erewrite bind_ok.
  2: { eapply load8_ok; [done|pose proof (lenZ_nonneg pre); lia|].
       replace (Z.to_nat (lenZ pre + 1)) with (length pre + 1)%nat by (unfold lenZ; lia).
       by rewrite lookup_app_r, Nat.add_comm, Nat.add_sub by lia. }
  unfold mret, M_ret. by rewrite be16_enc16.
Qed.

Lemma get_bytes_after s rest :
  blocks h !! b = Some (pre ++ s ++ rest) → get_bytes (Ptr b (lenZ pre)) (lenZ s) h = Ok (s, h).
Proof.
  intros Hb. erewrite get_bytes_ok; [|done|apply lenZ_nonneg|apply lenZ_nonneg|].
  - unfold slice. by rewrite !to_nat_lenZ, drop_app_length, take_app_length.
  - rewrite !lenZ_app. pose proof (lenZ_nonneg rest). lia.
Qed.
End at_offset.

Definition extension : Type := Z * list Z.
Definition enc_extension (e : extension) : list Z := enc16 e.1 ++ enc16 (lenZ e.2) ++ e.2.
Definition enc_extensions (es : list extension) : list Z := concat (enc_extension <$> es).

Definition extension_wf (e : extension) : Prop := 0 ≤ e.1 < 65536 ∧ lenZ e.2 < 65536.

(** The body of a server_name extension with one host name. *)
Definition sni_body (name : list Z) : list Z := enc16 (3 + lenZ name) ++ 0 :: enc16 (lenZ name) ++ name.

(** ** The server_name extension *)

Section extension.
Context (h : heap) (b c : nat) (d old : list Z) (hostname_len : Z).
Hypotheses (Hb : blocks h !! b = Some d) (Hby : Forall is_byte d)
  (Hc : blocks h !! c = Some old) (Hh : 0 < hostname_len ≤ lenZ old).

(** The host name stored: terminated, the rest of the buffer kept. *)
Definition stored (name : list Z) : heap :=
  with_blocks h (<[c := name ++ 0 :: drop (S (length name)) old]> (blocks h)).

Definition name_len_at (o : Z) : Z := be16 (byte_at d (o + 3)) (byte_at d (o + 4)).

(** The extension of [n] bytes at [o] holds a host name that fits. *)
Definition good_sni (o n : Z) : bool :=
  (5 <=? n) && (byte_at d (o + 2) =? 0) && (name_len_at o <=? n - 5) && (name_len_at o <? hostname_len).

Lemma copy_name_ok o nl :
  0 ≤ o → 0 ≤ nl → o + nl ≤ lenZ d → nl < hostname_len →
  (memcpy (Ptr c 0) (Ptr b o) nl ;; store8 (Ptr c nl) 0 ;; mret 0) h = Ok (0, stored (slice o nl d)).
Proof.
  intros Ho Hn Hl Hfit. assert (length (slice o nl d) = Z.to_nat nl) as Hsl.
  { pose proof (lenZ_slice o nl d). unfold lenZ in *. lia. }
  assert (memcpy (Ptr c 0) (Ptr b o) nl h =
          Ok (tt, with_blocks h (<[c := splice 0 (slice o nl d) old]> (blocks h)))) as Hm.
  { destruct (decide (nl = 0)) as [->|Hne].
    - rewrite memcpy_zero. unfold splice. apply nil_length_inv in Hsl. rewrite Hsl. cbn.
      by rewrite with_blocks_id by by rewrite Hc.
    - eapply memcpy_ok; [done..|lia|lia|lia|lia|lia]. }
  erewrite bind_ok by exact Hm. erewrite bind_ok.
  2: { eapply put_bytes_ok; [apply lookup_insert_eq|done|].
       unfold lenZ in *. rewrite length_splice; unfold lenZ; cbn; lia. }
  unfold mret, M_ret, stored, with_blocks. cbn [blocks nxt mfail junk]. rewrite insert_insert_eq.
  rewrite splice_0, splice_after by (unfold lenZ; lia). by rewrite drop_drop, Nat.add_1_r.
Qed.

Lemma parse_sni_extension_ok o n :
  0 ≤ o → o + n ≤ lenZ d →
  parse_sni_extension (Ptr b o) n (Ptr c 0) hostname_len h =
    if good_sni o n then Ok (0, stored (slice (o + 5) (name_len_at o) d)) else Ok (-1, h).
Proof.
  intros Ho Hn. unfold parse_sni_extension, good_sni. cbn [is_null padd orb].
  rewrite (proj2 (Z.eqb_neq hostname_len 0)), orb_false_r by lia.
  destruct (Z.leb_spec 5 n) as [H5|H5]; [|by rewrite (proj2 (Z.ltb_lt n 5)) by lia].
  rewrite (proj2 (Z.ltb_ge n 5)), (proj2 (Z.ltb_ge (n - 2) 3)) by lia. cbn [orb andb].
  erewrite bind_ok by (apply (load8_at Hb); lia).
  destruct (byte_at d (o + 2) =? 0); [|done]. cbn [negb andb].
  replace (o + 2 + 1) with (o + 3) by lia. unfold load_be16 at 1. cbn [padd].
  erewrite bind_ok.
  2: { erewrite bind_ok by (apply (load8_at Hb); lia).
       by erewrite bind_ok by (apply (load8_at Hb); lia). }
  replace (o + 3 + 1) with (o + 4) by lia. fold (name_len_at o).
  assert (0 ≤ name_len_at o).
  { pose proof (byte_at_byte d (o + 3) Hby). pose proof (byte_at_byte d (o + 4) Hby).
    unfold is_byte, name_len_at, be16 in *. lia. }
  destruct (Z.leb_spec (name_len_at o) (n - 5)) as [Hfit|Hfit].
  - rewrite (proj2 (Z.ltb_ge (n - 2 - 3) _)) by lia. cbn [orb andb].
    destruct (Z.ltb_spec (name_len_at o) hostname_len) as [Hl|Hl].
    + rewrite (proj2 (Z.leb_gt hostname_len _)) by lia. rewrite Z.add_0_l.
      replace (o + 2 + 3) with (o + 5) by lia. apply copy_name_ok; lia.
    + by rewrite (proj2 (Z.leb_le hostname_len _)) by lia.
  - by rewrite (proj2 (Z.ltb_lt (n - 2 - 3) _)) by lia.
Qed.
End extension.

(** On an extension of [n] bytes inside a buffer and a host name buffer of at
    least [hostname_len] bytes, [parse_sni_extension] stays inside both; it
    returns 0 exactly when the extension announces a host name that lies inside
    it and fits, and then the buffer starts with that name and a terminator,
    everything else being as before; otherwise it returns -1 and writes nothing. *)
Theorem parse_sni_extension_correct h b c d old o n hostname_len :
  blocks h !! b = Some d → Forall is_byte d → blocks h !! c = Some old →
  0 < hostname_len ≤ lenZ old → 0 ≤ o → o + n ≤ lenZ d →
  parse_sni_extension (Ptr b o) n (Ptr c 0) hostname_len h =
    if good_sni d hostname_len o n
    then Ok (0, stored h c old (slice (o + 5) (name_len_at d o) d)) else Ok (-1, h).
Proof. intros. by apply parse_sni_extension_ok. Qed.

Lemma parse_sni_extension_correct_witness :
  parse_sni_extension (Ptr 0 0) (lenZ (sni_body (chars "abc.com"))) (Ptr 1 0) 16
    (heap2 (sni_body (chars "abc.com")) (replicate 16 7)) =
  Ok (0, stored (heap2 (sni_body (chars "abc.com")) (replicate 16 7)) 1 (replicate 16 7)
           (chars "abc.com")).
Proof.
  rewrite (parse_sni_extension_correct (heap2 (sni_body (chars "abc.com")) (replicate 16 7)) 0 1
             (sni_body (chars "abc.com")) (replicate 16 7) 0 _ 16).
  - reflexivity.
  - reflexivity.
  - vm_decide.
  - reflexivity.
  - split; [lia|]. vm_compute. congruence.
  - lia.
  - lia.
Defined.

(** ** The list of extensions *)

Lemma lenZ_enc_extension e : lenZ (enc_extension e) = 4 + lenZ e.2.
Proof. unfold enc_extension. rewrite !lenZ_app. change (lenZ (enc16 _)) with 2. lia. Qed.

Lemma enc_extensions_cons e es : enc_extensions (e :: es) = enc_extension e ++ enc_extensions es.
Proof. done. Qed.

Lemma enc_extensions_app es es' :
  enc_extensions (es ++ es') = enc_extensions es ++ enc_extensions es'.
Proof. unfold enc_extensions. by rewrite fmap_app, concat_app. Qed.

Section extensions.
Context (h : heap) (b : nat) (post : list Z) (hostname : ptr) (hostname_len : Z).

(** One round on an extension that lies inside the list. *)
Lemma extension_loop_step fuel pre e rest e_end :
  blocks h !! b = Some (pre ++ enc_extension e ++ rest) →
  lenZ pre + lenZ (enc_extension e) ≤ e_end →
  extension_loop (S fuel) (Ptr b 0) (lenZ pre) e_end hostname hostname_len h =
    (if e.1 =? 0 then parse_sni_extension (Ptr b (lenZ pre + 4)) (lenZ e.2) hostname hostname_len
     else extension_loop fuel (Ptr b 0) (lenZ (pre ++ enc_extension e)) e_end hostname hostname_len) h.
Proof.
  intros Hb He. rewrite lenZ_enc_extension in He. pose proof (lenZ_nonneg e.2).
  cbn [extension_loop padd]. rewrite !Z.add_0_l.
  rewrite (proj2 (Z.ltb_lt (lenZ pre) e_end)), (proj2 (Z.ltb_ge e_end (lenZ pre + 4))) by lia.
  cbn [negb]. unfold enc_extension in Hb. rewrite <- !app_assoc in Hb.
  erewrite bind_ok by by eapply load_be16_after.
  rewrite (app_assoc pre) in Hb. replace (lenZ pre + 2) with (lenZ (pre ++ enc16 e.1))
    by (rewrite lenZ_app; change (lenZ (enc16 _)) with 2; lia).
  erewrite bind_ok by by eapply load_be16_after. cbv zeta.
  rewrite (proj2 (Z.ltb_ge e_end (lenZ pre + 4 + lenZ e.2))) by lia.
  replace (lenZ pre + 4 + lenZ e.2) with (lenZ (pre ++ enc_extension e))
    by (rewrite lenZ_app, lenZ_enc_extension; lia).
  by destruct (e.1 =? 0).
Qed.

(** The loop reaches the first extension of type 0. *)
Lemma extension_loop_finds es body es' fuel pre :
  Forall (λ e, e.1 ≠ 0) es →
  blocks h !! b = Some (pre ++ enc_extensions (es ++ (0, body) :: es') ++ post) →
  (length (enc_extensions (es ++ (0%Z, body) :: es')) ≤ fuel)%nat →
  extension_loop fuel (Ptr b 0) (lenZ pre)
    (lenZ pre + lenZ (enc_extensions (es ++ (0, body) :: es'))) hostname hostname_len h =
  parse_sni_extension (Ptr b (lenZ (pre ++ enc_extensions es) + 4)) (lenZ body) hostname hostname_len h.
Proof.
  intros Hes. revert fuel pre. induction Hes as [|e es He _ IH]; intros fuel pre Hb Hf.
  - cbn [app] in *. rewrite enc_extensions_cons in *. rewrite length_app in Hf.
    pose proof (lenZ_enc_extension (0, body)) as Hl. pose proof (lenZ_nonneg body).
    destruct fuel as [|fuel]; [cbn in Hf; lia|]. rewrite <- app_assoc in Hb.
    erewrite extension_loop_step; [|exact Hb|rewrite lenZ_app; pose proof (lenZ_nonneg (enc_extensions es')); lia].
    cbn [fst snd]. change (0 =? 0) with true. by rewrite app_nil_r.
  - cbn [app] in *. rewrite enc_extensions_cons in *. rewrite length_app in Hf.
    set (tl := enc_extensions (es ++ (0, body) :: es')) in *.
    assert (4 ≤ length (enc_extension e))%nat by (pose proof (lenZ_enc_extension e);
      pose proof (lenZ_nonneg e.2); unfold lenZ in *; lia).
    destruct fuel as [|fuel]; [lia|]. rewrite <- app_assoc in Hb.
    erewrite extension_loop_step; [|exact Hb|rewrite lenZ_app; pose proof (lenZ_nonneg tl); lia].
    rewrite (proj2 (Z.eqb_neq e.1 0)) by done. rewrite app_assoc in Hb.
    replace (lenZ pre + lenZ (enc_extension e ++ tl)) with (lenZ (pre ++ enc_extension e) + lenZ tl)
      by (rewrite !lenZ_app; lia).
    rewrite IH by (done || lia). by rewrite enc_extensions_cons, app_assoc.
Qed.

(** Without one it ends with -1. *)
Lemma extension_loop_none es fuel pre :
  Forall (λ e, e.1 ≠ 0) es → blocks h !! b = Some (pre ++ enc_extensions es ++ post) →
  (length (enc_extensions es) ≤ fuel)%nat →
  extension_loop fuel (Ptr b 0) (lenZ pre) (lenZ pre + lenZ (enc_extensions es))
    hostname hostname_len h = Ok (-1, h).
Proof.
  intros Hes. revert fuel pre. induction Hes as [|e es He _ IH]; intros fuel pre Hb Hf.
  - destruct fuel; [done|]. cbn [extension_loop]. change (lenZ (enc_extensions [])) with 0.
    by rewrite (proj2 (Z.ltb_ge _ _)) by lia.
  - rewrite enc_extensions_cons in *. rewrite length_app in Hf.
    assert (4 ≤ length (enc_extension e))%nat by (pose proof (lenZ_enc_extension e);
      pose proof (lenZ_nonneg e.2); unfold lenZ in *; lia).
    destruct fuel as [|fuel]; [lia|]. rewrite <- app_assoc in Hb.
    erewrite extension_loop_step; [|exact Hb|rewrite lenZ_app; pose proof (lenZ_nonneg (enc_extensions es)); lia].
    rewrite (proj2 (Z.eqb_neq e.1 0)) by done. rewrite app_assoc in Hb.
    replace (lenZ pre + lenZ (enc_extension e ++ enc_extensions es))
      with (lenZ (pre ++ enc_extension e) + lenZ (enc_extensions es)) by (rewrite !lenZ_app; lia).
    apply IH; [done|lia].
Qed.
End extensions.

(** ** The ClientHello as the code lays it out *)

(** The 12 bytes of the two header structures. *)
Definition hello_headers (pad vlo r0 r1 l0 l1 l2 v0 v1 : Z) : list Z :=
  [22; pad; vlo; 3; r0; r1; 1; l0; l1; l2; v0; v1].

Definition hello_body (sid cs comp ext : list Z) : list Z :=
  lenZ sid :: sid ++ enc16 (lenZ cs) ++ cs ++ lenZ comp :: comp ++ enc16 (lenZ ext) ++ ext.

Section hello.
Context (hd sid cs comp ext : list Z).

(** Everything up to the first extension. *)
Definition before_ext : list Z :=
  hd ++ lenZ sid :: sid ++ enc16 (lenZ cs) ++ cs ++ lenZ comp :: comp ++ enc16 (lenZ ext).

Lemma lenZ_before_ext :
  length hd = 12%nat → lenZ before_ext = 12 + (1 + lenZ sid) + (2 + lenZ cs) + (1 + lenZ comp) + 2.
Proof.
  intros Hhd. unfold before_ext. repeat (rewrite lenZ_app || rewrite lenZ_cons).
  change (lenZ (enc16 _)) with 2. unfold lenZ at 1. rewrite Hhd. lia.
Qed.
End hello.

Lemma lenZ_hello_body sid cs comp ext :
  lenZ (hello_body sid cs comp ext) = 6 + lenZ sid + lenZ cs + lenZ comp + lenZ ext.
Proof.
  unfold hello_body. repeat (rewrite lenZ_app || rewrite lenZ_cons). change (lenZ (enc16 _)) with 2. lia.
Qed.

(** The headers of such a hello are accepted. *)
Lemma extract_past_headers h b hostname hostname_len pad vlo r0 r1 l0 l1 l2 v0 v1 rest :
  let d := hello_headers pad vlo r0 r1 l0 l1 l2 v0 v1 ++ rest in
  is_null hostname = false → hostname_len ≠ 0 → (vlo = 1 ∨ vlo = 3) →
  Z.lor (Z.lor (Z.shiftl l0 16) (Z.shiftl l1 8)) l2 ≤ lenZ rest →
  blocks h !! b = Some d →
  evasion_extract_sni (Ptr b 0) (lenZ d) hostname hostname_len h =
  hello_fields (Ptr b 0) 12 (lenZ rest) hostname hostname_len h.
Proof.
  intros d Hh Hhl Hv Hl Hb. pose proof (lenZ_nonneg rest).
  assert (lenZ d = 12 + lenZ rest) as Hd by (unfold d; by rewrite lenZ_app).
  assert (∀ o c, 0 ≤ o → d !! Z.to_nat o = Some c → load8 (Ptr b o) h = Ok (c, h)) as L
    by (intros; eapply load8_ok; done).
  unfold evasion_extract_sni. rewrite Hh. cbn [is_null orb padd].
  rewrite (proj2 (Z.eqb_neq hostname_len 0)), (proj2 (Z.ltb_ge (lenZ d) 5)) by (done || lia). cbn [orb].
  unfold sizeof_tls_record_header_t, sizeof_tls_handshake_header_t.
  rewrite (proj2 (Z.ltb_ge (lenZ d) 6)) by lia. rewrite !Z.add_0_l.
  erewrite bind_ok by (by apply (L 0 22)). change (22 =? 22) with true. cbn [negb].
  erewrite bind_ok.
  2: { unfold load16. cbn [padd]. erewrite bind_ok by (by apply (L 2 vlo)).
       by erewrite bind_ok by (by apply (L 3 3)). }
  replace (negb (le16 vlo 3 =? 769) && negb (le16 vlo 3 =? 771)) with false
    by (by destruct Hv as [-> | ->]).
  rewrite (proj2 (Z.ltb_ge (lenZ d - 6) 6)) by lia.
  erewrite bind_ok by (by apply (L 6 1)). change (1 =? 1) with true. cbn [negb].
  erewrite bind_ok by (by apply (L 7 l0)). erewrite bind_ok by (by apply (L 8 l1)).
  erewrite bind_ok by (by apply (L 9 l2)). cbv zeta.
  rewrite (proj2 (Z.ltb_ge (lenZ d - 6 - 6) _)) by lia. change (6 + 6) with 12.
  by replace (lenZ d - 6 - 6) with (lenZ rest) by lia.
Qed.

Lemma extract_reaches_extensions h b hostname hostname_len pad vlo r0 r1 l0 l1 l2 v0 v1
    sid cs comp ext post :
  let hd := hello_headers pad vlo r0 r1 l0 l1 l2 v0 v1 in
  let d := hd ++ hello_body sid cs comp ext ++ post in
  is_null hostname = false → hostname_len ≠ 0 → (vlo = 1 ∨ vlo = 3) →
  Z.lor (Z.lor (Z.shiftl l0 16) (Z.shiftl l1 8)) l2 ≤ lenZ d - 12 →
  blocks h !! b = Some d → lenZ d ≤ 65535 →
  evasion_extract_sni (Ptr b 0) (lenZ d) hostname hostname_len h =
  extension_loop (length ext) (Ptr b 0) (lenZ (before_ext hd sid cs comp ext))
    (lenZ (before_ext hd sid cs comp ext) + lenZ ext) hostname hostname_len h.
Proof.
  intros hd d Hh Hhl Hvlo Hlen Hb Hmax.
  assert (lenZ d = 18 + lenZ sid + lenZ cs + lenZ comp + lenZ ext + lenZ post) as Hd.
  { unfold d. rewrite !lenZ_app, lenZ_hello_body. change (lenZ hd) with 12. lia. }
  pose proof (lenZ_nonneg sid). pose proof (lenZ_nonneg cs). pose proof (lenZ_nonneg comp).
  pose proof (lenZ_nonneg ext). pose proof (lenZ_nonneg post).
  assert (∀ x, 0 ≤ x ≤ 65535 → u64 x = x) as Hu by (intros; unfold_u; apply Z.mod_small; lia).
  assert (∀ P c rest o, d = P ++ c :: rest → o = lenZ P → load8 (Ptr b o) h = Ok (c, h)) as L8.
  { intros P c rest o E ->. apply load8_after with rest. by rewrite Hb, E. }
  assert (∀ P n rest o, d = P ++ enc16 n ++ rest → o = lenZ P → load_be16 (Ptr b o) h = Ok (n, h)) as L16.
  { intros P n rest o E ->. apply load_be16_after with rest. by rewrite Hb, E. }
  set (m := lenZ d - 12) in *.
  etransitivity; [apply extract_past_headers; try done|].
  { rewrite lenZ_app, lenZ_hello_body. unfold m in Hlen. lia. }
  replace (lenZ (hello_body sid cs comp ext ++ post)) with m
    by (rewrite lenZ_app, lenZ_hello_body; unfold m; lia).
  unfold hello_fields. cbn [padd]. rewrite !Z.add_0_l. rewrite (proj2 (Z.ltb_ge m 1)) by lia.
  set (t3 := comp ++ enc16 (lenZ ext) ++ ext ++ post).
  set (t2 := cs ++ lenZ comp :: t3). set (t1 := sid ++ enc16 (lenZ cs) ++ t2).
  assert (d = hd ++ lenZ sid :: t1) as E1.
  { unfold d, hello_body, t1, t2, t3. cbn [app]. by repeat (rewrite <- app_assoc; cbn [app]). }
  erewrite bind_ok by (by apply (L8 hd (lenZ sid) t1)).
  rewrite (Hu (m - (1 + lenZ sid))) by lia.
  rewrite (proj2 (Z.ltb_ge _ 2)) by lia.
  assert (lenZ (hd ++ lenZ sid :: sid) = 12 + (1 + lenZ sid)) as O1
    by (rewrite lenZ_app, lenZ_cons; done).
  erewrite bind_ok by (apply (L16 (hd ++ lenZ sid :: sid) _ t2); [rewrite E1; unfold t1; by rewrite <- app_assoc|done]).
  rewrite (Hu (m - (1 + lenZ sid) - (2 + lenZ cs))) by lia.
  rewrite (proj2 (Z.ltb_ge _ 1)) by lia.
  assert (lenZ ((hd ++ lenZ sid :: sid) ++ enc16 (lenZ cs) ++ cs) = 12 + (1 + lenZ sid) + (2 + lenZ cs)) as O2
    by (rewrite !lenZ_app, O1 in *; change (lenZ (enc16 _)) with 2; lia).
  erewrite bind_ok by (apply (L8 ((hd ++ lenZ sid :: sid) ++ enc16 (lenZ cs) ++ cs) _ t3);
    [rewrite E1; unfold t1, t2; by rewrite <- !app_assoc|done]).
  rewrite (Hu (_ - (1 + lenZ comp))) by lia. rewrite (proj2 (Z.ltb_ge _ 2)) by lia.
  erewrite bind_ok.
  2: { apply (L16 (((hd ++ lenZ sid :: sid) ++ enc16 (lenZ cs) ++ cs) ++ lenZ comp :: comp) _ (ext ++ post)).
       - rewrite E1; unfold t1, t2, t3. by repeat (rewrite <- app_assoc; cbn [app]).
       - rewrite lenZ_app, O2, lenZ_cons. lia. }
  rewrite (proj2 (Z.ltb_ge _ (lenZ ext))) by lia.
  rewrite lenZ_before_ext by done. by rewrite to_nat_lenZ.
Qed.

Lemma byte_at_after P l k : 0 ≤ k → byte_at (P ++ l) (lenZ P + k) = byte_at l k.
Proof.
  intros Hk. unfold byte_at. replace (Z.to_nat (lenZ P + k)) with (length P + Z.to_nat k)%nat
    by (unfold lenZ; lia). by rewrite lookup_app_r, Nat.add_comm, Nat.add_sub by lia.
Qed.

Lemma parse_sni_body h b c P name rest old hostname_len :
  blocks h !! b = Some (P ++ sni_body name ++ rest) →
  Forall is_byte (P ++ sni_body name ++ rest) → blocks h !! c = Some old →
  lenZ name < hostname_len ≤ lenZ old →
  parse_sni_extension (Ptr b (lenZ P)) (lenZ (sni_body name)) (Ptr c 0) hostname_len h =
    Ok (0, stored h c old name).
Proof.
  intros Hb Hby Hc Hl. pose proof (lenZ_nonneg name). pose proof (lenZ_nonneg P).
  assert (lenZ (sni_body name) = 5 + lenZ name) as Hn.
  { unfold sni_body. rewrite lenZ_app, lenZ_cons, lenZ_app. change (lenZ (enc16 _)) with 2. lia. }
  rewrite (parse_sni_extension_ok h b c _ old) by
    (done || lia || (rewrite !lenZ_app; pose proof (lenZ_nonneg rest); lia)).
  unfold good_sni, name_len_at. rewrite !byte_at_after by lia.
  change (byte_at (sni_body name ++ rest) 2) with 0.
  change (byte_at (sni_body name ++ rest) 3) with (lenZ name / 256).
  change (byte_at (sni_body name ++ rest) 4) with (lenZ name mod 256). rewrite be16_enc16, Hn.
  rewrite (proj2 (Z.leb_le 5 _)), (proj2 (Z.leb_le (lenZ name) _)), (proj2 (Z.ltb_lt (lenZ name) _)) by lia.
  change (0 =? 0) with true. cbn [andb]. do 3 f_equal.
  unfold slice. replace (Z.to_nat (lenZ P + 5)) with (length P + 5)%nat by (unfold lenZ; lia).
  rewrite drop_app_add, to_nat_lenZ. change (drop 5 (sni_body name ++ rest)) with (name ++ rest).
  by rewrite take_app_length.
Qed.

(** C24: on a hello in the layout of the code's two header structures, with any
    session id, cipher suites and compression methods and any extensions whose
    first one of type 0 carries a host name shorter than the buffer,
    [evasion_extract_sni] reaches that extension, returns 0 and stores exactly
    the host name, terminated. *)
Theorem extract_sni_finds_name h b c pad vlo r0 r1 l0 l1 l2 v0 v1 sid cs comp es name es' post
    old hostname_len :
  let ext := enc_extensions (es ++ (0, sni_body name) :: es') in
  let d := hello_headers pad vlo r0 r1 l0 l1 l2 v0 v1 ++ hello_body sid cs comp ext ++ post in
  (vlo = 1 ∨ vlo = 3) → Z.lor (Z.lor (Z.shiftl l0 16) (Z.shiftl l1 8)) l2 ≤ lenZ d - 12 →
  blocks h !! b = Some d → Forall is_byte d → lenZ d ≤ 65535 → Forall (λ e, e.1 ≠ 0) es →
  blocks h !! c = Some old → lenZ name < hostname_len ≤ lenZ old →
  evasion_extract_sni (Ptr b 0) (lenZ d) (Ptr c 0) hostname_len h = Ok (0, stored h c old name).
Proof.
  intros ext d Hv Hl Hb Hby Hmax Hes Hc Hn. pose proof (lenZ_nonneg name).
  set (hd := hello_headers pad vlo r0 r1 l0 l1 l2 v0 v1) in *.
  etransitivity; [apply extract_reaches_extensions; (done || lia)|]. fold hd.
  assert (d = before_ext hd sid cs comp ext ++ ext ++ post) as Ed.
  { unfold d, hello_body, before_ext. by repeat (rewrite <- app_assoc; cbn [app]). }
  rewrite Ed in Hb, Hby. set (B := before_ext hd sid cs comp ext) in *. unfold ext in *.
  rewrite (extension_loop_finds h b post) by (done || lia).
  rewrite enc_extensions_app, enc_extensions_cons in Hb, Hby.
  unfold enc_extension at 1 in Hb. unfold enc_extension at 1 in Hby. cbn [fst snd] in *.
  set (P := (B ++ enc_extensions es) ++ enc16 0 ++ enc16 (lenZ (sni_body name))).
  assert (lenZ (B ++ enc_extensions es) + 4 = lenZ P) as ->
    by (unfold P; rewrite (lenZ_app (_ ++ _)); done).
  apply (parse_sni_body h b c P name (enc_extensions es' ++ post) old).
  - rewrite Hb. unfold P. by repeat (rewrite <- app_assoc; cbn [app]).
  - revert Hby. unfold P. by repeat (rewrite <- app_assoc; cbn [app]).
  - done.
  - done.
Qed.

Lemma extract_sni_finds_name_witness :
  let d := hello_headers 3 1 3 2 0 0 10 3 3 ++
           hello_body [5; 6] [19; 1] [0] (enc_extensions [(10, [1; 2; 3]); (0, sni_body (chars "abc.com"))]) ++ [] in
  evasion_extract_sni (Ptr 0 0) (lenZ d) (Ptr 1 0) 16 (heap2 d (replicate 16 7)) =
    Ok (0, stored (heap2 d (replicate 16 7)) 1 (replicate 16 7) (chars "abc.com")).
Proof.
  intros d.
  apply (extract_sni_finds_name (heap2 d (replicate 16 7)) 0 1 3 1 3 2 0 0 10 3 3 [5; 6] [19; 1] [0]
           [(10, [1; 2; 3])] (chars "abc.com") [] [] (replicate 16 7) 16).
  - by left.
  - vm_compute. congruence.
  - reflexivity.
  - vm_decide.
  - vm_compute. congruence.
  - repeat constructor; done.
  - reflexivity.
  - vm_compute. split; congruence.
Defined.

(** ** Real ClientHello records *)

(** A TLS record that holds a whole ClientHello: a 5-byte record header, then
    the handshake type and its 24-bit length; a record is at most 2^14 + 5
    bytes. *)
Record tls_client_hello (d : list Z) : Prop := {
  ch_bytes : Forall is_byte d;
  ch_handshake : byte_at d 0 = 22;
  ch_client_hello : byte_at d 5 = 1;
  ch_length : 65536 * byte_at d 6 + be16 (byte_at d 7) (byte_at d 8) + 9 ≤ lenZ d;
  ch_max : lenZ d ≤ 16389
}.

(** C25: no TLS record that holds a ClientHello is recognised: because of the
    padding byte of [tls_record_header_t] the code takes the byte after the real
    handshake type for the handshake type, and returns -1 without a host name. *)
Theorem real_client_hello_rejected h b hostname hostname_len d :
  blocks h !! b = Some d → tls_client_hello d →
  evasion_extract_sni (Ptr b 0) (lenZ d) hostname hostname_len h = Ok (-1, h).
Proof.
  intros Hb []. unfold evasion_extract_sni. cbn [is_null orb padd].
  unfold sizeof_tls_record_header_t, sizeof_tls_handshake_header_t.
  pose proof (byte_at_byte d 6 ch_bytes0). pose proof (byte_at_byte d 7 ch_bytes0).
  pose proof (byte_at_byte d 8 ch_bytes0). unfold is_byte, be16 in *.
  destruct (_ || (hostname_len =? 0)); [done|].
  rewrite (proj2 (Z.ltb_ge (lenZ d) 6)) by lia.
  erewrite bind_ok by (apply (load8_at Hb); lia). rewrite ch_handshake0.
  change (22 =? 22) with true. cbn [negb]. rewrite !Z.add_0_l.
  erewrite bind_ok by (apply (load16_at Hb); lia).
  destruct (_ && _); [done|]. destruct (_ <? 6) eqn:E; [done|]. bprop.
  erewrite bind_ok by (apply (load8_at Hb); lia).
  assert (byte_at d 6 = 0) as -> by lia. done.
Qed.

Lemma real_client_hello_rejected_witness :
  let d := [22; 3; 1; 3; 4; 1; 0; 3; 0; 3; 3] ++ replicate 766 0 in
  evasion_extract_sni (Ptr 0 0) (lenZ d) (Ptr 1 0) 256 (heap2 d (replicate 256 0)) =
    Ok (-1, heap2 d (replicate 256 0)).
Proof.
  intros d. apply (real_client_hello_rejected (heap2 d (replicate 256 0)) 0 (Ptr 1 0) 256 d).
  - reflexivity.
  - split; [vm_decide|reflexivity|reflexivity|vm_compute; congruence..].
Defined.

(** In the code's own layout, a session id length that exceeds the data makes
    the unsigned remaining length wrap around, so the bounds test passes and the
    cipher suite length is read past the end of the buffer. *)
Theorem session_id_length_overread h b hostname hostname_len pad vlo r0 r1 l0 l1 l2 v0 v1 sid_len rest :
  let d := hello_headers pad vlo r0 r1 l0 l1 l2 v0 v1 ++ sid_len :: rest in
  is_null hostname = false → hostname_len ≠ 0 → (vlo = 1 ∨ vlo = 3) →
  Z.lor (Z.lor (Z.shiftl l0 16) (Z.shiftl l1 8)) l2 ≤ 1 + lenZ rest →
  blocks h !! b = Some d → lenZ rest < sid_len < 256 →
  evasion_extract_sni (Ptr b 0) (lenZ d) hostname hostname_len h = UB OobRead.
Proof.
  intros d Hh Hhl Hv Hl Hb Hs. pose proof (lenZ_nonneg rest).
  etransitivity; [apply extract_past_headers; rewrite ?lenZ_cons; done|]. rewrite lenZ_cons.
  assert (lenZ d = 13 + lenZ rest) as Hd by (unfold d; by rewrite lenZ_app, lenZ_cons, Z.add_assoc).
  unfold hello_fields. cbn [padd]. rewrite !Z.add_0_l, (proj2 (Z.ltb_ge _ 1)) by lia.
  erewrite bind_ok by (eapply load8_ok; [done|lia|done]).
  assert (u64 (1 + lenZ rest - (1 + sid_len)) = 2 ^ 64 + (lenZ rest - sid_len)) as ->.
  { unfold_u. symmetry. apply Z.mod_unique with (-1); lia. }
  rewrite (proj2 (Z.ltb_ge _ 2)) by lia. apply bind_ub. unfold load_be16. apply bind_ub.
  eapply load8_oob; [done|lia].
Qed.

Lemma session_id_length_overread_witness :
  let d := hello_headers 3 1 3 2 0 0 1 3 3 ++ [200; 0; 0] in
  evasion_extract_sni (Ptr 0 0) (lenZ d) (Ptr 1 0) 16 (heap2 d (replicate 16 7)) = UB OobRead.
Proof.
  intros d. apply (session_id_length_overread (heap2 d (replicate 16 7)) 0 (Ptr 1 0) 16
                     3 1 3 2 0 0 1 3 3 200 [0; 0]).
  - reflexivity.
  - done.
  - by left.
  - vm_compute. congruence.
  - reflexivity.
  - vm_compute. split; congruence.
Defined.
