(* ===== verification/Conntrack.v ===== *)
(** * src/tracking/conntrack.c: the connection table

    A direct-mapped table of 4096 slots.  The clock is the argument [now], the
    value of [time(NULL)] during the call.  The table is shown to implement an
    abstract cache, a finite map from connections in which adding a connection
    evicts the one in its slot. *)

From S2P Require Import Prelude Types Packet.

Definition MAX_CONNECTIONS : Z := 4096.

Record conntrack_entry_t : Type := mkEntry {
  e_src_addr : Z;
  e_dst_addr : Z;
  e_src_port : Z;
  e_dst_port : Z;
  e_ttl : Z;
  e_protocol : Z;
  e_last_seen : Z;
  e_valid : bool
}.

#[export] Instance eta_entry : Eta conntrack_entry_t := λ e,
  mkEntry (e_src_addr e) (e_dst_addr e) (e_src_port e) (e_dst_port e) (e_ttl e) (e_protocol e)
    (e_last_seen e) (e_valid e).

Definition entry_zero : conntrack_entry_t := mkEntry 0 0 0 0 0 0 0 false.

Record conntrack : Type := mkTable {
  conntrack_table : list conntrack_entry_t;
  conntrack_initialized : bool
}.

#[export] Instance eta_conntrack : Eta conntrack := λ t,
  mkTable (conntrack_table t) (conntrack_initialized t).

(** Before [conntrack_init]: static storage. *)
Definition conntrack_static : conntrack :=
  mkTable (replicate (Z.to_nat MAX_CONNECTIONS) entry_zero) false.

Definition conntrack_init (t : conntrack) : Z * conntrack :=
  (0, mkTable (replicate (Z.to_nat MAX_CONNECTIONS) entry_zero) true).

Definition conntrack_cleanup (t : conntrack) : Z * conntrack :=
  (0, mkTable (replicate (Z.to_nat MAX_CONNECTIONS) entry_zero) false).

(** [(src_ip[0] + dst_ip[0] + src_port + dst_port) % MAX_CONNECTIONS], unsigned. *)
Definition conn_hash (p : packet_t) : Z :=
  u32 (w0 (src_ip p) + w0 (dst_ip p) + src_port p + dst_port p) mod MAX_CONNECTIONS.

Definition conntrack_add (now : Z) (packet : option packet_t) (t : conntrack) : Z * conntrack :=
  match packet with
  | None => (-1, t)
  | Some p =>
      if negb (conntrack_initialized t) then (-1, t) else
      let entry := entry_zero
        <| e_valid := true |>
        <| e_src_addr := w0 (src_ip p) |>
        <| e_dst_addr := w0 (dst_ip p) |>
        <| e_src_port := src_port p |>
        <| e_dst_port := dst_port p |>
        <| e_ttl := ttl p |>
        <| e_protocol := if packet_is_tcp packet then IPPROTO_TCP else IPPROTO_UDP |>
        <| e_last_seen := now |> in
      (0, t <| conntrack_table := <[Z.to_nat (conn_hash p) := entry]> (conntrack_table t) |>)
  end.

(** The slot of the entry, as [entry] points into the table. *)
Definition find_conntrack_entry (packet : option packet_t) (t : conntrack)
    : option (nat * conntrack_entry_t) :=
  match packet with
  | None => None
  | Some p =>
      if negb (conntrack_initialized t) then None else
      let i := Z.to_nat (conn_hash p) in
      match conntrack_table t !! i with
      | None => None
      | Some entry =>
          if negb (e_valid entry) then None else
          if (e_src_addr entry =? w0 (src_ip p)) && (e_dst_addr entry =? w0 (dst_ip p)) &&
             (e_src_port entry =? src_port p) && (e_dst_port entry =? dst_port p)
          then Some (i, entry) else None
      end
  end.

Record conntrack_info_t : Type := mkInfo {
  i_valid : bool;
  i_src_addr : ip_addr;
  i_dst_addr : ip_addr;
  i_src_port : Z;
  i_dst_port : Z;
  i_ttl : Z;
  i_protocol : Z;
  i_last_seen : Z
}.

#[export] Instance eta_ip : Eta ip_addr := λ a, mkIp (w0 a) (w1 a) (w2 a) (w3 a).

Definition conntrack_lookup (now : Z) (packet : option packet_t) (info : option conntrack_info_t)
    (t : conntrack) : Z * option conntrack_info_t * conntrack :=
  match packet, info with
  | Some p, Some i =>
      if negb (conntrack_initialized t) then (-1, info, t) else
      match find_conntrack_entry packet t with
      | None => (-1, info, t)
      | Some (slot, entry) =>
          let entry := entry <| e_last_seen := now |> in
          (0, Some (mkInfo true
                      ((i_src_addr i) <| w0 := e_src_addr entry |>)
                      ((i_dst_addr i) <| w0 := e_dst_addr entry |>)
                      (e_src_port entry) (e_dst_port entry) (e_ttl entry) (e_protocol entry)
                      (e_last_seen entry)),
           t <| conntrack_table := <[slot := entry]> (conntrack_table t) |>)
      end
  | _, _ => (-1, info, t)
  end.

(** The loop over the slots: the table after it and the number removed. *)
Fixpoint cleanup_slots (now : Z) (l : list conntrack_entry_t) : list conntrack_entry_t * Z :=
  match l with
  | [] => ([], 0)
  | e :: l =>
      let '(l', removed) := cleanup_slots now l in
      if e_valid e && (300 <? now - e_last_seen e) then (entry_zero :: l', removed + 1)
      else (e :: l', removed)
  end.

Definition conntrack_cleanup_old (now : Z) (t : conntrack) : Z * conntrack :=
  if negb (conntrack_initialized t) then (0, t) else
  let '(l, removed) := cleanup_slots now (conntrack_table t) in
  (removed, t <| conntrack_table := l |>).

(** ** The abstract cache *)

(** A connection and what is remembered of it. *)
Notation conn := (Z * Z * Z * Z)%type.
(** TTL, protocol, time last seen. *)
Notation conn_data := (Z * Z * Z)%type.
Notation cache := (gmap conn conn_data).

Definition conn_of (p : packet_t) : conn := (w0 (src_ip p), w0 (dst_ip p), src_port p, dst_port p).
Definition slot_of (k : conn) : nat :=
  let '(s, d, sp, dp) := k in Z.to_nat (u32 (s + d + sp + dp) mod MAX_CONNECTIONS).
Definition protocol_of (p : packet_t) : Z :=
  if packet_is_tcp (Some p) then IPPROTO_TCP else IPPROTO_UDP.

(** Adding evicts every connection of the same slot. *)
Definition cache_add (now : Z) (p : packet_t) (m : cache) : cache :=
  <[conn_of p := (ttl p, protocol_of p, now)]>
    (filter (λ kv, slot_of kv.1 ≠ slot_of (conn_of p)) m).

(** Looking up refreshes the time. *)
Definition cache_touch (now : Z) (k : conn) (m : cache) : cache :=
  alter (λ '(t, pr, _), (t, pr, now)) k m.

Definition cache_expire (now : Z) (m : cache) : cache :=
  filter (λ kv, now - kv.2.2 ≤ 300) m.

(** ** Representation *)

Definition entry_conn (e : conntrack_entry_t) : conn :=
  (e_src_addr e, e_dst_addr e, e_src_port e, e_dst_port e).
Definition entry_data (e : conntrack_entry_t) : conn_data := (e_ttl e, e_protocol e, e_last_seen e).

(** What the table remembers of a connection. *)
Definition table_get (l : list conntrack_entry_t) (k : conn) : option conn_data :=
  e ← l !! slot_of k;
  if e_valid e && bool_decide (entry_conn e = k) then Some (entry_data e) else None.

(** The table [t] represents the cache [m]. *)
Record represents (t : conntrack) (m : cache) : Prop := {
  rep_init : conntrack_initialized t = true;
  rep_size : length (conntrack_table t) = Z.to_nat MAX_CONNECTIONS;
  rep_slot : ∀ i e, conntrack_table t !! i = Some e → e_valid e = true → slot_of (entry_conn e) = i;
  rep_get : ∀ k, m !! k = table_get (conntrack_table t) k
}.

Lemma slot_of_lt k : (slot_of k < Z.to_nat MAX_CONNECTIONS)%nat.
Proof.
  destruct k as [[[s d] sp] dp]. unfold slot_of, MAX_CONNECTIONS.
  pose proof (Z.mod_pos_bound (u32 (s + d + sp + dp)) 4096). lia.
Qed.

Lemma conn_hash_slot p : Z.to_nat (conn_hash p) = slot_of (conn_of p).
Proof. done. Qed.

Lemma table_get_insert_same l k e :
  (slot_of k < length l)%nat →
  table_get (<[slot_of k := e]> l) k =
    if e_valid e && bool_decide (entry_conn e = k) then Some (entry_data e) else None.
Proof. intros Hl. unfold table_get. by rewrite list_lookup_insert_eq. Qed.

Lemma table_get_insert_other l i k e :
  i ≠ slot_of k → table_get (<[i := e]> l) k = table_get l k.
Proof. intros Hi. unfold table_get. by rewrite list_lookup_insert_ne. Qed.

Lemma represents_init t : represents (conntrack_init t).2 ∅.
Proof.
  split; cbn [conntrack_init conntrack_table conntrack_initialized snd].
  - done.
  - apply length_replicate.
  - intros i e [-> _]%lookup_replicate_1. done.
  - intros k. rewrite lookup_empty. unfold table_get.
    by rewrite lookup_replicate_2 by apply slot_of_lt.
Qed.

Lemma represents_add now p t m :
  represents t m →
  ∃ t', conntrack_add now (Some p) t = (0, t') ∧ represents t' (cache_add now p m).
Proof.
  intros [Hi Hs Hsl Hg]. unfold conntrack_add. rewrite Hi. cbn [negb]. eexists. split; [done|].
  set (e := upd e_last_seen _ _).
  assert (entry_conn e = conn_of p ∧ e_valid e = true ∧ entry_data e = (ttl p, protocol_of p, now))
    as (Hc & Hv & Hd) by done.
  rewrite conn_hash_slot. pose proof (slot_of_lt (conn_of p)) as Hlt. rewrite <- Hs in Hlt.
  split; cbn [conntrack_table conntrack_initialized upd].
  - done.
  - by rewrite length_insert.
  - intros i e' He' Hve'. destruct (decide (i = slot_of (conn_of p))) as [->|Hne].
    + rewrite list_lookup_insert_eq in He' by done. injection He' as <-. by rewrite Hc.
    + rewrite list_lookup_insert_ne in He' by done. by eapply Hsl.
  - intros k. unfold cache_add. destruct (decide (k = conn_of p)) as [->|Hk].
    + rewrite lookup_insert_eq, table_get_insert_same by done.
      by rewrite Hv, Hc, bool_decide_eq_true_2, Hd.
    + rewrite lookup_insert_ne by done. rewrite map_lookup_filter.
      destruct (decide (slot_of k = slot_of (conn_of p))) as [E|E].
      * rewrite <- E, table_get_insert_same by by rewrite E.
        rewrite Hc, bool_decide_eq_false_2, andb_false_r by congruence.
        destruct (m !! k); cbn; [|done]. by rewrite option_guard_False by (cbn; tauto).
      * rewrite table_get_insert_other, <- Hg by done.
        destruct (m !! k); cbn; [|done]. by rewrite option_guard_True.
Qed.

Lemma find_entry_get p t m :
  represents t m →
  match find_conntrack_entry (Some p) t with
  | Some (i, e) => i = slot_of (conn_of p) ∧ conntrack_table t !! i = Some e ∧ e_valid e = true ∧
                   entry_conn e = conn_of p ∧ m !! conn_of p = Some (entry_data e)
  | None => m !! conn_of p = None
  end.
Proof.
  intros [Hi Hs Hsl Hg]. unfold find_conntrack_entry. rewrite Hi, conn_hash_slot, Hg. cbn [negb].
  unfold table_get. destruct (conntrack_table t !! slot_of (conn_of p)) as [e|] eqn:E; [|done]. cbn.
  destruct (e_valid e) eqn:Hv; cbn; [|done].
  destruct (_ && _) eqn:Ec.
  - bprop. assert (entry_conn e = conn_of p) as Hc by (unfold entry_conn, conn_of; congruence).
    by rewrite bool_decide_eq_true_2.
  - rewrite bool_decide_eq_false_2; [done|]. intros Hc. unfold entry_conn, conn_of in Hc.
    injection Hc as E1 E2 E3 E4. by rewrite E1, E2, E3, E4, !Z.eqb_refl in Ec.
Qed.

Lemma represents_lookup now p i t m :
  represents t m →
  match m !! conn_of p with
  | None => conntrack_lookup now (Some p) (Some i) t = (-1, Some i, t)
  | Some (tl, pr, _) =>
      ∃ t', conntrack_lookup now (Some p) (Some i) t =
              (0, Some (mkInfo true ((i_src_addr i) <| w0 := w0 (src_ip p) |>)
                          ((i_dst_addr i) <| w0 := w0 (dst_ip p) |>)
                          (src_port p) (dst_port p) tl pr now), t') ∧
            represents t' (cache_touch now (conn_of p) m)
  end.
Proof.
  intros Hr. pose proof (find_entry_get p t m Hr) as Hf. unfold conntrack_lookup.
  pose proof Hr as [Hi Hs Hsl Hg]. rewrite Hi. cbn [negb].
  destruct (find_conntrack_entry (Some p) t) as [[k e]|]; [|by rewrite Hf].
  destruct Hf as (-> & He & Hv & Hc & Hm). rewrite Hm. cbn [entry_data].
  pose proof Hc as Hc'. unfold entry_conn, conn_of in Hc'. injection Hc' as E1 E2 E3 E4.
  exists (t <| conntrack_table := <[slot_of (conn_of p) := e <| e_last_seen := now |>]>
                                   (conntrack_table t) |>).
  split; [cbn; by rewrite E1, E2, E3, E4|].
  pose proof (slot_of_lt (conn_of p)) as Hlt. rewrite <- Hs in Hlt.
  set (e' := e <| e_last_seen := now |>).
  split; cbn [conntrack_table conntrack_initialized upd].
  - done.
  - by rewrite length_insert.
  - intros i' x Hx Hvx. destruct (decide (i' = slot_of (conn_of p))) as [->|Hne].
    + rewrite list_lookup_insert_eq in Hx by done. injection Hx as <-. change (entry_conn e') with (entry_conn e).
      by rewrite Hc.
    + rewrite list_lookup_insert_ne in Hx by done. by eapply Hsl.
  - intros k. unfold cache_touch. destruct (decide (k = conn_of p)) as [->|Hk].
    + rewrite lookup_alter_eq, table_get_insert_same by done.
      change (e_valid e') with (e_valid e). change (entry_conn e') with (entry_conn e).
      rewrite Hv, Hc, bool_decide_eq_true_2, Hm by done. done.
    + rewrite lookup_alter_ne by done. rewrite Hg.
      destruct (decide (slot_of (conn_of p) = slot_of k)) as [E|E].
      * rewrite E. rewrite table_get_insert_same by by rewrite <- E.
        change (e_valid e') with (e_valid e). change (entry_conn e') with (entry_conn e).
        unfold table_get. rewrite <- E, He. cbn.
        by rewrite Hc, bool_decide_eq_false_2, andb_false_r by done.
      * by rewrite table_get_insert_other.
Qed.

Lemma cleanup_slots_lookup now l i :
  (cleanup_slots now l).1 !! i =
    (λ e, if e_valid e && (300 <? now - e_last_seen e) then entry_zero else e) <$> l !! i.
Proof.
  revert i. induction l as [|e l IH]; intros i; [done|]. cbn [cleanup_slots].
  destruct (cleanup_slots now l) as [l' r]. cbn [fst] in IH.
  destruct i as [|i]; destruct (e_valid e && _) eqn:E; cbn; rewrite ?E; auto.
Qed.

Lemma cleanup_slots_length now l : length (cleanup_slots now l).1 = length l.
Proof.
  induction l as [|e l IH]; [done|]. cbn [cleanup_slots].
  destruct (cleanup_slots now l) as [l' r]. cbn [fst] in IH. destruct (_ && _); cbn; by rewrite IH.
Qed.

(** The old entries the loop counts. *)
Definition stale (now : Z) (e : conntrack_entry_t) : bool := e_valid e && (300 <? now - e_last_seen e).

Lemma cleanup_slots_count now l :
  (cleanup_slots now l).2 = lenZ (List.filter (stale now) l).
Proof.
  induction l as [|e l IH]; [done|]. cbn [cleanup_slots List.filter].
  destruct (cleanup_slots now l) as [l' r]. cbn [snd] in IH. unfold stale at 1.
  destruct (_ && _); cbn [snd]; [rewrite lenZ_cons|]; lia.
Qed.

Lemma represents_cleanup now t m :
  represents t m →
  ∃ t', conntrack_cleanup_old now t = (lenZ (List.filter (stale now) (conntrack_table t)), t') ∧
        represents t' (cache_expire now m).
Proof.
  intros [Hi Hs Hsl Hg]. unfold conntrack_cleanup_old. rewrite Hi. cbn [negb].
  pose proof (cleanup_slots_count now (conntrack_table t)) as Hc.
  pose proof (cleanup_slots_length now (conntrack_table t)) as Hl.
  pose proof (cleanup_slots_lookup now (conntrack_table t)) as Hk.
  destruct (cleanup_slots now (conntrack_table t)) as [l r]. cbn [fst snd] in *.
  eexists. split; [by rewrite <- Hc|]. split; cbn [conntrack_table conntrack_initialized upd].
  - done.
  - congruence.
  - intros i e He Hv. rewrite Hk in He. destruct (conntrack_table t !! i) as [e0|] eqn:E; [|done].
    cbn in He. injection He as <-. destruct (_ && _); [done|]. by eapply Hsl.
  - intros k. unfold cache_expire. rewrite map_lookup_filter, Hg. unfold table_get. rewrite Hk.
    destruct (conntrack_table t !! slot_of k) as [e|]; [|done]. cbn.
    destruct (e_valid e) eqn:Hv; cbn; [|by rewrite Hv].
    destruct (Z.ltb_spec 300 (now - e_last_seen e)) as [Ho|Ho]; cbn; rewrite ?Hv; cbn.
    + destruct (bool_decide _); cbn; [|done]. by rewrite option_guard_False by (cbn; lia).
    + destruct (bool_decide _); cbn; [|done]. by rewrite option_guard_True by (cbn; lia).
Qed.

(** ** Runs *)

(** The calls a client makes, and their effect on the table and on the cache. *)
Inductive ct_op : Type :=
  | Add (now : Z) (p : packet_t)
  | Lookup (now : Z) (p : packet_t) (info : conntrack_info_t)
  | CleanupOld (now : Z).

Definition run_op (o : ct_op) (t : conntrack) : conntrack :=
  match o with
  | Add now p => (conntrack_add now (Some p) t).2
  | Lookup now p i => (conntrack_lookup now (Some p) (Some i) t).2
  | CleanupOld now => (conntrack_cleanup_old now t).2
  end.

Definition cache_op (o : ct_op) (m : cache) : cache :=
  match o with
  | Add now p => cache_add now p m
  | Lookup now p _ => cache_touch now (conn_of p) m
  | CleanupOld now => cache_expire now m
  end.

Lemma represents_op o t m : represents t m → represents (run_op o t) (cache_op o m).
Proof.
  intros Hr. destruct o as [now p|now p i|now]; cbn [run_op cache_op].
  - destruct (represents_add now p t m Hr) as (t' & -> & ?). done.
  - pose proof (represents_lookup now p i t m Hr) as H. destruct (m !! conn_of p) as [[[tl pr] ls]|] eqn:E.
    + destruct H as (t' & -> & ?). done.
    + rewrite H. cbn [snd]. unfold cache_touch. by rewrite alter_id'.
  - destruct (represents_cleanup now t m Hr) as (t' & -> & ?). done.
Qed.

(** C15: after [conntrack_init] and any sequence of additions, lookups and
    clean-ups, the table represents the cache that the same sequence gives on
    the abstract level, where adding a connection evicts those of its slot, a
    lookup refreshes its time and a clean-up keeps what was seen in the last 300
    seconds; and a lookup answers from that cache. *)
Theorem conntrack_refines_cache ops t0 :
  let t := foldl (λ t o, run_op o t) (conntrack_init t0).2 ops in
  let m := foldl (λ m o, cache_op o m) ∅ ops in
  represents t m ∧
  ∀ now p i, ∃ t',
    conntrack_lookup now (Some p) (Some i) t =
      match m !! conn_of p with
      | None => (-1, Some i, t')
      | Some (tl, pr, _) =>
          (0, Some (mkInfo true ((i_src_addr i) <| w0 := w0 (src_ip p) |>)
                      ((i_dst_addr i) <| w0 := w0 (dst_ip p) |>)
                      (src_port p) (dst_port p) tl pr now), t')
      end.
Proof.
  intros t m. assert (represents t m) as Hr.
  { unfold t, m. generalize (represents_init t0). generalize (conntrack_init t0).2 as t1.
    generalize (∅ : cache) as m1. induction ops as [|o ops IH]; intros m1 t1 H; [done|].
    cbn [foldl]. by apply IH, represents_op. }
  split; [done|]. intros now p i. pose proof (represents_lookup now p i t m Hr) as H.
  destruct (m !! conn_of p) as [[[tl pr] ls]|]; [|by exists t].
  destruct H as (t' & -> & _). by exists t'.
Qed.

(** Right after a packet is added its connection is found, with its TTL and
    protocol; a connection of another slot is answered as before, and any other
    connection of the same slot has been forgotten. *)
Theorem conntrack_add_then_lookup now now' p t m :
  represents t m →
  let t' := (conntrack_add now (Some p) t).2 in
  ∀ q i,
    let r := conntrack_lookup now' (Some q) (Some i) t' in
    if decide (conn_of q = conn_of p)
    then r.1.1 = 0 ∧ (i_ttl <$> r.1.2) = Some (ttl p) ∧ (i_protocol <$> r.1.2) = Some (protocol_of p)
    else if decide (slot_of (conn_of q) = slot_of (conn_of p)) then r = (-1, Some i, t')
    else r.1 = (conntrack_lookup now' (Some q) (Some i) t).1.
Proof.
  intros Hr t' q i. destruct (represents_add now p t m Hr) as (t1 & E & Hr1).
  unfold t'. rewrite E. cbn [snd]. clear t' E.
  pose proof (represents_lookup now' q i t1 _ Hr1) as H1. unfold cache_add in H1 at 1.
  pose proof (represents_lookup now' q i t m Hr) as H.
  case_decide as Hq.
  - rewrite Hq, lookup_insert_eq in H1. destruct H1 as (t2 & -> & _). done.
  - rewrite lookup_insert_ne, map_lookup_filter in H1 by done. case_decide as Hsl.
    + destruct (m !! conn_of q); cbn [mbind option_bind] in H1; [|done].
      rewrite option_guard_False in H1 by (cbn; tauto). done.
    + destruct (m !! conn_of q) as [[[tl pr] ls]|]; cbn [mbind option_bind] in H1.
      * rewrite option_guard_True in H1 by done. destruct H1 as (? & -> & _), H as (? & -> & _). done.
      * by rewrite H1, H.
Qed.

Lemma conntrack_add_then_lookup_witness :
  let p := packet_zero <| type := PACKET_IPV4_TCP |> <| ttl := 57 |> <| src_port := 1000 |> in
  let t' := (conntrack_add 5 (Some p) (conntrack_init conntrack_static).2).2 in
  (conntrack_lookup 9 (Some p) (Some (mkInfo false ip_zero ip_zero 0 0 0 0 0)) t').1.1 = 0.
Proof.
  intros p t'.
  pose proof (conntrack_add_then_lookup 5 9 p (conntrack_init conntrack_static).2 ∅
                (represents_init conntrack_static) p (mkInfo false ip_zero ip_zero 0 0 0 0 0)) as H.
  cbv zeta in H. rewrite decide_True in H by reflexivity. apply H.
Defined.
