(* ===== verification/TtlTracker.v ===== *)
(** * src/tracking/ttl_tracker.c: TTL learning per connection

    The table is the list of its first [ttl_table_size] entries; entries past
    that size are never read before they are cleared.  [now] is the value of
    [time(NULL)] during the call. *)

From S2P Require Import Prelude Types Packet.

Record ttl_track_entry_t : Type := mkTtl {
  t_src_ip : ip_addr;
  t_dst_ip : ip_addr;
  t_src_port : Z;
  t_dst_port : Z;
  t_protocol : Z;
  original_ttl : Z;
  min_ttl : Z;
  max_ttl : Z;
  ttl_delta : Z;
  first_seen : Z;
  last_seen : Z;
  packet_count : Z;
  is_established : bool
}.

#[export] Instance eta_ttl : Eta ttl_track_entry_t := λ e,
  mkTtl (t_src_ip e) (t_dst_ip e) (t_src_port e) (t_dst_port e) (t_protocol e) (original_ttl e)
    (min_ttl e) (max_ttl e) (ttl_delta e) (first_seen e) (last_seen e) (packet_count e)
    (is_established e).

Definition MAX_TTL_ENTRIES : nat := 1024.
Definition TTL_LEARNING_PACKETS : Z := 10.
Definition TTL_LEARNING_TIMEOUT : Z := 30.
Definition TTL_ESTABLISHED_TIMEOUT : Z := 300.

Notation ttl_table := (list ttl_track_entry_t).

Definition ttl_tracker_init (t : ttl_table) : Z * ttl_table := (0, []).
Definition ttl_tracker_cleanup (t : ttl_table) : Z * ttl_table := (0, []).

(** The entry's endpoints are ([sip], [sport]) and ([dip], [dport]); IPv4
    addresses are compared by their first word, IPv6 ones by all four. *)
Definition same_ends (v6 : bool) (e : ttl_track_entry_t) (sip dip : ip_addr) (sport dport : Z) : bool :=
  (if v6 then bool_decide (t_src_ip e = sip) && bool_decide (t_dst_ip e = dip)
   else (w0 (t_src_ip e) =? w0 sip) && (w0 (t_dst_ip e) =? w0 dip)) &&
  (t_src_port e =? sport) && (t_dst_port e =? dport) && (t_protocol e =? IPPROTO_TCP).

Definition entry_matches (p : packet_t) (e : ttl_track_entry_t) : bool :=
  if t_protocol e =? 0 then false
  else same_ends (is_ipv6 p) e (src_ip p) (dst_ip p) (src_port p) (dst_port p) ||
       same_ends (is_ipv6 p) e (dst_ip p) (src_ip p) (dst_port p) (src_port p).

(** The index of the first entry that matches. *)
Fixpoint find_ttl_entry (p : packet_t) (t : ttl_table) : option nat :=
  match t with
  | [] => None
  | e :: t => if entry_matches p e then Some 0%nat else S <$> find_ttl_entry p t
  end.

Definition update_entry (now ttl : Z) (e : ttl_track_entry_t) : ttl_track_entry_t :=
  let e := e <| last_seen := now |> in
  let e := e <| packet_count := u32 (packet_count e + 1) |> in
  if is_established e then e else
  let e := if (ttl <? min_ttl e) || (min_ttl e =? 0) then e <| min_ttl := ttl |> else e in
  let e := if (max_ttl e <? ttl) || (max_ttl e =? 0) then e <| max_ttl := ttl |> else e in
  let e := if original_ttl e =? 0 then e <| original_ttl := ttl |> else e in
  let e := e <| ttl_delta := u8 (original_ttl e - ttl) |> in
  if TTL_LEARNING_PACKETS <=? packet_count e then e <| is_established := true |> else e.

(** The loop that looks for the oldest entry still learning; [i] is the index of
    the head of [t]. *)
Fixpoint oldest_loop (i : nat) (entry : option nat) (oldest_time : Z) (t : ttl_table) : option nat :=
  match t with
  | [] => entry
  | e :: t =>
      if negb (is_established e) && (last_seen e <? oldest_time)
      then oldest_loop (S i) (Some i) (last_seen e) t
      else oldest_loop (S i) entry oldest_time t
  end.

Definition new_entry (now : Z) (p : packet_t) (ttl : Z) : ttl_track_entry_t :=
  mkTtl (if is_ipv6 p then src_ip p else mkIp (w0 (src_ip p)) 0 0 0)
        (if is_ipv6 p then dst_ip p else mkIp (w0 (dst_ip p)) 0 0 0)
        (src_port p) (dst_port p) IPPROTO_TCP ttl ttl ttl 0 now now 1 false.

Definition ttl_track_update (now : Z) (packet : option packet_t) (ttl : Z) (t : ttl_table)
    : Z * ttl_table :=
  match packet with
  | None => (-1, t)
  | Some p =>
      if negb (type_eqb (type p) PACKET_IPV4_TCP) && negb (type_eqb (type p) PACKET_IPV6_TCP)
      then (-1, t) else
      match find_ttl_entry p t with
      | Some i => (0, alter (update_entry now ttl) i t)
      | None =>
          if (length t <? MAX_TTL_ENTRIES)%nat then (0, t ++ [new_entry now p ttl])
          else match oldest_loop 0 None now t with
               | None => (-1, t)
               | Some i => (0, <[i := new_entry now p ttl]> t)
               end
      end
  end.

Definition ttl_get_auto_ttl (connection_ttl ttl_1 ttl_2 ttl_min ttl_max : Z) : Z :=
  let distance := u8 (ttl_1 - connection_ttl) in
  let distance := if ttl_2 <? distance then ttl_2 else distance in
  let fake_ttl := u8 (ttl_1 - distance) in
  let fake_ttl := if fake_ttl <? ttl_min then ttl_min else fake_ttl in
  if ttl_max <? fake_ttl then ttl_max else fake_ttl.

Definition ttl_get_delta (p : packet_t) (t : ttl_table) : Z :=
  match find_ttl_entry p t ≫= (t !!.) with
  | Some e => if is_established e then ttl_delta e else -1
  | None => -1
  end.

Definition expired (now : Z) (e : ttl_track_entry_t) : bool :=
  let timeout := if is_established e then TTL_ESTABLISHED_TIMEOUT else TTL_LEARNING_TIMEOUT in
  timeout <? now - last_seen e.

(** [for (i = 0; i < ttl_table_size; )]: either the entries after [i] move down
    by one or [i] advances, so [fuel] of the table's size is enough. *)
Fixpoint expire_loop (fuel : nat) (now : Z) (i : nat) (t : ttl_table) (removed : Z) : ttl_table * Z :=
  match fuel with
  | O => (t, removed)
  | S fuel =>
      match t !! i with
      | None => (t, removed)
      | Some e =>
          if expired now e then expire_loop fuel now i (take i t ++ drop (S i) t) (removed + 1)
          else expire_loop fuel now (S i) t removed
      end
  end.

Definition ttl_tracker_cleanup_expired (now : Z) (t : ttl_table) : Z * ttl_table :=
  let '(t, removed) := expire_loop (length t) now 0 t 0 in (removed, t).

Definition ttl_tracker_get_stats (t : ttl_table) : Z * Z :=
  (lenZ t, foldl (λ n e, if is_established e then n + 1 else n) 0 t).

Definition ttl_is_ready (p : packet_t) (t : ttl_table) : bool :=
  match find_ttl_entry p t ≫= (t !!.) with Some e => is_established e | None => false end.

(** ** Clean-up *)

Lemma expire_loop_ok now fuel i t removed :
  (length t - i ≤ fuel)%nat →
  expire_loop fuel now i t removed =
    (take i t ++ List.filter (λ e, negb (expired now e)) (drop i t),
     removed + lenZ (List.filter (expired now) (drop i t))).
Proof.
  revert i t removed. induction fuel as [|fuel IH]; intros i t removed Hf; cbn [expire_loop].
  - rewrite !drop_ge by lia. rewrite take_ge, app_nil_r by lia. f_equal. unfold lenZ. cbn. lia.
  - destruct (t !! i) as [e|] eqn:E.
    + pose proof (lookup_lt_Some _ _ _ E). rewrite (drop_S _ _ _ E). cbn [List.filter].
      destruct (expired now e); cbn [negb].
      * rewrite IH by (rewrite length_app, length_take, length_drop; lia).
        rewrite take_app_length', drop_app_length' by (rewrite length_take; lia).
        by rewrite lenZ_cons, Z.add_assoc.
      * rewrite IH by lia. by rewrite (take_S_r _ _ _ E), <- app_assoc.
    + apply lookup_ge_None in E. rewrite !drop_ge by lia.
      rewrite take_ge, app_nil_r by lia. f_equal. unfold lenZ. cbn. lia.
Qed.

(** C29: [ttl_tracker_cleanup_expired] ends, keeps in order exactly the entries
    that are not expired (30 seconds while learning, 300 when established) and
    returns the number of the others; a second call at the same time removes
    nothing. *)
Theorem cleanup_expired_filters now t :
  let r := ttl_tracker_cleanup_expired now t in
  r = (lenZ (List.filter (expired now) t), List.filter (λ e, negb (expired now e)) t) ∧
  lenZ t = r.1 + lenZ r.2 ∧ ttl_tracker_cleanup_expired now r.2 = (0, r.2).
Proof.
  assert (∀ l, ttl_tracker_cleanup_expired now l =
    (lenZ (List.filter (expired now) l), List.filter (λ e, negb (expired now e)) l)) as H.
  { intros l. unfold ttl_tracker_cleanup_expired. by rewrite expire_loop_ok by lia. }
  intros r. unfold r. rewrite !H. cbn [fst snd]. split; [done|]. split.
  - clear. induction t as [|e t IH]; [done|]. cbn [List.filter].
    destruct (expired now e); cbn [negb]; rewrite !lenZ_cons; lia.
  - f_equal; clear.
    + induction t as [|e t IH]; [done|]. cbn [List.filter]. destruct (expired now e) eqn:E; cbn [negb]; [done|].
      cbn [List.filter]. by rewrite E.
    + induction t as [|e t IH]; [done|]. cbn [List.filter]. destruct (expired now e) eqn:E; cbn [negb]; [done|].
      cbn [List.filter]. rewrite E. cbn [negb]. by rewrite IH.
Qed.

(** Splits on the comparisons without reducing [Z.min] and [Z.max]. *)
Ltac split_ltb := repeat match goal with |- context [?a <? ?b] =>
  lazymatch b with context [_ <? _] => fail | _ => destruct (Z.ltb_spec a b) end end.

(** For byte arguments with [ttl_min <= ttl_max] the automatic TTL lies
    between them, and when the observed TTL does not exceed [ttl_1] and [ttl_2]
    does not either, it is the larger of the observed TTL and [ttl_1 - ttl_2],
    brought into that range. *)
Theorem auto_ttl_in_range c t1 t2 lo hi :
  is_byte c → is_byte t1 → is_byte t2 → is_byte lo → is_byte hi → lo ≤ hi →
  lo ≤ ttl_get_auto_ttl c t1 t2 lo hi ≤ hi ∧
  (c ≤ t1 → t2 ≤ t1 → ttl_get_auto_ttl c t1 t2 lo hi = Z.min hi (Z.max lo (Z.max c (t1 - t2)))) ∧
  (t1 < c → t2 ≤ t1 → t2 ≤ 256 + t1 - c →
   ttl_get_auto_ttl c t1 t2 lo hi = Z.min hi (Z.max lo (t1 - t2))).
Proof.
  unfold is_byte. intros. unfold ttl_get_auto_ttl.
  assert (∀ x, 0 ≤ x < 256 → u8 x = x) as Hu by (intros; unfold_u; apply Z.mod_small; lia).
  split; [split; zcases|]. split.
  - intros. rewrite (Hu (t1 - c)) by lia. destruct (Z.ltb_spec t2 (t1 - c));
      rewrite Hu by lia;
      split_ltb; lia.
  - intros. assert (u8 (t1 - c) = 256 + t1 - c) as ->.
    { unfold_u. symmetry. apply Z.mod_unique with (-1); lia. }
    destruct (Z.ltb_spec t2 (256 + t1 - c)); rewrite Hu by lia;
      split_ltb; lia.
Qed.

Lemma auto_ttl_in_range_witness :
  3 ≤ ttl_get_auto_ttl 57 64 4 3 62 ≤ 62 ∧ ttl_get_auto_ttl 57 64 4 3 62 = 60.
Proof.
  destruct (auto_ttl_in_range 57 64 4 3 62) as (H & E & _); [unfold is_byte; lia..|].
  split; [exact H|]. rewrite E by lia. reflexivity.
Defined.

(** ** Learning *)

Lemma entry_matches_update q now x e : entry_matches q (update_entry now x e) = entry_matches q e.
Proof.
  unfold update_entry. cbn. destruct (is_established e); [done|].
  repeat match goal with |- context [if ?c then _ else _] => destruct c; cbn end; done.
Qed.

(** The same connection in the other direction. *)
Definition reversed (p q : packet_t) : Prop :=
  is_ipv6 q = is_ipv6 p ∧ src_ip q = dst_ip p ∧ dst_ip q = src_ip p ∧
  src_port q = dst_port p ∧ dst_port q = src_port p.
Definition same_direction (p q : packet_t) : Prop :=
  is_ipv6 q = is_ipv6 p ∧ src_ip q = src_ip p ∧ dst_ip q = dst_ip p ∧
  src_port q = src_port p ∧ dst_port q = dst_port p.
Definition same_connection (p q : packet_t) : Prop := same_direction p q ∨ reversed p q.

#[export] Instance same_connection_dec p q : Decision (same_connection p q).
Proof. unfold same_connection, same_direction, reversed. apply _. Defined.

(** Addresses of two packets are compared by all four words if both are IPv6 and
    by the first word otherwise. *)
Definition same_address (v6 : bool) (a b : ip_addr) : Prop := if v6 then a = b else w0 a = w0 b.

(** Another connection: in neither direction do both endpoints coincide. *)
Definition other_ends (p q : packet_t) (sip dip : ip_addr) (sport dport : Z) : Prop :=
  let v6 := is_ipv6 p && is_ipv6 q in
  src_port p ≠ sport ∨ dst_port p ≠ dport ∨
  ¬ same_address v6 (src_ip p) sip ∨ ¬ same_address v6 (dst_ip p) dip.
Definition other_connection (p q : packet_t) : Prop :=
  other_ends p q (src_ip q) (dst_ip q) (src_port q) (dst_port q) ∧
  other_ends p q (dst_ip q) (src_ip q) (dst_port q) (src_port q).

Lemma entry_matches_same p q e : same_connection p q → entry_matches q e = entry_matches p e.
Proof.
  unfold entry_matches. intros [(-> & -> & -> & -> & ->)|(-> & -> & -> & -> & ->)]; [done|].
  destruct (t_protocol e =? 0); [done|]. apply orb_comm.
Qed.

Lemma new_entry_matches now p x : entry_matches p (new_entry now p x) = true.
Proof.
  unfold entry_matches, same_ends, new_entry. cbn. rewrite !Z.eqb_refl.
  destruct (is_ipv6 p); cbn; rewrite ?Z.eqb_refl, ?bool_decide_eq_true_2 by done; done.
Qed.

Lemma other_connection_sym p q : other_connection p q → other_connection q p.
Proof.
  unfold other_connection, other_ends. rewrite (andb_comm (is_ipv6 p)). unfold same_address.
  destruct (is_ipv6 q && is_ipv6 p); intros [H1 H2]; split; intuition congruence.
Qed.

Lemma other_connection_same p q r : same_connection p q → other_connection p r → other_connection q r.
Proof.
  unfold other_connection, other_ends. intros [(-> & -> & -> & -> & ->)|(-> & -> & -> & -> & ->)]; tauto.
Qed.

Lemma other_not_matches now p r x : other_connection p r → entry_matches r (new_entry now p x) = false.
Proof.
  intros [H1 H2]. unfold entry_matches, new_entry. cbn [t_protocol].
  assert (∀ sip dip sport dport, other_ends p r sip dip sport dport →
    same_ends (is_ipv6 r) (new_entry now p x) sip dip sport dport = false) as H.
  { unfold other_ends, same_address. intros sip dip sport dport Ho.
    apply not_true_iff_false. intros Hs. unfold same_ends, new_entry in Hs. cbn in Hs.
    destruct (is_ipv6 r), (is_ipv6 p); cbn [andb] in *;
      rewrite ?andb_true_iff, ?bool_decide_eq_true, ?Z.eqb_eq in Hs; cbn [w0] in Hs;
      destruct Hs as [[[[Hs1 Hs2] Hs3] Hs4] _];
      first [tauto | apply (f_equal w0) in Hs1, Hs2; cbn [w0] in Hs1, Hs2; tauto]. }
  unfold new_entry in H. by rewrite !H.
Qed.

(** A header-only TCP segment, the only kind that is tracked. *)
Definition tracked (p : packet_t) : Prop := type p = PACKET_IPV4_TCP ∨ type p = PACKET_IPV6_TCP.

Lemma ttl_track_update_tracked now p x t :
  tracked p →
  ttl_track_update now (Some p) x t =
    match find_ttl_entry p t with
    | Some i => (0, alter (update_entry now x) i t)
    | None =>
        if (length t <? MAX_TTL_ENTRIES)%nat then (0, t ++ [new_entry now p x])
        else match oldest_loop 0 None now t with
             | None => (-1, t)
             | Some i => (0, <[i := new_entry now p x]> t)
             end
    end.
Proof. by intros [E|E]; unfold ttl_track_update; rewrite E. Qed.

(** What the entry of a connection has learned from the TTLs [x0 :: xs]. *)
Record learned (x0 : Z) (xs : list Z) (e : ttl_track_entry_t) : Prop := {
  l_count : packet_count e = 1 + lenZ xs;
  l_established : is_established e = (10 <=? 1 + lenZ xs);
  l_original : original_ttl e = x0;
  l_min : min_ttl e = foldl Z.min x0 (take 9 xs);
  l_max : max_ttl e = foldl Z.max x0 (take 9 xs);
  l_delta : ttl_delta e = u8 (x0 - List.last (take 9 xs) x0)
}.

Lemma fold_min_pos x0 xs : 0 < x0 → Forall (λ x, 0 < x) xs → 0 < foldl Z.min x0 xs.
Proof. intros H0 Hs. revert x0 H0. induction Hs as [|x xs Hx _ IH]; intros x0 H0; cbn [foldl]; [done|]. apply IH. lia. Qed.
Lemma fold_max_pos x0 xs : 0 < x0 → Forall (λ x, 0 < x) xs → 0 < foldl Z.max x0 xs.
Proof. intros H0 Hs. revert x0 H0. induction Hs as [|x xs Hx _ IH]; intros x0 H0; cbn [foldl]; [done|]. apply IH. lia. Qed.

Lemma learned_new now p x : learned x [] (new_entry now p x).
Proof. split; try done. cbn. by rewrite Z.sub_diag. Qed.

Lemma learned_update now x0 xs x e :
  0 < x0 → Forall (λ x, 0 < x) xs → 0 < x → 2 + lenZ xs < 2 ^ 32 →
  learned x0 xs e → learned x0 (xs ++ [x]) (update_entry now x e).
Proof.
  intros H0 Hxs Hx Hl [Hc He Ho Hmi Hma Hd]. pose proof (lenZ_nonneg xs).
  assert (u32 (packet_count e + 1) = 2 + lenZ xs) as Hu
    by (rewrite Hc; unfold_u; rewrite Z.mod_small by lia; lia).
  assert (lenZ (xs ++ [x]) = lenZ xs + 1) as Hlen by (rewrite lenZ_app; done).
  unfold update_entry. cbn. rewrite Hu, He. destruct (Z.leb_spec 10 (1 + lenZ xs)) as [Hb|Hb].
  - split; cbn; rewrite ?Hlen, ?take_app_le by (unfold lenZ in *; lia); try done; [lia|].
    by rewrite He, !(proj2 (Z.leb_le 10 _)) by lia.
  - assert (0 < min_ttl e ∧ 0 < max_ttl e) as [Hmp Hxp].
    { rewrite Hmi, Hma. split; [apply fold_min_pos|apply fold_max_pos]; auto using Forall_take. }
    rewrite take_ge in Hmi, Hma by (unfold lenZ in *; lia).
    assert (take 9 (xs ++ [x]) = xs ++ [x]) as Ht
      by (apply take_ge; rewrite length_app; unfold lenZ in *; cbn; lia).
    assert (List.last (xs ++ [x]) x0 = x) as Hlast by apply List.last_last.
    rewrite (proj2 (Z.eqb_neq (min_ttl e) 0)), orb_false_r by lia.
    destruct (Z.ltb_spec x (min_ttl e)); cbn;
    rewrite (proj2 (Z.eqb_neq (max_ttl e) 0)), orb_false_r by lia;
    destruct (Z.ltb_spec (max_ttl e) x); cbn;
    rewrite (proj2 (Z.eqb_neq (original_ttl e) 0)) by lia; cbn;
    unfold TTL_LEARNING_PACKETS; destruct (Z.leb_spec 10 (2 + lenZ xs)); cbn;
    (split; cbn; rewrite ?Ht, ?foldl_app, ?Hlast, ?Hlen, ?Ho; cbn; try lia; try done);
    rewrite ?He; symmetry; (apply Z.leb_le || apply Z.leb_gt); lia.
Qed.

(** One tracked segment of the connection after another. *)
Definition track_step (t : ttl_table) (s : Z * packet_t * Z) : ttl_table :=
  let '(now, q, x) := s in (ttl_track_update now (Some q) x t).2.

(** *** Updates of a table with room *)

(** The first entry with [m] is updated; without one, [n] is appended. *)
Fixpoint upsert (m : ttl_track_entry_t → bool) (f : ttl_track_entry_t → ttl_track_entry_t)
    (n : ttl_track_entry_t) (t : ttl_table) : ttl_table :=
  match t with
  | [] => [n]
  | e :: t => if m e then f e :: t else e :: upsert m f n t
  end.

Lemma track_step_upsert now q x t :
  tracked q → (length t < MAX_TTL_ENTRIES)%nat →
  track_step t (now, q, x) = upsert (entry_matches q) (update_entry now x) (new_entry now q x) t.
Proof.
  intros Hq Ht. cbn [track_step]. rewrite ttl_track_update_tracked by done.
  transitivity (match find_ttl_entry q t with
    | Some i => alter (update_entry now x) i t | None => t ++ [new_entry now q x] end).
  { destruct (find_ttl_entry q t); [done|]. by rewrite (proj2 (Nat.ltb_lt _ _)). }
  clear Ht. induction t as [|e t IH]; [done|]. cbn [find_ttl_entry upsert].
  destruct (entry_matches q e); [done|]. rewrite <- IH. by destruct (find_ttl_entry q t).
Qed.

Lemma track_step_grows now q x t : (length t ≤ length (track_step t (now, q, x)))%nat.
Proof.
  unfold track_step, ttl_track_update. destruct (negb _ && _); [done|].
  destruct (find_ttl_entry q t); cbn [snd]; [by rewrite length_alter|].
  destruct (length t <? MAX_TTL_ENTRIES)%nat; cbn [snd]; [rewrite length_app; lia|].
  destruct (oldest_loop 0 None now t); cbn [snd]; [by rewrite length_insert|done].
Qed.

(** An update of a kept entry, and of one that is filtered out. *)
Lemma filter_upsert_kept (P : ttl_track_entry_t → bool) m f n t :
  (∀ e, e ∈ t → m e = true → P e = true) → (∀ e, P (f e) = P e) → P n = true →
  List.filter P (upsert m f n t) = upsert m f n (List.filter P t).
Proof.
  intros Hm Hf Hn. induction t as [|e t IH]; cbn; [by rewrite Hn|].
  assert (m e = true → P e = true) as He by (apply Hm; left).
  specialize (IH (λ e' Hin, Hm e' (list_elem_of_further _ _ _ Hin))).
  destruct (m e) eqn:Em; cbn [List.filter].
  - rewrite Hf, He by done. cbn [upsert]. by rewrite Em.
  - destruct (P e); [|done]. cbn [upsert]. by rewrite Em, IH.
Qed.

Lemma filter_upsert_dropped (P : ttl_track_entry_t → bool) m f n t :
  (∀ e, e ∈ t → m e = true → P e = false) → (∀ e, P (f e) = P e) → P n = false →
  List.filter P (upsert m f n t) = List.filter P t.
Proof.
  intros Hm Hf Hn. induction t as [|e t IH]; cbn; [by rewrite Hn|].
  assert (m e = true → P e = false) as He by (apply Hm; left).
  specialize (IH (λ e' Hin, Hm e' (list_elem_of_further _ _ _ Hin))).
  destruct (m e); cbn [List.filter]; [by rewrite Hf, He|]. destruct (P e); by rewrite IH.
Qed.

(** *** A connection among others *)

Notation ours p := (λ e, entry_matches p e).
Notation theirs p := (λ e, negb (entry_matches p e)).

(** What the table holds of the connection of [p] after the TTLs [xs]: nothing,
    or one entry, which has learned from them and matches no other connection. *)
Definition own_entry (p : packet_t) (xs : list Z) (t : ttl_table) : Prop :=
  match xs with
  | [] => List.filter (ours p) t = []
  | x0 :: xs => ∃ e, List.filter (ours p) t = [e] ∧ learned x0 xs e ∧
                     ∀ q, other_connection p q → entry_matches q e = false
  end.

Lemma ours_none p xs t e q :
  own_entry p xs t → other_connection p q → e ∈ t → entry_matches q e = true → entry_matches p e = false.
Proof.
  intros Ho Hq Hin Hm. apply not_true_iff_false. intros He.
  assert (e ∈ List.filter (ours p) t) as Hf by (rewrite list_elem_of_In, List.filter_In, <- list_elem_of_In; done).
  destruct xs as [|x0 xs]; cbn in Ho; [rewrite Ho in Hf; by apply not_elem_of_nil in Hf|].
  destruct Ho as (e' & E & _ & Hne). rewrite E in Hf. apply list_elem_of_singleton in Hf as ->.
  by rewrite Hne in Hm.
Qed.

(** A segment of the connection: its entry learns, the others stay. *)
Lemma step_own p q now x xs t :
  same_connection p q → tracked q → (length t < MAX_TTL_ENTRIES)%nat → 0 < x → Forall (λ x, 0 < x) xs →
  1 + lenZ xs < 2 ^ 32 → own_entry p xs t →
  let t' := track_step t (now, q, x) in
  own_entry p (xs ++ [x]) t' ∧ List.filter (theirs p) t' = List.filter (theirs p) t.
Proof.
  intros Hs Ht Hroom Hx Hxs Hlen Ho. cbv zeta. rewrite track_step_upsert by done.
  assert (∀ e, entry_matches q e = entry_matches p e) as Hpq by (intros; by apply entry_matches_same).
  assert (entry_matches p (new_entry now q x) = true) as Hn by (rewrite <- Hpq; apply new_entry_matches).
  split.
  - unfold own_entry. rewrite filter_upsert_kept; [|by intros; rewrite <- Hpq|by intros; apply entry_matches_update|done].
    destruct xs as [|x0 xs]; cbn [own_entry app] in *.
    + rewrite Ho. eexists. split; [done|]. split; [apply learned_new|].
      intros r Hr. apply other_not_matches. by eapply other_connection_same.
    + destruct Ho as (e & E & Hl & Hne). rewrite E. cbn [upsert].
      assert (e ∈ List.filter (ours p) t) as He by (rewrite E; by left).
      rewrite list_elem_of_In, List.filter_In in He. destruct He as [_ He].
      rewrite Hpq, He. eexists. split; [done|]. apply Forall_cons in Hxs as [Hx0 Hxs]. rewrite lenZ_cons in Hlen.
      split; [apply learned_update; auto; lia|]. intros r Hr. rewrite entry_matches_update. by apply Hne.
  - apply filter_upsert_dropped.
    + intros e _ He. by rewrite <- Hpq, He.
    + intros e. by rewrite entry_matches_update.
    + by rewrite Hn.
Qed.

(** A segment of another connection: as if ours were not there. *)
Lemma step_other p q now x xs t :
  other_connection p q → tracked q → (length t < MAX_TTL_ENTRIES)%nat → own_entry p xs t →
  let t' := track_step t (now, q, x) in
  own_entry p xs t' ∧ List.filter (theirs p) t' = track_step (List.filter (theirs p) t) (now, q, x).
Proof.
  intros Hq Ht Hroom Ho. cbv zeta. rewrite (track_step_upsert now q x t) by done.
  rewrite track_step_upsert by
    (done || (pose proof (List.filter_length_le (theirs p) t); lia)).
  assert (entry_matches p (new_entry now q x) = false) as Hn
    by by apply other_not_matches, other_connection_sym.
  split.
  - unfold own_entry. rewrite filter_upsert_dropped; [done| |by intros; apply entry_matches_update|done].
    intros e Hin He. by eapply ours_none.
  - apply filter_upsert_kept.
    + intros e Hin He. by rewrite (ours_none p xs t e q).
    + intros e. by rewrite entry_matches_update.
    + by rewrite Hn.
Qed.

(** The steps that belong to the connection of [p], and the others. *)
Definition own_steps (p : packet_t) (steps : list (Z * packet_t * Z)) :=
  base.filter (λ s, same_connection p s.1.2) steps.
Definition other_steps (p : packet_t) (steps : list (Z * packet_t * Z)) :=
  base.filter (λ s, ¬ same_connection p s.1.2) steps.

(** A segment that is tracked and belongs to the connection, with a TTL, or to
    another one. *)
Definition step_ok (p : packet_t) (s : Z * packet_t * Z) : Prop :=
  tracked s.1.2 ∧ (same_connection p s.1.2 ∧ 0 < s.2 ∨ other_connection p s.1.2).

Lemma same_not_other p q : same_connection p q → ¬ other_connection p q.
Proof.
  unfold other_connection, other_ends, same_address.
  intros [(-> & -> & -> & -> & ->)|(-> & -> & -> & -> & ->)] [H1 H2]; destruct (_ && _); intuition.
Qed.

Lemma track_steps_apart p steps t :
  find_ttl_entry p t = None → Forall (step_ok p) steps →
  (length (foldl track_step t steps) < MAX_TTL_ENTRIES)%nat → lenZ (own_steps p steps) < 2 ^ 32 →
  own_entry p (snd <$> own_steps p steps) (foldl track_step t steps) ∧
  List.filter (theirs p) (foldl track_step t steps) = foldl track_step t (other_steps p steps).
Proof.
  intros Hn. induction steps as [|[[now q] x] steps IH] using rev_ind; intros Hs Hroom Hlen.
  { cbn. clear Hs Hroom Hlen. induction t as [|e t IH]; [done|]. cbn in Hn |- *.
    destruct (entry_matches p e); [done|]. destruct (find_ttl_entry p t); [done|].
    destruct (IH eq_refl) as [-> ->]. done. }
  apply Forall_app in Hs as [Hs [[Ht Hq] _]%Forall_cons]. cbn [fst snd] in Ht, Hq.
  rewrite foldl_app in *. cbn [foldl] in *.
  pose proof (track_step_grows now q x (foldl track_step t steps)) as Hg.
  unfold own_steps, other_steps in *. rewrite !filter_app in *.
  rewrite lenZ_app in Hlen.
  pose proof (lenZ_nonneg (base.filter (λ s, same_connection p s.1.2) [(now, q, x)])).
  destruct IH as [Ho Hf]; [done|lia|lia|]. destruct Hq as [[Hq Hx]|Hq].
  - rewrite (filter_cons_True (λ s, same_connection p s.1.2)), filter_nil in * by done.
    rewrite (filter_cons_False (λ s, ¬ same_connection p s.1.2)), filter_nil, app_nil_r by (cbn; tauto).
    rewrite fmap_app. cbn [fmap list_fmap snd]. change (lenZ [(now, q, x)]) with 1 in Hlen.
    destruct (step_own p q now x (snd <$> base.filter (λ s, same_connection p s.1.2) steps)
                (foldl track_step t steps)) as [H1 H2]; [done|done|lia|done| | |done|].
    + apply Forall_fmap, Forall_forall. intros [[? r] y] [Hr Hin]%list_elem_of_filter.
      rewrite Forall_forall in Hs. destruct (Hs _ Hin) as [_ [[_ ?]|Hno]]; [done|].
      by apply same_not_other in Hr.
    + unfold lenZ in *. rewrite length_fmap. lia.
    + by rewrite H2.
  - assert (¬ same_connection p q) by (intros Hs'; by apply same_not_other in Hs').
    rewrite (filter_cons_False (λ s, same_connection p s.1.2)), filter_nil, app_nil_r in * by done.
    rewrite (filter_cons_True (λ s, ¬ same_connection p s.1.2)), filter_nil by done.
    rewrite foldl_app. cbn [foldl]. rewrite <- Hf. apply step_other; [done|done|lia|done].
Qed.

Lemma find_ours p t e :
  List.filter (ours p) t = [e] → find_ttl_entry p t ≫= (t !!.) = Some e.
Proof.
  induction t as [|e' t IH]; [done|]. cbn [List.filter find_ttl_entry].
  destruct (entry_matches p e'); [by intros [= -> _]|]. intros Hf. specialize (IH Hf).
  by destruct (find_ttl_entry p t).
Qed.

Lemma find_none p t : List.filter (ours p) t = [] → find_ttl_entry p t = None.
Proof.
  induction t as [|e t IH]; [done|]. cbn. destruct (entry_matches p e); [done|]. intros H. by rewrite IH.
Qed.

(** C20: Take a table that does not know a connection, and then any sequence of
    tracked segments in which those of the connection, in both directions and
    with positive TTLs, are interleaved with those of other connections, which
    differ from it in a port or an address; let the table not be full at the end.
    Then the table has no entry of the connection if none of its segments came,
    and otherwise exactly one, which has learned from the connection's own TTLs
    only: it counts them, holds the minimum and the maximum of the first ten and
    the difference of the first and the tenth (the last one, while learning), and
    the connection is ready exactly from its tenth segment on.  All other entries
    are what the other segments alone would have made of the table. *)
Theorem ttl_learning_establishes t p steps :
  find_ttl_entry p t = None → Forall (step_ok p) steps →
  let t' := foldl track_step t steps in
  let xs := snd <$> own_steps p steps in
  (length t' < MAX_TTL_ENTRIES)%nat → lenZ xs < 2 ^ 32 →
  match xs with
  | [] => find_ttl_entry p t' = None
  | x0 :: xs => ∃ e, List.filter (ours p) t' = [e] ∧ learned x0 xs e ∧
                     find_ttl_entry p t' ≫= (t' !!.) = Some e
  end ∧
  ttl_is_ready p t' = (10 <=? lenZ xs) ∧
  List.filter (theirs p) t' = foldl track_step t (other_steps p steps).
Proof.
  intros Hn Hs t' xs Hroom Hlen.
  destruct (track_steps_apart p steps t Hn Hs Hroom) as [Ho Hf].
  { unfold xs, lenZ in Hlen. by rewrite length_fmap in Hlen. }
  fold t' xs in Ho, Hf. unfold ttl_is_ready. rewrite <- Hf.
  destruct xs as [|x0 xs']; cbn [own_entry] in Ho.
  - rewrite (find_none p t' Ho). done.
  - destruct Ho as (e & E & Hl & _). rewrite (find_ours p t' e E), (l_established _ _ _ Hl), lenZ_cons.
    split; [by exists e|]. split; [f_equal; lia|done].
Qed.

(** Ten segments of a connection in both directions, between those of another
    one, which has the same hosts and another port. *)
Lemma ttl_learning_establishes_witness :
  let p := packet_zero <| type := PACKET_IPV4_TCP |> <| src_port := 5 |> in
  let q := packet_zero <| type := PACKET_IPV4_TCP |> <| dst_port := 5 |> in
  let o := packet_zero <| type := PACKET_IPV4_TCP |> <| src_port := 6 |> in
  let steps := [(1, p, 57); (1, o, 33)] ++ replicate 8 (7, q, 52) ++ [(8, o, 34); (9, p, 60)] in
  let t' := foldl track_step [] steps in
  ∃ e, find_ttl_entry p t' ≫= (t' !!.) = Some e ∧ min_ttl e = 52 ∧ max_ttl e = 60 ∧ ttl_delta e = 253 ∧
       ttl_is_ready p t' = true ∧ length t' = 2%nat.
Proof.
  intros p q o steps. assert (Forall (step_ok p) steps) as Hs.
  { assert (other_connection p o) as Ho by (split; left; discriminate).
    assert (same_connection p q) as Hq by by right.
    assert (same_connection p p) as Hp by by left.
    apply Forall_app. split; [|apply Forall_app; split; [apply Forall_replicate|]];
      repeat (apply Forall_cons; split); try apply Forall_nil_2; (split; [by left|]);
      first [by right | left; split; [assumption|reflexivity]]. }
  destruct (ttl_learning_establishes [] p steps eq_refl Hs) as (H & Hr & _).
  - vm_compute. lia.
  - vm_compute. reflexivity.
  - change (snd <$> own_steps p steps) with (57 :: replicate 8 52 ++ [60]) in H, Hr.
    destruct H as (e & _ & [] & Hf). exists e. split_and!; [exact Hf|assumption..|exact Hr|reflexivity].
Defined.

(** ** The table as a whole *)

Record entry_wf (e : ttl_track_entry_t) : Prop := {
  ew_protocol : t_protocol e = IPPROTO_TCP;
  ew_original : is_byte (original_ttl e);
  ew_min : is_byte (min_ttl e);
  ew_max : is_byte (max_ttl e);
  ew_delta : is_byte (ttl_delta e);
  ew_min_max : min_ttl e ≤ max_ttl e;
  ew_count : 0 ≤ packet_count e < 2 ^ 32;
  ew_learning : is_established e = false → 1 ≤ packet_count e < 10
}.

Definition table_wf (t : ttl_table) : Prop := (length t ≤ MAX_TTL_ENTRIES)%nat ∧ Forall entry_wf t.

Lemma u8_byte x : is_byte (u8 x).
Proof. unfold is_byte, u8, wrap. apply Z.mod_pos_bound. lia. Qed.

Lemma update_entry_wf now x e : is_byte x → entry_wf e → entry_wf (update_entry now x e).
Proof.
  intros Hx [H1 H2 H3 H4 H5 H6 H7 H8]. unfold update_entry. cbn.
  assert (0 ≤ u32 (packet_count e + 1) < 2 ^ 32) as Hu by (unfold u32, wrap; apply Z.mod_pos_bound; lia).
  destruct (is_established e) eqn:He; [by split; cbn; try done; rewrite He|].
  assert (u32 (packet_count e + 1) = packet_count e + 1) as E
    by (unfold_u; apply Z.mod_small; specialize (H8 eq_refl); lia).
  specialize (H8 eq_refl). unfold is_byte, TTL_LEARNING_PACKETS in *.
  repeat match goal with
  | |- context [if (?a <? ?b) || (?c =? 0) then _ else _] =>
      destruct (Z.ltb_spec a b), (Z.eqb_spec c 0); cbn
  | |- context [if ?c =? 0 then _ else _] => destruct (Z.eqb_spec c 0); cbn
  | |- context [if 10 <=? ?c then _ else _] => destruct (Z.leb_spec 10 c); cbn
  end; (split; cbn; try done; try apply u8_byte; try lia; rewrite ?He; intros; lia).
Qed.

Lemma new_entry_wf now p x : is_byte x → entry_wf (new_entry now p x).
Proof. unfold is_byte. intros Hx. split; cbn; unfold is_byte; try done; lia. Qed.

(** The loop finds an entry still learning that nothing learning is older than,
    or there is none seen before [now]. *)
Lemma oldest_loop_spec t i acc ot :
  (oldest_loop i acc ot t = acc ∧ ∀ e, e ∈ t → is_established e = false → ot ≤ last_seen e) ∨
  ∃ j e, oldest_loop i acc ot t = Some (i + j)%nat ∧ t !! j = Some e ∧ is_established e = false ∧
         last_seen e < ot ∧ ∀ e', e' ∈ t → is_established e' = false → last_seen e ≤ last_seen e'.
Proof.
  revert i acc ot. induction t as [|e t IH]; intros i acc ot; cbn [oldest_loop].
  - left. split; [done|]. intros e He. by apply not_elem_of_nil in He.
  - destruct (is_established e) eqn:He; cbn [negb andb].
    + destruct (IH (S i) acc ot) as [[-> Ha]|(j & x & -> & Hj & Hx & Hl & Ha)].
      * left. split; [done|]. intros y [->|Hy]%elem_of_cons; [congruence|auto].
      * right. exists (S j), x. split_and!; [f_equal; lia|done..|].
        intros y [->|Hy]%elem_of_cons; [congruence|auto].
    + destruct (Z.ltb_spec (last_seen e) ot) as [Hlt|Hge].
      * right. destruct (IH (S i) (Some i) (last_seen e)) as [[-> Ha]|(j & x & -> & Hj & Hx & Hl & Ha)].
        -- exists 0%nat, e. split_and!; [f_equal; lia|done..|].
           intros y [->|Hy]%elem_of_cons; [lia|auto].
        -- exists (S j), x. split_and!; [f_equal; lia|done..|lia|].
           intros y [->|Hy]%elem_of_cons; [lia|auto].
      * destruct (IH (S i) acc ot) as [[-> Ha]|(j & x & -> & Hj & Hx & Hl & Ha)].
        -- left. split; [done|]. intros y [->|Hy]%elem_of_cons; [done|auto].
        -- right. exists (S j), x. split_and!; [f_equal; lia|done..|].
           intros y [->|Hy]%elem_of_cons; [lia|auto].
Qed.

Lemma oldest_loop_learning now t i :
  oldest_loop 0 None now t = Some i →
  ∃ e, t !! i = Some e ∧ is_established e = false ∧
       ∀ e', e' ∈ t → is_established e' = false → last_seen e ≤ last_seen e'.
Proof.
  destruct (oldest_loop_spec t 0 None now) as [[-> _]|(j & e & -> & Hj & He & _ & Ha)]; [done|].
  intros [= <-]. by exists e.
Qed.

Lemma update_entry_established now x e : is_established e = true → is_established (update_entry now x e) = true.
Proof. intros He. unfold update_entry. cbn. by rewrite He. Qed.

Lemma update_established now packet x t i e :
  t !! i = Some e → is_established e = true →
  ∃ e', (ttl_track_update now packet x t).2 !! i = Some e' ∧ is_established e' = true ∧
        ∀ q, entry_matches q e' = entry_matches q e.
Proof.
  intros Hi He. unfold ttl_track_update. destruct packet as [p|]; [|by exists e].
  destruct (_ && _); [by exists e|].
  destruct (find_ttl_entry p t) as [k|]; cbn [snd].
  - destruct (decide (k = i)) as [->|Hne].
    + exists (update_entry now x e). rewrite list_lookup_alter_eq, Hi. split; [done|].
      split; [by apply update_entry_established|]. intros q. apply entry_matches_update.
    + exists e. by rewrite list_lookup_alter_ne.
  - destruct (_ <? _)%nat; cbn [snd]; [exists e; by rewrite (lookup_app_l_Some _ _ _ _ Hi)|].
    destruct (oldest_loop 0 None now t) as [k|] eqn:Ek; cbn [snd]; [|by exists e].
    apply oldest_loop_learning in Ek as (ek & Hk & Hle & _).
    assert (k ≠ i) by (intros ->; congruence). exists e. by rewrite list_lookup_insert_ne.
Qed.

Lemma update_wf now packet x t : is_byte x → table_wf t → table_wf (ttl_track_update now packet x t).2.
Proof.
  intros Hx [Hl Hf]. unfold ttl_track_update. destruct packet as [p|]; [|done].
  destruct (_ && _); [done|]. destruct (find_ttl_entry p t) as [k|]; cbn [snd].
  - split; [by rewrite length_alter|]. apply Forall_alter; [done|]. intros e _. by apply update_entry_wf.
  - destruct (Nat.ltb_spec (length t) MAX_TTL_ENTRIES); cbn [snd].
    + split; [rewrite length_app; cbn; lia|]. apply Forall_app. split; [done|].
      constructor; [|constructor]. by apply new_entry_wf.
    + destruct (oldest_loop 0 None now t) as [k|]; cbn [snd]; [|done].
      split; [by rewrite length_insert|]. apply Forall_insert; [done|]. by apply new_entry_wf.
Qed.

(** C21: every sequence of updates keeps the table within its 1024 entries, every
    entry consistent (TCP, TTLs in a byte with minimum at most maximum, learning
    exactly while it has counted one to nine segments), and every established
    connection in its place and established, however full the table gets. *)
Theorem ttl_table_invariant t updates :
  table_wf t → Forall (λ u : Z * option packet_t * Z, is_byte u.2) updates →
  let t' := foldl (λ t u, (ttl_track_update u.1.1 u.1.2 u.2 t).2) t updates in
  table_wf t' ∧
  ∀ i e, t !! i = Some e → is_established e = true →
    ∃ e', t' !! i = Some e' ∧ is_established e' = true ∧ ∀ q, entry_matches q e' = entry_matches q e.
Proof.
  intros Hw Hu. revert t Hw. induction Hu as [|[[now pk] x] updates Hx _ IH]; intros t Hw; cbn [foldl].
  - split; [done|]. intros i e Hi He. by exists e.
  - cbn [fst snd] in *. destruct (IH (ttl_track_update now pk x t).2) as [Hw' He']; [by apply update_wf|].
    split; [done|]. intros i e Hi He.
    destruct (update_established now pk x t i e Hi He) as (e1 & Hi1 & He1 & Hm1).
    destruct (He' i e1 Hi1 He1) as (e2 & Hi2 & He2 & Hm2). exists e2. split_and!; [done..|].
    intros q. by rewrite Hm2, Hm1.
Qed.

Lemma ttl_table_invariant_witness :
  let p := packet_zero <| type := PACKET_IPV4_TCP |> in
  table_wf (ttl_track_update 3 (Some p) 57 []).2.
Proof.
  intros p. destruct (ttl_table_invariant [] [(3, Some p, 57)]) as [H _].
  - split; [cbn; lia|constructor].
  - repeat constructor; done.
  - exact H.
Defined.
