(* ===== verification/Hash.v ===== *)
(** * src/utils/hash.c

    djb2 hashes in [unsigned long] (64 bits), cut to [unsigned int]; a C string
    is the list of bytes from the pointer on (see CString). *)

From S2P Require Import Prelude CString Types.

(** [hash = ((hash << 5) + hash) + c] in [unsigned long]. *)
Definition hash_step (hash c : Z) : Z := u64 (u64 (u64 (Z.shiftl hash 5) + hash) + c).

(** [while ((c = *str++))]: plain [char] is signed. *)
Fixpoint hash_string_loop (hash : Z) (l : list Z) : outcome Z :=
  match l with
  | [] => UB OobRead
  | b :: l => let c := sint 8 b in
              if c =? 0 then Ok hash else hash_string_loop (hash_step hash c) l
  end.

Definition hash_string (str : option (list Z)) : outcome Z :=
  match str with
  | None => Ok 0
  | Some l => h ← hash_string_loop 5381 l; mret (u32 h)
  end.

(** [data[0 .. len - 1]] *)
Definition hash_bytes (data : option (list Z)) (len : Z) : outcome Z :=
  match data with
  | None => Ok 0
  | Some l =>
      if len =? 0 then Ok 0 else
      if lenZ l <? len then UB OobRead else
      mret (u32 (foldl hash_step 5381 (take (Z.to_nat len) l)))
  end.

Definition byte_of (x i : Z) : Z := Z.land (Z.shiftr x i) 255.

Definition hash_word (hash x : Z) : Z :=
  let hash := hash_step hash (byte_of x 0) in
  let hash := hash_step hash (byte_of x 8) in
  let hash := hash_step hash (byte_of x 16) in
  hash_step hash (byte_of x 24).

Definition hash_port (hash x : Z) : Z := hash_step (hash_step hash (byte_of x 0)) (byte_of x 8).

Definition hash_connection (src_ip dst_ip src_port dst_port protocol : Z) : Z :=
  let hash := 5381 in
  let hash := hash_word hash src_ip in
  let hash := hash_word hash dst_ip in
  let hash := hash_port hash src_port in
  let hash := hash_port hash dst_port in
  u32 (hash_step hash protocol).

Definition hash_connection_ipv6 (src_ip dst_ip : ip_addr) (src_port dst_port protocol : Z) : Z :=
  let hash := 5381 in
  let hash := foldl (λ hash w, hash_word (hash_word hash w.1) w.2) hash
                (zip (ip_words src_ip) (ip_words dst_ip)) in
  let hash := hash_port hash src_port in
  let hash := hash_port hash dst_port in
  u32 (hash_step hash protocol).

(** [while (sum >> 16) sum = (sum & 0xFFFF) + (sum >> 16);] on a 32-bit [sum];
    three rounds always suffice. *)
Fixpoint fold16 (fuel : nat) (sum : Z) : Z :=
  match fuel with
  | O => sum
  | S fuel => if Z.shiftr sum 16 =? 0 then sum
              else fold16 fuel (u32 (Z.land sum 65535 + Z.shiftr sum 16))
  end.

(** [(uint16_t)~sum] *)
Definition not16 (sum : Z) : Z := u16 (Z.lnot sum).

Definition hash_checksum (data : option (list Z)) (len : Z) : outcome Z :=
  match data with
  | None => Ok 0
  | Some l =>
      if len =? 0 then Ok 0 else
      if lenZ l <? len then UB OobRead else
      let sum := foldl (λ s b, u32 (s + b)) 0 (take (Z.to_nat len) l) in
      mret (not16 (fold16 3 sum))
  end.

Definition hash_packet (packet : option packet_t) : Z :=
  match packet with
  | None => 0
  | Some p =>
      let proto := if is_outbound p then IPPROTO_TCP else IPPROTO_UDP in
      let hash := 5381 in
      let hash := if is_ipv6 p
        then hash_step hash (hash_connection_ipv6 (src_ip p) (dst_ip p) (src_port p) (dst_port p) proto)
        else hash_step hash (hash_connection (w0 (src_ip p)) (w0 (dst_ip p)) (src_port p) (dst_port p) proto) in
      let hash := hash_step hash (packet_type_val (type p)) in
      let hash := hash_step hash (packet_direction_val (direction p)) in
      u32 (hash_step hash (ttl p))
  end.

(** ** Lemmas *)

Lemma hash_step_eq h c : hash_step h c = (33 * h + c) mod 2 ^ 64.
Proof.
  unfold hash_step, u64, wrap. rewrite Z.shiftl_mul_pow2 by lia. change (2 ^ 5) with 32.
  rewrite Z.add_mod_idemp_l by lia. rewrite <- Z.add_assoc, Z.add_mod_idemp_l by lia.
  f_equal. lia.
Qed.

Lemma byte_of_div x i : 0 ≤ i → byte_of x i = (x / 2 ^ i) mod 256.
Proof.
  intros Hi. unfold byte_of. rewrite Z.shiftr_div_pow2 by done.
  change 255 with (Z.ones 8). by rewrite Z.land_ones by lia.
Qed.

(** The little-endian bytes of a word and of a port. *)
Definition word_bytes (x : Z) : list Z := [byte_of x 0; byte_of x 8; byte_of x 16; byte_of x 24].
Definition port_bytes (x : Z) : list Z := [byte_of x 0; byte_of x 8].

(** The hash depends on the residue modulo 2^64 only: a closed form. *)
Definition poly (h : Z) (l : list Z) : Z := foldl (λ h c, 33 * h + c) h l.

Lemma hash_poly h l : foldl hash_step h l mod 2 ^ 64 = poly h l mod 2 ^ 64.
Proof.
  revert h. induction l as [|c l IH]; intros h; [done|]. cbn [foldl poly].
  rewrite IH, hash_step_eq. clear IH. unfold poly. cbn [foldl].
  generalize (33 * h + c) as x. intros x.
  assert (∀ a b, a mod 2 ^ 64 = b mod 2 ^ 64 →
    foldl (λ h c, 33 * h + c) a l mod 2 ^ 64 = foldl (λ h c, 33 * h + c) b l mod 2 ^ 64) as Hc.
  { clear. induction l as [|c l IH]; intros a b H; [done|]. cbn [foldl]. apply IH.
    rewrite <- (Z.add_mod_idemp_l (33 * a)), <- (Z.add_mod_idemp_l (33 * b)) by lia.
    by rewrite <- (Z.mul_mod_idemp_r 33 a), <- (Z.mul_mod_idemp_r 33 b), H by lia. }
  apply Hc. by rewrite Z.mod_mod.
Qed.

Section by_bytes.
#[local] Opaque hash_step byte_of u32.

Lemma hash_connection_bytes s d sp dp pr :
  hash_connection s d sp dp pr =
    u32 (foldl hash_step 5381 (word_bytes s ++ word_bytes d ++ port_bytes sp ++ port_bytes dp ++ [pr])).
Proof. reflexivity. Qed.

Lemma hash_connection_ipv6_bytes s d sp dp pr :
  hash_connection_ipv6 s d sp dp pr =
    u32 (foldl hash_step 5381
      (concat ((λ w, word_bytes w.1 ++ word_bytes w.2) <$> zip (ip_words s) (ip_words d)) ++
       port_bytes sp ++ port_bytes dp ++ [pr])).
Proof. reflexivity. Qed.

Lemma hash_bytes_all l n :
  lenZ l = n → 0 < n → hash_bytes (Some l) n = Ok (u32 (foldl hash_step 5381 l)).
Proof.
  intros Hl Hn. unfold hash_bytes.
  rewrite (proj2 (Z.eqb_neq n 0)), (proj2 (Z.ltb_ge (lenZ l) n)) by lia.
  by rewrite take_ge by (unfold lenZ in Hl; lia).
Qed.
End by_bytes.

(** [hash_connection] is [hash_bytes] of the 13 bytes of the connection (the
    two addresses, the two ports and the protocol, little-endian), and
    [hash_connection_ipv6] of the 37 bytes with the words of the addresses
    interleaved: both are the polynomial with base 33 from 5381, modulo 2^32. *)
Theorem hash_connection_is_hash_bytes s d sp dp pr (s6 d6 : ip_addr) :
  let l := word_bytes s ++ word_bytes d ++ port_bytes sp ++ port_bytes dp ++ [pr] in
  let l6 := concat ((λ w, word_bytes w.1 ++ word_bytes w.2) <$> zip (ip_words s6) (ip_words d6)) ++
            port_bytes sp ++ port_bytes dp ++ [pr] in
  hash_bytes (Some l) 13 = Ok (hash_connection s d sp dp pr) ∧
  hash_bytes (Some l6) 37 = Ok (hash_connection_ipv6 s6 d6 sp dp pr) ∧
  hash_connection s d sp dp pr = poly 5381 l mod 2 ^ 32.
Proof.
  intros l l6. rewrite hash_connection_bytes, hash_connection_ipv6_bytes. fold l l6.
  split_and!; [by apply hash_bytes_all..|].
  pose proof (hash_poly 5381 l) as H. apply (f_equal (λ x, x mod 2 ^ 32)) in H.
  unfold u32, wrap. revert H. generalize (foldl hash_step 5381 l) (poly 5381 l).
  intros a b. change (2 ^ 64) with (2 ^ 32 * 2 ^ 32).
  assert (∀ x, (x mod (2 ^ 32 * 2 ^ 32)) mod 2 ^ 32 = x mod 2 ^ 32) as Hm.
  { intros x. rewrite Z.rem_mul_r by lia. rewrite Z.add_comm, Z.mul_comm, Z.add_comm.
    rewrite Z.mod_add by lia. by rewrite Z.mod_mod by lia. }
  by rewrite !Hm.
Qed.

(** ** Folding to 16 bits *)

Lemma fold16_step s :
  0 ≤ s < 2 ^ 32 → u32 (Z.land s 65535 + s / 65536) = s mod 65536 + s / 65536.
Proof.
  intros Hs. change 65535 with (Z.ones 16). rewrite Z.land_ones by lia.
  change (2 ^ 16) with 65536. unfold_u. apply Z.mod_small. zmod.
Qed.

(** The folded sum is the representative of the sum modulo 65535 that is zero
    only for zero. *)
Definition ones_sum (s : Z) : Z := if s =? 0 then 0 else (s - 1) mod 65535 + 1.

Lemma fold16_ok s : 0 ≤ s < 2 ^ 32 → fold16 3 s = ones_sum s.
Proof.
  intros Hs. unfold ones_sum. cbn [fold16].
  assert (∀ x, Z.shiftr x 16 = x / 65536) as Hsh by (intros; by rewrite Z.shiftr_div_pow2 by lia).
  rewrite Hsh. rewrite (fold16_step s) by lia.
  destruct (Z.eqb_spec (s / 65536) 0) as [E|E].
  { destruct (Z.eqb_spec s 0); [lia|]. rewrite Z.mod_small; [lia|]. zmod. }
  set (s1 := s mod 65536 + s / 65536).
  assert (0 ≤ s1 ≤ 131070 ∧ s = 65535 * (s / 65536) + s1 ∧ 0 < s1) as (H1 & H2 & H3)
    by (unfold s1; clear -Hs E; zmod).
  assert (0 ≤ s / 65536) by (apply Z.div_pos; lia). rewrite (proj2 (Z.eqb_neq s 0)) by lia.
  rewrite Hsh, (fold16_step s1) by lia.
  destruct (Z.eqb_spec (s1 / 65536) 0) as [E1|E1].
  { rewrite <- (Z.mod_unique (s - 1) 65535 (s / 65536) (s1 - 1)); [lia|zmod|lia]. }
  set (s2 := s1 mod 65536 + s1 / 65536).
  assert (0 < s2 ≤ 65535 ∧ s1 = 65535 + s2) as [H4 H5] by (unfold s2; clear -H1 E1; zmod).
  rewrite Hsh, (proj2 (Z.eqb_eq (s2 / 65536) 0)) by (apply Z.div_small; lia).
  rewrite <- (Z.mod_unique (s - 1) 65535 (s / 65536 + 1) (s2 - 1)); lia.
Qed.

Lemma ones_sum_range s : 0 ≤ s → 0 ≤ ones_sum s ≤ 65535.
Proof.
  intros Hs. unfold ones_sum. destruct (s =? 0); [lia|].
  pose proof (Z.mod_pos_bound (s - 1) 65535). lia.
Qed.

Lemma not16_eq s : 0 ≤ s ≤ 65535 → not16 s = 65535 - s.
Proof.
  intros Hs. unfold not16, Z.lnot, u16, wrap. symmetry. apply Z.mod_unique with (-1); lia.
Qed.
