(* ===== verification/NetUtils.v ===== *)
(** * src/utils/net_utils.c

    Addresses, checksums and ports.  [inet_pton] and [inet_ntop] are modelled for
    IPv4; for IPv6 they are parameters.  The list [getifaddrs] returns is an
    argument. *)

From S2P Require Import Prelude CString Types Hash.

(** ** [inet_pton] and [inet_ntop] for IPv4 *)

(** The scan of glibc: [done] are the finished octets, [cur] the current one,
    [saw] whether it has a digit, [octets] how many have begun. *)
Fixpoint pton4 (l : list Z) (saw : bool) (octets : Z) (done : list Z) (cur : Z) : option (list Z) :=
  match l with
  | [] => if octets <? 4 then None else Some (done ++ [cur])
  | ch :: l =>
      if isdigit ch then
        let new := cur * 10 + (ch - 48) in
        if saw && (cur =? 0) then None else
        if 255 <? new then None else
        if saw then pton4 l true octets done new
        else if 4 <? octets + 1 then None else pton4 l true (octets + 1) done new
      else if (ch =? 46) && saw then
        if octets =? 4 then None else pton4 l false octets (done ++ [cur]) 0
      else None
  end.

Definition inet_pton4 (s : list Z) : option (list Z) := pton4 s false 0 [] 0.

(** ["%u"] of a byte. *)
Definition dec (n : Z) : list Z :=
  if n <? 10 then [48 + n]
  else if n <? 100 then [48 + n / 10; 48 + n mod 10]
  else [48 + n / 100; 48 + n / 10 mod 10; 48 + n mod 10].

Definition inet_ntop4 (a b c d : Z) : list Z :=
  dec a ++ 46 :: dec b ++ 46 :: dec c ++ 46 :: dec d.

(** ** Conversions *)

(** The result and the value of [*ip_addr], [None] if that pointer is null;
    strings as in CString. *)
Definition parse_ipv4_address (ip_str : option (list Z)) (ip_addr : option Z) : outcome (Z * option Z) :=
  match ip_str, ip_addr with
  | Some l, Some _ =>
      s ← cstr l;
      match inet_pton4 s with
      | Some [a; b; c; d] => Ok (0, Some (ntohl (le32 a b c d)))
      | _ => Ok (-1, ip_addr)
      end
  | _, _ => Ok (-1, ip_addr)
  end.

Definition INET_ADDRSTRLEN : Z := 16.

(** The bytes of the network-order word in memory. *)
Definition word_octet (x i : Z) : Z := (x / 2 ^ (8 * i)) mod 256.

(** The result and the contents of [ip_str] ([str_len] bytes long). *)
Definition ipv4_address_to_string (ip_addr : Z) (ip_str : option (list Z)) (str_len : Z)
    : Z * option (list Z) :=
  match ip_str with
  | None => (-1, None)
  | Some buf =>
      if str_len <? INET_ADDRSTRLEN then (-1, ip_str) else
      let s_addr := htonl ip_addr in
      let text := inet_ntop4 (word_octet s_addr 0) (word_octet s_addr 1)
                    (word_octet s_addr 2) (word_octet s_addr 3) ++ [0] in
      (0, Some (splice 0 text buf))
  end.

Section ipv6.
(** [inet_pton] and [inet_ntop] for [AF_INET6]. *)
Variable pton6 : list Z → option ip_addr.
Variable ntop6 : ip_addr → list Z.

Definition parse_ipv6_address (ip_str : option (list Z)) (out : option ip_addr)
    : outcome (Z * option ip_addr) :=
  match ip_str, out with
  | Some l, Some _ =>
      s ← cstr l;
      match pton6 s with Some a => Ok (0, Some a) | None => Ok (-1, out) end
  | _, _ => Ok (-1, out)
  end.

Definition ipv6_address_to_string (a : ip_addr) (ip_str : option (list Z)) (str_len : Z)
    : Z * option (list Z) :=
  match ip_str with
  | None => (-1, None)
  | Some buf =>
      if str_len <? INET6_ADDRSTRLEN then (-1, ip_str) else
      (0, Some (splice 0 (ntop6 a ++ [0]) buf))
  end.
End ipv6.

(** ** Address ranges *)

Definition is_private_ipv4 (ip_addr : Z) : bool :=
  if Z.land ip_addr 4278190080 =? 167772160 then true          (* 0xFF000000, 0x0A000000 *)
  else if Z.land ip_addr 4293918720 =? 2886729728 then true    (* 0xFFF00000, 0xAC100000 *)
  else if Z.land ip_addr 4294901760 =? 3232235520 then true    (* 0xFFFF0000, 0xC0A80000 *)
  else if Z.land ip_addr 4278190080 =? 2130706432 then true    (* 0xFF000000, 0x7F000000 *)
  else if Z.land ip_addr 4294901760 =? 2851995648 then true    (* 0xFFFF0000, 0xA9FE0000 *)
  else false.

Definition is_private_ipv6 (a : ip_addr) : bool :=
  if (w0 a =? 0) && (w1 a =? 0) && (w2 a =? 0) && (w3 a =? htonl 1) then true
  else if Z.land (w0 a) (htonl 4290772992) =? htonl 4269801472 then true   (* 0xFFC00000, 0xFE800000 *)
  else if Z.land (w0 a) (htonl 4261412864) =? htonl 4227858432 then true   (* 0xFE000000, 0xFC000000 *)
  else false.

(** ** Interfaces *)

(** One element of the list of [getifaddrs]: its name ([None] for a null pointer)
    and, if it has an address, the family ([true] for IPv6, [None] for another
    one) and its text. *)
Record ifaddr : Type := mkIfaddr {
  ifa_name : option (list Z);
  ifa_addr : option (option bool * list Z)
}.

(** [inet_ntop] fits the text into [ip_str_len] bytes or fails. *)
Fixpoint ip_loop (l : list ifaddr) (interface : list Z) (ip_str_len : Z) (ipv6 : bool)
    : outcome (option (list Z)) :=
  match l with
  | [] => Ok None
  | ifa :: l =>
      match ifa_addr ifa with
      | None => ip_loop l interface ip_str_len ipv6
      | Some (family, text) =>
          v ← match ifa_name ifa with None => UB NullDeref | Some name => strcmp name interface end;
          if negb (v =? 0) then ip_loop l interface ip_str_len ipv6
          else if bool_decide (family = Some ipv6) && (lenZ text <? ip_str_len) then Ok (Some text)
          else ip_loop l interface ip_str_len ipv6
      end
  end.

(** [ifs] is [None] if [getifaddrs] fails; the result and the contents of
    [ip_str], which has room for [ip_str_len] bytes. *)
Definition get_interface_ip (ifs : option (list ifaddr)) (interface ip_str : option (list Z))
    (ip_str_len : Z) (ipv6 : bool) : outcome (Z * option (list Z)) :=
  match interface, ip_str, ifs with
  | Some interface, Some buf, Some l =>
      r ← ip_loop l interface ip_str_len ipv6;
      mret (match r with
            | Some text => (0, Some (splice 0 (text ++ [0]) buf))
            | None => (-1, ip_str)
            end)
  | _, _, _ => Ok (-1, ip_str)
  end.

Fixpoint exists_loop (l : list ifaddr) (interface : list Z) : outcome bool :=
  match l with
  | [] => Ok false
  | ifa :: l =>
      match ifa_name ifa with
      | None => exists_loop l interface
      | Some name => v ← strcmp name interface;
                     if v =? 0 then Ok true else exists_loop l interface
      end
  end.

Definition interface_exists (ifs : option (list ifaddr)) (interface : option (list Z)) : outcome bool :=
  match interface, ifs with
  | Some interface, Some l => exists_loop l interface
  | _, _ => Ok false
  end.

(** ** Checksum *)

(** The loop over 16-bit words, in host order; an odd last byte is added. *)
Fixpoint checksum_loop (l : list Z) (sum : Z) : Z :=
  match l with
  | a :: b :: l => checksum_loop l (u32 (sum + le16 a b))
  | [a] => u32 (sum + a)
  | [] => sum
  end.

Definition calculate_ip_checksum (header : list Z) (header_len : Z) : outcome Z :=
  if lenZ header <? header_len then UB OobRead
  else Ok (not16 (fold16 3 (checksum_loop (take (Z.to_nat header_len) header) 0))).

(** ** Ports *)

Definition is_valid_port (port : Z) : bool := (0 <? port) && (port <=? 65535).
Definition is_privileged_port (port : Z) : bool := (0 <? port) && (port <? 1024).

(** ** The round trip of IPv4 addresses *)

Lemma isdigit_dec n : 0 ≤ n ≤ 9 → isdigit (48 + n) = true.
Proof. intros. unfold isdigit. by rewrite !(proj2 (Z.leb_le _ _)) by lia. Qed.

(** Scanning a first digit, and a further one. *)
Lemma pton4_first n l k dn :
  0 ≤ n ≤ 9 → k < 4 → pton4 (48 + n :: l) false k dn 0 = pton4 l true (k + 1) dn n.
Proof.
  intros Hn Hk. cbn [pton4]. rewrite isdigit_dec by done. cbn [andb].
  rewrite (proj2 (Z.ltb_ge 255 _)), (proj2 (Z.ltb_ge 4 _)) by lia. f_equal. lia.
Qed.

Lemma pton4_next n l k dn c :
  0 ≤ n ≤ 9 → 0 < c → c * 10 + n ≤ 255 → pton4 (48 + n :: l) true k dn c = pton4 l true k dn (c * 10 + n).
Proof.
  intros Hn Hc Hl. cbn [pton4]. rewrite isdigit_dec by done.
  rewrite (proj2 (Z.eqb_neq c 0)), (proj2 (Z.ltb_ge 255 _)) by lia. cbn [andb]. f_equal. lia.
Qed.

Lemma pton4_dec n l k dn :
  is_byte n → k < 4 → pton4 (dec n ++ l) false k dn 0 = pton4 l true (k + 1) dn n.
Proof.
  unfold is_byte. intros Hn Hk. unfold dec.
  destruct (Z.ltb_spec n 10); [|destruct (Z.ltb_spec n 100)]; cbn [app].
  - by apply pton4_first; [lia|].
  - rewrite pton4_first, pton4_next by (done || zmod). f_equal. zmod.
  - rewrite pton4_first, !pton4_next by (done || zmod). f_equal. zmod.
Qed.

Lemma pton4_dot l k dn c : k ≠ 4 → pton4 (46 :: l) true k dn c = pton4 l false k (dn ++ [c]) 0.
Proof. intros Hk. cbn [pton4]. change (isdigit 46) with false. cbn. by rewrite (proj2 (Z.eqb_neq k 4)). Qed.

Lemma inet_pton4_ntop4 a b c d :
  is_byte a → is_byte b → is_byte c → is_byte d → inet_pton4 (inet_ntop4 a b c d) = Some [a; b; c; d].
Proof.
  intros. unfold inet_pton4, inet_ntop4.
  do 3 (rewrite pton4_dec by (done || lia); rewrite pton4_dot by lia).
  rewrite <- (app_nil_r (dec d)), pton4_dec by (done || lia). done.
Qed.

Lemma dec_no_nul n : is_byte n → no_nul (dec n) ∧ (length (dec n) ≤ 3)%nat.
Proof.
  unfold is_byte. intros Hn. unfold dec, no_nul.
  destruct (n <? 10) eqn:?; [|destruct (n <? 100) eqn:?]; bprop; (split; [|cbn; lia]);
    rewrite !not_elem_of_cons; split_and!; try apply not_elem_of_nil; zmod.
Qed.

Lemma no_nul_ntop4 a b c d :
  is_byte a → is_byte b → is_byte c → is_byte d →
  no_nul (inet_ntop4 a b c d) ∧ (length (inet_ntop4 a b c d) ≤ 15)%nat.
Proof.
  intros Ha Hb Hc Hd. apply dec_no_nul in Ha as [? ?], Hb as [? ?], Hc as [? ?], Hd as [? ?].
  unfold inet_ntop4. split.
  - repeat (apply no_nul_app; split; [done|]; try (apply no_nul_cons; split; [lia|])). done.
  - repeat (rewrite length_app; cbn [length]). lia.
Qed.

Lemma word_octet_byte x i : is_byte (word_octet x i).
Proof. unfold is_byte, word_octet. apply Z.mod_pos_bound. lia. Qed.

Lemma ntohl_htonl x : 0 ≤ x < 2 ^ 32 →
  let s := htonl x in ntohl (le32 (word_octet s 0) (word_octet s 1) (word_octet s 2) (word_octet s 3)) = x.
Proof.
  intros Hx. unfold htonl, word_octet. 
  assert (∀ y, 0 ≤ y < 2 ^ 32 → le32 ((y / 2 ^ (8 * 0)) mod 256) ((y / 2 ^ (8 * 1)) mod 256)
            ((y / 2 ^ (8 * 2)) mod 256) ((y / 2 ^ (8 * 3)) mod 256) = y) as Hle.
  { intros y Hy. unfold le32. change (2 ^ (8 * 0)) with 1. change (2 ^ (8 * 1)) with 256.
    change (2 ^ (8 * 2)) with 65536. change (2 ^ (8 * 3)) with 16777216. zmod. }
  assert (∀ b0 b1 b2 b3, is_byte b0 → is_byte b1 → is_byte b2 → is_byte b3 →
            ntohl (le32 b0 b1 b2 b3) = le32 b3 b2 b1 b0 ∧ 0 ≤ le32 b0 b1 b2 b3 < 2 ^ 32) as Hn.
  { unfold is_byte. intros b0 b1 b2 b3 ? ? ? ?. unfold ntohl, le32. split; [|lia].
    zmod. }
  set (o i := (x / 2 ^ (8 * i)) mod 256).
  assert (ntohl x = le32 (o 3) (o 2) (o 1) (o 0)) as Hx'.
  { rewrite <- (Hle x Hx) at 1. apply Hn; apply word_octet_byte. }
  assert (0 ≤ ntohl x < 2 ^ 32) as Hr by (rewrite Hx'; apply Hn; apply word_octet_byte).
  rewrite Hle by done. rewrite Hx'.
  etransitivity; [apply Hn; apply word_octet_byte|]. by apply Hle.
Qed.

(** For every IPv4 address and buffer of at least 16 bytes,
    [ipv4_address_to_string] stays inside the buffer and writes a terminated
    string that [parse_ipv4_address] reads back as the same address. *)
Theorem ipv4_text_round_trip x buf str_len y :
  0 ≤ x < 2 ^ 32 → INET_ADDRSTRLEN ≤ str_len ≤ lenZ buf →
  ∃ buf', ipv4_address_to_string x (Some buf) str_len = (0, Some buf') ∧ length buf' = length buf ∧
    parse_ipv4_address (Some buf') (Some y) = Ok (0, Some x).
Proof.
  unfold INET_ADDRSTRLEN. intros Hx Hl. unfold ipv4_address_to_string, INET_ADDRSTRLEN.
  rewrite (proj2 (Z.ltb_ge str_len 16)) by lia. eexists. split; [done|].
  set (s := htonl x). pose proof (ntohl_htonl x Hx) as Hr. cbv zeta in Hr. fold s in Hr.
  destruct (no_nul_ntop4 _ _ _ _ (word_octet_byte s 0) (word_octet_byte s 1) (word_octet_byte s 2)
              (word_octet_byte s 3)) as [Hn H15].
  set (t := inet_ntop4 _ _ _ _) in *. split.
  - apply length_splice; [lia|]. rewrite lenZ_app. unfold lenZ in *. cbn. lia.
  - unfold parse_ipv4_address. rewrite splice_0, <- app_assoc. cbn [app]. rewrite cstr_ok by done.
    cbn [mbind outcome_bind]. unfold t. rewrite inet_pton4_ntop4 by apply word_octet_byte.
    by rewrite Hr.
Qed.

Lemma ipv4_text_round_trip_witness :
  ∃ buf', ipv4_address_to_string 3232235777 (Some (replicate 16 7)) 16 = (0, Some buf') ∧
          parse_ipv4_address (Some buf') (Some 0) = Ok (0, Some 3232235777) ∧ cstr buf' = Ok (chars "192.168.1.1").
Proof.
  destruct (ipv4_text_round_trip 3232235777 (replicate 16 7) 16 0) as (buf' & E & _ & H).
  - lia.
  - vm_compute. split; congruence.
  - exists buf'. split_and!; [exact E|exact H|]. vm_compute in E. by injection E as <-.
Defined.

(** ** The Internet checksum *)

(** The sum of the 16-bit words without wrap-around. *)
Fixpoint words (l : list Z) : Z :=
  match l with a :: b :: l => le16 a b + words l | [a] => a | [] => 0 end.

(** Induction two elements at a time. *)
Lemma pairs_ind {A} (P : list A → Prop) :
  P [] → (∀ a, P [a]) → (∀ a b l, P l → P (a :: b :: l)) → ∀ l, P l.
Proof.
  intros H0 H1 H2. fix IH 1. intros [|a [|b l]]; [exact H0|apply H1|]. apply H2, IH.
Qed.

Lemma words_bound l : Forall is_byte l → 0 ≤ words l ≤ 65535 * lenZ l.
Proof.
  induction l as [|a|a b l IH] using pairs_ind.
  - intros _. unfold lenZ. cbn. lia.
  - intros [Ha _]%Forall_cons. unfold is_byte in Ha. unfold lenZ. cbn. lia.
  - intros [Ha [Hb Hl]%Forall_cons]%Forall_cons. specialize (IH Hl). cbn [words].
    rewrite !lenZ_cons. unfold is_byte, le16 in *. lia.
Qed.

Lemma checksum_loop_words l s :
  Forall is_byte l → 0 ≤ s → s + words l < 2 ^ 32 → checksum_loop l s = s + words l.
Proof.
  revert s. induction l as [|a|a b l IH] using pairs_ind; intros s Hb Hs Hl; cbn [checksum_loop words] in *.
  - lia.
  - apply Forall_cons in Hb as [Ha _]. unfold is_byte in Ha. unfold_u. apply Z.mod_small. lia.
  - apply Forall_cons in Hb as [Ha [Hb Hl']%Forall_cons]. pose proof (words_bound l Hl').
    unfold is_byte in *. assert (0 ≤ le16 a b) by (unfold le16; lia).
    assert (u32 (s + le16 a b) = s + le16 a b) as -> by (unfold_u; apply Z.mod_small; lia).
    rewrite IH by (done || lia). lia.
Qed.

Lemma words_app l1 l2 : Nat.even (length l1) = true → words (l1 ++ l2) = words l1 + words l2.
Proof.
  induction l1 as [|a|a b l IH] using pairs_ind; intros He; [done|done|].
  cbn [app words]. rewrite IH by done. lia.
Qed.

Lemma calculate_ip_checksum_ok l :
  Forall is_byte l → lenZ l ≤ 65535 → calculate_ip_checksum l (lenZ l) = Ok (65535 - ones_sum (words l)).
Proof.
  intros Hb Hl. unfold calculate_ip_checksum. rewrite Z.ltb_irrefl, to_nat_lenZ, take_ge by done.
  pose proof (words_bound l Hb). rewrite checksum_loop_words, fold16_ok by (done || lia).
  rewrite not16_eq by (apply ones_sum_range; lia). done.
Qed.

Lemma ones_sum_complement s : 0 ≤ s → ones_sum (s + (65535 - ones_sum s)) = 65535.
Proof.
  intros Hs. unfold ones_sum at 2. destruct (Z.eqb_spec s 0) as [->|Hne]; [done|].
  pose proof (Z.div_mod (s - 1) 65535). set (q := (s - 1) / 65535) in *. set (r := (s - 1) mod 65535) in *.
  assert (0 ≤ q) by (apply Z.div_pos; lia).
  replace (s + (65535 - (r + 1))) with (65535 * q + 65535) by lia. unfold ones_sum.
  rewrite (proj2 (Z.eqb_neq _ 0)) by lia.
  rewrite <- (Z.mod_unique (65535 * q + 65535 - 1) 65535 q 65534); lia.
Qed.

(** Storing the checksum computed over a header whose checksum field is zero
    (at an even offset, low byte first) into that field makes the checksum of
    the whole header zero, which is how a receiver verifies it; for headers of
    any length up to 65535 the sum does not overflow and the folding loop ends. *)
Theorem ip_checksum_verifies h1 h2 :
  let header := h1 ++ 0 :: 0 :: h2 in
  Nat.even (length h1) = true → Forall is_byte header → lenZ header ≤ 65535 →
  ∃ c, calculate_ip_checksum header (lenZ header) = Ok c ∧ 0 ≤ c ≤ 65535 ∧
    let header' := h1 ++ c mod 256 :: c / 256 :: h2 in
    calculate_ip_checksum header' (lenZ header') = Ok 0.
Proof.
  intros header He Hb Hl. rewrite calculate_ip_checksum_ok by done.
  pose proof (words_bound _ Hb) as [Hw _]. pose proof (ones_sum_range _ Hw) as Hr.
  set (c := 65535 - ones_sum (words header)) in *. exists c. split; [done|]. split; [lia|].
  intros header'. assert (Forall is_byte header') as Hb'.
  { unfold header, header' in *. apply Forall_app in Hb as [Hb1 [_ [_ Hb2]%Forall_cons]%Forall_cons].
    apply Forall_app. split; [done|]. repeat constructor; [..|done]; unfold is_byte; zmod. }
  assert (lenZ header' = lenZ header) as Hl' by (unfold header, header'; by rewrite !lenZ_app, !lenZ_cons).
  rewrite calculate_ip_checksum_ok by (done || lia).
  assert (words header' = words header + c) as ->.
  { unfold header, header'. rewrite !words_app by done. cbn [words].
    unfold le16. change (0 + 256 * 0) with 0. pose proof (Z.div_mod c 256). lia. }
  unfold c. by rewrite ones_sum_complement.
Qed.

Lemma ip_checksum_verifies_witness :
  let header := [69; 0; 0; 45; 0; 1; 64; 0; 64; 6] ++ 0 :: 0 :: [10; 0; 0; 1; 93; 184; 216; 34] in
  ∃ c, calculate_ip_checksum header 20 = Ok c ∧
    calculate_ip_checksum ([69; 0; 0; 45; 0; 1; 64; 0; 64; 6] ++ c mod 256 :: c / 256 ::
      [10; 0; 0; 1; 93; 184; 216; 34]) 20 = Ok 0.
Proof.
  intros header.
  destruct (ip_checksum_verifies [69; 0; 0; 45; 0; 1; 64; 0; 64; 6] [10; 0; 0; 1; 93; 184; 216; 34])
    as (c & E & _ & H).
  - reflexivity.
  - vm_decide.
  - vm_compute. congruence.
  - exists c. split; [exact E|exact H].
Defined.

(** ** Private ranges *)

Lemma land_high x k :
  0 ≤ x < 2 ^ 32 → 0 ≤ k ≤ 32 → Z.land x (2 ^ 32 - 2 ^ k) = 2 ^ k * (x / 2 ^ k).
Proof.
  intros Hx Hk.
  assert (2 ^ 32 - 2 ^ k = Z.shiftl (Z.ones (32 - k)) k) as ->.
  { rewrite Z.shiftl_mul_pow2, Z.ones_equiv by lia.
    replace (2 ^ 32) with (2 ^ (32 - k) * 2 ^ k) by (rewrite <- Z.pow_add_r by lia; f_equal; lia). lia. }
  rewrite Z.mul_comm, <- Z.shiftr_div_pow2, <- Z.shiftl_mul_pow2 by lia.
  apply Z.bits_inj'. intros n Hn. rewrite Z.land_spec, !Z.shiftl_spec by lia.
  destruct (Z.ltb_spec n k).
  - rewrite !(Z.testbit_neg_r _ (n - k)) by lia. apply andb_false_r.
  - rewrite Z.testbit_ones_nonneg, Z.shiftr_spec by lia. replace (n - k + k) with n by lia.
    destruct (Z.ltb_spec (n - k) (32 - k)); [apply andb_true_r|].
    rewrite andb_false_r. symmetry. rewrite Z.testbit_false by lia.
    rewrite Z.div_small; [done|]. split; [lia|]. apply Z.lt_le_trans with (2 ^ 32); [lia|].
    apply Z.pow_le_mono_r; lia.
Qed.

(** [x] is in the block of addresses that share their first [32 - k] bits with
    [base]. *)
Definition in_block (base k x : Z) : Prop := base ≤ x < base + 2 ^ k.

Definition ipv4 (a b c d : Z) : Z := ((a * 256 + b) * 256 + c) * 256 + d.

(** [is_private_ipv4] holds exactly for the addresses (in host order) of
    10.0.0.0/8, 172.16.0.0/12, 192.168.0.0/16, 127.0.0.0/8 and 169.254.0.0/16. *)
Theorem is_private_ipv4_ranges x :
  0 ≤ x < 2 ^ 32 →
  is_private_ipv4 x = true ↔
    in_block (ipv4 10 0 0 0) 24 x ∨ in_block (ipv4 172 16 0 0) 20 x ∨
    in_block (ipv4 192 168 0 0) 16 x ∨ in_block (ipv4 127 0 0 0) 24 x ∨
    in_block (ipv4 169 254 0 0) 16 x.
Proof.
  intros Hx. unfold is_private_ipv4, in_block.
  change 4278190080 with (2 ^ 32 - 2 ^ 24). change 4293918720 with (2 ^ 32 - 2 ^ 20).
  change 4294901760 with (2 ^ 32 - 2 ^ 16). rewrite !land_high by lia.
  change (ipv4 10 0 0 0) with (2 ^ 24 * 10). change (ipv4 172 16 0 0) with (2 ^ 20 * 2753).
  change (ipv4 192 168 0 0) with (2 ^ 16 * 49320). change (ipv4 127 0 0 0) with (2 ^ 24 * 127).
  change (ipv4 169 254 0 0) with (2 ^ 16 * 43518).
  repeat match goal with |- context [if ?a =? ?b then _ else _] => destruct (Z.eqb_spec a b) end;
    (split; [intros ?; try done; zmod|intros; try done; exfalso; zmod]).
Qed.

Lemma is_private_ipv4_ranges_witness : is_private_ipv4 (ipv4 172 31 255 1) = true.
Proof.
  apply (is_private_ipv4_ranges (ipv4 172 31 255 1)).
  - vm_compute. split; congruence.
  - right. left. vm_compute. split; congruence.
Defined.
