(* ===== verification/UtHash.v ===== *)
(** * The hash table of src/utils/uthash.h, as src/tracking/dns_tracker.c uses it

    uthash is a set of macros over intrusive links: each element carries a
    [UT_hash_handle] with the links of two doubly linked lists, the application
    order and the chain of its bucket.  The model keeps that representation: a
    store of elements, of tables and of bucket arrays, in which pointers are
    object numbers; a pointer to the handle of an element and one to the element
    are the same number ([HH_FROM_ELMT] and [ELMT_FROM_HH] only add an offset).
    The macros that assign to their [head] argument return the new head.

    The files after this one, UtHashRep and UtHashTable, give the representation of
    a table, prove what the macros do to it and state the contract [HashTable].
    The macros are modelled as the program compiles them, without the options
    [HASH_BLOOM] (UtHashBloom), [HASH_DEBUG] (UtHashFsck) and
    [HASH_NONFATAL_OOM]. *)

From S2P Require Import Prelude CString.

(** ** Data *)

Record UT_hash_handle : Type := mkHandle {
  tbl : option nat;
  prev : option nat;
  next : option nat;
  hh_prev : option nat;
  hh_next : option nat;
  key : option nat;      (* the element whose key field is pointed to *)
  keylen : Z;
  hashv : Z
}.

#[export] Instance eta_handle : Eta UT_hash_handle := λ h,
  mkHandle (tbl h) (prev h) (next h) (hh_prev h) (hh_next h) (key h) (keylen h) (hashv h).

Record UT_hash_bucket : Type := mkBucket {
  hh_head : option nat;
  count : Z;
  expand_mult : Z
}.

#[export] Instance eta_bucket : Eta UT_hash_bucket := λ b,
  mkBucket (hh_head b) (count b) (expand_mult b).

Record UT_hash_table : Type := mkTable {
  buckets : nat;
  num_buckets : Z;
  log2_num_buckets : Z;
  num_items : Z;
  tail : option nat;
  ideal_chain_maxlen : Z;
  nonideal_items : Z;
  ineff_expands : Z;
  noexpand : Z
}.

#[export] Instance eta_table : Eta UT_hash_table := λ t,
  mkTable (buckets t) (num_buckets t) (log2_num_buckets t) (num_items t) (tail t)
    (ideal_chain_maxlen t) (nonideal_items t) (ineff_expands t) (noexpand t).

(** An element: the application's fields [val] and its handle [hh]. *)
Record element (V : Type) : Type := mkElement { val : V; hh : UT_hash_handle }.
Arguments mkElement {V} _ _.
Arguments val {V} _.
Arguments hh {V} _.

Record store (V : Type) : Type := mkStore {
  els : gmap nat (element V);
  tbls : gmap nat UT_hash_table;
  arrs : gmap nat (list UT_hash_bucket);
  snxt : nat
}.
Arguments mkStore {V} _ _ _ _.
Arguments els {V} _.
Arguments tbls {V} _.
Arguments arrs {V} _.
Arguments snxt {V} _.

#[export] Instance eta_store V : Eta (store V) := λ s,
  mkStore (els s) (tbls s) (arrs s) (snxt s).

Definition store_empty {V} : store V := mkStore ∅ ∅ ∅ 0.

(** What the table is told of its surroundings: the bytes of the key field of an
    element, and whether the [n]-th allocation, of [sz] bytes, fails. *)
Class HashEnv (V : Type) := {
  key_field : V → list Z;
  mem_fail : nat → Z → bool
}.

Definition HASH_INITIAL_NUM_BUCKETS : Z := 32.
Definition HASH_INITIAL_NUM_BUCKETS_LOG2 : Z := 5.
Definition HASH_BKT_CAPACITY_THRESH : Z := 10.
Definition sizeof_UT_hash_table : Z := 64.
Definition sizeof_UT_hash_bucket : Z := 16.

(** ** Runs

    [uthash_fatal] is [exit(-1)]: a run may end the process.  [NoFuel] is a loop
    cut short; the theorems exclude it. *)

Inductive run (V A : Type) : Type :=
  | Done (a : A) (s : store V)
  | Exited (n : nat) (sz : Z)
  | Undef (u : ub)
  | NoFuel.
Arguments Done {V A} _ _.
Arguments Exited {V A} _ _.
Arguments Undef {V A} _.
Arguments NoFuel {V A}.

Definition HM (V A : Type) : Type := store V → run V A.

#[export] Instance HM_ret V : MRet (HM V) := λ A a s, Done a s.
#[export] Instance HM_bind V : MBind (HM V) := λ A B k m s,
  match m s with
  | Done a s' => k a s'
  | Exited n sz => Exited n sz
  | Undef u => Undef u
  | NoFuel => NoFuel
  end.

(** ** The hash function *)

Definition HASH_JEN_MIX (v : Z * Z * Z) : Z * Z * Z :=
  let '(a, b, c) := v in
  let a := Z.lxor (u32 (u32 (a - b) - c)) (Z.shiftr c 13) in
  let b := Z.lxor (u32 (u32 (b - c) - a)) (u32 (Z.shiftl a 8)) in
  let c := Z.lxor (u32 (u32 (c - a) - b)) (Z.shiftr b 13) in
  let a := Z.lxor (u32 (u32 (a - b) - c)) (Z.shiftr c 12) in
  let b := Z.lxor (u32 (u32 (b - c) - a)) (u32 (Z.shiftl a 16)) in
  let c := Z.lxor (u32 (u32 (c - a) - b)) (Z.shiftr b 5) in
  let a := Z.lxor (u32 (u32 (a - b) - c)) (Z.shiftr c 3) in
  let b := Z.lxor (u32 (u32 (b - c) - a)) (u32 (Z.shiftl a 10)) in
  let c := Z.lxor (u32 (u32 (c - a) - b)) (Z.shiftr b 15) in
  (a, b, c).

(** Byte [i] of the key, shifted: [(unsigned)_hj_key[i] << sh]. *)
Definition jen_byte (k : list Z) (i sh : Z) : Z := u32 (Z.shiftl (byte_at k i) sh).

Definition jen_word (k : list Z) (i : Z) : Z :=
  u32 (jen_byte k i 0 + jen_byte k (i + 1) 8 + jen_byte k (i + 2) 16 + jen_byte k (i + 3) 24).

(** The loop over blocks of twelve bytes; [fuel] rounds at most. *)
Fixpoint jen_loop (fuel : nat) (k : list Z) (len : Z) (v : Z * Z * Z) : list Z * Z * (Z * Z * Z) :=
  match fuel with
  | O => (k, len, v)
  | S fuel =>
      if 12 <=? len then
        let '(i, j, h) := v in
        jen_loop fuel (drop 12 k) (len - 12)
          (HASH_JEN_MIX (u32 (i + jen_word k 0), u32 (j + jen_word k 4), u32 (h + jen_word k 8)))
      else (k, len, v)
  end.

(** The [switch] on the bytes left: byte [n] counts when [n] is below [len]. *)
Definition jen_rest (k : list Z) (len : Z) (v : Z * Z * Z) : Z * Z * Z :=
  let '(i, j, h) := v in
  let at_ n sh := if n <? len then jen_byte k n sh else 0 in
  (u32 (u32 (u32 (u32 (i + at_ 3 24) + at_ 2 16) + at_ 1 8) + at_ 0 0),
   u32 (u32 (u32 (u32 (j + at_ 7 24) + at_ 6 16) + at_ 5 8) + at_ 4 0),
   u32 (u32 (u32 (h + at_ 10 24) + at_ 9 16) + at_ 8 8)).

(** [klen] is the [unsigned] that [uthash_strlen] gives. *)
Definition HASH_JEN (k : list Z) (klen : Z) : Z :=
  let '(k', len, (i, j, h)) :=
    jen_loop (Z.to_nat klen) k klen (0x9e3779b9, 0x9e3779b9, 0xfeedbeef) in
  let '(_, _, h) := HASH_JEN_MIX (jen_rest k' len (i, j, u32 (h + klen))) in h.

Definition HASH_TO_BKT (hv num_bkts : Z) : Z := Z.land hv (u32 (num_bkts - 1)).

(** ** The macros *)

Section macros.
Context {V : Type} `{!HashEnv V}.
Implicit Types (x : nat) (p head : option nat).

(** Pointer accesses. *)
Definition undef {A} (u : ub) : HM V A := λ _, Undef u.

Definition deref p : HM V nat :=
  match p with None => undef NullDeref | Some x => mret x end.

Definition ld {A} (f : UT_hash_handle → A) x : HM V A := λ s,
  match els s !! x with None => Undef Dangling | Some e => Done (f (hh e)) s end.

Definition set_hh (u : UT_hash_handle → UT_hash_handle) (e : element V) : element V :=
  mkElement (val e) (u (hh e)).

Definition st (u : UT_hash_handle → UT_hash_handle) x : HM V unit := λ s,
  match els s !! x with
  | None => Undef Dangling
  | Some _ => Done tt (s <| els := alter (set_hh u) x (els s) |>)
  end.

Definition ld_val x : HM V V := λ s,
  match els s !! x with None => Undef Dangling | Some e => Done (val e) s end.

Definition st_val (v : V) x : HM V unit := λ s,
  match els s !! x with
  | None => Undef Dangling
  | Some _ => Done tt (s <| els := alter (λ e, mkElement v (hh e)) x (els s) |>)
  end.

Definition ldT (t : nat) : HM V UT_hash_table := λ s,
  match tbls s !! t with None => Undef Dangling | Some T => Done T s end.

Definition stT (t : nat) (T : UT_hash_table) : HM V unit := λ s,
  match tbls s !! t with
  | None => Undef Dangling
  | Some _ => Done tt (s <| tbls := <[t := T]> (tbls s) |>)
  end.

(** Element [i] of a bucket array; [i] is unsigned. *)
Definition ldB (a : nat) (i : Z) : HM V UT_hash_bucket := λ s,
  match arrs s !! a with
  | None => Undef Dangling
  | Some bs => match bs !! Z.to_nat i with None => Undef OobRead | Some b => Done b s end
  end.

Definition stB (a : nat) (i : Z) (b : UT_hash_bucket) : HM V unit := λ s,
  match arrs s !! a with
  | None => Undef Dangling
  | Some bs =>
      if Z.to_nat i <? length bs then
        Done tt (s <| arrs := <[a := <[Z.to_nat i := b]> bs]> (arrs s) |>)
      else Undef OobWrite
  end%nat.

(** [malloc]: the number of the new object, or null. *)
Definition alloc_id (sz : Z) : HM V (option nat) := λ s,
  Done (if mem_fail (snxt s) sz then None else Some (snxt s)) (s <| snxt := S (snxt s) |>).

(** [uthash_malloc] followed by the test that ends in [uthash_fatal]. *)
Definition uthash_malloc (sz : Z) : HM V nat := λ s,
  if mem_fail (snxt s) sz then Exited (snxt s) sz
  else Done (snxt s) (s <| snxt := S (snxt s) |>).

Definition new_table (t : nat) (T : UT_hash_table) : HM V unit := λ s,
  Done tt (s <| tbls := <[t := T]> (tbls s) |>).
Definition new_array (a : nat) (bs : list UT_hash_bucket) : HM V unit := λ s,
  Done tt (s <| arrs := <[a := bs]> (arrs s) |>).
Definition new_element x (e : element V) : HM V unit := λ s,
  Done tt (s <| els := <[x := e]> (els s) |>).

(** The application's [malloc] of an element and the contents it gives it. *)
Definition malloc_element (sz : Z) (e : element V) : HM V (option nat) :=
  x ← alloc_id sz;
  match x with
  | None => mret None
  | Some x => new_element x e;; mret (Some x)
  end.

Definition free_table (t : nat) : HM V unit := λ s,
  match tbls s !! t with
  | None => Undef BadFree
  | Some _ => Done tt (s <| tbls := delete t (tbls s) |>)
  end.
Definition free_array (a : nat) : HM V unit := λ s,
  match arrs s !! a with
  | None => Undef BadFree
  | Some _ => Done tt (s <| arrs := delete a (arrs s) |>)
  end.
Definition free_element x : HM V unit := λ s,
  match els s !! x with
  | None => Undef BadFree
  | Some _ => Done tt (s <| els := delete x (els s) |>)
  end.

(** [(head)->hh.tbl] *)
Definition tbl_of p : HM V nat := x ← deref p; t ← ld tbl x; deref t.

Definition bucket_zero : UT_hash_bucket := mkBucket None 0 0.

(** The new table with its array of zeroed buckets. *)
Definition HASH_MAKE_TABLE x : HM V unit :=
  t ← uthash_malloc sizeof_UT_hash_table;
  st (λ h, h <| tbl := Some t |>) x;;
  a ← uthash_malloc (HASH_INITIAL_NUM_BUCKETS * sizeof_UT_hash_bucket);
  new_table t (mkTable a HASH_INITIAL_NUM_BUCKETS HASH_INITIAL_NUM_BUCKETS_LOG2 0
                 (Some x) 0 0 0 0);;
  new_array a (replicate (Z.to_nat HASH_INITIAL_NUM_BUCKETS) bucket_zero).

Definition HASH_APPEND_LIST head x : HM V unit :=
  st (λ h, h <| next := None |>) x;;
  t ← tbl_of head; T ← ldT t;
  st (λ h, h <| prev := tail T |>) x;;
  l ← deref (tail T);
  st (λ h, h <| next := Some x |>) l;;
  stT t (T <| tail := Some x |>).

(** Makes [x] the head of bucket [b]: the link statements that
    [HASH_ADD_TO_BKT] and [HASH_EXPAND_BUCKETS] share. *)
Definition link_front (b : UT_hash_bucket) x : HM V UT_hash_bucket :=
  st (λ h, h <| hh_next := hh_head b |>) x;;
  st (λ h, h <| hh_prev := None |>) x;;
  match hh_head b with
  | Some y => st (λ h, h <| hh_prev := Some x |>) y
  | None => mret tt
  end;;
  mret (b <| hh_head := Some x |>).

(** The inner [while] of the expansion: moves the chain from [p] on into the new
    array [a'] of [nb] buckets; returns the new [nonideal_items]. *)
Fixpoint expand_chain (fuel : nat) (a' : nat) (nb ideal nonideal : Z) p : HM V Z :=
  match p with
  | None => mret nonideal
  | Some x =>
      match fuel with
      | O => λ _, NoFuel
      | S fuel =>
          nxt ← ld hh_next x;
          hv ← ld hashv x;
          let bkt := HASH_TO_BKT hv nb in
          b ← ldB a' bkt;
          let b := b <| count := u32 (count b + 1) |> in
          let over := ideal <? count b in
          let b := if over && (u32 (expand_mult b * ideal) <? count b)
                   then b <| expand_mult := u32 (expand_mult b + 1) |> else b in
          b ← link_front b x;
          stB a' bkt b;;
          expand_chain fuel a' nb ideal (if over then u32 (nonideal + 1) else nonideal) nxt
      end
  end.

(** The outer [for]: buckets [i] to [i + n - 1] of the old array [a]. *)
Fixpoint expand_loop (n : nat) (a a' : nat) (nb ideal i nonideal : Z) : HM V Z :=
  match n with
  | O => mret nonideal
  | S n =>
      b ← ldB a i;
      nonideal ← (λ s, expand_chain (S (size (els s))) a' nb ideal nonideal (hh_head b) s);
      expand_loop n a a' nb ideal (i + 1) nonideal
  end.

Definition HASH_EXPAND_BUCKETS (t : nat) : HM V unit :=
  T ← ldT t;
  let nb := u32 (num_buckets T * 2) in
  a' ← uthash_malloc (sizeof_UT_hash_bucket * num_buckets T * 2);
  new_array a' (replicate (Z.to_nat nb) bucket_zero);;
  let ideal := u32 (Z.shiftr (num_items T) (log2_num_buckets T + 1) +
                    (if Z.land (num_items T) (u32 (nb - 1)) =? 0 then 0 else 1)) in
  nonideal ← expand_loop (Z.to_nat (num_buckets T)) (buckets T) a' nb ideal 0 0;
  free_array (buckets T);;
  let ineff := if Z.shiftr (num_items T) 1 <? nonideal then u32 (ineff_expands T + 1) else 0 in
  stT t (mkTable a' nb (log2_num_buckets T + 1) (num_items T) (tail T) ideal nonideal ineff
           (if 1 <? ineff then 1 else noexpand T)).

Definition HASH_ADD_TO_BKT (a : nat) (i : Z) x : HM V unit :=
  b ← ldB a i;
  b ← link_front (b <| count := u32 (count b + 1) |>) x;
  stB a i b;;
  t ← tbl_of (Some x); T ← ldT t;
  if (u32 (u32 (expand_mult b + 1) * HASH_BKT_CAPACITY_THRESH) <=? count b) && (noexpand T =? 0)
  then HASH_EXPAND_BUCKETS t else mret tt.

Definition HASH_ADD_TO_TABLE head (hv : Z) x : HM V unit :=
  t ← tbl_of head; T ← ldT t;
  let T := T <| num_items := u32 (num_items T + 1) |> in
  stT t T;;
  HASH_ADD_TO_BKT (buckets T) (HASH_TO_BKT hv (num_buckets T)) x.

(** The key is the key field of the element [x] itself. *)
Definition HASH_ADD_KEYPTR_BYHASHVALUE head (klen hv : Z) x : HM V (option nat) :=
  st (λ h, h <| hashv := hv |>) x;;
  st (λ h, h <| key := Some x |>) x;;
  st (λ h, h <| keylen := klen |>) x;;
  head ← match head with
         | None =>
             st (λ h, h <| next := None |>) x;;
             st (λ h, h <| prev := None |>) x;;
             HASH_MAKE_TABLE x;;
             mret (Some x)
         | Some _ =>
             t ← tbl_of head;
             st (λ h, h <| tbl := Some t |>) x;;
             HASH_APPEND_LIST head x;;
             mret head
         end;
  HASH_ADD_TO_TABLE head hv x;;
  mret head.

(** [uthash_strlen]: an [unsigned]. *)
Definition uthash_strlen (k : list Z) : HM V Z := λ s,
  match strlen_list k with Ok n => Done (u32 n) s | UB u => Undef u end.

Definition HASH_ADD_STR head x : HM V (option nat) :=
  v ← ld_val x;
  klen ← uthash_strlen (key_field v);
  HASH_ADD_KEYPTR_BYHASHVALUE head klen (HASH_JEN (key_field v) klen) x.

(** [memcmp(a, b, n) == 0] *)
Definition memcmp_eq (a b : list Z) (n : Z) : HM V bool :=
  if (n <=? lenZ a) && (n <=? lenZ b)
  then mret (bool_decide (take (Z.to_nat n) a = take (Z.to_nat n) b))
  else undef OobRead.

(** The walk along a chain; [p] is [out]. *)
Fixpoint find_loop (fuel : nat) p (k : list Z) (klen hv : Z) : HM V (option nat) :=
  match p with
  | None => mret None
  | Some x =>
      match fuel with
      | O => λ _, NoFuel
      | S fuel =>
          hv' ← ld hashv x; klen' ← ld keylen x;
          found ← (if (hv' =? hv) && (klen' =? klen) then
                     y ← ld key x; y ← deref y; v ← ld_val y;
                     memcmp_eq (key_field v) k klen
                   else mret false);
          if found : bool then mret (Some x)
          else nxt ← ld hh_next x; find_loop fuel nxt k klen hv
      end
  end.

Definition HASH_FIND_IN_BKT (b : UT_hash_bucket) (k : list Z) (klen hv : Z) : HM V (option nat) :=
  λ s, find_loop (S (size (els s))) (hh_head b) k klen hv s.

Definition HASH_FIND_BYHASHVALUE head (k : list Z) (klen hv : Z) : HM V (option nat) :=
  match head with
  | None => mret None
  | Some _ =>
      t ← tbl_of head; T ← ldT t;
      b ← ldB (buckets T) (HASH_TO_BKT hv (num_buckets T));
      HASH_FIND_IN_BKT b k klen hv
  end.

Definition HASH_FIND_STR head (k : list Z) : HM V (option nat) :=
  klen ← uthash_strlen k;
  match head with
  | None => mret None
  | Some _ => HASH_FIND_BYHASHVALUE head k klen (HASH_JEN k klen)
  end.

Definition HASH_DEL_IN_BKT (a : nat) (i : Z) x : HM V unit :=
  b ← ldB a i;
  let b := b <| count := u32 (count b - 1) |> in
  p ← ld hh_prev x; n ← ld hh_next x;
  let b := if bool_decide (hh_head b = Some x) then b <| hh_head := n |> else b in
  stB a i b;;
  match p with Some p' => st (λ h, h <| hh_next := n |>) p' | None => mret tt end;;
  match n with Some n' => st (λ h, h <| hh_prev := p |>) n' | None => mret tt end.

(** The second branch of [HASH_DELETE_HH]: [x] has a neighbour, [p] or [n]. *)
Definition delete_linked head x (p n : option nat) : HM V (option nat) :=
  t ← tbl_of head; T ← ldT t;
  (if bool_decide (tail T = Some x) then stT t (T <| tail := p |>) else mret tt);;
  head ← match p with
         | Some p' => st (λ h, h <| next := n |>) p';; mret head
         | None => mret n
         end;
  match n with Some n' => st (λ h, h <| prev := p |>) n' | None => mret tt end;;
  hv ← ld hashv x;
  t ← tbl_of head; T ← ldT t;
  HASH_DEL_IN_BKT (buckets T) (HASH_TO_BKT hv (num_buckets T)) x;;
  T ← ldT t;
  stT t (T <| num_items := u32 (num_items T - 1) |>);;
  mret head.

Definition HASH_DELETE_HH head x : HM V (option nat) :=
  p ← ld prev x; n ← ld next x;
  match p, n with
  | None, None =>
      t ← tbl_of head; T ← ldT t;
      free_array (buckets T);; free_table t;;
      mret None
  | _, _ => delete_linked head x p n
  end.

Definition HASH_DEL head x : HM V (option nat) := HASH_DELETE_HH head x.

(** [HASH_ITER(hh, head, el, tmp) body]: [body] gets the element, the variable
    [head], which it may assign, and the other state [A] of the loop. *)
Fixpoint iter_loop {A} (fuel : nat) (body : nat → option nat → A → HM V (option nat * A))
    (el tmp head : option nat) (acc : A) : HM V (option nat * A) :=
  match el with
  | None => mret (head, acc)
  | Some x =>
      match fuel with
      | O => λ _, NoFuel
      | S fuel =>
          r ← body x head acc;
          tmp' ← match tmp with Some y => ld next y | None => mret None end;
          iter_loop fuel body tmp tmp' r.1 r.2
      end
  end.

Definition HASH_ITER {A} (head : option nat) (acc : A)
    (body : nat → option nat → A → HM V (option nat * A)) : HM V (option nat * A) := λ s,
  (tmp ← match head with Some y => ld next y | None => mret None end;
   iter_loop (S (size (els s))) body head tmp head acc) s.

Definition HASH_COUNT head : HM V Z :=
  match head with
  | None => mret 0
  | Some _ => t ← tbl_of head; T ← ldT t; mret (num_items T)
  end.
End macros.

(** ** Weakest preconditions

    [wp m Q s]: the run of [m] from [s] ends in [Q], or the process exits
    because the system refuses an allocation; it is never undefined and no loop
    is cut short. *)

Section wp.
Context {V : Type} `{!HashEnv V}.
Implicit Types (s : store V) (x : nat).

Definition wp {A} (m : HM V A) (Q : A → store V → Prop) s : Prop :=
  match m s with
  | Done a s' => Q a s'
  | Exited n sz => mem_fail n sz = true
  | Undef _ | NoFuel => False
  end.

Lemma wp_ret {A} (a : A) Q s : Q a s → wp (mret a) Q s.
Proof. done. Qed.

Lemma wp_bind {A B} (m : HM V A) (k : A → HM V B) Q s :
  wp m (λ a, wp (k a) Q) s → wp (m ≫= k) Q s.
Proof. unfold wp, mbind, HM_bind. by destruct (m s). Qed.

Lemma wp_unbind {A B} (m : HM V A) (k : A → HM V B) Q s :
  wp (m ≫= k) Q s → wp m (λ a, wp (k a) Q) s.
Proof. unfold wp, mbind, HM_bind. by destruct (m s). Qed.

Lemma wp_mono {A} (m : HM V A) (Q Q' : A → store V → Prop) s :
  (∀ a s', Q a s' → Q' a s') → wp m Q s → wp m Q' s.
Proof. unfold wp. destruct (m s); auto. Qed.

(** The handle field [f] of element [x]. *)
Definition fld {A} (f : UT_hash_handle → A) (m : gmap nat (element V)) x : option A :=
  (λ e, f (hh e)) <$> m !! x.

Lemma wp_ld {A} (f : UT_hash_handle → A) x v Q s :
  fld f (els s) x = Some v → Q v s → wp (ld f x) Q s.
Proof. unfold fld, wp, ld. destruct (els s !! x); [|done]. by intros [= ->]. Qed.

Lemma wp_st u x Q s :
  is_Some (els s !! x) → Q tt (s <| els := alter (set_hh u) x (els s) |>) → wp (st u x) Q s.
Proof. unfold wp, st. by intros [e ->]. Qed.

Lemma wp_ld_val x e Q s : els s !! x = Some e → Q (val e) s → wp (ld_val x) Q s.
Proof. unfold wp, ld_val. by intros ->. Qed.

Lemma wp_st_val v x Q s :
  is_Some (els s !! x) →
  Q tt (s <| els := alter (λ e, mkElement v (hh e)) x (els s) |>) → wp (st_val v x) Q s.
Proof. unfold wp, st_val. by intros [e ->]. Qed.

Lemma wp_ldT t T Q s : tbls s !! t = Some T → Q T s → wp (ldT t) Q s.
Proof. unfold wp, ldT. by intros ->. Qed.

Lemma wp_stT t T Q s :
  is_Some (tbls s !! t) → Q tt (s <| tbls := <[t := T]> (tbls s) |>) → wp (stT t T) Q s.
Proof. unfold wp, stT. by intros [? ->]. Qed.

Lemma wp_ldB a i b bs Q s :
  arrs s !! a = Some bs → bs !! Z.to_nat i = Some b → Q b s → wp (ldB a i) Q s.
Proof. unfold wp, ldB. by intros -> ->. Qed.

Lemma wp_stB a i b bs Q s :
  arrs s !! a = Some bs → is_Some (bs !! Z.to_nat i) →
  Q tt (s <| arrs := <[a := <[Z.to_nat i := b]> bs]> (arrs s) |>) → wp (stB a i b) Q s.
Proof.
  unfold wp, stB. intros -> Hi%lookup_lt_is_Some.
  by rewrite (proj2 (Nat.ltb_lt _ _)).
Qed.

Lemma wp_deref x Q s : Q x s → wp (deref (Some x)) Q s.
Proof. done. Qed.

Lemma wp_tbl_of x t Q s :
  fld tbl (els s) x = Some (Some t) → Q t s → wp (tbl_of (Some x)) Q s.
Proof.
  intros Hx HQ. unfold tbl_of. apply wp_bind, wp_deref, wp_bind. by eapply wp_ld.
Qed.

Lemma wp_uthash_malloc sz Q s :
  (mem_fail (snxt s) sz = false → Q (snxt s) (s <| snxt := S (snxt s) |>)) →
  wp (uthash_malloc sz) Q s.
Proof. unfold wp, uthash_malloc. destruct (mem_fail _ _) eqn:E; auto. Qed.

Lemma wp_uthash_strlen k n Q s :
  strlen_list k = Ok n → Q (u32 n) s → wp (uthash_strlen k) Q s.
Proof. unfold wp, uthash_strlen. by intros ->. Qed.

Lemma wp_free_table t Q s :
  is_Some (tbls s !! t) → Q tt (s <| tbls := delete t (tbls s) |>) → wp (free_table t) Q s.
Proof. unfold wp, free_table. by intros [? ->]. Qed.

Lemma wp_free_array a Q s :
  is_Some (arrs s !! a) → Q tt (s <| arrs := delete a (arrs s) |>) → wp (free_array a) Q s.
Proof. unfold wp, free_array. by intros [? ->]. Qed.

Lemma wp_free_element x Q s :
  is_Some (els s !! x) → Q tt (s <| els := delete x (els s) |>) → wp (free_element x) Q s.
Proof. unfold wp, free_element. by intros [? ->]. Qed.

(** *** Fields after a store *)

Lemma fld_is_Some {A} (f : UT_hash_handle → A) m x v : fld f m x = Some v → is_Some (m !! x).
Proof. unfold fld. destruct (m !! x); [eauto|done]. Qed.

Lemma fld_alter_ne {A} (f : UT_hash_handle → A) u m x y :
  x ≠ y → fld f (alter (set_hh u) x m) y = fld f m y.
Proof. intros. unfold fld. by rewrite lookup_alter_ne. Qed.

Lemma fld_alter_eq {A} (f : UT_hash_handle → A) u m x v :
  is_Some (m !! x) → (∀ h, f (u h) = v) → fld f (alter (set_hh u) x m) x = Some v.
Proof. intros [e E] Hf. unfold fld. rewrite lookup_alter_eq, E. cbn. by rewrite Hf. Qed.

Lemma fld_alter_id {A} (f : UT_hash_handle → A) u m x y :
  (∀ h, f (u h) = f h) → fld f (alter (set_hh u) x m) y = fld f m y.
Proof.
  intros Hf. unfold fld. rewrite lookup_alter. case_decide as E; [subst|done].
  destruct (m !! y); cbn; [by rewrite Hf|done].
Qed.

Lemma alter_is_Some u (m : gmap nat (element V)) x y :
  is_Some (alter (set_hh u) x m !! y) ↔ is_Some (m !! y).
Proof. apply lookup_alter_is_Some. Qed.
End wp.

(** Steps through a monadic computation. *)
Ltac wpb := apply wp_bind.
(** Reduces projections of an updated store. *)
Ltac sred := cbn [els tbls arrs snxt upd].
Ltac sred_in H := cbn [els tbls arrs snxt upd] in H.
