(* ===== verification/UtHashRep.v ===== *)
(** * The representation of a hash table, and insertion

    A table represents the list of its elements in application order ([is_table]):
    both link structures are well formed, every element is in the chain of its
    hash value, the counters count modulo 2^32, and the rest of the store is
    untouched.  The file proves that making a table, expanding it and adding to it
    keep the representation ([wp_HASH_ADD_STR]). *)

From S2P Require Import Prelude CString UtHash.

(** ** Doubly linked lists

    [dll N P q xs n]: the elements [xs] are linked by next links [N] and previous
    links [P]; before the first comes [q], after the last [n]. *)

Section dll.
Implicit Types (N P : nat → option (option nat)) (xs l r : list nat) (q n : option nat).

Definition onto xs n : option nat := match xs with [] => n | x :: _ => Some x end.
Definition lasto q xs : option nat := match last xs with None => q | Some x => Some x end.

Fixpoint dll N P q xs n : Prop :=
  match xs with
  | [] => True
  | x :: r => P x = Some q ∧ N x = Some (onto r n) ∧ dll N P (Some x) r n
  end.

Lemma onto_app l r n : onto (l ++ r) n = onto l (onto r n).
Proof. by destruct l. Qed.

Lemma onto_None xs : onto xs None = head xs.
Proof. by destruct xs. Qed.

Lemma lasto_cons q x l : lasto q (x :: l) = lasto (Some x) l.
Proof. unfold lasto. rewrite last_cons. by destruct (last l). Qed.

Lemma lasto_None xs : lasto None xs = last xs.
Proof. unfold lasto. by destruct (last xs). Qed.

Lemma dll_app N P q l r n :
  dll N P q (l ++ r) n ↔ dll N P q l (onto r n) ∧ dll N P (lasto q l) r n.
Proof.
  revert q. induction l as [|x l IH]; intros q; cbn; [tauto|].
  rewrite IH, onto_app, lasto_cons. tauto.
Qed.

Lemma dll_ext N P N' P' q xs n :
  (∀ y, y ∈ xs → N' y = N y) → (∀ y, y ∈ xs → P' y = P y) →
  dll N P q xs n → dll N' P' q xs n.
Proof.
  revert q. induction xs as [|x r IH]; intros q HN HP; cbn; [done|].
  intros (H1 & H2 & H3). rewrite HN, HP by apply list_elem_of_here.
  split_and!; [done..|]. apply IH; [set_solver..|done].
Qed.

(** What deleting an element between [l] and [r] does to the links. *)
Lemma dll_delete N P N' P' l x r :
  NoDup (l ++ x :: r) → dll N P None (l ++ x :: r) None →
  (∀ y, y ∈ l ++ r → N' y = if decide (last l = Some y) then Some (head r) else N y) →
  (∀ y, y ∈ l ++ r → P' y = if decide (head r = Some y) then Some (last l) else P y) →
  dll N' P' None (l ++ r) None.
Proof.
  intros Hnd Hd HN HP. apply dll_app in Hd as [Hl (HPx & HNx & Hr)].
  apply NoDup_app in Hnd as (Hndl & Hlr & Hndr). apply NoDup_cons in Hndr as [Hxr Hndr].
  apply dll_app. rewrite onto_None, lasto_None. split.
  - destruct l as [|y l _] using rev_ind; [done|].
    apply dll_app in Hl as [Hl0 (HPy & HNy & _)].
    apply NoDup_app in Hndl as (Hl1 & Hl2 & _).
    rewrite last_snoc in HN, HP. apply dll_app. split; [|cbn; split_and!; [..|done]].
    + revert Hl0. apply dll_ext; intros z Hz.
      * rewrite HN by set_solver. rewrite decide_False; [done|]. intros [= ->]. set_solver.
      * rewrite HP by set_solver. rewrite decide_False; [done|]. intros E.
        destruct r; [done|]. injection E as ->. set_solver.
    + rewrite HP by set_solver. rewrite decide_False; [done|]. intros E.
      destruct r; [done|]. injection E as ->. set_solver.
    + rewrite HN by set_solver. by rewrite decide_True.
  - destruct r as [|z r]; [done|]. destruct Hr as (HPz & HNz & Hr).
    assert (∀ w, w ∈ z :: r → last l ≠ Some w) as Hlast.
    { intros w Hw E. apply last_Some_elem_of in E. set_solver. }
    cbn. split_and!.
    + rewrite HP by set_solver. by rewrite decide_True.
    + rewrite HN by set_solver. rewrite decide_False by (apply Hlast; set_solver). done.
    + apply NoDup_cons in Hndr as [Hz _]. revert Hr. apply dll_ext; intros w Hw.
      * rewrite HN by set_solver. rewrite decide_False by (apply Hlast; set_solver). done.
      * rewrite HP by set_solver. rewrite decide_False; [done|]. intros [= ->]. done.
Qed.

Lemma dll_snoc N P N' P' xs x n n' :
  NoDup xs → dll N P None xs n →
  (∀ y, y ∈ xs → N' y = if decide (last xs = Some y) then Some (Some x) else N y) →
  (∀ y, y ∈ xs → P' y = P y) →
  N' x = Some n' → P' x = Some (last xs) →
  dll N' P' None (xs ++ [x]) n'.
Proof.
  intros Hnd Hd HN HP HNx HPx. apply dll_app. rewrite lasto_None. split; [|done].
  destruct xs as [|y l _] using rev_ind; [done|].
  apply dll_app in Hd as [Hl (HPy & HNy & _)].
  rewrite last_snoc in *. apply NoDup_app in Hnd as (_ & Hl2 & _).
  apply dll_app. split; [|cbn; split_and!; [..|done]].
  - revert Hl. apply dll_ext; intros z Hz; [|apply HP; set_solver].
    rewrite HN by set_solver. rewrite decide_False; [done|]. intros [= ->]. set_solver.
  - rewrite HP by set_solver. done.
  - rewrite HN by set_solver. by rewrite decide_True.
Qed.

Lemma dll_push N P N' P' xs x :
  NoDup xs → dll N P None xs None →
  (∀ y, y ∈ xs → N' y = N y) →
  (∀ y, y ∈ xs → P' y = if decide (head xs = Some y) then Some (Some x) else P y) →
  N' x = Some (head xs) → P' x = Some None →
  dll N' P' None (x :: xs) None.
Proof.
  intros Hnd Hd HN HP HNx HPx. cbn. rewrite onto_None. split_and!; [done..|].
  destruct xs as [|z r]; [done|]. destruct Hd as (HPz & HNz & Hr). cbn. split_and!.
  - rewrite HP by set_solver. by rewrite decide_True.
  - rewrite HN by set_solver. done.
  - apply NoDup_cons in Hnd as [Hz _]. revert Hr. apply dll_ext; intros w Hw.
    + apply HN. set_solver.
    + rewrite HP by set_solver. rewrite decide_False; [done|]. intros [= ->]. done.
Qed.
End dll.

(** ** Stores that differ in some links only *)

Section same_but.
Context {V : Type}.
Implicit Types (m : gmap nat (element V)) (u : UT_hash_handle → UT_hash_handle) (x y : nat).

(** [u] erases the fields that may differ. *)
Definition same_but u m m' : Prop := ∀ y, set_hh u <$> m' !! y = set_hh u <$> m !! y.

Definition clr_hh (h : UT_hash_handle) := h <| hh_prev := None |> <| hh_next := None |>.
Definition clr_app (h : UT_hash_handle) := h <| prev := None |> <| next := None |>.

#[export] Instance same_but_preorder u : PreOrder (same_but u).
Proof. split; [done|]. intros m1 m2 m3 H1 H2 y. by rewrite H2. Qed.

Lemma same_but_fld {A} (f : UT_hash_handle → A) u m m' x :
  (∀ h, f (u h) = f h) → same_but u m m' → fld f m' x = fld f m x.
Proof.
  intros Hf Hs. specialize (Hs x). unfold fld.
  destruct (m' !! x) as [e'|], (m !! x) as [e|]; try done. cbn in *.
  injection Hs as _ Hh. by rewrite <- (Hf (hh e')), Hh, Hf.
Qed.

Lemma same_but_val u m m' x : same_but u m m' → val <$> m' !! x = val <$> m !! x.
Proof.
  intros Hs. specialize (Hs x).
  destruct (m' !! x) as [e'|], (m !! x) as [e|]; try done. cbn in *. by injection Hs as -> _.
Qed.

Lemma same_but_is_Some u m m' x : same_but u m m' → is_Some (m' !! x) ↔ is_Some (m !! x).
Proof.
  intros Hs. specialize (Hs x).
  destruct (m' !! x), (m !! x); try done; split; eauto.
Qed.

Lemma same_but_alter u w m x : (∀ h, u (w h) = u h) → same_but u m (alter (set_hh w) x m).
Proof.
  intros Hw y. rewrite lookup_alter. case_decide; [subst|done].
  destruct (m !! y); cbn; [|done]. unfold set_hh. cbn. by rewrite Hw.
Qed.

Lemma same_but_size u m m' : same_but u m m' → size m' = size m.
Proof.
  intros Hs. rewrite <- (map_size_fmap (set_hh u) m), <- (map_size_fmap (set_hh u) m'). f_equal.
  apply map_eq. intros y. by rewrite !lookup_fmap.
Qed.
End same_but.

(** ** Bucket chains *)

(** A list of chains, one of which is replaced. *)
Section chains.
Implicit Types (cs : list (list nat)) (c : list nat) (x : nat) (i j : nat).

Lemma concat_insert cs i c c' :
  cs !! i = Some c → ∃ r, concat cs ≡ₚ c ++ r ∧ concat (<[i:=c']> cs) ≡ₚ c' ++ r.
Proof.
  intros Hi. exists (concat (take i cs) ++ concat (drop (S i) cs)).
  assert (i < length cs)%nat as Hl by by eapply lookup_lt_Some.
  rewrite (insert_take_drop cs i c' Hl). rewrite <- (take_drop_middle cs i c Hi) at 1.
  rewrite !concat_app. cbn. split; solve_Permutation.
Qed.

Lemma concat_lookup cs i c x : cs !! i = Some c → x ∈ c → x ∈ concat cs.
Proof.
  intros Hi Hx. destruct (concat_insert cs i c c Hi) as (r & -> & _). set_solver.
Qed.

Lemma concat_drop_lookup cs i j c x :
  (i ≤ j)%nat → cs !! j = Some c → x ∈ c → x ∈ concat (drop i cs).
Proof.
  intros Hij Hj. apply (concat_lookup _ (j - i)). rewrite lookup_drop.
  by replace (i + (j - i))%nat with j by lia.
Qed.

Lemma concat_disjoint cs i j c d x :
  NoDup (concat cs) → cs !! i = Some c → cs !! j = Some d → x ∈ c → x ∈ d → i = j.
Proof.
  revert i j. induction cs as [|e cs IH]; intros i j Hnd Hi Hj Hc Hd; [done|]. cbn in Hnd.
  apply NoDup_app in Hnd as (_ & Hdis & Hnd). destruct i as [|i], j as [|j]; cbn in *.
  - done.
  - simplify_eq. exfalso. eapply Hdis; [done|]. by eapply concat_lookup.
  - simplify_eq. exfalso. eapply Hdis; [done|]. by eapply concat_lookup.
  - f_equal. by eapply IH.
Qed.

Lemma concat_NoDup cs i c : NoDup (concat cs) → cs !! i = Some c → NoDup c.
Proof.
  intros Hnd Hi. destruct (concat_insert cs i c c Hi) as (r & Hp & _).
  rewrite Hp in Hnd. by apply NoDup_app in Hnd as (? & _).
Qed.
End chains.

Lemma HASH_TO_BKT_pow hv L :
  0 ≤ L ≤ 31 → 0 ≤ HASH_TO_BKT hv (2 ^ L) < 2 ^ L.
Proof.
  intros HL. unfold HASH_TO_BKT.
  assert (2 ^ L ≤ 2 ^ 31) by (apply Z.pow_le_mono_r; lia).
  assert (0 < 2 ^ L) by (apply Z.pow_pos_nonneg; lia).
  replace (u32 (2 ^ L - 1)) with (Z.ones L).
  - rewrite Z.land_ones by lia. apply Z.mod_pos_bound. lia.
  - rewrite Z.ones_equiv. unfold u32, wrap. rewrite Z.mod_small; lia.
Qed.

Section buckets.
Context {V : Type} `{!HashEnv V}.
Implicit Types (m : gmap nat (element V)) (bs : list UT_hash_bucket) (cs : list (list nat))
  (b : UT_hash_bucket) (c ys : list nat) (x y : nat) (s : store V).

Definition bucket_ok m b c : Prop :=
  hh_head b = head c ∧ count b = u32 (lenZ c) ∧ dll (fld hh_next m) (fld hh_prev m) None c None.

Definition hashes_to m nb (i : nat) x : Prop :=
  ∃ hv, fld hashv m x = Some hv ∧ Z.to_nat (HASH_TO_BKT hv nb) = i.

(** The array [bs] of [nb] buckets holds the elements [ys] in the chains [cs]. *)
Record bkt_part m (nb : Z) bs cs ys : Prop := mkBktPart {
  bp_len : lenZ bs = nb;
  bp_len' : length cs = length bs;
  bp_ok : ∀ i b c, bs !! i = Some b → cs !! i = Some c → bucket_ok m b c;
  bp_hash : ∀ i c x, cs !! i = Some c → x ∈ c → hashes_to m nb i x;
  bp_perm : concat cs ≡ₚ ys;
  bp_nodup : NoDup ys
}.

Lemma bp_in m nb bs cs ys i c x : bkt_part m nb bs cs ys → cs !! i = Some c → x ∈ c → x ∈ ys.
Proof. intros Hb Hi Hx. rewrite <- (bp_perm _ _ _ _ _ Hb). by eapply concat_lookup. Qed.

(** An element is in the chain its hash value selects. *)
Lemma bp_in_chain m nb bs cs ys i c x :
  bkt_part m nb bs cs ys → cs !! i = Some c → x ∈ ys → hashes_to m nb i x → x ∈ c.
Proof.
  intros Hb Hi Hx (hv & Hhv & <-). rewrite <- (bp_perm _ _ _ _ _ Hb) in Hx.
  apply list_elem_of_In, in_concat in Hx as (d & Hd%list_elem_of_In & Hx%list_elem_of_In).
  apply list_elem_of_lookup in Hd as [j Hj]. destruct (bp_hash _ _ _ _ _ Hb j d x Hj Hx) as (hv' & E & <-).
  rewrite Hhv in E. injection E as <-. rewrite Hj in Hi. by injection Hi as ->.
Qed.

Lemma bp_concat_nodup m nb bs cs ys : bkt_part m nb bs cs ys → NoDup (concat cs).
Proof. intros Hb. rewrite (bp_perm _ _ _ _ _ Hb). by apply bp_nodup in Hb. Qed.

Lemma bp_chain m nb bs cs ys i b :
  bkt_part m nb bs cs ys → bs !! i = Some b → ∃ c, cs !! i = Some c ∧ bucket_ok m b c ∧ NoDup c.
Proof.
  intros Hb Hi. destruct (lookup_lt_is_Some_2 cs i) as [c Hc].
  { rewrite (bp_len' _ _ _ _ _ Hb). by eapply lookup_lt_Some. }
  exists c. split_and!; [done|by eapply bp_ok|].
  eapply concat_NoDup; [|done]. by eapply bp_concat_nodup.
Qed.

Lemma bp_bucket m L bs cs ys hv :
  bkt_part m (2 ^ L) bs cs ys → 0 ≤ L ≤ 31 → is_Some (bs !! Z.to_nat (HASH_TO_BKT hv (2 ^ L))).
Proof.
  intros Hb HL. apply lookup_lt_is_Some. pose proof (HASH_TO_BKT_pow hv L HL).
  pose proof (bp_len _ _ _ _ _ Hb). unfold lenZ in *. lia.
Qed.

Lemma bp_ys m nb bs cs ys ys' : bkt_part m nb bs cs ys → ys ≡ₚ ys' → bkt_part m nb bs cs ys'.
Proof. intros [] Hp. split; [done..|by rewrite <- Hp|by rewrite <- Hp]. Qed.

Lemma bucket_ok_ext m m' b c :
  (∀ y, y ∈ c → m' !! y = m !! y) → bucket_ok m b c → bucket_ok m' b c.
Proof.
  intros He (H1 & H2 & H3). split_and!; [done..|].
  revert H3. apply dll_ext; intros y Hy; unfold fld; by rewrite He.
Qed.

Lemma hashes_to_same u m m' nb i x :
  (∀ h, hashv (u h) = hashv h) → same_but u m m' → hashes_to m nb i x → hashes_to m' nb i x.
Proof. intros Hu Hs (hv & E & Hi). exists hv. by rewrite (same_but_fld _ u m m'). Qed.

(** The stores after which the buckets are as before: those that leave the
    bucket links and hash values of their elements alone. *)
Lemma bp_ext m m' nb bs cs ys :
  (∀ y, y ∈ ys → fld hh_next m' y = fld hh_next m y ∧ fld hh_prev m' y = fld hh_prev m y ∧
                 fld hashv m' y = fld hashv m y) →
  bkt_part m nb bs cs ys → bkt_part m' nb bs cs ys.
Proof.
  intros He Hb. pose proof (λ i c x, bp_in m nb bs cs ys i c x Hb) as Hin. destruct Hb. split; [done..| | |done|done].
  - intros i b c Hbi Hc. destruct (bp_ok0 i b c Hbi Hc) as (H1 & H2 & H3).
    split_and!; [done..|]. revert H3. apply dll_ext; intros y Hy; apply He; by eapply Hin.
  - intros i c x Hc Hx. destruct (bp_hash0 i c x Hc Hx) as (hv & E & Hi). exists hv.
    split; [|done]. rewrite <- E. apply He. by eapply Hin.
Qed.

(** Replacing the chain of one bucket. *)
Lemma bp_insert m m' nb bs cs ys ys' i b c c' :
  bkt_part m nb bs cs ys → cs !! i = Some c →
  same_but clr_hh m m' → (∀ y, y ∉ c → y ∈ ys → m' !! y = m !! y) →
  bucket_ok m' b c' → (∀ x, x ∈ c' → hashes_to m nb i x) →
  (∀ r, ys ≡ₚ c ++ r → ys' ≡ₚ c' ++ r) → NoDup ys' →
  bkt_part m' nb (<[i:=b]> bs) (<[i:=c']> cs) ys'.
Proof.
  intros Hb Hi Hs Hf Hok Hh Hp Hnd.
  assert (i < length cs)%nat as Hlt by by eapply lookup_lt_Some.
  split.
  - unfold lenZ. rewrite length_insert. apply Hb.
  - rewrite !length_insert. apply Hb.
  - intros j b' d Hb' Hd. destruct (decide (i = j)) as [<-|Hij].
    + rewrite list_lookup_insert_eq in Hd by done.
      rewrite list_lookup_insert_eq in Hb' by (rewrite <- (bp_len' _ _ _ _ _ Hb); done).
      by simplify_eq.
    + rewrite list_lookup_insert_ne in Hd by done.
      rewrite list_lookup_insert_ne in Hb' by done.
      eapply bucket_ok_ext; [|by eapply (bp_ok _ _ _ _ _ Hb)].
      intros y Hy. apply Hf; [|by eapply bp_in]. intros Hy'. apply Hij.
      eapply concat_disjoint; [by eapply bp_concat_nodup|done..].
  - intros j d x Hd Hx. eapply (hashes_to_same clr_hh); [done..|].
    destruct (decide (i = j)) as [<-|Hij].
    + rewrite list_lookup_insert_eq in Hd by done. simplify_eq. by apply Hh.
    + rewrite list_lookup_insert_ne in Hd by done. by eapply (bp_hash _ _ _ _ _ Hb).
  - destruct (concat_insert cs i c c' Hi) as (r & H1 & H2). rewrite H2. symmetry. apply Hp.
    by rewrite <- (bp_perm _ _ _ _ _ Hb).
  - done.
Qed.
End buckets.

(** ** Adding to a bucket and expanding *)

(** The system refuses single allocations of 64 GiB and more. *)
Class MemLimit (V : Type) `{!HashEnv V} : Prop :=
  mem_limit : ∀ n sz, 2 ^ 36 ≤ sz → mem_fail n sz = true.

Section expand.
Context {V : Type} `{!HashEnv V}.
Implicit Types (m : gmap nat (element V)) (bs : list UT_hash_bucket) (cs : list (list nat))
  (b : UT_hash_bucket) (c ys r : list nat) (x y : nat) (s : store V).

Lemma wp_link_front b x c s Q :
  hh_head b = head c → dll (fld hh_next (els s)) (fld hh_prev (els s)) None c None →
  NoDup c → x ∉ c → is_Some (els s !! x) →
  (∀ m', same_but clr_hh (els s) m' → (∀ y, y ≠ x → y ∉ c → m' !! y = els s !! y) →
     dll (fld hh_next m') (fld hh_prev m') None (x :: c) None →
     Q (b <| hh_head := Some x |>) (s <| els := m' |>)) →
  wp (link_front b x) Q s.
Proof.
  intros Hb Hd Hnd Hx Hs HQ. unfold link_front.
  wpb. apply wp_st; [done|]. wpb. apply wp_st; [by apply alter_is_Some|]. sred.
  rewrite Hb. set (m2 := alter _ x (alter _ x (els s))).
  assert (same_but clr_hh (els s) m2) as Hs2.
  { unfold m2. etrans; apply same_but_alter; done. }
  destruct c as [|z c]; cbn [head].
  - wpb. apply wp_ret, wp_ret. apply (HQ m2); [done| |].
    + intros y Hy _. unfold m2. by rewrite !lookup_alter_ne.
    + cbn. split_and!; [| |done].
      * unfold m2. apply fld_alter_eq; [by apply alter_is_Some|done].
      * unfold m2. rewrite fld_alter_id by done. by apply fld_alter_eq.
  - assert (x ≠ z) as Hxz by set_solver.
    assert (is_Some (els s !! z)) as Hz by (destruct Hd as (Hz & _); by eapply fld_is_Some).
    wpb. apply wp_st; [sred; by unfold m2; rewrite !alter_is_Some|]. apply wp_ret. sred.
    apply (HQ (alter (set_hh (λ h, h <| hh_prev := Some x |>)) z m2)).
    + etrans; [exact Hs2|]. by apply same_but_alter.
    + intros y Hy Hyc. unfold m2. rewrite !lookup_alter_ne; set_solver.
    + eapply dll_push; [done|exact Hd|..].
      * intros y Hy. rewrite fld_alter_id by done. unfold m2.
        by rewrite !fld_alter_ne by set_solver.
      * intros y Hy. cbn [head]. destruct (decide (z = y)) as [<-|Hzy].
        -- rewrite decide_True by done. apply fld_alter_eq; [|done].
           unfold m2. by rewrite !alter_is_Some.
        -- rewrite decide_False by congruence. rewrite fld_alter_ne by done.
           unfold m2. by rewrite !fld_alter_ne by set_solver.
      * rewrite fld_alter_ne by done. unfold m2. rewrite fld_alter_id by done.
        by apply fld_alter_eq.
      * rewrite fld_alter_ne by done. unfold m2.
        apply fld_alter_eq; [by apply alter_is_Some|done].
Qed.

(** [x] put in front of bucket [i]. *)
Lemma bp_push m m' nb bs cs ys i b c x :
  bkt_part m nb bs cs ys → cs !! i = Some c → x ∉ ys →
  hashes_to m nb i x → same_but clr_hh m m' → (∀ y, y ≠ x → y ∉ c → m' !! y = m !! y) →
  hh_head b = Some x → count b = u32 (lenZ (x :: c)) →
  dll (fld hh_next m') (fld hh_prev m') None (x :: c) None →
  bkt_part m' nb (<[i:=b]> bs) (<[i:=x :: c]> cs) (x :: ys).
Proof.
  intros Hb Hi Hx Hh Hs Hf Hhd Hc Hd.
  eapply (bp_insert m); [done..| | | | |].
  - intros y Hy Hys. apply Hf; [|done]. by intros ->.
  - done.
  - intros y [->|Hy]%elem_of_cons; [done|]. by eapply (bp_hash _ _ _ _ _ Hb).
  - intros r ->. done.
  - apply NoDup_cons. split; [done|apply Hb].
Qed.

Lemma u32_succ_lenZ x c n : n = u32 (lenZ c) → u32 (n + 1) = u32 (lenZ (x :: c)).
Proof. intros ->. rewrite lenZ_cons. unfold u32, wrap. rewrite Zplus_mod_idemp_l. f_equal. lia. Qed.

Fixpoint sll (N : nat → option (option nat)) (xs : list nat) : Prop :=
  match xs with [] => True | x :: r => N x = Some (head r) ∧ sll N r end.

Lemma dll_sll N P q xs : dll N P q xs None → sll N xs.
Proof.
  revert q. induction xs as [|x r IH]; intros q; cbn; [done|].
  rewrite onto_None. intros (_ & ? & ?). eauto.
Qed.

Lemma sll_ext N N' xs : (∀ y, y ∈ xs → N' y = N y) → sll N xs → sll N' xs.
Proof.
  induction xs as [|x r IH]; intros HN; cbn; [done|]. intros [H1 H2].
  rewrite HN by set_solver. split; [done|]. apply IH; [set_solver|done].
Qed.

Lemma wp_expand_chain L a' ideal :
  0 ≤ L ≤ 31 → ∀ r fuel nonideal s bs cs ys Q,
  (length r ≤ fuel)%nat → sll (fld hh_next (els s)) r → NoDup (r ++ ys) →
  (∀ x, x ∈ r → is_Some (els s !! x)) →
  arrs s !! a' = Some bs → bkt_part (els s) (2 ^ L) bs cs ys →
  (∀ m' bs' cs' k, same_but clr_hh (els s) m' →
     (∀ y, y ∉ r → y ∉ ys → m' !! y = els s !! y) →
     bkt_part m' (2 ^ L) bs' cs' (r ++ ys) →
     Q k (s <| els := m' |> <| arrs := <[a' := bs']> (arrs s) |>)) →
  wp (expand_chain fuel a' (2 ^ L) ideal nonideal (head r)) Q s.
Proof.
  intros HL r. induction r as [|x r IH]; intros fuel nonideal s bs cs ys Q Hf Hsl Hnd Hx Ha Hb HQ.
  - destruct fuel; cbn; apply wp_ret.
    all: replace s with (s <| els := els s |> <| arrs := <[a':=bs]> (arrs s) |>)
      by (cbn; rewrite insert_id by done; by destruct s).
    all: by eapply HQ.
  - destruct fuel as [|fuel]; [cbn in Hf; lia|]. cbn [expand_chain head].
    destruct Hsl as [HN Hsl]. destruct (Hx x) as [e He]; [set_solver|].
    cbn in Hnd. apply NoDup_cons in Hnd as [Hxn Hnd].
    apply not_elem_of_app in Hxn as [Hxr Hxys].
    assert (∀ y, y ∈ r → y ≠ x ∧ y ∉ ys) as Hr.
    { intros y Hy. split; [by intros ->|]. apply NoDup_app in Hnd as (_ & Hdis & _). auto. }
    wpb. eapply wp_ld; [exact HN|]. wpb. eapply wp_ld; [unfold fld; by rewrite He|].
    set (bkt := HASH_TO_BKT _ _).
    destruct (bp_bucket _ L _ _ _ (hashv (hh e)) Hb HL) as [b Hbi].
    destruct (bp_chain _ _ _ _ _ _ _ Hb Hbi) as (c & Hc & (Hh & Hcnt & Hd) & Hcnd).
    wpb. eapply wp_ldB; [done..|].
    set (b1 := if _ && _ then _ else _).
    assert (hh_head b1 = head c ∧ count b1 = u32 (lenZ (x :: c))) as [Hh1 Hc1].
    { unfold b1. destruct (_ && _); cbn; (split; [done|by apply u32_succ_lenZ]). }
    assert (∀ y, y ∈ c → y ∈ ys) as Hcy by (intros; by eapply bp_in).
    wpb. eapply wp_link_front; [exact Hh1|exact Hd|done|by auto|by rewrite He|].
    intros m' Hs' Hf' Hd'. wpb. eapply wp_stB; [done|exact (mk_is_Some _ _ Hbi)|]. sred.
    eapply (IH _ _ _ _ _ (x :: ys)); [cbn in Hf; lia| | | | | |].
    + sred. revert Hsl. apply sll_ext. intros y Hy. destruct (Hr y Hy).
      unfold fld. rewrite Hf'; [done..|by auto].
    + rewrite <- Permutation_middle. apply NoDup_cons. split; [|done].
      by apply not_elem_of_app.
    + intros y Hy. sred. rewrite (same_but_is_Some clr_hh (els s)) by done.
      apply Hx. by apply list_elem_of_further.
    + sred. apply lookup_insert_eq.
    + sred. eapply bp_push; [done|exact Hc|done| |done|done|done|done|done].
      exists (hashv (hh e)). unfold fld. by rewrite He.
    + sred. intros m'' bs' cs' k Hs'' Hf'' Hb''. rewrite insert_insert_eq.
      apply (HQ m'' bs' cs' k).
      * by etrans.
      * intros y Hy Hys. apply not_elem_of_cons in Hy as [Hyx Hyr].
        rewrite Hf''; [|done|by apply not_elem_of_cons]. apply Hf'; [done|by auto].
      * eapply bp_ys; [done|]. symmetry. apply Permutation_middle.
Qed.
(** The chains of the old array from bucket [i] on, still linked forward. *)
Definition chains_left m bs cs (i : nat) : Prop :=
  length cs = length bs ∧
  ∀ j b c, (i ≤ j)%nat → bs !! j = Some b → cs !! j = Some c →
    hh_head b = head c ∧ sll (fld hh_next m) c ∧ ∀ x, x ∈ c → is_Some (m !! x).

Lemma concat_length_le m (xs : list nat) :
  NoDup xs → (∀ x, x ∈ xs → is_Some (m !! x)) → (length xs ≤ size m)%nat.
Proof.
  intros Hnd Hx. rewrite <- size_dom, <- (size_list_to_set (C := gset nat) xs) by done.
  apply subseteq_size. intros x. rewrite elem_of_list_to_set, elem_of_dom. apply Hx.
Qed.

Lemma wp_expand_loop L a a' ideal bs cs :
  0 ≤ L ≤ 31 → a ≠ a' → ∀ n i nonideal s bs' cs' ys Q,
  (i + n = length bs)%nat → arrs s !! a = Some bs → chains_left (els s) bs cs i →
  NoDup (concat (drop i cs) ++ ys) →
  arrs s !! a' = Some bs' → bkt_part (els s) (2 ^ L) bs' cs' ys →
  (∀ m' bs'' cs'' k, same_but clr_hh (els s) m' →
     (∀ y, y ∉ concat (drop i cs) → y ∉ ys → m' !! y = els s !! y) →
     bkt_part m' (2 ^ L) bs'' cs'' (concat (drop i cs) ++ ys) →
     Q k (s <| els := m' |> <| arrs := <[a' := bs'']> (arrs s) |>)) →
  wp (expand_loop n a a' (2 ^ L) ideal (Z.of_nat i) nonideal) Q s.
Proof.
  intros HL Haa n. induction n as [|n IH]; intros i nonideal s bs' cs' ys Q Hn Ha [Hlen Hl] Hnd Ha' Hb HQ.
  - cbn [expand_loop]. apply wp_ret. rewrite (drop_ge cs) in * by lia.
    replace s with (s <| els := els s |> <| arrs := <[a':=bs']> (arrs s) |>)
      by (sred; rewrite insert_id by done; by destruct s).
    by eapply HQ.
  - cbn [expand_loop]. destruct (lookup_lt_is_Some_2 bs i) as [b Hbi]; [lia|].
    destruct (lookup_lt_is_Some_2 cs i) as [c Hci]; [lia|].
    destruct (Hl i b c) as (Hh & Hsl & Hex); [lia|done..|].
    rewrite (drop_S _ _ _ Hci) in Hnd, HQ. cbn [concat] in Hnd, HQ.
    rewrite <- app_assoc in Hnd.
    wpb. eapply wp_ldB; [done|by rewrite Nat2Z.id|]. wpb. rewrite Hh.
    change (wp _ ?Q' s) with (wp (expand_chain (S (size (els s))) a' (2 ^ L) ideal nonideal (head c)) Q' s).
    pose proof Hnd as (Hndc & Hdis & Hnd')%NoDup_app.
    eapply (wp_expand_chain L a' ideal HL c _ _ _ _ _ ys);
      [|exact Hsl| |exact Hex|exact Ha'|exact Hb|].
    + etrans; [by eapply concat_length_le|lia].
    + apply NoDup_app in Hnd' as (_ & Hd2 & Hnd'). apply NoDup_app. split_and!; [done| |done].
      intros x Hx Hy. eapply Hdis; [done|]. apply elem_of_app. by right.
    + intros m' bs2 cs2 k Hs' Hf' Hb'.
      replace (Z.of_nat i + 1) with (Z.of_nat (S i)) by lia.
      eapply (IH _ _ _ bs2 cs2 (c ++ ys)); [lia| | | | |exact Hb'|].
      * sred. by rewrite lookup_insert_ne.
      * split; [done|]. intros j b2 c2 Hj Hb2 Hc2.
        destruct (Hl j b2 c2) as (H1 & H2 & H3); [lia|done..|]. sred. split_and!; [done| |].
        -- revert H2. apply sll_ext. intros y Hy. unfold fld. rewrite Hf'; [done|..].
           ++ intros Hyc. eapply (Hdis y); [done|]. apply elem_of_app. left.
              by eapply (concat_drop_lookup _ _ j c2).
           ++ intros Hyy. apply NoDup_app in Hnd' as (_ & Hd2 & _). eapply (Hd2 y); [|done].
              by eapply (concat_drop_lookup _ _ j c2).
        -- intros x Hx. rewrite (same_but_is_Some clr_hh (els s)) by done. by apply H3.
      * eapply NoDup_Permutation_proper; [|exact Hnd]. solve_Permutation.
      * sred. apply lookup_insert_eq.
      * sred. intros m'' bs3 cs3 k' Hs'' Hf'' Hb''. rewrite insert_insert_eq. eapply HQ.
        -- by etrans.
        -- intros y [Hy1 Hy2]%not_elem_of_app Hyy. rewrite Hf''; [by apply Hf'|done|].
           by apply not_elem_of_app.
        -- eapply bp_ys; [exact Hb''|]. solve_Permutation.
Qed.
End expand.

(** ** The hash depends on the key only *)

Section jen.
Implicit Types (k r : list Z).

Lemma byte_at_app k r i : 0 ≤ i < lenZ k → byte_at (k ++ r) i = byte_at k i.
Proof. intros. unfold byte_at, lenZ in *. by rewrite lookup_app_l by lia. Qed.

Lemma jen_byte_app k r i sh : 0 ≤ i < lenZ k → jen_byte (k ++ r) i sh = jen_byte k i sh.
Proof. intros. unfold jen_byte. by rewrite byte_at_app. Qed.

Lemma jen_word_app k r i : 0 ≤ i → i + 4 ≤ lenZ k → jen_word (k ++ r) i = jen_word k i.
Proof. intros. unfold jen_word. by rewrite !jen_byte_app by lia. Qed.

Lemma jen_loop_app fuel k r v :
  ∃ k' v', jen_loop fuel k (lenZ k) v = (k', lenZ k', v') ∧
           jen_loop fuel (k ++ r) (lenZ k) v = (k' ++ r, lenZ k', v').
Proof.
  revert k v. induction fuel as [|fuel IH]; intros k v; cbn [jen_loop]; [eauto|].
  destruct (Z.leb_spec 12 (lenZ k)) as [Hk|]; [|eauto]. destruct v as [[i j] h].
  rewrite !jen_word_app by lia.
  assert (12 ≤ length k)%nat by (unfold lenZ in Hk; lia).
  replace (lenZ k - 12) with (lenZ (drop 12 k)) by (unfold lenZ; rewrite length_drop; lia).
  rewrite drop_app_le by done. apply IH.
Qed.

Lemma jen_rest_app k r v : jen_rest (k ++ r) (lenZ k) v = jen_rest k (lenZ k) v.
Proof.
  destruct v as [[i j] h]. unfold jen_rest.
  assert (∀ n sh, 0 ≤ n → (if n <? lenZ k then jen_byte (k ++ r) n sh else 0) =
                          (if n <? lenZ k then jen_byte k n sh else 0)) as Hn.
  { intros n sh Hn. destruct (Z.ltb_spec n (lenZ k)); [by rewrite jen_byte_app|done]. }
  by rewrite !Hn by lia.
Qed.

(** Only the bytes of the key count. *)
Lemma HASH_JEN_app k r : HASH_JEN (k ++ r) (lenZ k) = HASH_JEN k (lenZ k).
Proof.
  unfold HASH_JEN.
  destruct (jen_loop_app (Z.to_nat (lenZ k)) k r (0x9e3779b9, 0x9e3779b9, 0xfeedbeef))
    as (k' & [[i j] h] & -> & ->).
  by rewrite jen_rest_app.
Qed.
End jen.

(** ** The representation of a table *)

Section rep.
Context {V : Type} `{!HashEnv V}.
Implicit Types (m : gmap nat (element V)) (bs : list UT_hash_bucket) (cs : list (list nat))
  (b : UT_hash_bucket) (c ys : list nat) (x y : nat) (v : V) (s : store V)
  (xvs : list (nat * V)) (k : list Z).

(** [k] is the C string in the key field of [v]; its length is an [unsigned]. *)
Definition key_is v k : Prop := cstr (key_field v) = Ok k ∧ lenZ k < 2 ^ 32.

Lemma key_is_inj v k k' : key_is v k → key_is v k' → k = k'.
Proof. intros [E _] [E' _]. congruence. Qed.

Record node_ok (t : nat) m (xv : nat * V) : Prop := mkNodeOk {
  no_val : val <$> m !! xv.1 = Some xv.2;
  no_tbl : fld tbl m xv.1 = Some (Some t);
  no_key : fld key m xv.1 = Some (Some xv.1);
  no_hash : ∃ k, key_is xv.2 k ∧ fld keylen m xv.1 = Some (lenZ k) ∧
                 fld hashv m xv.1 = Some (HASH_JEN k (lenZ k))
}.

Record app_part (t : nat) m xvs : Prop := mkAppPart {
  ap_nodup : NoDup xvs.*1;
  ap_dll : dll (fld next m) (fld prev m) None xvs.*1 None;
  ap_nodes : Forall (node_ok t m) xvs
}.

Lemma node_ok_same u t m m' xv :
  (∀ h, tbl (u h) = tbl h ∧ key (u h) = key h ∧ keylen (u h) = keylen h ∧ hashv (u h) = hashv h) →
  same_but u m m' → node_ok t m xv → node_ok t m' xv.
Proof.
  intros Hu Hs [H1 H2 H3 (k & H4 & H5 & H6)]. split.
  - by rewrite (same_but_val u m).
  - rewrite (same_but_fld _ u m); [done| |done]. apply Hu.
  - rewrite (same_but_fld _ u m); [done| |done]. apply Hu.
  - exists k. rewrite !(same_but_fld _ u m m'); [done|apply Hu|done|apply Hu|done].
Qed.

Lemma ap_same_hh t m m' xvs : same_but clr_hh m m' → app_part t m xvs → app_part t m' xvs.
Proof.
  intros Hs [H1 H2 H3]. split; [done| |].
  - revert H2. apply dll_ext; intros y _; by apply (same_but_fld _ clr_hh).
  - eapply Forall_impl; [exact H3|]. intros xv. by apply (node_ok_same clr_hh).
Qed.

(** Objects outside the table. *)
Record rest : Type := mkRest {
  r_els : gmap nat (element V);
  r_tbls : gmap nat UT_hash_table;
  r_arrs : gmap nat (list UT_hash_bucket)
}.

(** Numbers are given out in order. *)
Definition store_wf s : Prop := ∀ n, (snxt s ≤ n)%nat →
  els s !! n = None ∧ tbls s !! n = None ∧ arrs s !! n = None.

(** The elements [xvs] are in the application order of table [t], those of [ys]
    in its buckets; everything else of the store is [F]. *)
Record rep t T bs cs L xvs ys F s : Prop := mkRep {
  rp_wf : store_wf s;
  rp_els : ∀ y, r_els F !! y = if decide (y ∈ xvs.*1) then None else els s !! y;
  rp_tbls : tbls s = <[t := T]> (r_tbls F);
  rp_t : r_tbls F !! t = None;
  rp_arrs : arrs s = <[buckets T := bs]> (r_arrs F);
  rp_a : r_arrs F !! buckets T = None;
  rp_nb : num_buckets T = 2 ^ L;
  rp_log : log2_num_buckets T = L;
  rp_L : 0 ≤ L ≤ 31;
  rp_tail : tail T = last xvs.*1;
  rp_items : num_items T = u32 (lenZ ys);
  rp_app : app_part t (els s) xvs;
  rp_bkt : bkt_part (els s) (2 ^ L) bs cs ys
}.

(** The table of head [h] consists of the elements [xvs], in this order. *)
Definition is_table (h : option nat) xvs F s : Prop :=
  h = head xvs.*1 ∧
  match xvs with
  | [] => store_wf s ∧ els s = r_els F ∧ tbls s = r_tbls F ∧ arrs s = r_arrs F
  | _ => ∃ t T bs cs L, rep t T bs cs L xvs xvs.*1 F s
  end.

Lemma rp_ldT {t T bs cs L xvs ys F s} : rep t T bs cs L xvs ys F s → tbls s !! t = Some T.
Proof. intros Hr. rewrite (rp_tbls _ _ _ _ _ _ _ _ _ Hr). apply lookup_insert_eq. Qed.

Lemma rp_ldA {t T bs cs L xvs ys F s} :
  rep t T bs cs L xvs ys F s → arrs s !! buckets T = Some bs.
Proof. intros Hr. rewrite (rp_arrs _ _ _ _ _ _ _ _ _ Hr). apply lookup_insert_eq. Qed.

Lemma rp_node {t T bs cs L xvs ys F s} x v :
  rep t T bs cs L xvs ys F s → (x, v) ∈ xvs → node_ok t (els s) (x, v).
Proof.
  intros Hr Hx. pose proof (ap_nodes _ _ _ (rp_app _ _ _ _ _ _ _ _ _ Hr)) as Hn.
  by rewrite Forall_forall in Hn; apply Hn.
Qed.

Lemma rp_id {t T bs cs L xvs ys F s} x :
  rep t T bs cs L xvs ys F s → x ∈ xvs.*1 → fld tbl (els s) x = Some (Some t).
Proof.
  intros Hr Hx. apply list_elem_of_fmap in Hx as ([x' v] & -> & Hx).
  by apply (rp_node x' v Hr).
Qed.

Lemma rp_is_Some {t T bs cs L xvs ys F s} x :
  rep t T bs cs L xvs ys F s → x ∈ xvs.*1 → is_Some (els s !! x).
Proof. intros Hr Hx. eapply fld_is_Some. by eapply rp_id. Qed.
Lemma wp_new_array a bs Q s :
  Q tt (s <| arrs := <[a := bs]> (arrs s) |>) → wp (new_array a bs) Q s.
Proof. done. Qed.

Lemma wp_new_table t T Q s :
  Q tt (s <| tbls := <[t := T]> (tbls s) |>) → wp (new_table t T) Q s.
Proof. done. Qed.

(** A fresh array of empty buckets. *)
Lemma bp_zero m L :
  0 ≤ L → bkt_part m (2 ^ L) (replicate (Z.to_nat (2 ^ L)) bucket_zero)
            (replicate (Z.to_nat (2 ^ L)) []) [].
Proof.
  intros HL. assert (0 < 2 ^ L) by (apply Z.pow_pos_nonneg; lia). split.
  - unfold lenZ. rewrite length_replicate. lia.
  - by rewrite !length_replicate.
  - intros i b c [-> _]%lookup_replicate [-> _]%lookup_replicate. done.
  - intros i c x [-> _]%lookup_replicate Hx. by apply not_elem_of_nil in Hx.
  - induction (Z.to_nat (2 ^ L)); [done|]. cbn. done.
  - constructor.
Qed.

Lemma bp_chains_left m L bs cs ys :
  bkt_part m (2 ^ L) bs cs ys → chains_left m bs cs 0.
Proof.
  intros Hb. split; [apply Hb|]. intros j b c _ Hbj Hcj.
  destruct (bp_ok _ _ _ _ _ Hb j b c Hbj Hcj) as (H1 & H2 & H3).
  split_and!; [done|by eapply dll_sll|]. intros x Hx.
  destruct (bp_hash _ _ _ _ _ Hb j c x Hcj Hx) as (hv & E & _). by eapply fld_is_Some.
Qed.

Lemma pow_double L : 0 ≤ L ≤ 30 → u32 (2 ^ L * 2) = 2 ^ (L + 1).
Proof.
  intros HL. rewrite Z.pow_add_r by lia. unfold u32, wrap. apply Z.mod_small.
  assert (0 < 2 ^ L) by (apply Z.pow_pos_nonneg; lia).
  assert (2 ^ L ≤ 2 ^ 30) by (apply Z.pow_le_mono_r; lia). lia.
Qed.

Lemma wp_expand `{!MemLimit V} t T bs cs L xvs ys F s Q :
  rep t T bs cs L xvs ys F s → (∀ y, y ∈ ys → y ∈ xvs.*1) →
  (∀ s' T' bs' cs' L', rep t T' bs' cs' L' xvs ys F s' → same_but clr_hh (els s) (els s') →
     Q tt s') →
  wp (HASH_EXPAND_BUCKETS t) Q s.
Proof.
  intros Hr Hys HQ. pose proof Hr as []. unfold HASH_EXPAND_BUCKETS.
  wpb. eapply wp_ldT; [by eapply rp_ldT|]. rewrite rp_nb0.
  wpb. apply wp_uthash_malloc. intros Hm.
  assert (L ≤ 30) as HL.
  { destruct (decide (L = 31)) as [->|]; [|lia]. rewrite (mem_limit) in Hm; [done|].
    unfold sizeof_UT_hash_bucket. lia. }
  rewrite pow_double by lia. set (a' := snxt s).
  destruct (rp_wf0 a') as (Ha1 & Ha2 & Ha3); [done|].
  assert (buckets T ≠ a') as Hne.
  { intros E. rewrite <- E, (rp_ldA Hr) in Ha3. done. }
  wpb. apply wp_new_array. cbv zeta. wpb.
  replace (Z.to_nat (2 ^ L)) with (length bs) by (pose proof (bp_len _ _ _ _ _ rp_bkt0); unfold lenZ in *; lia).
  change 0 with (Z.of_nat 0) at 3.
  eapply (wp_expand_loop (L + 1) (buckets T) a' _ bs cs); [lia|done|lia| | | | | |].
  - sred. rewrite lookup_insert_ne by done. by apply (rp_ldA Hr).
  - sred. by eapply bp_chains_left.
  - rewrite drop_0, app_nil_r. by eapply bp_concat_nodup.
  - sred. apply lookup_insert_eq.
  - sred. apply bp_zero. lia.
  - sred. rewrite drop_0, app_nil_r. intros m' bs' cs' k Hs' Hf' Hb'. rewrite insert_insert_eq.
    wpb. apply wp_free_array; [sred; rewrite lookup_insert_ne by done; by rewrite (rp_ldA Hr)|].
    apply wp_stT; [sred; by rewrite (rp_ldT Hr)|]. sred.
    match goal with |- context [<[t := ?T']> (tbls s)] =>
      eapply (HQ _ T' bs' cs' (L + 1)); [|done] end.
    split; sred; cbn.
    + intros n Hn. sred_in Hn. destruct (rp_wf0 n) as (H1 & H2 & H3); [lia|].
      split_and!; sred.
      * pose proof (same_but_is_Some clr_hh _ _ n Hs') as Hi. rewrite H1 in Hi.
        apply eq_None_not_Some. rewrite Hi. apply is_Some_None.
      * rewrite lookup_insert_ne; [done|]. intros ->. by rewrite (rp_ldT Hr) in H2.
      * rewrite lookup_delete_ne by (intros <-; by rewrite (rp_ldA Hr) in H3).
        rewrite lookup_insert_ne; [done|]. unfold a'. lia.
    + intros y. rewrite rp_els0. case_decide as Hy; [done|]. symmetry. apply Hf'; [|apply not_elem_of_nil].
      rewrite (bp_perm _ _ _ _ _ rp_bkt0). auto.
    + by rewrite rp_tbls0, insert_insert_eq.
    + done.
    + rewrite rp_arrs0. rewrite delete_insert_ne by done. by rewrite delete_insert_id.
    + rewrite rp_arrs0 in Ha3. by rewrite lookup_insert_ne in Ha3.
    + done.
    + lia.
    + lia.
    + done.
    + done.
    + by eapply ap_same_hh.
    + eapply bp_ys; [exact Hb'|]. apply rp_bkt0.
Qed.
(** Adding [x], already in the application order, to its bucket. *)
Lemma wp_add_to_table `{!MemLimit V} t T bs cs L xvs ys F s h0 x hv Q :
  rep t T bs cs L xvs ys F s → h0 ∈ xvs.*1 → x ∈ xvs.*1 → x ∉ ys →
  (∀ y, y ∈ ys → y ∈ xvs.*1) → fld hashv (els s) x = Some hv →
  (∀ s' T' bs' cs' L', rep t T' bs' cs' L' xvs (x :: ys) F s' →
     same_but clr_hh (els s) (els s') → Q tt s') →
  wp (HASH_ADD_TO_TABLE (Some h0) hv x) Q s.
Proof.
  intros Hr Hh0 Hx Hxys Hys Hhv HQ. pose proof Hr as []. unfold HASH_ADD_TO_TABLE.
  wpb. eapply wp_tbl_of; [by eapply rp_id|]. wpb. eapply wp_ldT; [by eapply rp_ldT|].
  wpb. apply wp_stT; [by rewrite (rp_ldT Hr)|]. cbn [buckets num_buckets upd]. rewrite rp_nb0.
  unfold HASH_ADD_TO_BKT. set (bkt := HASH_TO_BKT _ _).
  destruct (bp_bucket _ L _ _ _ hv rp_bkt0 rp_L0) as [b Hbi].
  destruct (bp_chain _ _ _ _ _ _ _ rp_bkt0 Hbi) as (c & Hc & (Hh & Hcnt & Hd) & Hcnd).
  assert (∀ y, y ∈ c → y ∈ ys) as Hcy by (intros; by eapply bp_in).
  wpb. eapply wp_ldB; [sred; by eapply rp_ldA|done|].
  wpb. eapply (wp_link_front _ x c); [done|done|done|by auto|sred; by eapply rp_is_Some|].
  intros m' Hs' Hf' Hd'. sred_in Hs'. sred_in Hf'. wpb.
  eapply wp_stB; [sred; by eapply rp_ldA|exact (mk_is_Some _ _ Hbi)|]. sred.
  wpb. eapply wp_tbl_of.
  { sred. rewrite (same_but_fld _ clr_hh (els s)) by done. by eapply rp_id. }
  wpb. eapply wp_ldT; [sred; apply lookup_insert_eq|]. cbn [noexpand upd].
  set (b' := _ <| hh_head := Some x |>).
  set (T1 := _ <| num_items := _ |>). set (s1 := _ <| arrs := _ |>).
  assert (rep t T1 (<[Z.to_nat bkt:=b']> bs) (<[Z.to_nat bkt:=x :: c]> cs) L xvs (x :: ys) F s1)
    as Hr1.
  { split; unfold s1; sred; [| | | | | |done|done|done|done| | |].
    - intros n Hn. sred_in Hn. destruct (rp_wf0 n Hn) as (H1 & H2 & H3). split_and!; sred.
      + pose proof (same_but_is_Some clr_hh _ _ n Hs') as Hi. rewrite H1 in Hi.
        apply eq_None_not_Some. rewrite Hi. apply is_Some_None.
      + rewrite lookup_insert_ne; [done|]. intros ->. by rewrite (rp_ldT Hr) in H2.
      + rewrite lookup_insert_ne; [done|]. intros <-. by rewrite (rp_ldA Hr) in H3.
    - intros y. rewrite rp_els0. case_decide as Hy; [done|]. symmetry.
      apply Hf'; [by intros ->|]. intros Hyc. by apply Hy, Hys, Hcy.
    - by rewrite rp_tbls0, insert_insert_eq.
    - done.
    - by rewrite rp_arrs0, insert_insert_eq.
    - done.
    - cbn. rewrite rp_items0. by apply u32_succ_lenZ.
    - by eapply ap_same_hh.
    - eapply bp_push; [done..| |done|done|done| |done].
      + by exists hv.
      + cbn. by apply u32_succ_lenZ. }
  destruct (_ && _).
  - eapply wp_expand; [exact Hr1| |].
    + intros y [->|Hy]%elem_of_cons; auto.
    + intros s' T' bs' cs' L' Hr' Hs1. eapply HQ; [exact Hr'|]. by etrans.
  - apply wp_ret. by eapply HQ.
Qed.
Lemma node_ok_ext t m m' x v :
  val <$> m' !! x = val <$> m !! x → fld tbl m' x = fld tbl m x → fld key m' x = fld key m x →
  fld keylen m' x = fld keylen m x → fld hashv m' x = fld hashv m x →
  node_ok t m (x, v) → node_ok t m' (x, v).
Proof.
  intros E1 E2 E3 E4 E5 [H1 H2 H3 (k & H4 & H5 & H6)]. cbn in *.
  split; cbn; [by rewrite E1|by rewrite E2|by rewrite E3|].
  exists k. by rewrite E4, E5.
Qed.

(** The element [x] taken out of the rest of the store. *)
Definition rest_del x (F : rest) : rest := mkRest (delete x (r_els F)) (r_tbls F) (r_arrs F).
Definition rest_add x (e : element V) (F : rest) : rest :=
  mkRest (<[x := e]> (r_els F)) (r_tbls F) (r_arrs F).

Lemma fst_snoc xvs x v : (xvs ++ [(x, v)]).*1 = xvs.*1 ++ [x].
Proof. by rewrite fmap_app. Qed.

Lemma val_alter u m x y : val <$> alter (set_hh u) x m !! y = val <$> m !! y.
Proof. rewrite lookup_alter. case_decide; [subst|done]. by destruct (m !! y). Qed.
End rep.

(** Fields after a chain of stores, some to other elements, some to other fields. *)
Ltac fldsimp := repeat first
  [ rewrite val_alter
  | rewrite fld_alter_id by done
  | rewrite fld_alter_ne by (done || congruence)
  | rewrite lookup_alter_ne by (done || congruence)
  | rewrite alter_is_Some ].

Section add.
Context {V : Type} `{!HashEnv V, !MemLimit V}.
Implicit Types (x : nat) (v : V) (s : store V) (xvs : list (nat * V)) (k : list Z).

(** The first element: a table is made for it. *)
Lemma wp_make_table F s x e v k Q :
  is_table None [] F s → els s !! x = Some e → val e = v → key_is v k →
  fld hashv (els s) x = Some (HASH_JEN k (lenZ k)) → fld key (els s) x = Some (Some x) →
  fld keylen (els s) x = Some (lenZ k) →
  fld next (els s) x = Some None → fld prev (els s) x = Some None →
  (∀ s' t T bs cs, rep t T bs cs 5 [(x, v)] [] (rest_del x F) s' →
     fld hashv (els s') x = fld hashv (els s) x → Q tt s') →
  wp (HASH_MAKE_TABLE x) Q s.
Proof.
  intros (_ & Hwf & HE & HT & HA) Hx Hv Hk Hhv Hky Hkl Hn Hp HQ. unfold HASH_MAKE_TABLE.
  wpb. apply wp_uthash_malloc. intros _. wpb. apply wp_st; [by sred; eauto|].
  wpb. apply wp_uthash_malloc. intros _. sred.
  wpb. apply wp_new_table. apply wp_new_array. sred.
  assert (x < snxt s)%nat as Hlt.
  { destruct (decide (snxt s ≤ x)%nat) as [Hge|]; [|lia].
    destruct (Hwf x Hge) as (Hn' & _). congruence. }
  set (T' := mkTable _ _ _ _ _ _ _ _ _). set (s' := _ <| arrs := _ |>).
  eapply (HQ s' (snxt s) T' (replicate (Z.to_nat 32) bucket_zero) (replicate (Z.to_nat 32) []));
    [|unfold s'; sred; by fldsimp].
  destruct (Hwf (snxt s)) as (_ & HTn & _); [done|].
  destruct (Hwf (S (snxt s))) as (_ & _ & HAn); [lia|].
  split; unfold s', rest_del; sred; cbn [r_els r_tbls r_arrs buckets num_buckets];
    [| |by rewrite HT|by rewrite <- HT|by rewrite HA|by cbn; rewrite <- HA|done|done|done|done|done| |].
  - intros n Hn'. sred_in Hn'. destruct (Hwf n) as (H1 & H2 & H3); [lia|]. split_and!; sred.
    + by rewrite lookup_alter_ne by lia.
    + by rewrite lookup_insert_ne by lia.
    + by rewrite lookup_insert_ne by lia.
  - intros y. rewrite <- HE, lookup_delete. cbn. case_decide as Hy; case_decide as Hy'; try done.
    + subst. set_solver.
    + set_solver.
    + by fldsimp.
  - split.
    + apply NoDup_singleton.
    + cbn. split_and!; [by fldsimp..|done].
    + constructor; [|done]. split; cbn.
      * fldsimp. by rewrite Hx, <- Hv.
      * apply fld_alter_eq; [by eauto|done].
      * by fldsimp.
      * exists k. by fldsimp.
  - change 32 with (2 ^ 5). by apply bp_zero.
Qed.

(** A further element: appended to the application order. *)
Lemma wp_append_list t T bs cs L xvs F s x e v k h0 Q :
  rep t T bs cs L xvs xvs.*1 F s → h0 ∈ xvs.*1 → r_els F !! x = Some e → val e = v →
  key_is v k → fld hashv (els s) x = Some (HASH_JEN k (lenZ k)) →
  fld key (els s) x = Some (Some x) → fld keylen (els s) x = Some (lenZ k) →
  fld tbl (els s) x = Some (Some t) →
  (∀ s' T', rep t T' bs cs L (xvs ++ [(x, v)]) xvs.*1 (rest_del x F) s' →
     fld hashv (els s') x = fld hashv (els s) x → Q tt s') →
  wp (HASH_APPEND_LIST (Some h0) x) Q s.
Proof.
  intros Hr Hh0 HxF Hv Hk Hhv Hky Hkl Htb HQ. pose proof Hr as []. unfold HASH_APPEND_LIST.
  pose proof HxF as Hx. rewrite rp_els0 in Hx. case_decide as Hxn; [done|].
  destruct (last xvs.*1) as [l|] eqn:Hlast.
  2: { apply last_None in Hlast. rewrite Hlast in Hh0. by apply not_elem_of_nil in Hh0. }
  pose proof (last_Some_elem_of _ _ Hlast) as Hl.
  assert (l ≠ x) as Hlx by (by intros ->). assert (h0 ≠ x) by (by intros ->).
  assert (∀ y, y ∈ xvs.*1 → y ≠ x) as Hne by (by intros y Hy ->).
  wpb. apply wp_st; [by eauto|].
  wpb. eapply wp_tbl_of; [sred; fldsimp; by eapply rp_id|].
  wpb. eapply wp_ldT; [sred; exact (rp_ldT Hr)|]. rewrite rp_tail0.
  wpb. apply wp_st; [sred; fldsimp; by eauto|].
  wpb. apply wp_deref. wpb. apply wp_st; [sred; fldsimp; by eapply rp_is_Some|].
  apply wp_stT; [sred; by rewrite (rp_ldT Hr)|]. sred.
  set (s' := _ <| tbls := _ |>).
  eapply (HQ s' (T <| tail := Some x |>)); [|unfold s'; sred; by fldsimp].
  split; unfold s', rest_del; sred; cbn [r_els r_tbls r_arrs buckets num_buckets upd];
    [| |by rewrite rp_tbls0, insert_insert_eq|done|done|done|done|done|done| |done| |].
  - intros n Hn. sred_in Hn. destruct (rp_wf0 n Hn) as (H1 & H2 & H3). split_and!; sred.
    + apply eq_None_not_Some. rewrite !alter_is_Some, H1. apply is_Some_None.
    + rewrite lookup_insert_ne; [done|]. intros ->. by rewrite (rp_ldT Hr) in H2.
    + done.
  - intros y. rewrite lookup_delete, fst_snoc. case_decide as Hy.
    + subst. rewrite decide_True; [done|]. set_solver.
    + rewrite rp_els0. case_decide as Hy'.
      * rewrite decide_True; [done|]. set_solver.
      * rewrite decide_False by set_solver. rewrite !lookup_alter_ne; [done|congruence..].
  - by rewrite fst_snoc, last_snoc.
  - destruct rp_app0. split.
    + rewrite fst_snoc. apply NoDup_app. split_and!; [done|set_solver|apply NoDup_singleton].
    + rewrite fst_snoc. eapply dll_snoc; [done|exact ap_dll0|..].
      * intros y Hy. pose proof (Hne y Hy). case_decide as E.
        -- rewrite Hlast in E. injection E as ->. apply fld_alter_eq; [|done].
           fldsimp. by eapply rp_is_Some.
        -- rewrite Hlast in E. by fldsimp.
      * intros y Hy. pose proof (Hne y Hy). by fldsimp.
      * fldsimp. apply fld_alter_eq; [by eauto|done].
      * fldsimp. rewrite Hlast. apply fld_alter_eq; [fldsimp; by eauto|done].
    + apply Forall_app. split.
      * rewrite Forall_forall in ap_nodes0 |- *. intros [y v'] Hy.
        apply (node_ok_ext _ (els s)); [fldsimp; done..|]. by apply ap_nodes0.
      * constructor; [|done]. split; cbn.
        -- fldsimp. by rewrite Hx, <- Hv.
        -- by fldsimp.
        -- by fldsimp.
        -- exists k. by fldsimp.
  - eapply bp_ext; [|done]. intros y Hy. pose proof (Hne y Hy). split_and!; by fldsimp.
Qed.
(** Stores to the handle of an element outside the table. *)
Lemma rep_st u t T bs cs L xvs ys F s x e :
  rep t T bs cs L xvs ys F s → (∀ y, y ∈ ys → y ∈ xvs.*1) → r_els F !! x = Some e →
  rep t T bs cs L xvs ys (rest_add x (set_hh u e) F) (s <| els := alter (set_hh u) x (els s) |>).
Proof.
  intros [] Hys HxF. pose proof HxF as Hx. rewrite rp_els0 in Hx. case_decide as Hxn; [done|].
  assert (∀ y, y ∈ xvs.*1 → y ≠ x) as Hne by (by intros y Hy ->).
  split; unfold rest_add; sred; cbn [r_els r_tbls r_arrs]; try done.
  - intros n Hn. sred_in Hn. destruct (rp_wf0 n Hn) as (H1 & H2 & H3). split_and!; sred; try done.
    apply eq_None_not_Some. rewrite alter_is_Some, H1. apply is_Some_None.
  - intros y. rewrite lookup_insert, lookup_alter. case_decide as Hy.
    + subst. rewrite decide_False by done. by rewrite Hx.
    + apply rp_els0.
  - destruct rp_app0. split; [done| |].
    + revert ap_dll0. apply dll_ext; intros y Hy; pose proof (Hne y Hy); by fldsimp.
    + rewrite Forall_forall in ap_nodes0 |- *. intros [y v'] Hy.
      assert (x ≠ y).
      { intros ->. apply Hxn. change y with ((y, v').1). by apply list_elem_of_fmap_2. }
      apply (node_ok_ext _ (els s)); [by fldsimp..|]. by apply ap_nodes0.
  - eapply bp_ext; [|done]. intros y Hy. pose proof (Hne y (Hys y Hy)). split_and!; by fldsimp.
Qed.

Lemma it_wf {h xvs F s} : is_table h xvs F s → store_wf s.
Proof. intros [_ H]. destruct xvs; [by destruct H|]. destruct H as (? & ? & ? & ? & ? & []). done. Qed.

Lemma it_els {h xvs F s} y :
  is_table h xvs F s → r_els F !! y = if decide (y ∈ xvs.*1) then None else els s !! y.
Proof.
  intros [_ H]. destruct xvs.
  - destruct H as (_ & -> & _). cbn. done.
  - destruct H as (? & ? & ? & ? & ? & []). done.
Qed.

Lemma it_rest {h xvs F s x e} : is_table h xvs F s → r_els F !! x = Some e → els s !! x = Some e.
Proof. intros Hi. rewrite (it_els _ Hi). by case_decide. Qed.

Lemma it_st u h xvs F s x e :
  is_table h xvs F s → r_els F !! x = Some e →
  is_table h xvs (rest_add x (set_hh u e) F) (s <| els := alter (set_hh u) x (els s) |>).
Proof.
  intros Hi Hx. pose proof (it_rest Hi Hx) as Hx'. pose proof (it_wf Hi) as Hwf.
  destruct Hi as [Hh Hi]. split; [done|]. destruct xvs as [|xv xvs].
  - destruct Hi as (_ & HE & HT & HA). split_and!; [|sred|done|done].
    + intros n Hn. sred_in Hn. destruct (Hwf n Hn) as (H1 & H2 & H3). split_and!; sred; try done.
      apply eq_None_not_Some. rewrite alter_is_Some, H1. apply is_Some_None.
    + rewrite HE. unfold rest_add. cbn [r_els]. apply map_eq. intros y.
      rewrite lookup_insert, lookup_alter. case_decide; [subst|done]. by rewrite Hx.
  - destruct Hi as (t & T & bs & cs & L & Hr). exists t, T, bs, cs, L. by apply rep_st.
Qed.

Lemma rest_add_eq x (e : element V) F : r_els (rest_add x e F) !! x = Some e.
Proof. apply lookup_insert_eq. Qed.

Lemma rest_del_add x (e : element V) F : rest_del x (rest_add x e F) = rest_del x F.
Proof. unfold rest_del, rest_add. cbn. by rewrite delete_insert_eq. Qed.

Lemma rest_add_add x (e e' : element V) F : rest_add x e' (rest_add x e F) = rest_add x e' F.
Proof. unfold rest_add. cbn. by rewrite insert_insert_eq. Qed.

Lemma wp_it_st u h xvs F s x e Q :
  is_table h xvs (rest_add x e F) s →
  (∀ s', is_table h xvs (rest_add x (set_hh u e) F) s' → Q tt s') → wp (st u x) Q s.
Proof.
  intros Hi HQ. pose proof (rest_add_eq x e F) as Hx.
  apply wp_st; [by rewrite (it_rest Hi Hx)|]. apply HQ.
  rewrite <- (rest_add_add x e). by apply it_st.
Qed.

Lemma rest_add_id x (e : element V) F : r_els F !! x = Some e → rest_add x e F = F.
Proof. intros Hx. unfold rest_add. rewrite insert_id by done. by destruct F. Qed.

Lemma key_is_strlen v k : key_is v k → strlen_list (key_field v) = Ok (lenZ k) ∧ u32 (lenZ k) = lenZ k.
Proof.
  intros [E Hl]. unfold strlen_list. rewrite E. split; [done|].
  pose proof (lenZ_nonneg k). unfold u32, wrap. apply Z.mod_small. lia.
Qed.

Lemma key_is_hash v k : key_is v k → HASH_JEN (key_field v) (lenZ k) = HASH_JEN k (lenZ k).
Proof. intros [(_ & r & ->)%cstr_inv _]. apply HASH_JEN_app. Qed.

Lemma rep_is_table t T bs cs L xvs ys F s h :
  rep t T bs cs L xvs ys F s → ys ≡ₚ xvs.*1 → xvs ≠ [] → h = head xvs.*1 → is_table h xvs F s.
Proof.
  intros Hr Hp Hne ->. split; [done|]. destruct xvs as [|xv xvs]; [done|].
  exists t, T, bs, cs, L. destruct Hr. split; [done..| | |].
  - rewrite rp_items0. unfold lenZ. by rewrite Hp.
  - done.
  - by eapply bp_ys.
Qed.

(** The handle of [x] has the key [k] of [v]. *)
Definition keyed x k (e : element V) : Prop :=
  key (hh e) = Some x ∧ keylen (hh e) = lenZ k ∧ hashv (hh e) = HASH_JEN k (lenZ k).

(** The first statements of an insertion. *)
Lemma wp_set_key {A} h xvs F s x e v k (m : HM V A) Q :
  is_table h xvs (rest_add x e F) s → val e = v →
  (∀ s' e', is_table h xvs (rest_add x e' F) s' → val e' = v → keyed x k e' → wp m Q s') →
  wp (st (λ h, h <| hashv := HASH_JEN k (lenZ k) |>) x;;
      st (λ h, h <| key := Some x |>) x;;
      st (λ h, h <| keylen := lenZ k |>) x;; m) Q s.
Proof.
  intros Hi Hv HQ.
  wpb. eapply wp_it_st; [exact Hi|]. clear s Hi. intros s Hi.
  wpb. eapply wp_it_st; [exact Hi|]. clear s Hi. intros s Hi.
  wpb. eapply wp_it_st; [exact Hi|]. clear s Hi. intros s Hi. by eapply HQ.
Qed.

(** The first element of a table. *)
Lemma wp_link_first F s x e v k Q :
  is_table None [] (rest_add x e F) s → val e = v → key_is v k → keyed x k e →
  (∀ s' t T bs cs, rep t T bs cs 5 [(x, v)] [] (rest_del x F) s' →
     fld hashv (els s') x = Some (HASH_JEN k (lenZ k)) → Q (Some x) s') →
  wp (st (λ h, h <| next := None |>) x;;
      st (λ h, h <| prev := None |>) x;;
      HASH_MAKE_TABLE x;;
      mret (Some x)) Q s.
Proof.
  intros Hi Hv Hk (Hky & Hkl & Hhv) HQ.
  wpb. eapply wp_it_st; [exact Hi|]. clear s Hi. intros s Hi.
  wpb. eapply wp_it_st; [exact Hi|]. clear s Hi. intros s Hi.
  pose proof (it_rest Hi (rest_add_eq _ _ _)) as Hxe.
  wpb. eapply wp_make_table; [exact Hi|exact Hxe|exact Hv|exact Hk
    |unfold fld; rewrite Hxe; cbn; by rewrite ?Hhv, ?Hky, ?Hkl..|].
  intros s' t T bs cs Hr E. apply wp_ret. eapply HQ; [by rewrite rest_del_add in Hr|].
  rewrite E. unfold fld. rewrite Hxe. cbn. by rewrite Hhv.
Qed.

(** A further element gets the table of the head. *)
Lemma wp_set_table {A} h1 xvs F s x e v k (m : HM V A) Q :
  is_table (Some h1) xvs (rest_add x e F) s → val e = v → key_is v k → keyed x k e →
  (∀ s' t T bs cs L e', rep t T bs cs L xvs xvs.*1 (rest_add x e' F) s' →
     node_ok t (els s') (x, v) → wp m Q s') →
  wp (t ← tbl_of (Some h1); st (λ h, h <| tbl := Some t |>) x;; m) Q s.
Proof.
  intros Hi Hv Hk (Hky & Hkl & Hhv) HQ.
  pose proof (it_rest Hi (rest_add_eq _ _ _)) as Hx0.
  assert (xvs ≠ []) as Hne by (intros ->; by destruct Hi).
  destruct Hi as [Eh Hi]. destruct xvs as [|[h2 v2] xvs]; [done|]. destruct Hi as (t & T & bs & cs & L & Hr).
  injection Eh as ->.
  wpb. eapply wp_tbl_of; [eapply rp_id; [exact Hr|apply list_elem_of_here]|].
  wpb. apply wp_st; [by rewrite Hx0|].
  eapply (rep_st (λ h, h <| tbl := Some t |>)) in Hr; [|done|apply rest_add_eq].
  rewrite rest_add_add in Hr. eapply HQ; [exact Hr|].
  pose proof (rp_els _ _ _ _ _ _ _ _ _ Hr x) as Hy. rewrite rest_add_eq in Hy.
  case_decide; [done|]. symmetry in Hy. sred_in Hy.
  split; cbn; unfold fld; rewrite Hy; cbn; rewrite ?Hv, ?Hky; [done..|].
  exists k. by rewrite Hkl, Hhv.
Qed.

(** The last statements: the bucket, and the table is complete. *)
Lemma wp_add_finish t T bs cs L xvs ys F s h0 x k Q :
  rep t T bs cs L xvs ys F s → h0 ∈ xvs.*1 → x :: ys ≡ₚ xvs.*1 →
  fld hashv (els s) x = Some (HASH_JEN k (lenZ k)) →
  (∀ s', is_table (head xvs.*1) xvs F s' → Q tt s') →
  wp (HASH_ADD_TO_TABLE (Some h0) (HASH_JEN k (lenZ k)) x) Q s.
Proof.
  intros Hr Hh0 Hp Hhv HQ.
  pose proof (ap_nodup _ _ _ (rp_app _ _ _ _ _ _ _ _ _ Hr)) as Hnd.
  rewrite <- Hp in Hnd. apply NoDup_cons in Hnd as [Hx _].
  eapply wp_add_to_table; [exact Hr|done| |done| |exact Hhv|].
  - rewrite <- Hp. apply list_elem_of_here.
  - intros y Hy. rewrite <- Hp. by apply list_elem_of_further.
  - intros s' T' bs' cs' L' Hr' _. apply HQ. eapply rep_is_table; [exact Hr'|done| |done].
    intros ->. by apply not_elem_of_nil in Hh0.
Qed.

(** [HASH_ADD_STR] appends the element to the table. *)
Lemma wp_HASH_ADD_STR h xvs F s x e v k Q :
  is_table h xvs F s → r_els F !! x = Some e → val e = v → key_is v k →
  (∀ h' s', is_table h' (xvs ++ [(x, v)]) (rest_del x F) s' → Q h' s') →
  wp (HASH_ADD_STR h x) Q s.
Proof.
  intros Hi Hx Hv Hk HQ. destruct (key_is_strlen v k Hk) as [Hlen Hu].
  unfold HASH_ADD_STR. wpb. eapply wp_ld_val; [by eapply it_rest|]. rewrite Hv.
  wpb. eapply wp_uthash_strlen; [exact Hlen|]. rewrite Hu, key_is_hash by done.
  unfold HASH_ADD_KEYPTR_BYHASHVALUE.
  rewrite <- (rest_add_id x e F) in Hi by done. rewrite <- (rest_del_add x e F), rest_del_add in HQ.
  eapply wp_set_key; [exact Hi|exact Hv|]. clear s e Hi Hx Hv. intros s e Hi Hv Hke. wpb.
  destruct h as [h1|].
  - assert (h1 ∈ xvs.*1) as Hh1 by (apply head_Some_elem_of; symmetry; apply Hi).
    eapply wp_set_table with (m := HASH_APPEND_LIST (Some h1) x;; mret (Some h1)); [exact Hi|done..|].
    intros s' t T bs cs L e' Hr [Hxv Htb Hky (k' & Hk' & Hkl & Hhv)]. cbn in *.
    rewrite (key_is_inj _ _ _ Hk' Hk) in *.
    pose proof (rp_els _ _ _ _ _ _ _ _ _ Hr x) as Hxe. rewrite rest_add_eq in Hxe.
    case_decide; [done|]. rewrite <- Hxe in Hxv. injection Hxv as Hxv.
    wpb. eapply wp_append_list; [exact Hr|done|apply rest_add_eq|exact Hxv|exact Hk|done..|].
    intros s2 T' Hr' E. apply wp_ret. wpb. rewrite rest_del_add in Hr'.
    eapply wp_add_finish; [exact Hr'|rewrite fst_snoc; set_solver|rewrite fst_snoc; apply Permutation_cons_append
      |by rewrite E|].
    intros s3 Hi3. apply wp_ret, HQ. rewrite fst_snoc in Hi3. destruct Hi as [-> _].
    destruct xvs as [|[]]; [by apply not_elem_of_nil in Hh1|exact Hi3].
  - assert (xvs = []) as -> by (destruct Hi as [Eh _]; by destruct xvs as [|[]]).
    eapply wp_link_first; [exact Hi|done..|]. intros s' t T bs cs Hr E. wpb.
    eapply wp_add_finish; [exact Hr|apply list_elem_of_here|done|done|].
    intros s2 Hi2. by apply wp_ret, HQ.
Qed.
End add.
