(* ===== verification/UtHashTable.v ===== *)
(** * Finding and deleting in a hash table, and the contract of a table

    The rest of the operations on the representation of UtHashRep, and the class
    [HashTable] of what a client of the macros may rely on, with its instance. *)

From S2P Require Import Prelude CString UtHash UtHashRep.

(** ** Finding *)

Section find.
Context {V : Type} `{!HashEnv V}.
Implicit Types (x : nat) (v : V) (s : store V) (xvs : list (nat * V)) (k kb r : list Z).

Lemma wp_memcmp_eq k k' rst rst' n Q s :
  lenZ k = n → lenZ k' = n → Q (bool_decide (k = k')) s →
  wp (memcmp_eq (k ++ rst) (k' ++ rst') n) Q s.
Proof.
  intros <- Hl HQ. unfold memcmp_eq.
  pose proof (lenZ_nonneg rst). pose proof (lenZ_nonneg rst').
  rewrite !lenZ_app, !(proj2 (Z.leb_le _ _)) by lia. cbn [andb]. apply wp_ret.
  rewrite to_nat_lenZ, take_app_length, take_app_length'; [done|]. unfold lenZ in Hl. lia.
Qed.

Lemma fst_unique xvs x v v' : NoDup xvs.*1 → (x, v) ∈ xvs → (x, v') ∈ xvs → v = v'.
Proof.
  induction xvs as [|[y w] xvs IH]; cbn; [by intros _ ?%not_elem_of_nil|].
  intros [Hy Hnd]%NoDup_cons [E|H]%elem_of_cons [E'|H']%elem_of_cons; simplify_eq; try done.
  - exfalso. apply Hy. change y with ((y, v').1). by apply list_elem_of_fmap_2.
  - exfalso. apply Hy. change y with ((y, v).1). by apply list_elem_of_fmap_2.
  - by apply IH.
Qed.

(** What a search for [k] among the elements [c] may answer. *)
Definition found xvs (c : list nat) k (res : option nat) : Prop :=
  match res with
  | Some x => ∃ v, x ∈ c ∧ (x, v) ∈ xvs ∧ key_is v k
  | None => ∀ x v, x ∈ c → (x, v) ∈ xvs → ¬ key_is v k
  end.

Lemma wp_find_loop t kb k xvs s Q :
  cstr kb = Ok k → Forall (node_ok t (els s)) xvs → NoDup xvs.*1 → ∀ c fuel,
  (length c ≤ fuel)%nat → sll (fld hh_next (els s)) c → (∀ x, x ∈ c → x ∈ xvs.*1) →
  (∀ res, found xvs c k res → Q res s) →
  wp (find_loop fuel (head c) kb (lenZ k) (HASH_JEN k (lenZ k))) Q s.
Proof.
  intros Hkb Hn Hnd c. induction c as [|x c IH]; intros fuel Hf Hsl Hc HQ.
  { destruct fuel; cbn; apply wp_ret, HQ; intros x v Hx; by apply not_elem_of_nil in Hx. }
  destruct fuel as [|fuel]; [cbn in Hf; lia|]. cbn [find_loop head].
  destruct (proj1 (list_elem_of_fmap _ _ _) (Hc x (list_elem_of_here _ _))) as ([x' v] & Hx' & Hv).
  cbn in Hx'. subst x'. rewrite Forall_forall in Hn.
  destruct (Hn (x, v) Hv) as [Hval _ Hky (k' & Hk & Hkl & Hhv)]. cbn in *.
  rewrite <- Forall_forall in Hn. destruct Hsl as [HN Hsl].
  assert (∀ Q', (∀ b, (b = true ↔ k' = k) → Q' b s) →
    wp (if (HASH_JEN k' (lenZ k') =? HASH_JEN k (lenZ k)) && (lenZ k' =? lenZ k)
        then y ← ld key x; y ← deref y; v ← ld_val y; memcmp_eq (key_field v) kb (lenZ k)
        else mret false) Q' s) as Hcmp.
  { intros Q' HQ'. destruct (_ && _) eqn:E.
    - apply andb_true_iff in E as [_ El%Z.eqb_eq].
      wpb. eapply wp_ld; [exact Hky|]. wpb. apply wp_deref.
      destruct (els s !! x) as [e|] eqn:Ee; [|done]. injection Hval as Hval.
      wpb. eapply wp_ld_val; [exact Ee|]. rewrite Hval.
      destruct Hk as [(_ & r1 & ->)%cstr_inv _]. destruct (cstr_inv _ _ Hkb) as (_ & r2 & ->).
      apply wp_memcmp_eq; [done..|]. apply HQ'. by rewrite bool_decide_eq_true.
    - apply wp_ret, HQ'. split; [done|]. intros ->. by rewrite !Z.eqb_refl in E. }
  wpb. eapply wp_ld; [exact Hhv|]. wpb. eapply wp_ld; [exact Hkl|].
  wpb. apply Hcmp. intros [] Hb.
  - apply wp_ret, HQ. exists v. split_and!; [apply list_elem_of_here|done|].
    by rewrite <- (proj1 Hb eq_refl).
  - wpb. eapply wp_ld; [exact HN|]. apply IH; [cbn in Hf; lia|done| |].
    + intros y Hy. apply Hc. by apply list_elem_of_further.
    + intros res Hres. apply HQ. destruct res as [y|].
      * destruct Hres as (w & H1 & H2 & H3). exists w. split_and!; [|done..].
        by apply list_elem_of_further.
      * intros y w [->|Hy]%elem_of_cons Hw Hkw; [|by eapply Hres].
        rewrite (fst_unique _ _ _ _ Hnd Hw Hv) in Hkw.
        by discriminate (proj2 Hb (key_is_inj _ _ _ Hk Hkw)).
Qed.

(** [HASH_FIND_STR] finds an element with the key, if there is one. *)
Lemma wp_HASH_FIND_STR h xvs F s kb k Q :
  is_table h xvs F s → cstr kb = Ok k → lenZ k < 2 ^ 32 →
  (∀ res, found xvs xvs.*1 k res → Q res s) → wp (HASH_FIND_STR h kb) Q s.
Proof.
  intros [-> Hi] Hkb Hlk HQ. unfold HASH_FIND_STR.
  wpb. eapply wp_uthash_strlen; [unfold strlen_list; by rewrite Hkb|].
  replace (u32 (lenZ k)) with (lenZ k)
    by (pose proof (lenZ_nonneg k); unfold u32, wrap; rewrite Z.mod_small; lia).
  destruct (cstr_inv _ _ Hkb) as (_ & r & Ek).
  replace (HASH_JEN kb (lenZ k)) with (HASH_JEN k (lenZ k)) by (by rewrite Ek, HASH_JEN_app).
  destruct xvs as [|[h0 v0] xvs].
  { apply wp_ret, HQ. intros x v _ Hx. by apply not_elem_of_nil in Hx. }
  destruct Hi as (t & T & bs & cs & L & Hr). cbn [head fmap list_fmap].
  unfold HASH_FIND_BYHASHVALUE. pose proof Hr as [].
  wpb. eapply wp_tbl_of; [eapply rp_id; [exact Hr|apply list_elem_of_here]|].
  wpb. eapply wp_ldT; [exact (rp_ldT Hr)|]. rewrite rp_nb.
  destruct (bp_bucket _ L _ _ _ (HASH_JEN k (lenZ k)) rp_bkt rp_L) as [b Hbi].
  destruct (bp_chain _ _ _ _ _ _ _ rp_bkt Hbi) as (c & Hc & (Hh & _ & Hd) & Hcnd).
  wpb. eapply wp_ldB; [exact (rp_ldA Hr)|exact Hbi|]. unfold HASH_FIND_IN_BKT. rewrite Hh.
  set (xvs' := _ :: xvs) in *. pose proof (ap_nodes _ _ _ rp_app) as Hn.
  assert (∀ x, x ∈ c → x ∈ xvs'.*1) as Hcin by (intros; by eapply bp_in).
  match goal with |- wp (λ s', find_loop ?f ?p ?k ?l ?hv s') _ _ =>
    change (wp (find_loop (S (size (els s))) p k l hv) Q s) end.
  eapply wp_find_loop; [exact Hkb|exact Hn|by apply rp_app| | |exact Hcin|].
  - etrans; [eapply concat_length_le; [exact Hcnd|]|apply Nat.le_succ_diag_r].
    intros x Hx. eapply rp_is_Some; [exact Hr|auto].
  - by eapply dll_sll.
  - intros res Hres. apply HQ. destruct res as [x|].
    + destruct Hres as (v & H1 & H2 & H3). exists v. by split; [auto|].
    + intros x v Hx Hv Hkv. apply (Hres x v); [|done..].
      (* its hash value leads to the same chain *)
      eapply bp_in_chain; [exact rp_bkt|exact Hc|done|].
      rewrite Forall_forall in Hn. destruct (Hn (x, v) Hv) as [_ _ _ (k' & Hk' & _ & Ehv')].
      cbn in *. rewrite (key_is_inj _ _ _ Hk' Hkv) in Ehv'. by eexists.
Qed.
End find.

(** ** Deleting *)

Section delete.
Context {V : Type} `{!HashEnv V}.
Implicit Types (m : gmap nat (element V)) (x y : nat) (v : V) (s : store V)
  (xvs l r : list (nat * V)) (o : option nat) (c : list nat)
  (u : UT_hash_handle → UT_hash_handle).

(** A store through a pointer that may be null. *)
Definition alter_opt (u : UT_hash_handle → UT_hash_handle) o m : gmap nat (element V) :=
  match o with Some y => alter (set_hh u) y m | None => m end.

Lemma wp_st_opt u o Q s :
  (∀ y, o = Some y → is_Some (els s !! y)) → Q tt (s <| els := alter_opt u o (els s) |>) →
  wp (match o with Some y => st u y | None => mret tt end) Q s.
Proof.
  intros Ho HQ. destruct o as [y|]; [by apply wp_st; [apply Ho|]|].
  apply wp_ret. cbn in HQ. by destruct s.
Qed.

Lemma fld_alter_opt {A} (f : UT_hash_handle → A) u o m y w :
  (∀ h, f (u h) = w) → is_Some (m !! y) →
  fld f (alter_opt u o m) y = if decide (o = Some y) then Some w else fld f m y.
Proof.
  intros Hf Hy. destruct o as [z|]; cbn; [|done]. case_decide as E.
  - injection E as ->. by apply fld_alter_eq.
  - apply fld_alter_ne. congruence.
Qed.

Lemma fld_alter_opt_id {A} (f : UT_hash_handle → A) u o m y :
  (∀ h, f (u h) = f h) → fld f (alter_opt u o m) y = fld f m y.
Proof. intros. destruct o; cbn; [|done]. by apply fld_alter_id. Qed.

Lemma alter_opt_ne u o m y : o ≠ Some y → alter_opt u o m !! y = m !! y.
Proof. intros. destruct o; cbn; [|done]. apply lookup_alter_ne. congruence. Qed.

Lemma same_but_alter_opt u u' m o : (∀ h, u (u' h) = u h) → same_but u m (alter_opt u' o m).
Proof. intros. destruct o; cbn; [|done]. by apply same_but_alter. Qed.

(** The neighbours of an element in a list. *)
Lemma last_in (l r : list nat) y : last l = Some y → y ∈ l ++ r.
Proof. intros Hy%last_Some_elem_of. apply elem_of_app. by left. Qed.

Lemma head_in (l r : list nat) y : head r = Some y → y ∈ l ++ r.
Proof.
  intros Hy. apply elem_of_app. right. destruct r; [done|]. injection Hy as ->. apply list_elem_of_here.
Qed.

(** Unlinking [x] from a list, its links in the fields [N] and [P], sets one
    field of each neighbour. *)
Lemma unlink_neighbours (clr un up : UT_hash_handle → UT_hash_handle) (N P : UT_hash_handle → option nat)
    m (l : list nat) x (r : list nat) :
  NoDup (l ++ x :: r) → dll (fld N m) (fld P m) None (l ++ x :: r) None →
  (∀ y, y ∈ l ++ r → is_Some (m !! y)) →
  (∀ h, clr (un h) = clr h ∧ N (un h) = head r ∧ P (un h) = P h) →
  (∀ h, clr (up h) = clr h ∧ P (up h) = last l ∧ N (up h) = N h) →
  let m' := alter_opt up (head r) (alter_opt un (last l) m) in
  dll (fld N m') (fld P m') None (l ++ r) None ∧ same_but clr m m' ∧
  ∀ y, y ∉ l ++ r → m' !! y = m !! y.
Proof.
  intros Hnd Hd Hex Hun Hup m'. unfold m'. split_and!.
  - eapply dll_delete; [exact Hnd|exact Hd| |]; intros y Hy.
    + rewrite fld_alter_opt_id by apply Hup. apply fld_alter_opt; [apply Hun|auto].
    + rewrite (fld_alter_opt _ _ _ _ _ (last l)); [|apply Hup|].
      * case_decide; [done|]. apply fld_alter_opt_id, Hun.
      * apply (same_but_is_Some clr m); [apply same_but_alter_opt, Hun|auto].
  - etrans; apply same_but_alter_opt; [apply Hun|apply Hup].
  - intros y Hy. rewrite !alter_opt_ne; [done|intros E; apply Hy..]; [by apply last_in|by apply head_in].
Qed.

(** Unlinking [x] from its bucket [i]. *)
Lemma wp_HASH_DEL_IN_BKT a nb i x bs cs ys ys' s Q :
  arrs s !! a = Some bs → bkt_part (els s) nb bs cs ys → ys ≡ₚ x :: ys' →
  hashes_to (els s) nb (Z.to_nat i) x → (Z.to_nat i < length bs)%nat →
  (∀ m' bs' cs', bkt_part m' nb bs' cs' ys' → same_but clr_hh (els s) m' →
     (∀ y, y ∉ ys' → m' !! y = els s !! y) →
     Q tt (s <| arrs := <[a := bs']> (arrs s) |> <| els := m' |>)) →
  wp (HASH_DEL_IN_BKT a i x) Q s.
Proof.
  intros Ha Hb Hp Hhash Hlt HQ.
  destruct (lookup_lt_is_Some_2 bs (Z.to_nat i) Hlt) as [b Hbi].
  destruct (bp_chain _ _ _ _ _ _ _ Hb Hbi) as (c & Hc & (Hh & Hcnt & Hd) & Hcnd).
  assert (x ∈ c) as Hxc by (eapply bp_in_chain; [done..|rewrite Hp; apply list_elem_of_here|done]).
  apply list_elem_of_split in Hxc as (c1 & c2 & ->).
  pose proof Hd as [Hd1 (HPx & HNx & Hd2)]%dll_app. rewrite lasto_None in *.
  rewrite onto_None in HNx.
  assert (∀ y, y ∈ c1 ++ c2 → is_Some (els s !! y)) as Hex.
  { intros y Hy. destruct (bp_hash _ _ _ _ _ Hb (Z.to_nat i) _ y Hc) as (? & E & _).
    - set_solver.
    - by eapply fld_is_Some. }
  unfold HASH_DEL_IN_BKT. wpb. eapply wp_ldB; [done..|].
  wpb. eapply wp_ld; [exact HPx|]. wpb. eapply wp_ld; [exact HNx|].
  set (b' := if bool_decide _ then _ else _).
  wpb. eapply wp_stB; [done|exact (mk_is_Some _ _ Hbi)|].
  wpb. apply wp_st_opt; [intros y Hy; sred; apply Hex; by apply last_in|]. sred.
  apply wp_st_opt.
  { intros y Hy. sred. apply (same_but_is_Some clr_hh (els s)); [by apply same_but_alter_opt|].
    apply Hex. by apply head_in. }
  sred. destruct (unlink_neighbours clr_hh (λ h, h <| hh_next := head c2 |>)
    (λ h, h <| hh_prev := last c1 |>) hh_next hh_prev (els s) c1 x c2) as (Hd' & Hs & Hf); [done..|].
  set (m' := alter_opt _ _ (alter_opt _ _ _)) in *.
  assert (∀ z, z ∈ ys ↔ z = x ∨ z ∈ ys') as Hys.
  { intros z. by rewrite Hp, elem_of_cons. }
  assert (∀ y, y ∈ c1 ++ c2 → y ∈ ys') as Hcy.
  { intros y Hy. destruct (proj1 (Hys y)) as [->|]; [|exfalso|done].
    - eapply (bp_in _ _ _ _ _ _ _ _ Hb Hc). set_solver.
    - apply NoDup_app in Hcnd as (_ & H1 & [H2 _]%NoDup_cons).
      apply elem_of_app in Hy as [Hy|]; [|done]. apply (H1 x Hy), list_elem_of_here. }
  apply (HQ m' (<[Z.to_nat i:=b']> bs) (<[Z.to_nat i:=c1 ++ c2]> cs)); [|done|].
  - eapply (bp_insert (els s)); [exact Hb|exact Hc|done| | | | |].
    + intros y Hy _. apply Hf. set_solver.
    + split_and!.
      * unfold b'. cbn [hh_head upd]. rewrite Hh. destruct c1 as [|z c1]; cbn.
        -- by rewrite bool_decide_eq_true_2.
        -- rewrite bool_decide_eq_false_2; [done|]. intros [= ->].
           apply NoDup_app in Hcnd as (_ & H1 & _). apply (H1 x); apply list_elem_of_here.
      * unfold b'. destruct (bool_decide _); cbn; rewrite Hcnt; unfold lenZ;
          rewrite !length_app; cbn [length]; unfold u32, wrap; rewrite Zminus_mod_idemp_l; f_equal; lia.
      * exact Hd'.
    + intros y Hy. apply (bp_hash _ _ _ _ _ Hb _ _ _ Hc). set_solver.
    + intros r Hr. apply (Permutation_cons_inv (a := x)). rewrite <- Hp, Hr. solve_Permutation.
    + eapply (NoDup_cons x). rewrite <- Hp. apply Hb.
  - intros y Hy. apply Hf. auto.
Qed.
Lemma it_rep h xvs F s :
  is_table h xvs F s → xvs ≠ [] →
  h = head xvs.*1 ∧ ∃ t T bs cs L, rep t T bs cs L xvs xvs.*1 F s.
Proof. intros [-> H] Hne. split; [done|]. by destruct xvs. Qed.

(** The element [x] back among the rest. *)
Lemma rest_add_els xvs xvs' F m m' x e y :
  (∀ y, r_els F !! y = if decide (y ∈ xvs.*1) then None else m !! y) →
  (∀ y, y ∈ xvs.*1 ↔ y = x ∨ y ∈ xvs'.*1) → x ∉ xvs'.*1 → m' !! x = Some e →
  (∀ y, y ∉ xvs.*1 → m' !! y = m !! y) →
  r_els (rest_add x e F) !! y = if decide (y ∈ xvs'.*1) then None else m' !! y.
Proof.
  intros HF Hxs Hx He Hm. cbn. rewrite lookup_insert. case_decide as Hy.
  - subst. by rewrite decide_False.
  - rewrite HF. case_decide as Hy1; case_decide as Hy2; try done.
    + apply Hxs in Hy1 as [->|]; done.
    + exfalso. apply Hy1, Hxs. by right.
    + symmetry. by apply Hm.
Qed.

(** The tail pointer follows when the last element goes. *)
Lemma wp_drop_tail t T (l1 r1 : list nat) x Q s :
  tbls s !! t = Some T → tail T = last (l1 ++ x :: r1) → x ∉ r1 →
  Q tt (s <| tbls := <[t := T <| tail := last (l1 ++ r1) |>]> (tbls s) |>) →
  wp (if bool_decide (tail T = Some x) then stT t (T <| tail := last l1 |>) else mret tt) Q s.
Proof.
  intros HT Htl Hx HQ. rewrite last_app, last_cons in Htl. rewrite last_app in HQ.
  destruct (last r1) as [z|] eqn:Elast.
  - rewrite Htl, bool_decide_eq_false_2.
    2: { intros [= ->]. apply Hx. by apply last_Some_elem_of. }
    apply wp_ret. rewrite <- Htl in HQ.
    replace (T <| tail := tail T |>) with T in HQ by (by destruct T).
    rewrite insert_id in HQ by done. by destruct s.
  - rewrite Htl, bool_decide_eq_true_2 by done. apply wp_stT; [by rewrite HT|done].
Qed.

(** Unlinking [x] from the application order, and the new head. *)
Lemma wp_unlink_app (l1 r1 : list nat) x h0 (k : option nat → HM V (option nat)) Q s :
  NoDup (l1 ++ x :: r1) → dll (fld next (els s)) (fld prev (els s)) None (l1 ++ x :: r1) None →
  (∀ y, y ∈ l1 ++ r1 → is_Some (els s !! y)) → head (l1 ++ x :: r1) = Some h0 →
  (∀ m', dll (fld next m') (fld prev m') None (l1 ++ r1) None → same_but clr_app (els s) m' →
     (∀ y, y ∉ l1 ++ r1 → m' !! y = els s !! y) → wp (k (head (l1 ++ r1))) Q (s <| els := m' |>)) →
  wp (hd ← match last l1 with
             | Some p' => st (λ h, h <| next := head r1 |>) p';; mret (Some h0)
             | None => mret (head r1)
             end;
      match head r1 with Some n' => st (λ h, h <| prev := last l1 |>) n' | None => mret tt end;;
      k hd) Q s.
Proof.
  intros Hnd Hdll Hex Eh HQ.
  destruct (unlink_neighbours clr_app (λ h, h <| next := head r1 |>) (λ h, h <| prev := last l1 |>)
    next prev (els s) l1 x r1) as (Hd & Hs & Hf); [done..|].
  specialize (HQ _ Hd Hs Hf).
  wpb. assert (∀ Q', Q' (head (l1 ++ r1)) (s <| els := alter_opt (λ h, h <| next := head r1 |>) (last l1) (els s) |>) →
    wp (match last l1 with
        | Some p' => st (λ h, h <| next := head r1 |>) p';; mret (Some h0)
        | None => mret (head r1)
        end) Q' s) as Hnx.
  { intros Q' HQ'. destruct (last l1) as [p'|] eqn:El.
    - wpb. apply wp_st; [apply Hex; by apply last_in|]. apply wp_ret.
      replace (Some h0) with (head (l1 ++ r1)); [done|]. destruct l1; [done|]. by cbn in Eh |- *.
    - apply last_None in El. rewrite El in *. apply wp_ret. cbn in HQ' |- *. by destruct s. }
  apply Hnx. wpb. apply wp_st_opt; [|exact HQ].
  intros y Hy. sred. apply (same_but_is_Some clr_app (els s)); [by apply same_but_alter_opt|].
  apply Hex. by apply head_in.
Qed.

(** The table without [x], once its links are gone. *)
Lemma rep_drop t T bs cs L l x v r F s m1 m' bs' cs' e s' :
  rep t T bs cs L (l ++ (x, v) :: r) (l ++ (x, v) :: r).*1 F s →
  let l1 := l.*1 in let r1 := r.*1 in
  let T' := T <| tail := last (l1 ++ r1) |> <| num_items := u32 (num_items T - 1) |> in
  els s !! x = Some e → same_but clr_app (els s) m1 → same_but clr_hh m1 m' →
  (∀ y, y ∉ l1 ++ r1 → m' !! y = els s !! y) →
  dll (fld next m1) (fld prev m1) None (l1 ++ r1) None →
  bkt_part m' (2 ^ L) bs' cs' (l1 ++ r1) →
  snxt s' = snxt s → els s' = m' → tbls s' = <[t := T']> (tbls s) →
  arrs s' = <[buckets T := bs']> (arrs s) →
  rep t T' bs' cs' L (l ++ r) (l1 ++ r1) (rest_add x e F) s'.
Proof.
  intros Hr l1 r1 T' Ee Hs1 Hs' Hf Hdll Hb Esn Eels Etb Ear.
  pose proof Hr as [Hwf Hels HT Ht HA Ha Hnb Hlog HL _ Hit [Hnd _ Hnodes] _].
  assert ((l ++ r).*1 = l1 ++ r1) as Elr by apply fmap_app.
  rewrite fmap_app, fmap_cons in Hnd, Hit. cbn [fst] in *.
  assert (NoDup (x :: l1 ++ r1)) as [Hx Hnd']%NoDup_cons.
  { eapply NoDup_Permutation_proper; [|exact Hnd]. solve_Permutation. }
  assert (∀ y, y ∈ (l ++ (x, v) :: r).*1 ↔ y = x ∨ y ∈ l1 ++ r1) as Hids.
  { intros y. rewrite fmap_app, fmap_cons. set_solver. }
  split; rewrite ?Eels, ?Etb, ?Ear; [| | |done| |done|done|done|done|by rewrite Elr| | |done].
  - intros n Hn. rewrite Esn in Hn. destruct (Hwf n Hn) as (H1 & H2 & H3).
    rewrite Eels, Etb, Ear. split_and!.
    + apply eq_None_not_Some.
      rewrite (same_but_is_Some clr_hh m1), (same_but_is_Some clr_app (els s)), H1 by done.
      apply is_Some_None.
    + rewrite lookup_insert_ne; [done|intros ->; by rewrite (rp_ldT Hr) in H2].
    + rewrite lookup_insert_ne; [done|]. intros <-. by rewrite (rp_ldA Hr) in H3.
  - intros y. eapply rest_add_els; [exact Hels| | | |]; rewrite ?Elr; [apply Hids|done|by rewrite Hf|].
    intros z Hz. rewrite Hids in Hz. apply Decidable.not_or in Hz as [_ Hz]. by apply Hf.
  - by rewrite HT, insert_insert_eq.
  - change (buckets T') with (buckets T). by rewrite HA, insert_insert_eq.
  - change (num_items T') with (u32 (num_items T - 1)). rewrite Hit. unfold lenZ.
    rewrite !length_app. cbn [length]. unfold l1, r1, u32, wrap. rewrite Zminus_mod_idemp_l. f_equal. lia.
  - split; rewrite ?Elr; [done| |].
    + eapply dll_ext; [| |exact Hdll]; intros y _; by apply (same_but_fld _ clr_hh m1).
    + apply Forall_app in Hnodes as [Hn1 [_ Hn2]%Forall_cons].
      apply Forall_app. split; (eapply Forall_impl; [eassumption|]); intros xv Hxv;
        (apply (node_ok_same clr_hh _ m1); [done|done|]); by apply (node_ok_same clr_app _ (els s)).
Qed.

(** What remains of [HASH_DELETE_HH] when [x] is not alone. *)
Lemma wp_delete_linked t T bs cs L l x v r F s Q :
  rep t T bs cs L (l ++ (x, v) :: r) (l ++ (x, v) :: r).*1 F s → l ++ r ≠ [] →
  (∀ h' s' e, val e = v → is_table h' (l ++ r) (rest_add x e F) s' → Q h' s') →
  wp (delete_linked (head (l ++ (x, v) :: r).*1) x (last l.*1) (head r.*1)) Q s.
Proof.
  intros Hr Hne HQ. pose proof Hr as [_ _ _ _ _ _ Hnb _ HL Htl _ [Hnd Hdll _] Hbkt].
  assert (∀ y, y ∈ l.*1 ++ r.*1 → y ∈ (l ++ (x, v) :: r).*1) as Hids.
  { intros y. rewrite fmap_app, fmap_cons. set_solver. }
  assert (∀ y, y ∈ (l ++ (x, v) :: r).*1 → is_Some (els s !! y)) as Hex by (intros; by eapply rp_is_Some).
  assert (∀ y, y ∈ (l ++ (x, v) :: r).*1 → fld tbl (els s) y = Some (Some t)) as Htb by (intros; by eapply rp_id).
  rewrite fmap_app, fmap_cons in Htl, Hnd, Hdll, Hbkt, Hids, Hex, Htb |- *. cbn [fst] in *.
  assert ((l ++ r).*1 = l.*1 ++ r.*1) as Elr by apply fmap_app.
  assert (x ∉ l.*1 ++ r.*1 ∧ x ∉ r.*1) as [Hx Hxr].
  { apply NoDup_app in Hnd as (_ & H1 & [H2 _]%NoDup_cons). set_solver. }
  unfold delete_linked.
  destruct (head (l.*1 ++ x :: r.*1)) as [h0|] eqn:Eh; [|by destruct l].
  wpb. eapply wp_tbl_of; [apply Htb; by apply head_Some_elem_of|]. wpb. eapply wp_ldT; [exact (rp_ldT Hr)|].
  wpb. eapply (wp_drop_tail t T _ _ x); [exact (rp_ldT Hr)|done..|].
  eapply wp_unlink_app; [exact Hnd|exact Hdll|auto|done|]. intros m1 Hd1 Hs1 Hf1. sred_in Hs1. sred_in Hf1.
  destruct (rp_node x v Hr) as [Hval _ _ (k & Hk & _ & Hhvx)]; [set_solver|]. cbn in Hval, Hhvx.
  assert (∀ {A} (f : UT_hash_handle → A) y, (∀ h, f (clr_app h) = f h) → fld f m1 y = fld f (els s) y) as Hsame.
  { intros A f y Hf. by apply (same_but_fld _ clr_app). }
  apply (bp_ext _ m1) in Hbkt; [|by intros y _; rewrite !Hsame].
  wpb. eapply wp_ld; [sred; rewrite Hsame by done; exact Hhvx|].
  destruct (head (l.*1 ++ r.*1)) as [h1|] eqn:Eh1; [|rewrite <- Elr in Eh1; by destruct (l ++ r)].
  wpb. eapply wp_tbl_of; [sred; rewrite Hsame by done; apply Htb, Hids; by apply head_Some_elem_of|].
  wpb. eapply wp_ldT; [sred; apply lookup_insert_eq|].
  set (T1 := T <| tail := _ |>). change (num_buckets T1) with (num_buckets T). rewrite Hnb.
  change (buckets T1) with (buckets T).
  wpb. eapply (wp_HASH_DEL_IN_BKT _ (2 ^ L) _ _ bs cs _ (l.*1 ++ r.*1));
    [exact (rp_ldA Hr)|exact Hbkt|solve_Permutation| | |].
  { exists (HASH_JEN k (lenZ k)). split; [|done]. sred. by rewrite Hsame. }
  { apply lookup_lt_is_Some. by eapply bp_bucket. }
  intros m' bs' cs' Hb' Hs' Hf'. sred. sred_in Hs'. sred_in Hf'.
  wpb. eapply wp_ldT; [sred; apply lookup_insert_eq|].
  wpb. apply wp_stT; [sred; rewrite lookup_insert_eq; eauto|]. apply wp_ret.
  destruct (els s !! x) as [e|] eqn:Ee; [|done]. injection Hval as Hval.
  apply (HQ (Some h1) _ e Hval). eapply rep_is_table; [|by rewrite Elr|done|by rewrite Elr].
  eapply rep_drop; [exact Hr|exact Ee|exact Hs1|exact Hs'| |exact Hd1|exact Hb'|..]; sred; try done.
  - intros y Hy. by rewrite Hf', Hf1.
  - by rewrite insert_insert_eq.
Qed.

(** [HASH_DEL] takes the element out of the table and frees the memory of a
    table that becomes empty. *)
Lemma wp_HASH_DEL h l x v r F s Q :
  is_table h (l ++ (x, v) :: r) F s →
  (∀ h' s' e, val e = v → is_table h' (l ++ r) (rest_add x e F) s' → Q h' s') →
  wp (HASH_DEL h x) Q s.
Proof.
  intros Hi HQ. destruct (it_rep _ _ _ _ Hi) as [-> (t & T & bs & cs & L & Hr)]; [by destruct l|].
  pose proof Hr as [Hwf Hels HT Ht HA Ha _ _ _ _ _ [_ Hdll _] _].
  rewrite fmap_app, fmap_cons in Hdll. apply dll_app in Hdll as [_ (HP & HN & _)].
  rewrite lasto_None in HP. rewrite onto_None in HN. cbn [fst] in *.
  unfold HASH_DEL, HASH_DELETE_HH.
  wpb. eapply wp_ld; [exact HP|]. wpb. eapply wp_ld; [exact HN|].
  destruct (decide (l ++ r = [])) as [[-> ->]%app_nil|Hne].
  - cbn in Hr, Hels, HQ |- *.
    wpb. eapply wp_tbl_of; [eapply rp_id; [exact Hr|apply list_elem_of_here]|].
    wpb. eapply wp_ldT; [exact (rp_ldT Hr)|].
    wpb. apply wp_free_array; [by rewrite (rp_ldA Hr)|].
    wpb. apply wp_free_table; [sred; by rewrite (rp_ldT Hr)|]. apply wp_ret.
    destruct (rp_node x v Hr) as [Hval _ _ _]; [apply list_elem_of_here|]. cbn in Hval.
    destruct (els s !! x) as [e|] eqn:Ee; [|done]. injection Hval as Hval.
    apply (HQ None _ e Hval). split; [done|]. split_and!; sred; cbn.
    + intros n Hn. sred_in Hn. destruct (Hwf n Hn) as (H1 & H2 & H3). split_and!; sred; [done|..].
      * rewrite lookup_delete. by case_decide.
      * rewrite lookup_delete. by case_decide.
    + apply map_eq. intros y. rewrite lookup_insert, Hels.
      case_decide; [by subst|]. rewrite decide_False; [done|set_solver].
    + by rewrite HT, delete_insert_id.
    + by rewrite HA, delete_insert_id.
  - replace (match last l.*1, head r.*1 with
             | None, None => _ | _, _ => _ end)
      with (delete_linked (head (l ++ (x, v) :: r).*1) x (last l.*1) (head r.*1) : HM V (option nat)).
    + by eapply wp_delete_linked.
    + destruct (last l.*1) eqn:E1, (head r.*1) eqn:E2; [done..|]. exfalso. apply Hne.
      apply last_None, fmap_nil_inv in E1 as ->. by destruct r.
Qed.
End delete.

(** ** The other operations *)

Section other.
Context {V : Type} `{!HashEnv V}.
Implicit Types (x : nat) (v : V) (s : store V) (xvs l r : list (nat * V)).

Lemma it_head h xvs F s : is_table h xvs F s → h = head xvs.*1.
Proof. by intros []. Qed.

(** Everything in a store counts as outside the table that has no element. *)
Definition rest_all s := mkRest (els s) (tbls s) (arrs s).

Lemma it_forget h xvs F s : is_table h xvs F s → is_table None [] (rest_all s) s.
Proof. intros Hi. split; [done|]. split_and!; [by eapply it_wf|done..]. Qed.

Lemma it_empty : is_table None [] (rest_all store_empty) (store_empty (V := V)).
Proof. split; [done|]. split_and!; [|done..]. intros n _. by split_and!. Qed.

Lemma wp_HASH_COUNT h xvs F s Q :
  is_table h xvs F s → Q (u32 (lenZ xvs)) s → wp (HASH_COUNT h) Q s.
Proof.
  intros Hi HQ. destruct xvs as [|[x v] xvs].
  { by rewrite (it_head _ _ _ _ Hi). }
  destruct (it_rep _ _ _ _ Hi) as [-> (t & T & bs & cs & L & Hr)]; [done|].
  cbn [head fmap list_fmap HASH_COUNT].
  wpb. eapply wp_tbl_of; [eapply rp_id; [exact Hr|apply list_elem_of_here]|].
  wpb. eapply wp_ldT; [exact (rp_ldT Hr)|]. apply wp_ret.
  rewrite (rp_items _ _ _ _ _ _ _ _ _ Hr). unfold lenZ in *. by rewrite length_fmap.
Qed.

Lemma wp_next h l x v r F s Q :
  is_table h (l ++ (x, v) :: r) F s → Q (head r.*1) s → wp (ld next x) Q s.
Proof.
  intros Hi HQ. destruct (it_rep _ _ _ _ Hi) as [_ (t & T & bs & cs & L & Hr)]; [by destruct l|].
  destruct (rp_app _ _ _ _ _ _ _ _ _ Hr) as [_ Hdll _].
  rewrite fmap_app, fmap_cons in Hdll. apply dll_app in Hdll as [_ (_ & HN & _)].
  rewrite onto_None in HN. eapply wp_ld; [exact HN|done].
Qed.

Lemma it_val h xvs F s x v :
  is_table h xvs F s → (x, v) ∈ xvs → ∃ e, els s !! x = Some e ∧ val e = v.
Proof.
  intros Hi Hx. destruct (it_rep _ _ _ _ Hi) as [_ (t & T & bs & cs & L & Hr)].
  { intros ->. by apply not_elem_of_nil in Hx. }
  destruct (rp_node x v Hr Hx) as [Hval _ _ _]. cbn in Hval.
  destruct (els s !! x) as [e|]; [|done]. injection Hval as Hval. eauto.
Qed.

Lemma it_is_Some {h xvs F s x v} : is_table h xvs F s → (x, v) ∈ xvs → is_Some (els s !! x).
Proof. intros Hi Hx. destruct (it_val _ _ _ _ _ _ Hi Hx) as (e & -> & _). eauto. Qed.

Lemma it_key h xvs F s x v : is_table h xvs F s → (x, v) ∈ xvs → ∃ k, key_is v k.
Proof.
  intros Hi Hx. destruct (it_rep _ _ _ _ Hi) as [_ (t & T & bs & cs & L & Hr)].
  { intros ->. by apply not_elem_of_nil in Hx. }
  destruct (rp_node x v Hr Hx) as [_ _ _ (k & Hk & _)]. eauto.
Qed.

Lemma it_nodup h xvs F s : is_table h xvs F s → NoDup xvs.*1.
Proof.
  intros Hi. destruct xvs as [|xv xvs]; [constructor|].
  destruct (it_rep _ _ _ _ Hi) as [_ (t & T & bs & cs & L & Hr)]; [done|]. apply Hr.
Qed.

(** Assigning to the fields of an element other than its key. *)
Lemma wp_set_val h l x v v' r F s Q :
  is_table h (l ++ (x, v) :: r) F s → key_field v' = key_field v →
  (∀ s', is_table h (l ++ (x, v') :: r) F s' → Q tt s') → wp (st_val v' x) Q s.
Proof.
  intros Hi Hkf HQ. pose proof (it_nodup _ _ _ _ Hi) as Hnd.
  destruct (it_rep _ _ _ _ Hi) as [-> (t & T & bs & cs & L & Hr)]; [by destruct l|].
  assert (Eids : (l ++ (x, v') :: r).*1 = (l ++ (x, v) :: r).*1) by by rewrite !fmap_app.
  assert ((x, v) ∈ l ++ (x, v) :: r) as Hin by set_solver.
  destruct (it_is_Some Hi Hin) as [e Ee]. apply wp_st_val; [eauto|]. sred.
  set (m' := alter _ x (els s)).
  assert (∀ A (f : UT_hash_handle → A) y, fld f m' y = fld f (els s) y) as Hfld.
  { intros A f y. unfold m', fld. rewrite lookup_alter. case_decide; [subst|done].
    by destruct (els s !! y). }
  apply HQ. split; [by rewrite Eids|].
  destruct (l ++ (x, v') :: r) as [|xv0 xvs0] eqn:El; [by destruct l|]. rewrite <- El in *.
  clear xv0 xvs0 El. exists t, T, bs, cs, L. rewrite Eids.
  destruct Hr as [Hwf Hels HT Ht HA Ha Hnb Hlog HL Htl Hit [Hnd' Hdll Hnodes] Hbkt].
  split; sred; rewrite ?Eids; try done.
  - intros n Hn. sred_in Hn. destruct (Hwf n Hn) as (H1 & H2 & H3). split_and!; sred; try done.
    apply eq_None_not_Some. unfold m'. rewrite lookup_alter_is_Some, H1. apply is_Some_None.
  - intros y. rewrite Hels. case_decide as Hy; [done|]. unfold m'. rewrite lookup_alter_ne; [done|].
    intros <-. apply Hy. rewrite fmap_app, fmap_cons. set_solver.
  - split; rewrite ?Eids; [done| |].
    + revert Hdll. apply dll_ext; intros; apply Hfld.
    + rewrite fmap_app, fmap_cons in Hnd. cbn in Hnd.
      assert (∀ y w, (y, w) ∈ l ++ r → node_ok t (els s) (y, w) → node_ok t m' (y, w)) as Hoth.
      { intros y w Hy. apply node_ok_ext; [|apply Hfld..].
        unfold m'. rewrite lookup_alter_ne; [done|]. intros <-.
        apply NoDup_app in Hnd as (_ & H1 & [H2 _]%NoDup_cons).
        apply (list_elem_of_fmap_2 fst) in Hy. cbn in Hy. rewrite fmap_app in Hy.
        apply elem_of_app in Hy as [Hy|Hy]; [by apply (H1 x Hy), list_elem_of_here|done]. }
      apply Forall_app in Hnodes as [Hn1 [Hnx Hn2]%Forall_cons].
      apply Forall_app. split; [|constructor].
      * rewrite Forall_forall in Hn1 |- *. intros [y w] Hy. apply Hoth; [set_solver|auto].
      * destruct Hnx as [H1 H2 H3 (k & H4 & H5)]. cbn in *. split; cbn; rewrite ?Hfld; try done.
        -- unfold m'. by rewrite lookup_alter_eq, Ee.
        -- exists k. split; [by unfold key_is; rewrite Hkf|]. exact H5.
      * rewrite Forall_forall in Hn2 |- *. intros [y w] Hy. apply Hoth; [set_solver|auto].
  - eapply bp_ext; [|done]. intros. split_and!; apply Hfld.
Qed.
Lemma wp_malloc_element h xvs F s sz e Q :
  is_table h xvs F s →
  (∀ s', is_table h xvs F s' → mem_fail (snxt s) sz = true → Q None s') →
  (∀ s' x, is_table h xvs (rest_add x e F) s' → r_els F !! x = None → x ∉ xvs.*1 →
     Q (Some x) s') →
  wp (malloc_element sz e) Q s.
Proof.
  intros Hi HN HS. pose proof (it_wf Hi) as Hwf.
  assert (is_table h xvs F (s <| snxt := S (snxt s) |>)) as Hi'.
  { destruct Hi as [Hh Hi]. split; [done|]. destruct xvs as [|xv xvs].
    - destruct Hi as (_ & ?). split; [|done]. intros n Hn. apply Hwf. sred_in Hn. lia.
    - destruct Hi as (t & T & bs & cs & L & []). exists t, T, bs, cs, L. split; try done.
      intros n Hn. apply Hwf. sred_in Hn. lia. }
  unfold malloc_element, wp, mbind, HM_bind, alloc_id.
  destruct (mem_fail (snxt s) sz) eqn:Em; [by apply HN|].
  cbn. set (x := snxt s) in *. clear HN.
  destruct (Hwf x) as (Hx & _ & _); [done|].
  assert (x ∉ xvs.*1) as Hxn.
  { intros Hin. apply list_elem_of_fmap in Hin as ([x' v] & -> & Hin).
    destruct (it_is_Some Hi Hin) as [? E]. cbn in *. congruence. }
  assert (r_els F !! x = None) as HFx by (rewrite (it_els x Hi); by case_decide).
  assert (∀ y, y ∈ xvs.*1 → y ≠ x) as Hne by (by intros y Hy ->).
  apply HS; [|done..]. clear HS. destruct Hi' as [Hh Hi']. split; [done|].
  destruct xvs as [|xv xvs].
  - destruct Hi' as (_ & HE & HT & HA). split_and!; sred; [|sred_in HE; cbn; by rewrite HE|done..].
    intros n Hn. sred_in Hn. destruct (Hwf n) as (H1 & H2 & H3); [lia|].
    split_and!; sred; [|done..]. by rewrite lookup_insert_ne by lia.
  - destruct Hi' as (t & T & bs & cs & L & []). exists t, T, bs, cs, L.
    assert (∀ A (f : UT_hash_handle → A) y, y ≠ x → fld f (<[x:=e]> (els s)) y = fld f (els s) y) as Hfld.
    { intros A f y Hy. unfold fld. by rewrite lookup_insert_ne. }
    split; sred; cbn [rest_add r_els r_tbls r_arrs]; try done.
    + intros n Hn. sred_in Hn. destruct (Hwf n) as (H1 & H2 & H3); [lia|].
      split_and!; sred; [|done..]. by rewrite lookup_insert_ne by lia.
    + intros y. rewrite !lookup_insert. case_decide as Hy.
      * subst. by rewrite decide_False.
      * apply rp_els.
    + destruct rp_app as [Hnd Hdll Hn]. split; [done| |].
      * revert Hdll. apply dll_ext; intros; apply Hfld; by apply Hne.
      * rewrite Forall_forall in Hn |- *. intros [y v] Hy.
        assert (y ≠ x) by (apply Hne; by apply (list_elem_of_fmap_2 fst) in Hy).
        apply (node_ok_ext _ (els s)); [by rewrite lookup_insert_ne|by apply Hfld..|by apply Hn].
    + eapply bp_ext; [|done]. intros y Hy. split_and!; apply Hfld; by apply Hne.
Qed.

Lemma wp_free_outside h xvs F s x e Q :
  is_table h xvs (rest_add x e F) s → r_els F !! x = None →
  (∀ s', is_table h xvs F s' → Q tt s') → wp (free_element x) Q s.
Proof.
  intros Hi HF HQ. pose proof (it_rest Hi (rest_add_eq x e F)) as Hx.
  pose proof (it_els x Hi) as Hxn. rewrite rest_add_eq in Hxn. case_decide as Hin; [done|].
  pose proof (it_wf Hi) as Hwf.
  assert (∀ y, y ∈ xvs.*1 → y ≠ x) as Hne by (by intros y Hy ->).
  apply wp_free_element; [eauto|]. apply HQ. destruct Hi as [Hh Hi]. split; [done|].
  destruct xvs as [|xv xvs].
  - destruct Hi as (_ & HE & HT & HA). split_and!; sred; [| |done..].
    + intros n Hn. destruct (Hwf n Hn) as (H1 & H2 & H3). split_and!; sred; [|done..].
      rewrite lookup_delete. by case_decide.
    + rewrite HE. cbn. by rewrite delete_insert_id.
  - destruct Hi as (t & T & bs & cs & L & []). exists t, T, bs, cs, L.
    assert (∀ A (f : UT_hash_handle → A) y, y ≠ x → fld f (delete x (els s)) y = fld f (els s) y) as Hfld.
    { intros A f y Hy. unfold fld. by rewrite lookup_delete_ne. }
    split; sred; try done.
    + intros n Hn. destruct (Hwf n Hn) as (H1 & H2 & H3). split_and!; sred; [|done..].
      rewrite lookup_delete. by case_decide.
    + intros y. specialize (rp_els y). cbn in rp_els. rewrite lookup_insert in rp_els.
      rewrite lookup_delete. case_decide as Hy; [subst; rewrite HF; by repeat case_decide|done].
    + destruct rp_app as [Hnd Hdll Hn]. split; [done| |].
      * revert Hdll. apply dll_ext; intros; apply Hfld; by apply Hne.
      * rewrite Forall_forall in Hn |- *. intros [y v] Hy.
        assert (y ≠ x) by (apply Hne; by apply (list_elem_of_fmap_2 fst) in Hy).
        apply (node_ok_ext _ (els s)); [by rewrite lookup_delete_ne|by apply Hfld..|by apply Hn].
    + eapply bp_ext; [|done]. intros y Hy. split_and!; apply Hfld; by apply Hne.
Qed.

Lemma it_size h xvs F s : is_table h xvs F s → (length xvs ≤ size (els s))%nat.
Proof.
  intros Hi. rewrite <- (length_fmap fst). eapply concat_length_le; [by eapply it_nodup|].
  intros x Hx. apply list_elem_of_fmap in Hx as ([y v] & -> & Hin). by eapply it_is_Some.
Qed.
End other.

(** ** The contract

    What a client may rely on: a predicate [table h xvs F s] (the table of head
    [h] is the list [xvs] of numbered elements, the rest of the store is [F]) and
    the effect of each operation on it. *)

Class HashTable (V : Type) `{!HashEnv V} : Type := {
  table : option nat → list (nat * V) → rest → store V → Prop;
  table_empty : table None [] (rest_all store_empty) store_empty;
  table_forget {h xvs F s} : table h xvs F s → table None [] (rest_all s) s;
  table_exact {h F s} : table h [] F s → h = None ∧ F = rest_all s;
  table_head {h xvs F s} : table h xvs F s → h = head xvs.*1;
  table_nodup {h xvs F s} : table h xvs F s → NoDup xvs.*1;
  table_key {h xvs F s x v} : table h xvs F s → (x, v) ∈ xvs → ∃ k, key_is v k;
  table_size {h xvs F s} : table h xvs F s → (length xvs ≤ size (els s))%nat;
  table_val {h xvs F s x v} Q : table h xvs F s → (x, v) ∈ xvs → Q v s → wp (ld_val x) Q s;
  table_next {h l x v r F s} Q :
    table h (l ++ (x, v) :: r) F s → Q (head r.*1) s → wp (ld next x) Q s;
  table_set {h l x v v' r F s} Q :
    table h (l ++ (x, v) :: r) F s → key_field v' = key_field v →
    (∀ s', table h (l ++ (x, v') :: r) F s' → Q tt s') → wp (st_val v' x) Q s;
  table_malloc {h xvs F s sz e} Q :
    table h xvs F s →
    (∀ s', table h xvs F s' → mem_fail (snxt s) sz = true → Q None s') →
    (∀ s' x, table h xvs (rest_add x e F) s' → r_els F !! x = None → x ∉ xvs.*1 → Q (Some x) s') →
    wp (malloc_element sz e) Q s;
  table_free {h xvs F s x e} Q :
    table h xvs (rest_add x e F) s → r_els F !! x = None →
    (∀ s', table h xvs F s' → Q tt s') → wp (free_element x) Q s;
  table_add {h xvs F s x e v k} Q :
    table h xvs (rest_add x e F) s → r_els F !! x = None → val e = v → key_is v k →
    (∀ h' s', table h' (xvs ++ [(x, v)]) F s' → Q h' s') → wp (HASH_ADD_STR h x) Q s;
  table_find {h xvs F s kb k} Q :
    table h xvs F s → cstr kb = Ok k → lenZ k < 2 ^ 32 →
    (∀ res, found xvs xvs.*1 k res → Q res s) → wp (HASH_FIND_STR h kb) Q s;
  table_del {h l x v r F s} Q :
    table h (l ++ (x, v) :: r) F s →
    (∀ h' s' e, val e = v → r_els F !! x = None → table h' (l ++ r) (rest_add x e F) s' → Q h' s') →
    wp (HASH_DEL h x) Q s;
  table_count {h xvs F s} Q :
    table h xvs F s → Q (u32 (lenZ xvs)) s → wp (HASH_COUNT h) Q s
}.

(** The macros fulfil it. *)
#[export] Instance uthash_table {V} `{!HashEnv V, !MemLimit V} : HashTable V.
Proof.
  refine {| table := is_table |}.
  - apply it_empty.
  - apply it_forget.
  - intros h F s [-> (_ & HE & HT & HA)]. split; [done|]. destruct F. cbn in *. by subst.
  - apply it_head.
  - apply it_nodup.
  - apply it_key.
  - apply it_size.
  - intros h xvs F s x v Q Hi Hx HQ. destruct (it_val _ _ _ _ _ _ Hi Hx) as (e & E & <-).
    by eapply wp_ld_val.
  - intros. by eapply wp_next.
  - intros. by eapply wp_set_val.
  - intros. by eapply wp_malloc_element.
  - intros. by eapply wp_free_outside.
  - intros h xvs F s x e v k Q Hi HF Hv Hk HQ.
    eapply wp_HASH_ADD_STR; [exact Hi|apply rest_add_eq|exact Hv|exact Hk|].
    intros h' s' Hi'. apply HQ. rewrite rest_del_add in Hi'.
    replace (rest_del x F) with F in Hi'; [done|]. unfold rest_del.
    rewrite delete_id by done. by destruct F.
  - intros. by eapply wp_HASH_FIND_STR.
  - intros h l x v r F s Q Hi HQ. eapply wp_HASH_DEL; [exact Hi|]. intros h' s' e Hv Hi'.
    eapply HQ; [exact Hv| |exact Hi']. rewrite (it_els x Hi), decide_True; [done|].
    rewrite fmap_app, fmap_cons. set_solver.
  - intros. by eapply wp_HASH_COUNT.
Defined.

(** Taking [(x, v)] out of the middle of a list. *)
Lemma in_split_pair {V} (xvs : list (nat * V)) x v :
  (x, v) ∈ xvs → ∃ l r, xvs = l ++ (x, v) :: r.
Proof. intros (l & r & ->)%list_elem_of_split. eauto. Qed.

Lemma elem_middle {A} (l : list A) x r : x ∈ l ++ x :: r.
Proof. apply elem_of_app. right. apply list_elem_of_here. Qed.

(** ** Iteration

    [HASH_ITER] visits the elements in application order; its body may delete the
    element it visits.  [J d l acc]: the elements [d] have been visited and [l] of
    them, possibly changed, remain. *)

Section iter.
Context {V : Type} `{!HashEnv V, !HashTable V}.
Context {A : Type} (body : nat → option nat → A → HM V (option nat * A)) (F : rest (V := V))
  (J : list (nat * V) → list (nat * V) → A → Prop).
Implicit Types (l r d : list (nat * V)) (s : store V) (acc : A) (h : option nat).

Hypothesis Hbody : ∀ d l x v r h acc s Q,
  table h (l ++ (x, v) :: r) F s → J d l acc →
  (∀ h' acc' l' s', table h' (l' ++ r) F s' → J (d ++ [(x, v)]) l' acc' → Q (h', acc') s') →
  wp (body x h acc) Q s.

Lemma wp_iter_loop r : ∀ fuel d l h acc s Q,
  (length r ≤ fuel)%nat → table h (l ++ r) F s → J d l acc →
  (∀ h' acc' l' s', table h' l' F s' → J (d ++ r) l' acc' → Q (h', acc') s') →
  wp (iter_loop fuel body (head r.*1) (head (list.tail r).*1) h acc) Q s.
Proof.
  induction r as [|[x v] r IH]; intros fuel d l h acc s Q Hf Ht HJ HQ.
  - rewrite app_nil_r in Ht, HQ. destruct fuel; cbn; apply wp_ret; by eapply HQ.
  - destruct fuel as [|fuel]; [cbn in Hf; lia|]. cbn [head fmap list_fmap iter_loop fst list.tail].
    wpb. eapply Hbody; [exact Ht|exact HJ|]. intros h' acc' l' s' Ht' HJ'. cbn [fst snd].
    wpb. assert (∀ Q', Q' (head (list.tail r).*1) s' →
      wp (match head r.*1 with Some y => ld next y | None => mret None end) Q' s') as Hn.
    { intros Q' HQ'. destruct r as [|[y w] r]; [by apply wp_ret|].
      cbn [head fmap list_fmap fst]. by eapply table_next. }
    apply Hn. eapply IH; [cbn in Hf; lia|exact Ht'|exact HJ'|].
    intros h2 acc2 l2 s2 Ht2 HJ2. apply (HQ _ _ l2); [done|]. by rewrite <- app_assoc in HJ2.
Qed.

Lemma wp_HASH_ITER h xvs acc s Q :
  table h xvs F s → J [] [] acc →
  (∀ h' acc' l' s', table h' l' F s' → J xvs l' acc' → Q (h', acc') s') →
  wp (HASH_ITER h acc body) Q s.
Proof.
  intros Ht HJ HQ. unfold HASH_ITER.
  match goal with |- wp (λ s, (?m ≫= ?k) s) _ _ =>
    change (wp (m ≫= (λ tmp, iter_loop (S (size (els s))) body h tmp h acc)) Q s) end.
  wpb. assert (∀ Q', Q' (head (list.tail xvs).*1) s →
    wp (match h with Some y => ld next y | None => mret None end) Q' s) as Hn.
  { intros Q' HQ'. rewrite (table_head Ht). destruct xvs as [|[y w] r]; [by apply wp_ret|].
    cbn [head fmap list_fmap fst]. by eapply (table_next (l := [])). }
  apply Hn. pose proof (table_head Ht) as Eh. rewrite Eh at 1.
  eapply (wp_iter_loop xvs _ [] []); [|exact Ht|exact HJ|exact HQ].
  pose proof (table_size Ht). lia.
Qed.
End iter.

(** ** Programs over a table *)

(** What a program does with a table. *)
Inductive hop (V : Type) : Type :=
  | HAdd (v : V)             (* malloc, HASH_ADD_STR *)
  | HFind (kb : list Z)      (* HASH_FIND_STR *)
  | HDel (kb : list Z)       (* HASH_FIND_STR; if found HASH_DEL, free *)
  | HCount.                  (* HASH_COUNT *)
Arguments HAdd {V} v.
Arguments HFind {V} kb.
Arguments HDel {V} kb.
Arguments HCount {V}.

Inductive hres : Type := RElem (o : option nat) | RCount (n : Z).

#[export] Instance hres_eq_dec : EqDecision hres.
Proof. solve_decision. Defined.

Definition handle_zero : UT_hash_handle := mkHandle None None None None None None 0 0.

Section programs.
Context {V : Type} `{!HashEnv V, !MemLimit V}.
Implicit Types (h : option nat) (xvs l r : list (nat * V)) (o : hop V).

Definition run_op (sz : Z) h o : HM V (option nat * hres) :=
  match o with
  | HAdd v =>
      x ← malloc_element sz (mkElement v handle_zero);
      match x with
      | None => mret (h, RElem None)
      | Some x => h ← HASH_ADD_STR h x; mret (h, RElem (Some x))
      end
  | HFind kb => x ← HASH_FIND_STR h kb; mret (h, RElem x)
  | HDel kb =>
      x ← HASH_FIND_STR h kb;
      match x with
      | None => mret (h, RElem None)
      | Some x => h ← HASH_DEL h x; free_element x;; mret (h, RElem (Some x))
      end
  | HCount => n ← HASH_COUNT h; mret (h, RCount n)
  end.

Fixpoint run_ops (sz : Z) h (os : list (hop V)) : HM V (option nat * list hres) :=
  match os with
  | [] => mret (h, [])
  | o :: os => a ← run_op sz h o; b ← run_ops sz a.1 os; mret (b.1, a.2 :: b.2)
  end.

(** The same on a list of elements: additions go to the end; a search may answer
    any element with the key, and answers one when there is one. *)
Inductive hop_step xvs : hop V → hres → list (nat * V) → Prop :=
  | step_add v x : x ∉ xvs.*1 → hop_step xvs (HAdd v) (RElem (Some x)) (xvs ++ [(x, v)])
  | step_no_memory v : hop_step xvs (HAdd v) (RElem None) xvs
  | step_find kb k res :
      cstr kb = Ok k → found xvs xvs.*1 k res → hop_step xvs (HFind kb) (RElem res) xvs
  | step_del kb k l x v r :
      cstr kb = Ok k → key_is v k → xvs = l ++ (x, v) :: r →
      hop_step xvs (HDel kb) (RElem (Some x)) (l ++ r)
  | step_del_none kb k :
      cstr kb = Ok k → found xvs xvs.*1 k None → hop_step xvs (HDel kb) (RElem None) xvs
  | step_count : hop_step xvs HCount (RCount (u32 (lenZ xvs))) xvs.

Inductive hop_steps : list (nat * V) → list (hop V) → list hres → list (nat * V) → Prop :=
  | steps_nil xvs : hop_steps xvs [] [] xvs
  | steps_cons xvs o res xvs' os ress xvs'' :
      hop_step xvs o res xvs' → hop_steps xvs' os ress xvs'' →
      hop_steps xvs (o :: os) (res :: ress) xvs''.

(** Keys are C strings shorter than 2^32. *)
Definition hop_ok o : Prop :=
  match o with
  | HAdd v => ∃ k, key_is v k
  | HFind kb | HDel kb => ∃ k, cstr kb = Ok k ∧ lenZ k < 2 ^ 32
  | HCount => True
  end.

Lemma wp_run_op sz h o xvs F s Q :
  table h xvs F s → hop_ok o →
  (∀ h' res xvs' s', hop_step xvs o res xvs' → table h' xvs' F s' → Q (h', res) s') →
  wp (run_op sz h o) Q s.
Proof.
  intros Ht Ho HQ. destruct o as [v|kb|kb|]; cbn [run_op hop_ok] in *.
  - destruct Ho as [k Hk]. wpb. eapply table_malloc; [exact Ht|..].
    + intros s' Ht' _. apply wp_ret. eapply HQ; [constructor|done].
    + intros s' x Ht' HF Hx. wpb. eapply table_add; [exact Ht'|done|done|exact Hk|].
      intros h' s2 Ht2. apply wp_ret. by eapply HQ; [constructor|].
  - destruct Ho as (k & Hkb & Hl). wpb. eapply table_find; [done..|]. intros res Hres.
    apply wp_ret. eapply HQ; [by econstructor|done].
  - destruct Ho as (k & Hkb & Hl). wpb. eapply table_find; [done..|]. intros [x|] Hres.
    + destruct Hres as (v & _ & (l & r & ->)%in_split_pair & Hk).
      wpb. eapply table_del; [exact Ht|]. intros h' s' e _ HF Ht'.
      wpb. eapply table_free; [exact Ht'|done|]. intros s2 Ht2. apply wp_ret.
      eapply HQ; [by econstructor|done].
    + apply wp_ret. eapply HQ; [by econstructor|done].
  - wpb. eapply table_count; [done|]. apply wp_ret. eapply HQ; [constructor|done].
Qed.

Lemma wp_run_ops sz os : ∀ h xvs F s Q,
  table h xvs F s → Forall hop_ok os →
  (∀ h' ress xvs' s', hop_steps xvs os ress xvs' → table h' xvs' F s' → Q (h', ress) s') →
  wp (run_ops sz h os) Q s.
Proof.
  induction os as [|o os IH]; intros h xvs F s Q Ht Hos HQ; cbn [run_ops].
  - apply wp_ret. eapply HQ; [constructor|done].
  - apply Forall_cons in Hos as [Ho Hos]. wpb. eapply wp_run_op; [done..|].
    intros h' res xvs' s' Hst Ht'. wpb. eapply IH; [done..|].
    intros h2 ress xvs2 s2 Hsts Ht2. apply wp_ret. eapply HQ; [by econstructor|done].
Qed.

(** A program that only adds: the elements of the table in the order of the
    program, under the numbers it answered. *)
Definition adds_answered (vs : list V) (ress : list hres) xvs : Prop :=
  xvs.*2 = vs ∧ RElem ∘ Some <$> xvs.*1 = ress.

Lemma hop_steps_adds vs : ∀ xvs ress xvs',
  hop_steps xvs (HAdd <$> vs) ress xvs' → RElem None ∉ ress →
  ∃ new, xvs' = xvs ++ new ∧ adds_answered vs ress new.
Proof.
  induction vs as [|v vs IH]; intros xvs ress xvs' H Hn; inversion H as [|? ? ? xvs1 ? ress1 ? H1 H2]; subst.
  - exists []. by rewrite app_nil_r.
  - apply not_elem_of_cons in Hn as [Hne Hn]. destruct (IH _ _ _ H2 Hn) as (new & -> & Hv & Hr).
    inversion H1; subst; [|done]. exists ((x, v) :: new). rewrite <- app_assoc. split; [done|].
    split; cbn; by f_equal.
Qed.

(** The table such a program leaves, and a further element allocated after it. *)
Lemma run_adds_table sz vs v :
  Forall (λ v, ∃ k, key_is v k) vs →
  wp (out ← run_ops sz None (HAdd <$> vs); x ← malloc_element sz (mkElement v handle_zero); mret (out, x))
     (λ out s, RElem None ∉ out.1.2 → ∀ x, out.2 = Some x → ∃ xvs, adds_answered vs out.1.2 xvs ∧
        is_table out.1.1 xvs (rest_add x (mkElement v handle_zero) (rest_all store_empty)) s)
     store_empty.
Proof.
  intros Hk. wpb. eapply wp_run_ops; [apply table_empty|by apply Forall_fmap|].
  intros h ress xvs s Hst Ht. wpb. eapply table_malloc; [exact Ht|..].
  - intros s' _ _. by apply wp_ret.
  - intros s' x Ht' _ _. apply wp_ret. cbn. intros Hn y [= <-].
    destruct (hop_steps_adds _ _ _ _ Hst Hn) as (new & -> & Ha). by exists new.
Qed.

(** C11: For every sequence of insertions, searches, deletions and counts on an empty table, the hash table macros never touch a freed or missing object, no loop of theirs runs away, and they behave as a list in insertion order: a search finds an element with the key exactly if there is one, deletion removes that element alone, the count is the length. The process exits only where the system refuses memory, and once the list is empty again every bucket array and table has been freed. *)
Theorem hash_table_refines_list sz os :
  Forall hop_ok os →
  wp (run_ops sz None os)
     (λ out s, ∃ xvs, hop_steps [] os out.2 xvs ∧ out.1 = head xvs.*1 ∧
        is_table out.1 xvs (rest_all store_empty) s ∧
        (xvs = [] → els s = ∅ ∧ tbls s = ∅ ∧ arrs s = ∅))
     store_empty.
Proof.
  intros Hos. eapply wp_run_ops; [apply table_empty|done|].
  intros h' ress xvs s Hst Ht. exists xvs. split_and!; [done|by apply (table_head Ht)|done|].
  intros ->. destruct (table_exact Ht) as [_ E]. by injection E as <- <- <-.
Qed.
End programs.

(** Elements that are nothing but their key; allocations fail from 64 GiB on. *)
#[local] Instance env_plain : HashEnv (list Z) :=
  {| key_field := λ v, v; mem_fail := λ _ sz, 2 ^ 36 <=? sz |}.

#[local] Instance limit_plain : MemLimit (list Z).
Proof. intros n sz H. by apply Z.leb_le. Qed.

Lemma hash_table_refines_list_witness :
  let os := [HAdd (lit "alpha"); HAdd (lit "beta"); HAdd (lit "alpha"); HFind (lit "beta");
             HFind (lit "gamma"); HCount; HDel (lit "beta"); HDel (lit "alpha"); HCount;
             HDel (lit "alpha"); HDel (lit "alpha"); HCount] in
  ∃ s, run_ops 100 None os store_empty =
         Done (None, [RElem (Some 0); RElem (Some 3); RElem (Some 4); RElem (Some 3); RElem None;
                      RCount 3; RElem (Some 3); RElem (Some 4); RCount 1; RElem (Some 0);
                      RElem None; RCount 0]%nat) s ∧
       els s = ∅ ∧ tbls s = ∅ ∧ arrs s = ∅.
Proof.
  intros os. pose proof (hash_table_refines_list 100 os) as H.
  assert (Forall hop_ok os) as Hos.
  { assert (∀ s, no_nul (chars s) → lenZ (chars s) < 2 ^ 32 →
      ∃ k, cstr (lit s) = Ok k ∧ lenZ k < 2 ^ 32) as Hk.
    { intros s Hs Hl. exists (chars s). split; [by apply (cstr_ok _ [])|done]. }
    unfold os. repeat constructor; cbn [hop_ok key_is]; apply Hk; vm_decide. }
  specialize (H Hos). unfold wp in H.
  assert (match run_ops 100 None os store_empty with
          | Done out _ => out = (None, [RElem (Some 0); RElem (Some 3); RElem (Some 4);
              RElem (Some 3); RElem None; RCount 3; RElem (Some 3); RElem (Some 4); RCount 1;
              RElem (Some 0); RElem None; RCount 0]%nat)
          | _ => False
          end) as E by (vm_compute; reflexivity).
  destruct (run_ops 100 None os store_empty) as [out s| | |]; [|destruct E..].
  destruct H as (xvs & _ & Hh & _ & Hnil). rewrite E in Hh |- *. clear E.
  exists s. split; [reflexivity|]. apply Hnil. destruct xvs; [reflexivity|discriminate Hh].
Defined.

(** The tenth element of a chain makes the table double, and the doubling
    reverses the chain: the search that found the newest of equal keys finds
    another one from then on. *)
Example expansion_reverses_chains :
  let adds := replicate 9 (HAdd (lit "k")) in
  (∃ s ress, run_ops 100 None (adds ++ [HFind (lit "k")]) store_empty =
     Done (Some 0%nat, ress) s ∧ last ress = Some (RElem (Some 10%nat)) ∧
     num_buckets <$> tbls s !! 1%nat = Some 32) ∧
  (∃ s ress, run_ops 100 None (adds ++ [HAdd (lit "k"); HFind (lit "k")]) store_empty =
     Done (Some 0%nat, ress) s ∧ last ress = Some (RElem (Some 0%nat)) ∧
     num_buckets <$> tbls s !! 1%nat = Some 64).
Proof.
  split; eexists _, _; (split; [vm_compute; reflexivity|]); vm_compute; done.
Qed.
