(* ===== verification/UtHashSort.v ===== *)
(** * Sorting a hash table: [HASH_SRT] of src/utils/uthash.h

    [HASH_SRT] sorts the application order of a table in place with a bottom-up
    merge sort: each pass cuts the list into runs of [insize] elements and merges
    them pairwise by relinking; [insize] doubles until a pass has merged at most
    once.  The file models the macro statement by statement on the links and
    proves that it ends, that the table is left in order as a table of the same
    elements, and that the sort is stable. *)

From stdpp Require Import sorting.
From S2P Require Import Prelude CString UtHash.
From S2P Require Import UtHashRep UtHashTable.

(** ** The macro *)

Section srt.
Context {V : Type} `{!HashEnv V} (cmpfcn : V → V → Z).
Implicit Types (p q lst tl head : option nat) (psize qsize insize : Z).

(** [x->next], as a handle. *)
Definition srt_next p : HM V (option nat) := x ← deref p; ld next x.

(** The [for] over [insize]: how far [q] gets from [p], and [psize]; [n] is
    [insize - i]. *)
Fixpoint srt_run (n : nat) q psize : HM V (option nat * Z) :=
  match n with
  | O => mret (q, psize)
  | S n =>
      let psize := u32 (psize + 1) in
      q ← srt_next q;
      match q with
      | None => mret (None, psize)
      | Some _ => srt_run n q psize
      end
  end.

Definition srt_cmp p q : HM V Z :=
  x ← deref p; y ← deref q; v ← ld_val x; w ← ld_val y; mret (cmpfcn v w).

(** The element [e] taken and [p], [q], [psize], [qsize] afterwards. *)
Notation taken := (option nat * option nat * option nat * Z * Z)%type.

Definition srt_take_p p q psize qsize : HM V taken :=
  p' ← match p with Some x => ld next x | None => mret None end;
  mret (p, p', q, u32 (psize - 1), qsize).

Definition srt_take_q p q psize qsize : HM V taken :=
  q' ← srt_next q;
  mret (q, p, q', psize, u32 (qsize - 1)).

Definition srt_choose p q psize qsize : HM V taken :=
  if psize =? 0 then srt_take_q p q psize qsize
  else if (qsize =? 0) || bool_decide (q = None) then srt_take_p p q psize qsize
  else c ← srt_cmp p q;
       if c <=? 0 then srt_take_p p q psize qsize else srt_take_q p q psize qsize.

(** Appends [e] to the output [lst], whose last element is [tl]. *)
Definition srt_append lst tl (e : option nat) : HM V (option nat) :=
  lst ← match tl with
        | Some t => st (λ h, h <| next := e |>) t;; mret lst
        | None => mret e
        end;
  match e with Some x => st (λ h, h <| prev := tl |>) x | None => mret tt end;;
  mret lst.

(** The loop that merges two runs; it ends with [q], [list] and [tail]. *)
Fixpoint srt_merge (fuel : nat) p q psize qsize lst tl : HM V (option nat * option nat * option nat) :=
  if negb (psize =? 0) || (negb (qsize =? 0) && negb (bool_decide (q = None))) then
    match fuel with
    | O => λ _, NoFuel
    | S fuel =>
        '(e, p, q, psize, qsize) ← srt_choose p q psize qsize;
        lst ← srt_append lst tl e;
        srt_merge fuel p q psize qsize lst e
    end
  else mret (q, lst, tl).

(** One pass, from [p] on: [list], [tail] and the number of merges. *)
Fixpoint srt_pass (fuel : nat) insize p lst tl (nmerges : Z) : HM V (option nat * option nat * Z) :=
  match p with
  | None => mret (lst, tl, nmerges)
  | Some _ =>
      match fuel with
      | O => λ _, NoFuel
      | S fuel =>
          let nmerges := u32 (nmerges + 1) in
          '(q, psize) ← srt_run (Z.to_nat insize) p 0;
          '(q, lst, tl) ← (λ s, srt_merge (S (size (els s))) p q psize insize lst tl s);
          srt_pass fuel insize q lst tl nmerges
      end
  end.

Fixpoint srt_loop (fuel : nat) head insize lst : HM V (option nat) :=
  match fuel with
  | O => λ _, NoFuel
  | S fuel =>
      '(lst, tl, nmerges) ← (λ s, srt_pass (S (size (els s))) insize lst None None 0 s);
      match tl with Some t => st (λ h, h <| next := None |>) t | None => mret tt end;;
      if nmerges <=? 1 then
        t ← tbl_of head; T ← ldT t;
        stT t (T <| tail := tl |>);;
        mret lst
      else srt_loop fuel head (u32 (insize * 2)) lst
  end.

(** [insize] wraps to zero after 32 doublings. *)
Definition HASH_SRT head : HM V (option nat) :=
  match head with
  | None => mret None
  | Some _ => srt_loop 33 head 1 head
  end.
End srt.

(** ** Merging runs of lists *)

Section runs.
Context {A : Type} (R : relation A) `{!∀ x y, Decision (R x y)}.
Implicit Types (l : list A) (n : nat).

(** What a pass over [l] does: runs of [n] elements are merged pairwise. *)
Fixpoint merge_runs (fuel : nat) n l : list A :=
  match fuel, l with
  | S fuel, _ :: _ =>
      list_merge R (take n l) (take n (drop n l)) ++ merge_runs fuel n (drop n (drop n l))
  | _, _ => []
  end.

Fixpoint count_runs (fuel : nat) n l : nat :=
  match fuel, l with
  | S fuel, _ :: _ => S (count_runs fuel n (drop n (drop n l)))
  | _, _ => 0
  end.

Lemma merge_runs_perm fuel n l : (0 < n)%nat → (length l ≤ fuel)%nat → merge_runs fuel n l ≡ₚ l.
Proof.
  intros Hn. revert l. induction fuel as [|fuel IH]; intros [|x l] Hf; cbn [length] in Hf; [done|lia|done|].
  cbn [merge_runs]. rewrite IH by (rewrite !length_drop; cbn [length]; lia).
  by rewrite merge_Permutation, <- app_assoc, !take_drop.
Qed.

Lemma count_runs_le fuel n l : (0 < n)%nat → (count_runs fuel n l ≤ length l)%nat.
Proof.
  intros Hn. revert l. induction fuel as [|fuel IH]; intros [|x l]; cbn [count_runs]; try (cbn; lia).
  specialize (IH (drop n (drop n (x :: l)))). rewrite !length_drop in IH. cbn [length] in *. lia.
Qed.

Lemma count_runs_one fuel n l :
  (0 < n)%nat → (length l ≤ fuel)%nat → (count_runs fuel n l ≤ 1)%nat ↔ (length l ≤ 2 * n)%nat.
Proof.
  intros Hn Hf. destruct fuel as [|fuel], l as [|x l]; cbn [length] in Hf; try (cbn; lia).
  cbn [count_runs]. set (r := drop n (drop n (x :: l))).
  assert (length r = length (x :: l) - n - n)%nat as Er by (unfold r; by rewrite !length_drop).
  destruct fuel as [|fuel], r as [|y r]; cbn [length count_runs] in *; lia.
Qed.

(** Every run of [n] elements is sorted. *)
Definition sorted_runs n l : Prop := ∀ i, StronglySorted R (take n (drop (i * n) l)).

Lemma sorted_runs_one l : sorted_runs 1 l.
Proof.
  intros i. destruct (drop (i * 1) l) as [|x r]; cbn; [constructor|].
  rewrite take_0. repeat constructor.
Qed.

Context `{!Total R, !Transitive R}.

Lemma list_merge_sorted l1 l2 :
  StronglySorted R l1 → StronglySorted R l2 → StronglySorted R (list_merge R l1 l2).
Proof.
  intros H1%StronglySorted_Sorted H2%StronglySorted_Sorted.
  by apply Sorted_StronglySorted, Sorted_list_merge.
Qed.

Lemma merge_runs_sorted fuel n l :
  (0 < n)%nat → (length l ≤ fuel)%nat → sorted_runs n l → sorted_runs (2 * n) (merge_runs fuel n l).
Proof.
  intros Hn. assert (sorted_runs (2 * n) []) as Hnil
    by (intros i; rewrite drop_nil, take_nil; constructor).
  revert l. induction fuel as [|fuel IH]; intros [|x l] Hf Hs; cbn [length] in Hf; [done|lia|done|].
  cbn [merge_runs]. set (l0 := x :: l) in *.
  set (lm := list_merge R _ _).
  assert (StronglySorted R lm) as Hm.
  { apply list_merge_sorted; [apply (Hs 0%nat)|]. specialize (Hs 1%nat). by rewrite Nat.mul_1_l in Hs. }
  assert (length lm = length (take n l0) + length (take n (drop n l0)))%nat as Hlm.
  { unfold lm. by rewrite merge_Permutation, length_app. }
  rewrite !length_take, length_drop in Hlm.
  set (lr := merge_runs fuel n _). assert (sorted_runs (2 * n) lr) as Hr.
  { apply IH; [rewrite !length_drop; unfold l0; cbn [length]; lia|].
    intros i. rewrite !drop_drop. specialize (Hs (2 + i)%nat).
    by replace (n + (n + i * n))%nat with ((2 + i) * n)%nat by lia. }
  destruct (decide (length l0 ≤ 2 * n)%nat) as [Hshort|Hlong].
  - assert (lr = []) as ->.
    { unfold lr. rewrite (drop_ge (drop n l0)) by (rewrite length_drop; lia). by destruct fuel. }
    rewrite app_nil_r. intros [|i].
    + rewrite Nat.mul_0_l, drop_0, take_ge by lia. done.
    + rewrite drop_ge by lia. rewrite take_nil. constructor.
  - intros [|i].
    + rewrite Nat.mul_0_l, drop_0, take_app_length' by lia. done.
    + replace (S i * (2 * n))%nat with (length lm + i * (2 * n))%nat by lia.
      rewrite drop_app_add. apply Hr.
Qed.

(** Elements neither of which comes before the other. *)
Definition tied (x y : A) : Prop := R x y ∧ R y x.
#[export] Instance tied_dec x y : Decision (tied x y) := and_dec _ _.

Lemma tied_none x y l : Forall (R x) l → ¬ R x y → filter (tied y) l = [].
Proof.
  intros Hl Hxy. induction Hl as [|z l Hz Hl IH]; [done|].
  rewrite filter_cons_False; [done|]. intros [Hyz Hzy]. apply Hxy. by trans z.
Qed.

(** Merging sorted runs keeps the order of tied elements. *)
Lemma list_merge_stable y l1 l2 :
  StronglySorted R l1 → StronglySorted R l2 →
  filter (tied y) (list_merge R l1 l2) = filter (tied y) l1 ++ filter (tied y) l2.
Proof.
  intros H1. revert l2. induction H1 as [|x1 l1 H1 IH1 Hx1]; intros l2 H2.
  { by rewrite list_merge_nil_l. }
  induction H2 as [|x2 l2 H2 IH2 Hx2]; [by rewrite list_merge_nil_r, app_nil_r|].
  rewrite list_merge_cons. case_decide as Hd.
  - rewrite !(filter_cons (tied y) x1), IH1 by by constructor. by case_decide.
  - rewrite (filter_cons (tied y) x2 (list_merge _ _ _)), IH2, (filter_cons (tied y) x2 l2).
    case_decide as Ht; [|done].
    assert (filter (tied y) (x1 :: l1) = []) as ->; [|done].
    destruct Ht as [Hy2 H2y]. apply (tied_none x1).
    + constructor; [|done]. by destruct (total R x1 x1).
    + intros H1y. apply Hd. by trans y.
Qed.

Lemma sorted_runs_drop n l : sorted_runs n l → sorted_runs n (drop n (drop n l)).
Proof.
  intros Hs i. rewrite !drop_drop. specialize (Hs (2 + i)%nat).
  by replace (n + (n + i * n))%nat with ((2 + i) * n)%nat by lia.
Qed.

Lemma merge_runs_stable y fuel n l :
  (0 < n)%nat → (length l ≤ fuel)%nat → sorted_runs n l →
  filter (tied y) (merge_runs fuel n l) = filter (tied y) l.
Proof.
  intros Hn. revert l. induction fuel as [|fuel IH]; intros [|x l] Hf Hs; cbn [length] in Hf; [done|lia|done|].
  cbn [merge_runs]. rewrite filter_app, IH.
  - rewrite list_merge_stable.
    + by rewrite <- !filter_app, <- app_assoc, !take_drop.
    + apply (Hs 0%nat).
    + specialize (Hs 1%nat). by rewrite Nat.mul_1_l in Hs.
  - rewrite !length_drop. cbn [length]. lia.
  - by apply sorted_runs_drop.
Qed.
End runs.

(** ** The links during a pass *)

Section links.
Implicit Types (N P : nat → option (option nat)) (xs : list nat) (n : option nat).

(** The elements [xs] follow each other; after the last comes [n]. *)
Fixpoint seg N xs n : Prop :=
  match xs with [] => True | x :: r => N x = Some (onto r n) ∧ seg N r n end.

Lemma seg_app N l r n : seg N (l ++ r) n ↔ seg N l (onto r n) ∧ seg N r n.
Proof. induction l as [|x l IH]; cbn; [tauto|]. rewrite IH, onto_app. tauto. Qed.

Lemma seg_ext N N' xs n : (∀ y, y ∈ xs → N' y = N y) → seg N xs n → seg N' xs n.
Proof.
  induction xs as [|x r IH]; cbn; [done|]. intros HN [H1 H2].
  split; [by rewrite HN by apply list_elem_of_here|]. apply IH; [set_solver|done].
Qed.

Lemma dll_seg N P q xs n : dll N P q xs n → seg N xs n.
Proof. revert q. induction xs as [|x r IH]; intros q; cbn; [done|]. intros (_ & H & Hr). eauto. Qed.

(** Ending a list at its last element. *)
Lemma dll_close N P N' P' q xs n n' :
  NoDup xs → dll N P q xs n →
  (∀ y, y ∈ xs → N' y = if decide (last xs = Some y) then Some n' else N y) →
  (∀ y, y ∈ xs → P' y = P y) → dll N' P' q xs n'.
Proof.
  destruct xs as [|y l _] using rev_ind; [done|]. rewrite last_snoc.
  intros (_ & Hl & _)%NoDup_app Hd HN HP. apply dll_app in Hd as [Hd (HPy & _ & _)].
  apply dll_app. split; [|cbn; split_and!; [..|done]].
  - revert Hd. apply dll_ext; intros z Hz; [|apply HP; set_solver].
    rewrite HN by set_solver. rewrite decide_False; [done|]. intros [= ->]. set_solver.
  - rewrite HP by set_solver. done.
  - rewrite HN by set_solver. by rewrite decide_True.
Qed.
End links.

Section pass.
Context {V : Type} `{!HashEnv V} (cmpfcn : V → V → Z).
(** The elements of the table and the store when the sort begins. *)
Context (xvs : list (nat * V)) (m0 : gmap nat (element V)).
Hypotheses (Hnd : NoDup xvs.*1)
  (Hval : ∀ x v, (x, v) ∈ xvs → val <$> m0 !! x = Some v).
Implicit Types (out pl ql l : list (nat * V)) (m : gmap nat (element V)) (s : store V).

(** The order of the elements. *)
Definition before (a b : nat * V) : Prop := cmpfcn a.2 b.2 ≤ 0.
#[export] Instance before_dec a b : Decision (before a b) := Z_le_dec _ _.

(** [out] has been put out, [pl] is what is left of the run at [p], [ql] all that
    follows from [q] on. *)
Record sorting out pl ql m : Prop := mkSorting {
  so_same : same_but clr_app m0 m;
  so_perm : out ++ pl ++ ql ≡ₚ xvs;
  so_frame : ∀ y, y ∉ xvs.*1 → m !! y = m0 !! y;
  so_out : ∃ n, dll (fld next m) (fld prev m) None out.*1 n;
  so_p : ∃ n, seg (fld next m) pl.*1 n;
  so_q : seg (fld next m) ql.*1 None
}.

Lemma so_in out pl ql m x v :
  sorting out pl ql m → (x, v) ∈ out ++ pl ++ ql →
  val <$> m !! x = Some v ∧ is_Some (m !! x) ∧ x ∈ xvs.*1.
Proof.
  intros Hso Hx. rewrite (so_perm _ _ _ _ Hso) in Hx. pose proof (Hval _ _ Hx) as Hv.
  split_and!.
  - by rewrite (same_but_val clr_app m0 m) by apply Hso.
  - apply (same_but_is_Some clr_app m0 m); [apply Hso|]. destruct (m0 !! x); [eauto|done].
  - by apply (list_elem_of_fmap_2 fst) in Hx.
Qed.

Lemma so_nodup out pl ql m : sorting out pl ql m → NoDup (out.*1 ++ pl.*1 ++ ql.*1).
Proof. intros Hso. by rewrite <- !fmap_app, (so_perm _ _ _ _ Hso). Qed.

(** The stores of [srt_append]. *)
Definition appended out (x : nat) m : gmap nat (element V) :=
  alter (set_hh (λ h, h <| prev := last out.*1 |>)) x
    (alter_opt (λ h, h <| next := Some x |>) (last out.*1) m).

Lemma sorting_append out pl ql pl' ql' m x v :
  sorting out pl ql m → pl ++ ql ≡ₚ (x, v) :: pl' ++ ql' →
  (∃ n, seg (fld next m) pl'.*1 n) → seg (fld next m) ql'.*1 None →
  sorting (out ++ [(x, v)]) pl' ql' (appended out x m).
Proof.
  intros Hso Hp [np Hpl] Hql. pose proof Hso as [Hs Hpm Hf [n Ho] _ _].
  pose proof (so_nodup _ _ _ _ Hso) as Hndo.
  assert (NoDup (out.*1 ++ x :: pl'.*1 ++ ql'.*1)) as (Ho1 & Ho2 & [Hx Ho3]%NoDup_cons)%NoDup_app.
  { assert (out.*1 ++ x :: pl'.*1 ++ ql'.*1 ≡ₚ out.*1 ++ pl.*1 ++ ql.*1) as ->; [|done].
    apply Permutation_app_head. rewrite <- !fmap_app. by rewrite Hp. }
  assert (∀ y w, (y, w) ∈ (x, v) :: out ++ pl' ++ ql' → is_Some (m !! y) ∧ y ∈ xvs.*1) as Hin.
  { intros y w Hy. eapply so_in; [exact Hso|].
    apply elem_of_cons in Hy as [E|Hy]; [rewrite E|]; apply elem_of_app; rewrite Hp; set_solver. }
  assert (∀ y, y ∈ out.*1 → is_Some (m !! y) ∧ y ∈ xvs.*1 ∧ y ≠ x) as Hout.
  { intros y Hy. assert (y ≠ x) by (intros ->; apply (Ho2 x); set_solver).
    apply list_elem_of_fmap in Hy as ([n0 w] & -> & Hy).
    destruct (Hin n0 w); [|done]. apply list_elem_of_further, elem_of_app. by left. }
  destruct (Hin x v) as [Hxm Hxin]; [apply list_elem_of_here|].
  assert (∀ y, y ∉ out.*1 → fld next (appended out x m) y = fld next m y) as Hnext.
  { intros y Hy. unfold appended. rewrite fld_alter_id by done. unfold fld.
    rewrite alter_opt_ne; [done|]. intros E%last_Some_elem_of. done. }
  assert (∀ y, y ∈ pl'.*1 ++ ql'.*1 → fld next (appended out x m) y = fld next m y) as Hrest.
  { intros y Hy. apply Hnext. intros Hy'. apply (Ho2 y Hy'). set_solver. }
  split.
  - etrans; [exact Hs|]. etrans; [|by apply same_but_alter]. by apply same_but_alter_opt.
  - rewrite <- app_assoc. cbn. rewrite <- Hpm. by rewrite Hp.
  - intros y Hy. rewrite <- Hf by done. unfold appended.
    rewrite lookup_alter_ne by (by intros <-). apply alter_opt_ne.
    intros E%last_Some_elem_of. by apply Hy, Hout.
  - destruct Hxm as [e Ee]. eexists. rewrite fmap_app. cbn [fmap list_fmap fst].
    eapply (dll_snoc (fld next m) (fld prev m)); [done|exact Ho| | |..].
    + intros y Hy. unfold appended. rewrite fld_alter_id by done. apply fld_alter_opt; [done|by apply Hout].
    + intros y Hy. unfold appended. rewrite fld_alter_ne by (apply not_eq_sym; by apply Hout).
      by apply fld_alter_opt_id.
    + rewrite Hnext; [unfold fld; by rewrite Ee|]. intros Hx'. apply (Ho2 x Hx'). set_solver.
    + unfold appended. apply fld_alter_eq; [|done].
      apply (same_but_is_Some clr_app m); [by apply same_but_alter_opt|]. eauto.
  - exists np. revert Hpl. apply seg_ext. intros y Hy. apply Hrest. set_solver.
  - revert Hql. apply seg_ext. intros y Hy. apply Hrest. set_solver.
Qed.

Lemma wp_srt_append out pl ql pl' ql' x v s Q :
  sorting out pl ql (els s) → pl ++ ql ≡ₚ (x, v) :: pl' ++ ql' →
  (∃ n, seg (fld next (els s)) pl'.*1 n) → seg (fld next (els s)) ql'.*1 None →
  (∀ m', sorting (out ++ [(x, v)]) pl' ql' m' →
     Q (head (out ++ [(x, v)]).*1) (s <| els := m' |>)) →
  wp (srt_append (head out.*1) (last out.*1) (Some x)) Q s.
Proof.
  intros Hso Hp Hpl Hql HQ. pose proof (sorting_append _ _ _ _ _ _ _ _ Hso Hp Hpl Hql) as Hso'.
  specialize (HQ _ Hso'). unfold srt_append.
  assert (is_Some (els s !! x)) as Hx.
  { eapply so_in; [exact Hso|]. apply elem_of_app. right. rewrite Hp. apply list_elem_of_here. }
  assert (∀ Q', Q' (head (out ++ [(x, v)]).*1)
      (s <| els := alter_opt (λ h, h <| next := Some x |>) (last out.*1) (els s) |>) →
    wp (match last out.*1 with
        | Some t => st (λ h, h <| next := Some x |>) t;; mret (head out.*1)
        | None => mret (Some x)
        end) Q' s) as Hn.
  { intros Q' HQ'. destruct (last out.*1) as [t|] eqn:El.
    - wpb. apply wp_st.
      { apply last_Some_elem_of, list_elem_of_fmap in El as ([? w] & -> & Hy).
        eapply so_in; [exact Hso|]. apply elem_of_app. by left. }
      apply wp_ret. destruct out as [|[y w] out]; [done|]. exact HQ'.
    - apply last_None, fmap_nil_inv in El as ->. apply wp_ret. cbn in HQ'. by destruct s. }
  wpb. apply Hn. wpb. apply wp_st.
  - sred. apply (same_but_is_Some clr_app (els s)); [by apply same_but_alter_opt|done].
  - by apply wp_ret.
Qed.
(** *** Merging two runs *)

Definition merged out pl ql (n : nat) : list (nat * V) :=
  out ++ list_merge before pl (take n ql).

(** The two ways to take an element. *)
Lemma wp_srt_step_p {B} out x v pl ql q psize qsize s
    (k : option nat → option nat → option nat → Z → Z → option nat → HM V B) Q :
  sorting out ((x, v) :: pl) ql (els s) →
  (∀ n m', sorting (out ++ [(x, v)]) pl ql m' →
     wp (k (Some x) (onto pl.*1 n) q (u32 (psize - 1)) qsize (head (out ++ [(x, v)]).*1)) Q
        (s <| els := m' |>)) →
  wp ('(e, p, q, psize, qsize) ← srt_take_p (Some x) q psize qsize;
      lst ← srt_append (head out.*1) (last out.*1) e; k e p q psize qsize lst) Q s.
Proof.
  intros Hso HQ. destruct (so_p _ _ _ _ Hso) as (n & HN & Hpl).
  unfold srt_take_p. wpb. wpb. eapply wp_ld; [exact HN|]. apply wp_ret.
  wpb. eapply (wp_srt_append _ _ _ pl ql x v); [exact Hso|done|by exists n|apply Hso|]. intros m' Hso'. by apply HQ.
Qed.

Lemma wp_srt_step_q {B} out y w pl ql p psize qsize s
    (k : option nat → option nat → option nat → Z → Z → option nat → HM V B) Q :
  sorting out pl ((y, w) :: ql) (els s) →
  (∀ m', sorting (out ++ [(y, w)]) pl ql m' →
     wp (k (Some y) p (head ql.*1) psize (u32 (qsize - 1)) (head (out ++ [(y, w)]).*1)) Q
        (s <| els := m' |>)) →
  wp ('(e, p, q, psize, qsize) ← srt_take_q p (Some y) psize qsize;
      lst ← srt_append (head out.*1) (last out.*1) e; k e p q psize qsize lst) Q s.
Proof.
  intros Hso HQ. destruct (so_q _ _ _ _ Hso) as [HN Hql]. rewrite onto_None in HN.
  unfold srt_take_q, srt_next. wpb. wpb. wpb. apply wp_deref. eapply wp_ld; [exact HN|]. apply wp_ret.
  wpb. eapply (wp_srt_append _ _ _ pl ql y w); [exact Hso|by rewrite Permutation_middle|apply Hso|done|].
  intros m' Hso'. by apply HQ.
Qed.

Lemma wp_srt_cmp out x v y w pl ql s Q :
  sorting out ((x, v) :: pl) ((y, w) :: ql) (els s) →
  Q (cmpfcn v w) s → wp (srt_cmp cmpfcn (Some x) (Some y)) Q s.
Proof.
  intros Hso HQ. destruct (so_in _ _ _ _ x v Hso) as (Hx & _); [set_solver|].
  destruct (so_in _ _ _ _ y w Hso) as (Hy & _); [set_solver|].
  destruct (els s !! x) as [ex|] eqn:Ex; [|done]. destruct (els s !! y) as [ey|] eqn:Ey; [|done].
  cbn in Hx, Hy. injection Hx as <-. injection Hy as <-.
  unfold srt_cmp. wpb. apply wp_deref. wpb. apply wp_deref.
  wpb. eapply wp_ld_val; [exact Ex|]. wpb. eapply wp_ld_val; [exact Ey|]. by apply wp_ret.
Qed.

Lemma merged_p out x v pl ql n :
  (∀ y w ql', ql = (y, w) :: ql' → n ≠ 0%nat → before (x, v) (y, w)) →
  merged out ((x, v) :: pl) ql n = merged (out ++ [(x, v)]) pl ql n.
Proof.
  intros Hb. unfold merged. rewrite <- app_assoc. f_equal.
  destruct n as [|n]; [by rewrite take_0, !list_merge_nil_r|].
  destruct ql as [|[y w] ql]; [by rewrite take_nil, !list_merge_nil_r|].
  cbn [take app]. rewrite list_merge_cons, decide_True; [done|]. by eapply Hb.
Qed.

Lemma merged_q out pl y w ql n :
  (∀ x v pl', pl = (x, v) :: pl' → ¬ before (x, v) (y, w)) →
  merged out pl ((y, w) :: ql) (S n) = merged (out ++ [(y, w)]) pl ql n.
Proof.
  intros Hb. unfold merged. rewrite <- app_assoc. f_equal. cbn [take app].
  destruct pl as [|[x v] pl]; [by rewrite !list_merge_nil_l|].
  rewrite list_merge_cons, decide_False; [done|]. by eapply Hb.
Qed.

(** What the merging loop does in [fuel] rounds; [p] counts only while its run
    lasts. *)
Definition merge_ok (fuel : nat) : Prop := ∀ out pl ql p qsize s (Q : _ → store V → Prop),
  (length pl + length ql < fuel)%nat → lenZ pl < 2 ^ 32 → 0 ≤ qsize < 2 ^ 32 →
  (pl ≠ [] → p = head pl.*1) → sorting out pl ql (els s) →
  (∀ m', let out' := merged out pl ql (Z.to_nat qsize) in
     let ql' := drop (Z.to_nat qsize) ql in
     sorting out' [] ql' m' →
     Q (head ql'.*1, head out'.*1, last out'.*1) (s <| els := m' |>)) →
  wp (srt_merge cmpfcn fuel p (head ql.*1) (lenZ pl) qsize (head out.*1) (last out.*1)) Q s.

(** The rest of a round. *)
Definition merge_rest (fuel : nat) (e p q : option nat) (psize qsize : Z) (lst : option nat) :=
  srt_merge cmpfcn fuel p q psize qsize lst e.

Lemma merge_after_p fuel out x v pl ql qsize s Q :
  merge_ok fuel → (length pl + length ql < fuel)%nat → 1 + lenZ pl < 2 ^ 32 → 0 ≤ qsize < 2 ^ 32 →
  sorting out ((x, v) :: pl) ql (els s) →
  (∀ y w ql', ql = (y, w) :: ql' → qsize ≠ 0 → before (x, v) (y, w)) →
  (∀ m', let out' := merged out ((x, v) :: pl) ql (Z.to_nat qsize) in
     let ql' := drop (Z.to_nat qsize) ql in
     sorting out' [] ql' m' →
     Q (head ql'.*1, head out'.*1, last out'.*1) (s <| els := m' |>)) →
  wp ('(e, p, q, psize, qsize) ← srt_take_p (Some x) (head ql.*1) (1 + lenZ pl) qsize;
      lst ← srt_append (head out.*1) (last out.*1) e; merge_rest fuel e p q psize qsize lst) Q s.
Proof.
  intros IH Hf Hpl Hq Hso Hb HQ. pose proof (lenZ_nonneg pl).
  rewrite merged_p in HQ by (intros y w ql' E Hn; eapply Hb; [done|lia]).
  apply (wp_srt_step_p out x v pl ql); [done|]. intros n m' Hso'. unfold merge_rest.
  assert (u32 (1 + lenZ pl - 1) = lenZ pl) as -> by (unfold_u; rewrite Z.mod_small; lia).
  replace (Some x) with (last (out ++ [(x, v)]).*1) by (by rewrite fst_snoc, last_snoc).
  apply IH; [done|lia|done| |done|].
  - by destruct pl as [|[]].
  - intros m2 out' ql' Hso2. specialize (HQ m2 Hso2). by destruct s.
Qed.

Lemma merge_after_q fuel out pl y w ql p qsize s Q :
  merge_ok fuel → (length pl + length ql < fuel)%nat → lenZ pl < 2 ^ 32 → 0 < qsize < 2 ^ 32 →
  (pl ≠ [] → p = head pl.*1) → sorting out pl ((y, w) :: ql) (els s) →
  (∀ x v pl', pl = (x, v) :: pl' → ¬ before (x, v) (y, w)) →
  (∀ m', let out' := merged out pl ((y, w) :: ql) (Z.to_nat qsize) in
     let ql' := drop (Z.to_nat qsize) ((y, w) :: ql) in
     sorting out' [] ql' m' →
     Q (head ql'.*1, head out'.*1, last out'.*1) (s <| els := m' |>)) →
  wp ('(e, p, q, psize, qsize) ← srt_take_q p (Some y) (lenZ pl) qsize;
      lst ← srt_append (head out.*1) (last out.*1) e; merge_rest fuel e p q psize qsize lst) Q s.
Proof.
  intros IH Hf Hpl Hq Hp Hso Hb HQ.
  replace (Z.to_nat qsize) with (S (Z.to_nat (qsize - 1))) in HQ by lia.
  rewrite merged_q in HQ by done. cbn [drop] in HQ.
  apply (wp_srt_step_q out y w pl ql); [done|]. intros m' Hso'. unfold merge_rest.
  assert (u32 (qsize - 1) = qsize - 1) as -> by (unfold_u; apply Z.mod_small; lia).
  replace (Some y) with (last (out ++ [(y, w)]).*1) by (by rewrite fst_snoc, last_snoc).
  apply IH; [done|done|lia|done|done|].
  intros m2 out' ql' Hso2. specialize (HQ m2 Hso2). by destruct s.
Qed.

(** The loop ends with nothing left of the first run and [n] of the second. *)
Lemma merge_end out ql n s (Q : _ → store V → Prop) :
  n = 0%nat ∨ ql = [] → sorting out [] ql (els s) →
  (∀ m', let out' := merged out [] ql n in
     let ql' := drop n ql in
     sorting out' [] ql' m' → Q (head ql'.*1, head out'.*1, last out'.*1) (s <| els := m' |>)) →
  wp (mret (head ql.*1, head out.*1, last out.*1)) Q s.
Proof.
  intros Hn Hso HQ. apply wp_ret. specialize (HQ (els s)). cbv zeta in HQ. unfold merged in HQ.
  assert (take n ql = [] ∧ drop n ql = ql) as [Et Ed].
  { destruct Hn as [->| ->]; [done|]. by rewrite take_nil, drop_nil. }
  rewrite Et, Ed, list_merge_nil_l, app_nil_r in HQ. specialize (HQ Hso). by destruct s.
Qed.

Lemma wp_srt_merge fuel : merge_ok fuel.
Proof.
  induction fuel as [|fuel IH]; intros out pl ql p qsize s Q Hf Hpl Hq Hp Hso HQ; [lia|].
  cbn [srt_merge]. fold (merge_rest fuel). destruct pl as [|[x v] pl].
  - change (lenZ []) with 0. cbn [negb orb Z.eqb]. destruct ql as [|[y w] ql].
    + rewrite andb_false_r. eapply merge_end; [by right|done..].
    + destruct (Z.eqb_spec qsize 0) as [->|Hq0]; [eapply merge_end; [by left|done..]|].
      cbn [negb andb head fmap list_fmap fst]. rewrite bool_decide_eq_false_2 by done.
      apply (merge_after_q fuel out [] y w ql); [done|cbn [length] in *; lia|done|lia|done..].
  - rewrite lenZ_cons in *. pose proof (lenZ_nonneg pl). specialize (Hp ltac:(done)). subst p.
    cbn [length] in Hf. unfold srt_choose. rewrite (proj2 (Z.eqb_neq (1 + lenZ pl) 0)) by lia.
    destruct ql as [|[y w] ql]; [|destruct (Z.eqb_spec qsize 0) as [->|Hq0]].
    + rewrite orb_true_r. apply (merge_after_p fuel out x v pl []); [done|lia|lia|lia|done..].
    + by apply (merge_after_p fuel out x v pl ((y, w) :: ql)); [done|cbn [length] in *; lia..| | |].
    + cbn [negb orb head fmap list_fmap fst]. rewrite bool_decide_eq_false_2 by done.
      wpb. wpb. eapply wp_srt_cmp; [exact Hso|].
      destruct (Z.leb_spec (cmpfcn v w) 0) as [Hc|Hc]; apply wp_unbind.
      * apply (merge_after_p fuel out x v pl ((y, w) :: ql)); [done|lia|lia|lia|done| |done].
        by intros y' w' ql' [= <- <- _] _.
      * rewrite <- lenZ_cons with (x := (x, v)).
        apply (merge_after_q fuel out ((x, v) :: pl) y w ql);
          [done|cbn [length] in *; lia|rewrite lenZ_cons; lia|lia|done|done| |done].
        intros x' v' pl' [= <- <- _]. unfold before. cbn. lia.
Qed.

(** *** A pass *)

Lemma wp_srt_run n : ∀ x v l psize s Q,
  seg (fld next (els s)) ((x, v) :: l).*1 None → 0 ≤ psize → psize + lenZ ((x, v) :: l) < 2 ^ 32 →
  Q (head (drop n ((x, v) :: l)).*1, psize + lenZ (take n ((x, v) :: l))) s →
  wp (srt_run n (Some x) psize) Q s.
Proof.
  induction n as [|n IH]; intros x v l psize s Q Hl Hp Hb HQ; cbn [srt_run].
  - apply wp_ret. change (lenZ (take 0 _)) with 0 in HQ. by rewrite Z.add_0_r in HQ.
  - destruct Hl as [HN Hl]. change (fld next (els s) x = Some (onto l.*1 None)) in HN.
    rewrite onto_None in HN. rewrite lenZ_cons in Hb. pose proof (lenZ_nonneg l).
    assert (u32 (psize + 1) = psize + 1) as -> by (unfold_u; apply Z.mod_small; lia).
    unfold srt_next. wpb. wpb. apply wp_deref. eapply wp_ld; [exact HN|].
    cbn [drop take] in HQ. rewrite lenZ_cons, Z.add_assoc in HQ.
    destruct l as [|[y w] l].
    + apply wp_ret. rewrite drop_nil, take_nil in HQ. change (lenZ []) with 0 in HQ.
      by rewrite Z.add_0_r in HQ.
    + by apply (IH y w l); [|lia..|].
Qed.

Lemma so_split n out l m : sorting out [] l m → sorting out (take n l) (drop n l) m.
Proof.
  intros [H1 H2 H3 H4 _ H6]. split; [done| |done|done| |].
  - by rewrite take_drop.
  - rewrite <- (take_drop n l), fmap_app in H6. apply seg_app in H6 as [H6 _]. eauto.
  - rewrite <- (take_drop n l), fmap_app in H6. by apply seg_app in H6 as [_ H6].
Qed.

Lemma so_length out pl ql m :
  sorting out pl ql m → (length out + length pl + length ql = length xvs ∧ length xvs ≤ size m)%nat.
Proof.
  intros Hso. split.
  - rewrite <- (so_perm _ _ _ _ Hso), !length_app. lia.
  - rewrite <- (length_fmap fst). apply concat_length_le; [done|].
    intros x ([? v] & -> & Hx)%list_elem_of_fmap. eapply so_in; [exact Hso|].
    by rewrite (so_perm _ _ _ _ Hso).
Qed.

Lemma wp_srt_pass insize fuel : ∀ out l nmerges s Q,
  0 < insize < 2 ^ 32 → (length l < fuel)%nat → lenZ xvs < 2 ^ 32 →
  0 ≤ nmerges → nmerges + lenZ l < 2 ^ 32 → sorting out [] l (els s) →
  (∀ m', let out' := out ++ merge_runs before fuel (Z.to_nat insize) l in
     sorting out' [] [] m' →
     Q (head out'.*1, last out'.*1, nmerges + Z.of_nat (count_runs fuel (Z.to_nat insize) l))
       (s <| els := m' |>)) →
  wp (srt_pass cmpfcn fuel insize (head l.*1) (head out.*1) (last out.*1) nmerges) Q s.
Proof.
  intros out l nmerges s Q Hi. revert out l nmerges s Q.
  induction fuel as [|fuel IH]; intros out l nmerges s Q Hf Hx Hn0 Hn Hso HQ; [lia|].
  destruct l as [|[x v] l].
  { cbn [srt_pass head fmap list_fmap]. apply wp_ret. specialize (HQ (els s)). cbn in HQ.
    rewrite app_nil_r, Z.add_0_r in HQ. specialize (HQ Hso). by destruct s. }
  cbn [srt_pass head fmap list_fmap fst]. rewrite lenZ_cons in Hn. pose proof (lenZ_nonneg l).
  destruct (so_length _ _ _ _ Hso) as [Hl Hsz]. cbn [length] in Hl, Hf.
  assert (lenZ ((x, v) :: l) < 2 ^ 32) by (unfold lenZ in *; cbn [length]; lia).
  wpb. apply (wp_srt_run _ x v l); [apply Hso|lia..|]. rewrite Z.add_0_l.
  set (l0 := (x, v) :: l) in *. set (n := Z.to_nat insize) in *.
  wpb. apply (wp_srt_merge _ out (take n l0) (drop n l0)).
  - rewrite length_take, length_drop. unfold l0. cbn [length]. lia.
  - unfold lenZ in *. rewrite length_take. lia.
  - lia.
  - intros _. unfold l0, n. by replace (Z.to_nat insize) with (S (Z.to_nat (insize - 1))) by lia.
  - by apply so_split.
  - intros m' out' ql' Hso'.
    assert (u32 (nmerges + 1) = nmerges + 1) as -> by (unfold_u; apply Z.mod_small; lia).
    assert (length ql' ≤ length l)%nat as Hq.
    { unfold ql', l0, n. rewrite !length_drop. cbn [length]. lia. }
    apply IH; [lia|done|lia|unfold lenZ in *; lia|done|]. intros m2. sred.
    specialize (HQ m2). cbv zeta in HQ.
    change (count_runs (S fuel) n l0) with (S (count_runs fuel n (drop n (drop n l0)))) in HQ.
    change (merge_runs before (S fuel) n l0) with
      (list_merge before (take n l0) (take n (drop n l0)) ++
       merge_runs before fuel n (drop n (drop n l0))) in HQ.
    unfold out' at 1 2 3, merged. rewrite <- !app_assoc. intros Hso2.
    specialize (HQ Hso2). rewrite Nat2Z.inj_succ, <- Z.add_1_l, Z.add_assoc in HQ.
    by destruct s.
Qed.

(** *** All passes *)

(** Between two passes: the list [l] is linked in both directions. *)
Record linked l m : Prop := mkLinked {
  li_same : same_but clr_app m0 m;
  li_perm : l ≡ₚ xvs;
  li_frame : ∀ y, y ∉ xvs.*1 → m !! y = m0 !! y;
  li_dll : dll (fld next m) (fld prev m) None l.*1 None
}.

Lemma linked_sorting l m : linked l m → sorting [] [] l m.
Proof.
  intros [H1 H2 H3 H4]. split; [done|done|done|by exists None|by exists None|].
  by eapply dll_seg.
Qed.

Lemma wp_srt_close out s Q :
  sorting out [] [] (els s) → (∀ m', linked out m' → Q tt (s <| els := m' |>)) →
  wp (match last out.*1 with Some t => st (λ h, h <| next := None |>) t | None => mret tt end) Q s.
Proof.
  intros Hso HQ. pose proof Hso as [H1 H2 H3 [n H4] _ _]. rewrite app_nil_r in H2.
  pose proof (so_nodup _ _ _ _ Hso) as Hndo. rewrite app_nil_r in Hndo.
  assert (∀ y, y ∈ out.*1 → is_Some (els s !! y) ∧ y ∈ xvs.*1) as Hin.
  { intros y ([? w] & -> & Hy)%list_elem_of_fmap. eapply so_in; [exact Hso|]. by rewrite app_nil_r. }
  apply wp_st_opt; [by intros y Hy%last_Some_elem_of; apply Hin|]. apply HQ. split.
  - etrans; [exact H1|]. by apply same_but_alter_opt.
  - done.
  - intros y Hy. rewrite <- H3 by done. apply alter_opt_ne.
    intros E%last_Some_elem_of. by apply Hy, Hin.
  - eapply dll_close; [done|exact H4| |].
    + intros y Hy. apply fld_alter_opt; [done|by apply Hin].
    + intros y Hy. by apply fld_alter_opt_id.
Qed.

(** The comparison function is a total preorder. *)
Record cmp_order : Prop := {
  cmp_total v w : cmpfcn v w ≤ 0 ∨ cmpfcn w v ≤ 0;
  cmp_trans u v w : cmpfcn u v ≤ 0 → cmpfcn v w ≤ 0 → cmpfcn u w ≤ 0
}.

(** [l] is sorted in runs of [n], tied elements in the order of [xvs]. *)
Definition partly_sorted (n : nat) l : Prop :=
  cmp_order → sorted_runs before n l ∧
  ∀ y, filter (tied before y) l = filter (tied before y) xvs.

Lemma partly_sorted_pass fuel n l :
  (0 < n)%nat → (length l ≤ fuel)%nat → partly_sorted n l →
  partly_sorted (2 * n) (merge_runs before fuel n l).
Proof.
  intros Hn Hl Hs Ho. destruct (Hs Ho) as [Hr Hf]. destruct Ho as [Ht Htr].
  assert (Total before) by (intros a b; apply Ht).
  assert (Transitive before) by (intros a b c; apply Htr).
  split; [by apply merge_runs_sorted|]. intros y. by rewrite merge_runs_stable.
Qed.

Lemma wp_srt_loop h0 t T fuel : ∀ k l s Q,
  0 ≤ k ≤ 31 → fuel = Z.to_nat (33 - k) → lenZ xvs < 2 ^ 32 →
  h0 ∈ xvs.*1 → fld tbl m0 h0 = Some (Some t) → tbls s !! t = Some T →
  linked l (els s) → partly_sorted (2 ^ Z.to_nat k) l →
  (∀ l' m' n, (length l' ≤ n)%nat → linked l' m' → partly_sorted n l' →
     Q (head l'.*1) (s <| els := m' |> <| tbls := <[t := T <| tail := last l'.*1 |>]> (tbls s) |>)) →
  wp (srt_loop cmpfcn fuel (Some h0) (2 ^ k) (head l.*1)) Q s.
Proof.
  induction fuel as [|fuel IH]; intros k l s Q Hk Hf Hx Hh Htb HT Hli Hps HQ; [lia|].
  cbn [srt_loop]. pose proof (linked_sorting _ _ Hli) as Hso.
  destruct (so_length _ _ _ _ Hso) as [Hl Hsz]. cbn [length] in Hl.
  assert (0 < 2 ^ k < 2 ^ 32) as Hi by (split; [lia|apply Z.pow_lt_mono_r; lia]).
  assert (Z.to_nat (2 ^ k) = 2 ^ Z.to_nat k)%nat as Ek by (rewrite Z2Nat.inj_pow by lia; done).
  assert (0 < 2 ^ Z.to_nat k)%nat as Hpos by lia.
  wpb. set (f := S (size (els s))). assert (length l < f)%nat as Hlf by (unfold f; lia).
  apply (wp_srt_pass (2 ^ k) f [] l 0); [exact Hi|exact Hlf|done|lia|unfold lenZ in *; lia|done|].
  intros m' out' Hso'. rewrite Ek in *. cbn [app] in *. wpb.
  pose proof (partly_sorted_pass f _ l Hpos (Nat.lt_le_incl _ _ Hlf) Hps) as Hps'.
  pose proof (count_runs_one f _ l Hpos (Nat.lt_le_incl _ _ Hlf)) as Hc.
  assert (length out' = length l) as Hlo.
  { unfold out'. by rewrite merge_runs_perm by lia. }
  replace (merge_runs before f (2 ^ Z.to_nat k) l) with out' in Hps' by (unfold out'; by rewrite Ek).
  apply wp_srt_close; [done|]. intros m2 Hli2. rewrite Z.add_0_l.
  destruct (Z.leb_spec (Z.of_nat (count_runs f (2 ^ Z.to_nat k) l)) 1) as [H1|H1].
  - wpb. eapply wp_tbl_of; [sred; rewrite (same_but_fld _ clr_app m0); [exact Htb|done|apply Hli2]|].
    wpb. eapply wp_ldT; [exact HT|]. wpb. apply wp_stT; [sred; eauto|]. apply wp_ret.
    specialize (HQ out' m2 (2 * 2 ^ Z.to_nat k)%nat ltac:(lia) Hli2 Hps'). by destruct s.
  - assert (k < 31) as Hk'.
    { destruct (decide (k = 31)) as [->|]; [|lia]. exfalso.
      assert (Z.of_nat (2 * 2 ^ Z.to_nat 31) = 2 ^ 32) by (rewrite Nat2Z.inj_mul, Nat2Z.inj_pow; done).
      unfold lenZ in *. lia. }
    assert (u32 (2 ^ k * 2) = 2 ^ (k + 1)) as -> by (apply pow_double; lia).
    apply IH; [lia|lia|done|done|done|done|done| |].
    + replace (2 ^ Z.to_nat (k + 1))%nat with (2 * 2 ^ Z.to_nat k)%nat; [done|].
      rewrite Z2Nat.inj_add, Nat.pow_add_r, Nat.mul_comm by lia. done.
    + intros l' m3 n Hn Hl3 Hs3. specialize (HQ l' m3 n Hn Hl3 Hs3). by destruct s.
Qed.
End pass.

(** ** The sorted table *)

Section sorted_table.
Context {V : Type} `{!HashEnv V} (cmpfcn : V → V → Z).
Implicit Types (xvs : list (nat * V)) (s : store V) (h : option nat).

(** A table whose application order has been relinked. *)
Lemma rep_relink t T bs cs L xvs xvs' F s m' :
  rep t T bs cs L xvs xvs.*1 F s → linked xvs (els s) xvs' m' →
  rep t (T <| tail := last xvs'.*1 |>) bs cs L xvs' xvs'.*1 F
    (s <| els := m' |> <| tbls := <[t := T <| tail := last xvs'.*1 |>]> (tbls s) |>).
Proof.
  intros Hr [Hs Hp Hf Hd]. pose proof Hr as [Hwf Hels HT Ht HA Ha Hnb Hlog HL _ Hit [Hnd _ Hn] Hb].
  assert (xvs'.*1 ≡ₚ xvs.*1) as Hp1 by by rewrite Hp.
  split; sred; [| |by rewrite HT, insert_insert_eq|done|done|done|done|done|done|done| | |].
  - intros n Hn'. sred_in Hn'. destruct (Hwf n Hn') as (H1 & H2 & H3). split_and!; sred; [| |done].
    + apply eq_None_not_Some. rewrite (same_but_is_Some clr_app (els s)), H1 by done. apply is_Some_None.
    + rewrite lookup_insert_ne; [done|]. intros ->. by rewrite (rp_ldT Hr) in H2.
  - intros y. rewrite Hels. case_decide as Hy; [by rewrite decide_True by by rewrite Hp1|].
    rewrite decide_False by by rewrite Hp1. by rewrite Hf.
  - cbn [num_items upd]. rewrite Hit. unfold lenZ. by rewrite Hp1.
  - split; [by rewrite Hp1|done|]. rewrite Hp. eapply Forall_impl; [exact Hn|].
    intros xv. by apply (node_ok_same clr_app).
  - apply (bp_ys _ _ _ _ xvs.*1); [|done]. eapply bp_ext; [|exact Hb].
    intros y _. split_and!; by apply (same_but_fld _ clr_app).
Qed.

(** C35: [HASH_SRT] on a table of fewer than 2^32 elements ends, touches no missing object and leaves a table of the same elements: a permutation of the application order in which both link directions, the tail pointer, the returned head and the bucket chains are right and the rest of the store is untouched. If the comparison function is a total preorder, the new order is sorted by it and stable: elements that compare equal keep their order. *)
Theorem hash_srt_sorts h xvs F s :
  is_table h xvs F s → lenZ xvs < 2 ^ 32 →
  wp (HASH_SRT cmpfcn h)
     (λ h' s', ∃ xvs', is_table h' xvs' F s' ∧ xvs' ≡ₚ xvs ∧
        (cmp_order cmpfcn →
         StronglySorted (before cmpfcn) xvs' ∧
         ∀ y, filter (tied (before cmpfcn) y) xvs' = filter (tied (before cmpfcn) y) xvs)) s.
Proof.
  intros Hi Hx. destruct (decide (xvs = [])) as [->|Hne].
  { pose proof (it_head _ _ _ _ Hi) as ->. apply wp_ret. exists []. split_and!; [done|done|].
    intros _. split; [constructor|done]. }
  pose proof (it_nodup _ _ _ _ Hi) as Hnd.
  destruct (it_rep _ _ _ _ Hi Hne) as (Eh & t & T & bs & cs & L & Hr). clear Hi.
  destruct h as [h0|]; [|by destruct xvs].
  assert (h0 ∈ xvs.*1) as Hh by (by apply head_Some_elem_of).
  cbn [HASH_SRT]. rewrite Eh at 2.
  assert (Eh' : Some h0 = head xvs.*1) by done.
  eapply (wp_srt_loop cmpfcn xvs (els s)) with (k := 0) (t := t) (T := T);
    [done| |lia|done|done|done|by eapply rp_id|exact (rp_ldT Hr)| | |].
  - intros x v Hxv. apply (rp_node x v Hr Hxv).
  - split; [done|done|done|]. apply (rp_app _ _ _ _ _ _ _ _ _ Hr).
  - intros _. split; [apply sorted_runs_one|done].
  - intros l' m' n Hn Hli Hps. exists l'. pose proof (li_perm _ _ _ _ Hli) as Hp. split_and!; [|done|].
    + eapply rep_is_table; [by eapply rep_relink|done| |done].
      intros ->. by apply Permutation_nil in Hp.
    + intros Ho. destruct (Hps Ho) as [Hsr Hst]. split; [|done].
      specialize (Hsr 0%nat). by rewrite Nat.mul_0_l, drop_0, take_ge in Hsr.
Qed.
End sorted_table.

(** Elements that are nothing but their key, compared by length. *)
#[local] Instance env_text : HashEnv (list Z) :=
  {| key_field := λ v, v; mem_fail := λ _ sz, 2 ^ 36 <=? sz |}.

#[local] Instance limit_text : MemLimit (list Z).
Proof. intros n sz H. by apply Z.leb_le. Qed.

Definition by_length (v w : list Z) : Z := lenZ v - lenZ w.

Lemma by_length_order : cmp_order by_length.
Proof. unfold by_length. split; intros; lia. Qed.

Definition unsorted : list (hop (list Z)) :=
  [HAdd (lit "ccc"); HAdd (lit "a"); HAdd (lit "bb"); HAdd (lit "d"); HAdd (lit "eee")].

(** The table of [unsorted]. *)
Lemma unsorted_table :
  wp (run_ops 100 None unsorted)
     (λ out s, ∃ xvs, is_table out.1 xvs (rest_all store_empty) s) store_empty.
Proof.
  eapply wp_run_ops; [apply table_empty| |].
  - assert (∀ t, no_nul (chars t) → lenZ (chars t) < 2 ^ 32 → hop_ok (HAdd (lit t))) as Hk.
    { intros t Ht Hl. exists (chars t). split; [by apply (cstr_ok _ [])|done]. }
    unfold unsorted. repeat (apply Forall_cons; split; [apply Hk; vm_decide|]). constructor.
  - intros h' ress xvs s _ Ht. by exists xvs.
Qed.

Lemma hash_srt_sorts_witness :
  ∃ s xvs, run_ops 100 None unsorted store_empty =
      Done (Some 0%nat, RElem ∘ Some <$> [0; 3; 4; 5; 6]%nat) s ∧
    wp (HASH_SRT by_length (Some 0%nat))
      (λ h' s', ∃ xvs', is_table h' xvs' (rest_all store_empty) s' ∧ xvs' ≡ₚ xvs ∧
         (cmp_order by_length → StronglySorted (before by_length) xvs' ∧
          ∀ y, filter (tied (before by_length) y) xvs' = filter (tied (before by_length) y) xvs)) s.
Proof.
  pose proof unsorted_table as H. unfold wp in H at 1.
  assert (match run_ops 100 None unsorted store_empty with
          | Done out s => out = (Some 0%nat, RElem ∘ Some <$> [0; 3; 4; 5; 6]%nat) ∧ size (els s) = 5%nat
          | _ => False
          end) as E by (vm_compute; split; reflexivity).
  destruct (run_ops 100 None unsorted store_empty) as [out s| | |]; [|destruct E..].
  destruct E as [-> Hs]. destruct H as [xvs Hi]. exists s, xvs. split; [reflexivity|].
  apply (hash_srt_sorts by_length (Some 0%nat) xvs _ s Hi).
  pose proof (it_size _ _ _ _ Hi). unfold lenZ. lia.
Defined.

(** The elements of [unsorted] are numbered 0, 3, 4, 5, 6; elements of the same
    length stay in order. *)
Example sorted_by_length :
  match run_ops 100 None unsorted store_empty with
  | Done out s =>
      match (h ← HASH_SRT by_length out.1;
             HASH_ITER h [] (λ x h acc, mret (h, acc ++ [x]))) s with
      | Done r _ => r = (Some 3, [3; 5; 4; 0; 6])%nat
      | _ => False
      end
  | _ => False
  end.
Proof. vm_compute. reflexivity. Qed.
