(* ===== verification/UtHashFsck.v ===== *)
(** * The integrity check [HASH_FSCK] of src/utils/uthash.h

    With [HASH_DEBUG] the macros check a table after every change: [HASH_FSCK]
    walks all chains and the application order and ends the process at the first
    link or count that is wrong.  The file models the check and proves what it
    decides, and that the tables of UtHashRep always pass. *)

From S2P Require Import Prelude CString UtHash.
From S2P Require Import UtHashRep UtHashTable.

Section fsck.
Context {V : Type} `{!HashEnv V}.
Implicit Types (x : nat) (p q head : option nat) (s : store V) (xs c : list nat).

(** A walk along the links [N] from [p] on that compares the back links [P] with
    the element before, [q]: the number of elements, or [None] for [HASH_OOPS]. *)
Fixpoint fsck_walk (N P : UT_hash_handle → option nat) (fuel : nat) p q (cnt : Z) : HM V (option Z) :=
  match p with
  | None => mret (Some cnt)
  | Some x =>
      match fuel with
      | O => λ _, NoFuel
      | S fuel =>
          back ← ld P x;
          if negb (bool_decide (q = back)) then mret None
          else nxt ← ld N x; fsck_walk N P fuel nxt (Some x) (u32 (cnt + 1))
      end
  end.

(** A whole walk; a list without repetition is not longer than the store. *)
Definition fsck_list N P p : HM V (option Z) := λ s, fsck_walk N P (S (size (els s))) p None 0 s.

(** The [for] over the buckets, [n] of them from [i] on; [cnt] is [_count]. *)
Fixpoint fsck_buckets (n : nat) (a : nat) (i cnt : Z) : HM V (option Z) :=
  match n with
  | O => mret (Some cnt)
  | S n =>
      b ← ldB a i;
      bkt_count ← fsck_list hh_next hh_prev (hh_head b);
      match bkt_count with
      | None => mret None
      | Some k => if negb (count b =? k) then mret None
                  else fsck_buckets n a (i + 1) (u32 (cnt + k))
      end
  end.

(** [false]: the check ends the process. *)
Definition HASH_FSCK head : HM V bool :=
  match head with
  | None => mret true
  | Some x =>
      t ← tbl_of head; T ← ldT t;
      total ← fsck_buckets (Z.to_nat (num_buckets T)) (buckets T) 0 0;
      match total with
      | None => mret false
      | Some k =>
          if negb (k =? num_items T) then mret false else
          app ← fsck_list next prev head;
          match app with
          | None => mret false
          | Some k => mret (k =? num_items T)
          end
      end
  end.

(** ** What it decides *)

Definition bucket_at s (a : nat) (i : Z) : option UT_hash_bucket :=
  bs ← arrs s !! a; bs !! Z.to_nat i.

(** Both link structures are doubly linked lists and all counts are right. *)
Definition links_consistent head s : Prop :=
  match head with
  | None => True
  | Some x => ∃ t T (cs : list (list nat)) xs,
      fld tbl (els s) x = Some (Some t) ∧ tbls s !! t = Some T ∧
      length cs = Z.to_nat (num_buckets T) ∧
      (∀ i c, cs !! i = Some c → ∃ b, bucket_at s (buckets T) (Z.of_nat i) = Some b ∧ bucket_ok (els s) b c) ∧
      num_items T = u32 (lenZ (concat cs)) ∧
      list.head xs = Some x ∧ dll (fld next (els s)) (fld prev (els s)) None xs None ∧
      num_items T = u32 (lenZ xs)
  end.

(** A doubly linked list from a null back link has no repetition. *)
Lemma dll_NoDup N P xs n : dll N P None xs n → NoDup xs.
Proof.
  revert n. induction xs as [|x l IH] using rev_ind; intros n; [constructor|].
  intros [Hl (HPx & _ & _)]%dll_app. rewrite lasto_None in HPx. pose proof (IH _ Hl) as Hnd.
  apply NoDup_app. split_and!; [done| |apply NoDup_singleton].
  intros y Hy ->%list_elem_of_singleton. apply list_elem_of_split in Hy as (l1 & l2 & ->).
  apply dll_app in Hl as [_ (HPx' & _ & _)]. rewrite lasto_None in HPx'.
  rewrite HPx' in HPx. injection HPx as E. rewrite last_app, last_cons in E.
  apply NoDup_app in Hnd as (_ & Hd & _). destruct (last l1) as [w|] eqn:Ew.
  - apply last_Some_elem_of in Ew. apply (Hd w Ew). destruct (last l2) as [z|] eqn:Ez.
    + injection E as ->. apply list_elem_of_further. by apply last_Some_elem_of.
    + injection E as ->. apply list_elem_of_here.
  - by destruct (last l2).
Qed.

Lemma dll_size (f g : UT_hash_handle → option nat) (m : gmap nat (element V)) xs :
  dll (fld f m) (fld g m) None xs None → (length xs ≤ size m)%nat.
Proof.
  intros Hd. apply concat_length_le; [by eapply dll_NoDup|].
  assert (∀ q, dll (fld f m) (fld g m) q xs None → ∀ x, x ∈ xs → is_Some (m !! x)) as H.
  { clear. induction xs as [|y r IH]; intros q Hd x Hx; [by apply not_elem_of_nil in Hx|].
    destruct Hd as (HP & _ & Hd). apply elem_of_cons in Hx as [->|Hx]; [by eapply fld_is_Some|eauto]. }
  by apply (H None).
Qed.

Lemma u32_succ_add cnt xs x : u32 (u32 (cnt + 1) + lenZ xs) = u32 (cnt + lenZ (x :: xs)).
Proof. rewrite lenZ_cons. unfold u32, wrap. rewrite Zplus_mod_idemp_l. f_equal. lia. Qed.

Lemma u32_add_add a b n : u32 (u32 (a + u32 b) + n) = u32 (a + (b + n)).
Proof.
  unfold u32, wrap. rewrite Zplus_mod_idemp_l, <- Z.add_assoc, (Z.add_comm (b mod _)), Z.add_assoc.
  rewrite Zplus_mod_idemp_r. f_equal. lia.
Qed.

Lemma fsck_walk_complete N P fuel : ∀ xs q cnt s,
  (length xs ≤ fuel)%nat → dll (fld N (els s)) (fld P (els s)) q xs None → cnt = u32 cnt →
  fsck_walk N P fuel (list.head xs) q cnt s = Done (Some (u32 (cnt + lenZ xs))) s.
Proof.
  induction fuel as [|fuel IH]; intros [|x xs] q cnt s Hf Hd Hc; cbn [length] in Hf; try lia;
    try (cbn; change (lenZ []) with 0; by rewrite Z.add_0_r, <- Hc).
  destruct Hd as (HP & HN & Hd). rewrite onto_None in HN. cbn [list.head fsck_walk].
  unfold fld in HP, HN. destruct (els s !! x) as [e|] eqn:Ex; [|done].
  injection HP as HP. injection HN as HN.
  unfold mbind, HM_bind, ld. rewrite Ex, HP. rewrite bool_decide_eq_true_2 by done. cbn [negb].
  rewrite Ex, HN, IH; [|lia|done|].
  - by rewrite (u32_succ_add cnt xs x).
  - unfold u32, wrap. by rewrite Zmod_mod.
Qed.

Lemma fsck_walk_sound N P fuel : ∀ p q cnt s k s',
  fsck_walk N P fuel p q cnt s = Done (Some k) s' → cnt = u32 cnt →
  s' = s ∧ ∃ xs, p = list.head xs ∧ dll (fld N (els s)) (fld P (els s)) q xs None ∧
    k = u32 (cnt + lenZ xs).
Proof.
  induction fuel as [|fuel IH]; intros [x|] q cnt s k s' H Hc; try done;
    try (injection H as <- <-; split; [done|]; exists []; split_and!; [done..|];
         change (lenZ []) with 0; by rewrite Z.add_0_r).
  cbn [fsck_walk] in H. unfold mbind, HM_bind, ld in H.
  destruct (els s !! x) as [e|] eqn:Ex; [|done].
  case_bool_decide as Hq; cbn [negb] in H; [|done]. rewrite Ex in H.
  apply IH in H as (-> & xs & Hp & Hd & Hk).
  - split; [done|]. exists (x :: xs). split_and!; [done| |by rewrite <- (u32_succ_add _ _ x)].
    cbn. rewrite onto_None, <- Hp. unfold fld. rewrite Ex. subst q. done.
  - unfold u32, wrap. by rewrite Zmod_mod.
Qed.
Lemma fsck_list_iff N P p s k s' :
  fsck_list N P p s = Done (Some k) s' ↔
  s' = s ∧ ∃ xs, p = list.head xs ∧ dll (fld N (els s)) (fld P (els s)) None xs None ∧ k = u32 (lenZ xs).
Proof.
  unfold fsck_list. split.
  - intros (-> & xs & Hp & Hd & ->)%fsck_walk_sound; [|done]. split; [done|]. by exists xs.
  - intros (-> & xs & -> & Hd & ->). rewrite fsck_walk_complete; [done| |done..].
    pose proof (dll_size _ _ _ _ Hd). lia.
Qed.

Lemma ldB_bucket a i s b s' : ldB a i s = Done b s' ↔ s' = s ∧ bucket_at s a i = Some b.
Proof.
  unfold ldB, bucket_at. destruct (arrs s !! a) as [bs|]; cbn; [|split; [done|by intros []]].
  destruct (bs !! Z.to_nat i) as [b'|]; [|split; [done|by intros []]].
  split; [by intros [= -> ->]|by intros [-> [= ->]]].
Qed.

Lemma fsck_buckets_iff n a : ∀ i cnt s k s',
  cnt = u32 cnt →
  fsck_buckets n a i cnt s = Done (Some k) s' ↔
  s' = s ∧ ∃ cs, length cs = n ∧
    (∀ j c, cs !! j = Some c → ∃ b, bucket_at s a (i + Z.of_nat j) = Some b ∧ bucket_ok (els s) b c) ∧
    k = u32 (cnt + lenZ (concat cs)).
Proof.
  induction n as [|n IH]; intros i cnt s k s' Hc; cbn [fsck_buckets].
  - split.
    + intros [= <- <-]. split; [done|]. exists []. split_and!; [done|done|].
      change (lenZ (concat [])) with 0. by rewrite Z.add_0_r.
    + intros (-> & cs & ->%nil_length_inv & _ & ->). change (lenZ (concat [])) with 0.
      by rewrite Z.add_0_r, <- Hc.
  - unfold mbind, HM_bind. split.
    + intros H. destruct (ldB a i s) as [b s1| | |] eqn:Eb; try done.
      apply ldB_bucket in Eb as [-> Eb].
      destruct (fsck_list _ _ _ s) as [[kb|] s1| | |] eqn:El; try done.
      apply fsck_list_iff in El as (-> & c & Hh & Hd & ->).
      destruct (Z.eqb_spec (count b) (u32 (lenZ c))) as [Ecb|]; cbn [negb] in H; [|done].
      apply IH in H as (-> & cs & Hl & Hcs & ->); [|unfold u32, wrap; by rewrite Zmod_mod].
      split; [done|]. exists (c :: cs). split_and!; [by cbn; rewrite Hl| |].
      * intros [|j] c' Hj; cbn in Hj; [injection Hj as <-; exists b; by rewrite Z.add_0_r|].
        destruct (Hcs j c' Hj) as (b' & Hb' & Hok). exists b'. split; [|done]. rewrite <- Hb'. f_equal. lia.
      * cbn [concat]. by rewrite lenZ_app, u32_add_add.
    + intros (-> & cs & Hl & Hcs & ->). destruct cs as [|c cs]; [done|].
      destruct (Hcs 0%nat c eq_refl) as (b & Hb & Hh & Hcb & Hd). rewrite Z.add_0_r in Hb.
      assert (ldB a i s = Done b s) as -> by (by apply ldB_bucket).
      assert (fsck_list hh_next hh_prev (hh_head b) s = Done (Some (u32 (lenZ c))) s) as ->
        by (apply fsck_list_iff; split; [done|by exists c]).
      rewrite Hcb, Z.eqb_refl. cbn [negb]. apply IH; [unfold u32, wrap; by rewrite Zmod_mod|].
      split; [done|]. exists cs. split_and!; [by injection Hl| |].
      * intros j c' Hj. destruct (Hcs (S j) c' Hj) as (b' & Hb' & Hok). exists b'.
        split; [|done]. rewrite <- Hb'. f_equal. lia.
      * cbn [concat]. by rewrite lenZ_app, u32_add_add.
Qed.
Lemma HASH_FSCK_iff head s s' :
  HASH_FSCK head s = Done true s' ↔ s' = s ∧ links_consistent head s.
Proof.
  destruct head as [x|]; cbn [HASH_FSCK links_consistent];
    [|split; [by intros [= <-]|by intros [-> _]]].
  unfold tbl_of, mbind, HM_bind, deref, ld, ldT, fld. cbn [mret].
  unfold mret, HM_ret, mbind, HM_bind. split.
  - intros H. destruct (els s !! x) as [e|] eqn:Ex; [|done]. cbn.
    destruct (tbl (hh e)) as [t|] eqn:Et; [|done].
    destruct (tbls s !! t) as [T|] eqn:ET; [|done].
    destruct (fsck_buckets _ _ _ _ s) as [[k|] s1| | |] eqn:Eb; try done.
    apply fsck_buckets_iff in Eb as (-> & cs & Hl & Hcs & ->); [|done]. rewrite Z.add_0_l in H.
    destruct (Z.eqb_spec (u32 (lenZ (concat cs))) (num_items T)) as [Ek|]; cbn [negb] in H; [|done].
    destruct (fsck_list _ _ _ s) as [[k|] s1| | |] eqn:El; try done.
    apply fsck_list_iff in El as (-> & xs & Hh & Hd & ->). injection H as H <-.
    apply Z.eqb_eq in H. split; [done|]. exists t, T, cs, xs. split_and!; done.
  - intros (-> & t & T & cs & xs & Ht & HT & Hl & Hcs & Hn & Hh & Hd & Hn').
    destruct (els s !! x) as [e|]; [|done]. cbn in Ht. injection Ht as ->. rewrite HT.
    assert (fsck_buckets (Z.to_nat (num_buckets T)) (buckets T) 0 0 s =
            Done (Some (u32 (lenZ (concat cs)))) s) as ->.
    { apply fsck_buckets_iff; [done|]. split; [done|]. by exists cs. }
    rewrite <- Hn, Z.eqb_refl. cbn [negb].
    assert (fsck_list next prev (Some x) s = Done (Some (u32 (lenZ xs))) s) as ->.
    { apply fsck_list_iff. split; [done|]. by exists xs. }
    by rewrite <- Hn', Z.eqb_refl.
Qed.

Lemma it_consistent h xvs F s : is_table h xvs F s → links_consistent h s.
Proof.
  intros Hi. destruct (decide (xvs = [])) as [->|Hne]; [by rewrite (it_head _ _ _ _ Hi)|].
  destruct (it_rep _ _ _ _ Hi Hne) as (Eh & t & T & bs & cs & L & Hr).
  destruct h as [x|]; [|done]. pose proof Hr as [_ _ _ _ _ _ Hnb _ _ _ Hit [_ Hd _] Hb].
  exists t, T, cs, xvs.*1. split_and!; [|exact (rp_ldT Hr)| | | |done|done|done].
  - eapply rp_id; [done|]. by apply head_Some_elem_of.
  - rewrite (bp_len' _ _ _ _ _ Hb), Hnb, <- (bp_len _ _ _ _ _ Hb). by rewrite to_nat_lenZ.
  - intros i c Hc. destruct (lookup_lt_is_Some_2 bs i) as [b Hbi].
    { rewrite <- (bp_len' _ _ _ _ _ Hb). by eapply lookup_lt_Some. }
    exists b. unfold bucket_at. rewrite (rp_ldA Hr). cbn. rewrite Nat2Z.id.
    split; [done|by eapply bp_ok].
  - rewrite Hit. unfold lenZ. by rewrite (bp_perm _ _ _ _ _ Hb).
Qed.

(** C36: [HASH_FSCK] passes, and then leaves the store as it is, exactly when the bucket chains and the application order are doubly linked lists whose lengths agree with the bucket counts and, in sum, with the number of items; every table produced by the macros of UtHashRep and UtHashTable passes. *)
Theorem fsck_decides_consistency h s :
  (∀ s', HASH_FSCK h s = Done true s' ↔ s' = s ∧ links_consistent h s) ∧
  (∀ xvs F, is_table h xvs F s → HASH_FSCK h s = Done true s).
Proof.
  split; [intros s'; apply HASH_FSCK_iff|]. intros xvs F Hi. apply HASH_FSCK_iff.
  split; [done|]. by eapply it_consistent.
Qed.
End fsck.

(** A table of two elements with one key passes; after the back link of the
    second is cut it does not. *)
#[local] Instance env_fsck : HashEnv (list Z) :=
  {| key_field := λ v, v; mem_fail := λ _ sz, 2 ^ 36 <=? sz |}.

Example fsck_finds_broken_link :
  match run_ops 100 None [HAdd (lit "k"); HAdd (lit "k")] store_empty with
  | Done out s =>
      HASH_FSCK out.1 s = Done true s ∧
      HASH_FSCK out.1 (s <| els := alter (set_hh (λ h, h <| prev := None |>)) 3%nat (els s) |>) =
        Done false (s <| els := alter (set_hh (λ h, h <| prev := None |>)) 3%nat (els s) |>)
  | _ => False
  end.
Proof. vm_compute. split; reflexivity. Qed.

#[local] Instance limit_fsck : MemLimit (list Z).
Proof. intros n sz H. by apply Z.leb_le. Qed.

Lemma fsck_decides_consistency_witness :
  match run_ops 100 None [HAdd (lit "k"); HAdd (lit "k")] store_empty with
  | Done out s => HASH_FSCK out.1 s = Done true s ∧ links_consistent out.1 s
  | _ => False
  end.
Proof.
  assert (wp (run_ops 100 None [HAdd (lit "k"); HAdd (lit "k")])
            (λ out s, ∃ xvs F, is_table out.1 xvs F s) store_empty) as H.
  { assert (∀ t, no_nul (chars t) → lenZ (chars t) < 2 ^ 32 → hop_ok (HAdd (lit t))) as Hk.
    { intros t Ht Hl. exists (chars t). split; [by apply (cstr_ok _ [])|done]. }
    eapply wp_run_ops; [apply table_empty| |intros h' ress xvs s _ Ht; exists xvs, (rest_all store_empty); exact Ht].
    repeat (apply Forall_cons; split; [apply Hk; vm_decide|]). constructor. }
  assert (match run_ops 100 None [HAdd (lit "k"); HAdd (lit "k")] store_empty with
          | Done _ _ => True | _ => False end) as E by (vm_compute; exact I).
  unfold wp in H. destruct (run_ops _ _ _ _) as [out s| | |]; [|destruct E..].
  destruct H as (xvs & F & Hi). destruct (fsck_decides_consistency out.1 s) as [H1 H2].
  split; [exact (H2 xvs F Hi)|]. by apply (H1 s), (H2 xvs F).
Defined.
