(* ===== verification/UtHashMore.v ===== *)
(** * Further macros of src/utils/uthash.h

    [HASH_REPLACE_STR], [HASH_CLEAR] and [HASH_OVERHEAD], which dns_tracker.c does
    not use.  What is proved of them rests on the contract [HashTable]. *)

From S2P Require Import Prelude CString UtHash.
From S2P Require Import UtHashRep UtHashTable.

Definition sizeof_UT_hash_handle : Z := 56.

Section more.
Context {V : Type} `{!HashEnv V}.
Implicit Types (x : nat) (head h : option nat) (s : store V) (xvs l r : list (nat * V)) (k : list Z).

(** The new head and [replaced]; the key is the key field of the element [x]. *)
Definition HASH_REPLACE_BYHASHVALUE head (klen hv : Z) x : HM V (option nat * option nat) :=
  v ← ld_val x;
  replaced ← HASH_FIND_BYHASHVALUE head (key_field v) klen hv;
  head ← match replaced with Some y => HASH_DELETE_HH head y | None => mret head end;
  head ← HASH_ADD_KEYPTR_BYHASHVALUE head klen hv x;
  mret (head, replaced).

Definition HASH_REPLACE head (klen : Z) x : HM V (option nat * option nat) :=
  v ← ld_val x;
  HASH_REPLACE_BYHASHVALUE head klen (HASH_JEN (key_field v) klen) x.

Definition HASH_REPLACE_STR head x : HM V (option nat * option nat) :=
  v ← ld_val x;
  klen ← uthash_strlen (key_field v);
  HASH_REPLACE head klen x.

Definition HASH_CLEAR head : HM V (option nat) :=
  match head with
  | None => mret None
  | Some _ =>
      t ← tbl_of head; T ← ldT t;
      free_array (buckets T);; free_table t;;
      mret None
  end.

(** In [size_t]. *)
Definition HASH_OVERHEAD head : HM V Z :=
  match head with
  | None => mret 0
  | Some _ =>
      t ← tbl_of head; T ← ldT t;
      mret (u64 (num_items T * sizeof_UT_hash_handle + num_buckets T * sizeof_UT_hash_bucket +
                 sizeof_UT_hash_table))
  end.

(** ** Clearing *)

Lemma wp_HASH_CLEAR h xvs F s Q :
  is_table h xvs F s →
  (∀ s', els s' = els s → is_table None [] (mkRest (els s) (r_tbls F) (r_arrs F)) s' → Q None s') →
  wp (HASH_CLEAR h) Q s.
Proof.
  intros Hi HQ. destruct (decide (xvs = [])) as [->|Hne].
  { pose proof Hi as [-> (Hwf & HE & HT & HA)]. apply wp_ret. apply HQ; [done|].
    split; [done|]. by rewrite <- HT, <- HA. }
  destruct (it_rep _ _ _ _ Hi Hne) as (Eh & t & T & bs & cs & L & Hr).
  destruct h as [x|]; [|by destruct xvs]. pose proof Hr as [Hwf _ HT Ht HA Ha _ _ _ _ _ _ _].
  cbn [HASH_CLEAR]. wpb. eapply wp_tbl_of; [eapply rp_id; [done|by apply head_Some_elem_of]|].
  wpb. eapply wp_ldT; [exact (rp_ldT Hr)|].
  wpb. apply wp_free_array; [by rewrite (rp_ldA Hr)|].
  wpb. apply wp_free_table; [sred; by rewrite (rp_ldT Hr)|]. apply wp_ret, HQ; [done|].
  split; [done|]. split_and!; sred; [|done|by rewrite HT, delete_insert_id|by rewrite HA, delete_insert_id].
  intros n Hn. sred_in Hn. destruct (Hwf n Hn) as (H1 & H2 & H3).
  split_and!; sred; [done|rewrite lookup_delete; by case_decide..].
Qed.

(** The overhead is what the table's own objects and the handles take. *)
Lemma wp_HASH_OVERHEAD h xvs F s Q :
  is_table h xvs F s → xvs ≠ [] →
  (∀ t T bs, tbls s !! t = Some T → arrs s !! buckets T = Some bs →
     Q (u64 (u32 (lenZ xvs) * sizeof_UT_hash_handle + lenZ bs * sizeof_UT_hash_bucket +
             sizeof_UT_hash_table)) s) →
  wp (HASH_OVERHEAD h) Q s.
Proof.
  intros Hi Hne HQ. destruct (it_rep _ _ _ _ Hi Hne) as (Eh & t & T & bs & cs & L & Hr).
  destruct h as [x|]; [|by destruct xvs]. pose proof Hr as [_ _ _ _ _ _ Hnb _ _ _ Hit _ Hb].
  cbn [HASH_OVERHEAD]. wpb. eapply wp_tbl_of; [eapply rp_id; [done|by apply head_Some_elem_of]|].
  wpb. eapply wp_ldT; [exact (rp_ldT Hr)|]. apply wp_ret.
  specialize (HQ t T bs (rp_ldT Hr) (rp_ldA Hr)). rewrite Hit, Hnb, <- (bp_len _ _ _ _ _ Hb).
  unfold lenZ in *. by rewrite length_fmap.
Qed.
End more.

(** ** Replacing *)

Section replace.
Context {V : Type} `{!HashEnv V, !MemLimit V}.
Implicit Types (x y : nat) (h : option nat) (v w : V) (s : store V) (xvs l r : list (nat * V)) (k : list Z).

(** The searches and additions by hash value are those of the string macros once
    the length is known. *)
Lemma wp_find_by_hash h v k s Q :
  key_is v k → wp (HASH_FIND_STR h (key_field v)) Q s →
  wp (HASH_FIND_BYHASHVALUE h (key_field v) (lenZ k) (HASH_JEN (key_field v) (lenZ k))) Q s.
Proof.
  intros Hk. destruct (key_is_strlen v k Hk) as [Hlen Hu].
  unfold HASH_FIND_STR, uthash_strlen, wp, mbind, HM_bind. rewrite Hlen, Hu. by destruct h.
Qed.

Lemma wp_add_by_hash h x v k s Q :
  key_is v k → val <$> els s !! x = Some v → wp (HASH_ADD_STR h x) Q s →
  wp (HASH_ADD_KEYPTR_BYHASHVALUE h (lenZ k) (HASH_JEN (key_field v) (lenZ k)) x) Q s.
Proof.
  intros Hk Hx. destruct (key_is_strlen v k Hk) as [Hlen Hu].
  destruct (els s !! x) as [e|] eqn:Ex; [|done]. injection Hx as <-.
  unfold HASH_ADD_STR, ld_val, uthash_strlen. unfold wp, mbind at 1 2, HM_bind at 1 2.
  by rewrite Ex, Hlen, Hu.
Qed.

(** No two elements have the same key. *)
Definition keys_unique xvs : Prop := ∀ y w y' w' k,
  (y, w) ∈ xvs → (y', w') ∈ xvs → key_is w k → key_is w' k → y = y'.

Lemma keys_unique_sub xvs xvs' :
  (∀ y w, (y, w) ∈ xvs' → (y, w) ∈ xvs) → keys_unique xvs → keys_unique xvs'.
Proof. intros Hs Hu y w y' w' k Hy Hy'. eapply Hu; by apply Hs. Qed.

Lemma keys_unique_snoc xvs x v k :
  keys_unique xvs → key_is v k → (∀ y w, (y, w) ∈ xvs → ¬ key_is w k) → keys_unique (xvs ++ [(x, v)]).
Proof.
  intros Hu Hk Hno y w y' w' k' Hy Hy' Hw Hw'.
  apply elem_of_app in Hy as [Hy|Hy%list_elem_of_singleton], Hy' as [Hy'|Hy'%list_elem_of_singleton].
  - by eapply Hu.
  - injection Hy' as -> ->. rewrite (key_is_inj _ _ _ Hw' Hk) in Hw. by destruct (Hno y w).
  - injection Hy as -> ->. rewrite (key_is_inj _ _ _ Hw Hk) in Hw'. by destruct (Hno y' w').
  - by injection Hy as -> ->; injection Hy' as -> ->.
Qed.

Lemma keys_unique_others l y w r k :
  NoDup (l ++ (y, w) :: r).*1 → keys_unique (l ++ (y, w) :: r) → key_is w k →
  ∀ z u, (z, u) ∈ l ++ r → ¬ key_is u k.
Proof.
  intros Hnd Hu Hw z u Hz Hzk.
  assert (z = y) as -> by (eapply Hu; [| |exact Hzk|exact Hw]; set_solver).
  rewrite fmap_app, fmap_cons in Hnd. apply NoDup_app in Hnd as (_ & H1 & [H2 _]%NoDup_cons).
  apply (list_elem_of_fmap_2 fst) in Hz. rewrite fmap_app in Hz. cbn in Hz, H2.
  apply elem_of_app in Hz as [Hz|Hz]; [|done]. apply (H1 y Hz). apply list_elem_of_here.
Qed.

(** C37: On a table without duplicate keys [HASH_REPLACE_STR] acts as the update of a finite map: the element that had the key of the new one, if there is one, leaves the table, is returned in [replaced] and stays allocated; all others keep their order, the new element comes last, and keys are still unique. *)
Theorem hash_replace_str_updates h xvs F s x e v k :
  is_table h xvs (rest_add x e F) s → r_els F !! x = None → val e = v → key_is v k →
  keys_unique xvs →
  wp (HASH_REPLACE_STR h x)
     (λ out s', ∃ l r F', is_table out.1 ((l ++ r) ++ [(x, v)]) F' s' ∧
        keys_unique ((l ++ r) ++ [(x, v)]) ∧ (∀ y w, (y, w) ∈ l ++ r → ¬ key_is w k) ∧
        match out.2 with
        | None => xvs = l ++ r ∧ F' = F
        | Some y => ∃ w e', xvs = l ++ (y, w) :: r ∧ key_is w k ∧ val e' = w ∧ F' = rest_add y e' F
        end) s.
Proof.
  intros Hi HF Hv Hk Hu. destruct (key_is_strlen v k Hk) as [Hlen Hl].
  pose proof (it_rest Hi (rest_add_eq x e F)) as Hx.
  unfold HASH_REPLACE_STR. wpb. eapply wp_ld_val; [exact Hx|]. rewrite Hv.
  wpb. eapply wp_uthash_strlen; [exact Hlen|]. rewrite Hl.
  unfold HASH_REPLACE, HASH_REPLACE_BYHASHVALUE. do 2 (wpb; eapply wp_ld_val; [exact Hx|]). rewrite Hv.
  wpb. apply wp_find_by_hash; [done|]. destruct Hk as [Hkc Hkl].
  eapply table_find; [exact Hi|exact Hkc|done|]. intros [y|] Hres.
  - destruct Hres as (w & _ & (l & r & ->)%in_split_pair & Hw).
    wpb. eapply table_del; [exact Hi|].
    intros h' s' e' He' Hy Hi'.
    assert (x ≠ y) as Hxy.
    { intros ->. by rewrite rest_add_eq in Hy. }
    assert (rest_add y e' (rest_add x e F) = rest_add x e (rest_add y e' F)) as Ec.
    { unfold rest_add. cbn. by rewrite insert_insert_ne by done. }
    rewrite Ec in Hi'. wpb. eapply wp_add_by_hash; [done| |].
    { by rewrite (it_rest Hi' (rest_add_eq _ _ _)), <- Hv. }
    pose proof (keys_unique_others l y w r k (it_nodup _ _ _ _ Hi) Hu Hw) as Hno.
    eapply (table_add (F := rest_add y e' F)); [exact Hi'| |done|done|].
    { cbn. by rewrite lookup_insert_ne. }
    intros h2 s2 Hi2. apply wp_ret. exists l, r, (rest_add y e' F). cbn. split_and!; [done| |done|].
    + eapply keys_unique_snoc; [|done|done]. eapply keys_unique_sub; [|exact Hu]. set_solver.
    + by exists w, e'.
  - wpb. apply wp_ret. wpb. eapply wp_add_by_hash; [done|by rewrite Hx, <- Hv|].
    assert (∀ z u, (z, u) ∈ xvs → ¬ key_is u k) as Hno.
    { intros z u Hz. eapply Hres; [|exact Hz]. by apply (list_elem_of_fmap_2 fst) in Hz. }
    eapply table_add; [exact Hi|done|done|done|]. intros h2 s2 Hi2. apply wp_ret.
    exists xvs, [], F. cbn. rewrite app_nil_r. split_and!; [done| |done|done|done].
    by eapply keys_unique_snoc.
Qed.
End replace.

(** Elements that are nothing but their key. *)
#[local] Instance env_key : HashEnv (list Z) :=
  {| key_field := λ v, v; mem_fail := λ _ sz, 2 ^ 36 <=? sz |}.

#[local] Instance limit_key : MemLimit (list Z).
Proof. intros n sz H. by apply Z.leb_le. Qed.

(** A table with the keys "a" and "b", and a further element with the key "a". *)
Definition two_keys : HM (list Z) (option nat * list hres * option nat) :=
  out ← run_ops 100 None (HAdd <$> [lit "a"; lit "b"]);
  x ← malloc_element 100 (mkElement (lit "a") handle_zero);
  mret (out, x).

Lemma key_is_lit t : no_nul (chars t) → lenZ (chars t) < 2 ^ 32 → key_is (lit t) (chars t).
Proof. intros Ht Hl. split; [by apply (cstr_ok _ [])|done]. Qed.

Lemma two_keys_unique : keys_unique [(0%nat, lit "a"); (3%nat, lit "b")].
Proof.
  assert (key_is (lit "a") (chars "a")) as Ha by (apply key_is_lit; vm_decide).
  assert (key_is (lit "b") (chars "b")) as Hb by (apply key_is_lit; vm_decide).
  apply (keys_unique_snoc [(0%nat, lit "a")] 3%nat (lit "b") (chars "b")); [|done|].
  - apply (keys_unique_snoc [] 0%nat (lit "a") (chars "a")); [|done|].
    + by intros y w y' w' k ?%not_elem_of_nil.
    + by intros y w ?%not_elem_of_nil.
  - intros y w [= _ ->]%list_elem_of_singleton Hk. by pose proof (key_is_inj _ _ _ Hk Ha).
Qed.

Lemma two_keys_table :
  wp two_keys
    (λ out s, out = (Some 0%nat, [RElem (Some 0%nat); RElem (Some 3%nat)], Some 4%nat) →
       is_table (Some 0%nat) [(0%nat, lit "a"); (3%nat, lit "b")]
         (rest_add 4%nat (mkElement (lit "a") handle_zero) (rest_all store_empty)) s) store_empty.
Proof.
  eapply wp_mono; [|apply (run_adds_table 100 [lit "a"; lit "b"] (lit "a"))].
  - intros out s H ->. destruct (H ltac:(vm_decide) 4%nat eq_refl) as (xvs & [Hv Hr] & Hi).
    destruct xvs as [|[x1 v1] [|[x2 v2] [|]]]; try done. cbn in Hv, Hr. by simplify_eq.
  - repeat (apply Forall_cons; split; [eexists; apply key_is_lit; vm_decide|]). constructor.
Qed.

Lemma hash_replace_str_updates_witness :
  ∃ s, two_keys store_empty = Done (Some 0, [RElem (Some 0); RElem (Some 3)], Some 4)%nat s ∧
    wp (HASH_REPLACE_STR (Some 0%nat) 4%nat)
       (λ out s', ∃ l r F', is_table out.1 ((l ++ r) ++ [(4%nat, lit "a")]) F' s' ∧
          keys_unique ((l ++ r) ++ [(4%nat, lit "a")]) ∧
          (∀ y w, (y, w) ∈ l ++ r → ¬ key_is w (chars "a")) ∧
          match out.2 with
          | None => [(0, lit "a"); (3, lit "b")]%nat = l ++ r ∧ F' = rest_all store_empty
          | Some y => ∃ w e', [(0, lit "a"); (3, lit "b")]%nat = l ++ (y, w) :: r ∧
              key_is w (chars "a") ∧ val e' = w ∧ F' = rest_add y e' (rest_all store_empty)
          end) s.
Proof.
  pose proof two_keys_table as H. unfold wp in H.
  assert (match two_keys store_empty with
          | Done out _ => out = (Some 0, [RElem (Some 0); RElem (Some 3)], Some 4)%nat
          | _ => False
          end) as E by (vm_compute; reflexivity).
  destruct (two_keys store_empty) as [out s| | |]; [|destruct E..]. subst out.
  exists s. split; [reflexivity|].
  apply (hash_replace_str_updates (Some 0%nat) [(0%nat, lit "a"); (3%nat, lit "b")]
           (rest_all store_empty) s 4%nat (mkElement (lit "a") handle_zero) (lit "a") (chars "a")).
  - apply H. reflexivity.
  - reflexivity.
  - reflexivity.
  - apply key_is_lit; vm_decide.
  - apply two_keys_unique.
Defined.

(** The old element is returned, the order is 3, 4, and two objects are left in
    the table. *)
Example replace_moves_to_end :
  match (out ← two_keys; r ← HASH_REPLACE_STR out.1.1 4%nat;
         l ← HASH_ITER r.1 [] (λ x h acc, mret (h, acc ++ [x])); n ← HASH_COUNT r.1;
         mret (r, l.2, n)) store_empty with
  | Done out _ => out = (Some 3%nat, Some 0%nat, [3; 4]%nat, 2)
  | _ => False
  end.
Proof. vm_compute. reflexivity. Qed.
