(* ===== verification/UtHashInorder.v ===== *)
(** * Ordered insertion: [HASH_ADD_KEYPTR_BYHASHVALUE_INORDER] of src/utils/uthash.h

    The new element goes in front of the first one that compares greater.  The
    file models the macro and proves that it keeps a sorted table sorted, behind
    all elements that compare equal to the new one. *)

From stdpp Require Import sorting.
From S2P Require Import Prelude CString UtHash.
From S2P Require Import UtHashRep UtHashTable UtHashSort.

Section inorder.
Context {V : Type} `{!HashEnv V} (cmpfcn : V → V → Z).
Implicit Types (x y z : nat) (head : option nat) (v w : V) (s : store V)
  (xvs l r : list (nat * V)) (k : list Z) (m : gmap nat (element V)).

(** [HASH_AKBI_INNER_LOOP]: [_hs_iter] where it stops. *)
Fixpoint HASH_AKBI_INNER_LOOP (fuel : nat) (hs_iter x : nat) : HM V (option nat) :=
  match fuel with
  | O => λ _, NoFuel
  | S fuel =>
      v ← ld_val hs_iter; w ← ld_val x;
      if 0 <? cmpfcn v w then mret (Some hs_iter)
      else
        nxt ← ld next hs_iter;
        match nxt with
        | None => mret None
        | Some hs_iter => HASH_AKBI_INNER_LOOP fuel hs_iter x
        end
  end.

(** The statements under [if (_hs_iter)]: links [x] in front of [z]; the new head. *)
Definition akbi_link head x z : HM V (option nat) :=
  st (λ h, h <| next := Some z |>) x;;
  p ← ld prev z;
  st (λ h, h <| prev := p |>) x;;
  head ← match p with
         | Some p' => st (λ h, h <| next := Some x |>) p';; mret head
         | None => mret (Some x)
         end;
  st (λ h, h <| prev := Some x |>) z;;
  mret head.

(** The key is the key field of the element [x] itself. *)
Definition HASH_ADD_KEYPTR_BYHASHVALUE_INORDER head (klen hv : Z) x : HM V (option nat) :=
  st (λ h, h <| hashv := hv |>) x;;
  st (λ h, h <| key := Some x |>) x;;
  st (λ h, h <| keylen := klen |>) x;;
  head ← match head with
         | None =>
             st (λ h, h <| next := None |>) x;;
             st (λ h, h <| prev := None |>) x;;
             HASH_MAKE_TABLE x;;
             mret (Some x)
         | Some h0 =>
             t ← tbl_of head;
             st (λ h, h <| tbl := Some t |>) x;;
             hs_iter ← (λ s, HASH_AKBI_INNER_LOOP (S (size (els s))) h0 x s);
             match hs_iter with
             | Some z => akbi_link head x z
             | None => HASH_APPEND_LIST head x;; mret head
             end
         end;
  HASH_ADD_TO_TABLE head hv x;;
  mret head.

Definition HASH_ADD_KEYPTR_INORDER head (klen : Z) x : HM V (option nat) :=
  v ← ld_val x;
  HASH_ADD_KEYPTR_BYHASHVALUE_INORDER head klen (HASH_JEN (key_field v) klen) x.

(** Ordered replacement: the new head and [replaced]. *)
Definition HASH_REPLACE_BYHASHVALUE_INORDER head (klen hv : Z) x : HM V (option nat * option nat) :=
  v ← ld_val x;
  replaced ← HASH_FIND_BYHASHVALUE head (key_field v) klen hv;
  head ← match replaced with Some y => HASH_DELETE_HH head y | None => mret head end;
  head ← HASH_ADD_KEYPTR_BYHASHVALUE_INORDER head klen hv x;
  mret (head, replaced).

Definition HASH_REPLACE_INORDER head (klen : Z) x : HM V (option nat * option nat) :=
  v ← ld_val x;
  HASH_REPLACE_BYHASHVALUE_INORDER head klen (HASH_JEN (key_field v) klen) x.
End inorder.

(** ** Linking an element in front of another *)

Section link.
Context {V : Type} `{!HashEnv V}.
Implicit Types (x y z : nat) (v w : V) (s : store V) (l r : list (nat * V))
  (m : gmap nat (element V)).

Lemma dll_insert N P N' P' (l r : list nat) x :
  NoDup (l ++ r) → dll N P None (l ++ r) None →
  (∀ y, y ∈ l ++ r → N' y = if decide (last l = Some y) then Some (Some x) else N y) →
  (∀ y, y ∈ l ++ r → P' y = if decide (list.head r = Some y) then Some (Some x) else P y) →
  N' x = Some (list.head r) → P' x = Some (last l) →
  dll N' P' None (l ++ x :: r) None.
Proof.
  intros Hnd Hd HN HP HNx HPx. apply dll_app in Hd as [Hl Hr].
  apply NoDup_app in Hnd as (Hnl & Hlr & Hnr).
  change (l ++ x :: r) with (l ++ [x] ++ r). rewrite app_assoc. apply dll_app. split.
  - eapply dll_snoc; [exact Hnl|exact Hl| | | |exact HPx].
    + intros y Hy. apply HN. set_solver.
    + intros y Hy. rewrite HP by set_solver. rewrite decide_False; [done|].
      intros E%head_Some_elem_of. by apply (Hlr y).
    + by rewrite onto_None.
  - unfold lasto. rewrite last_snoc. destruct r as [|z r]; [done|]. destruct Hr as (_ & HNz & Hr).
    apply NoDup_cons in Hnr as [Hz Hnr].
    assert (∀ u, u ∈ z :: r → last l ≠ Some u) as Hlast.
    { intros u Hu E%last_Some_elem_of. by apply (Hlr u). }
    cbn. split_and!.
    + rewrite HP by set_solver. by rewrite decide_True.
    + rewrite HN by set_solver. by rewrite decide_False by (apply Hlast; set_solver).
    + revert Hr. apply dll_ext; intros u Hu.
      * rewrite HN by set_solver. by rewrite decide_False by (apply Hlast; set_solver).
      * rewrite HP by set_solver. rewrite decide_False; [done|]. intros [= ->]. done.
Qed.

(** A table with [x] linked in, not yet in a bucket. *)
Lemma rep_insert t T bs cs L l r ys F s x v e m' :
  rep t T bs cs L (l ++ r) ys F s → r ≠ [] → r_els F !! x = Some e → node_ok t (els s) (x, v) →
  same_but clr_app (els s) m' → (∀ y, y ≠ x → y ∉ (l ++ r).*1 → m' !! y = els s !! y) →
  dll (fld next m') (fld prev m') None (l.*1 ++ x :: r.*1) None →
  rep t T bs cs L (l ++ (x, v) :: r) ys (rest_del x F) (s <| els := m' |>).
Proof.
  intros Hr Hne HxF Hx Hs Hf Hd.
  pose proof Hr as [Hwf Hels HT Ht HA Ha Hnb Hlog HL Htl Hit [Hnd _ Hn] Hb].
  pose proof HxF as Hxe. rewrite Hels in Hxe. case_decide as Hxn; [done|].
  assert ((l ++ (x, v) :: r).*1 ≡ₚ x :: (l ++ r).*1) as Hp.
  { rewrite !fmap_app, fmap_cons. symmetry. apply Permutation_middle. }
  split; sred; [| |done|done|done|done|done|done|done| |done| |].
  - intros n Hn'. sred_in Hn'. destruct (Hwf n Hn') as (H1 & H2 & H3). split_and!; sred; [|done..].
    apply eq_None_not_Some. rewrite (same_but_is_Some clr_app (els s)), H1 by done. apply is_Some_None.
  - intros y. cbn. rewrite lookup_delete. case_decide as Hyx.
    + subst. rewrite decide_True; [done|]. rewrite Hp. apply list_elem_of_here.
    + rewrite Hels. case_decide as Hy.
      * rewrite decide_True; [done|]. rewrite Hp. by apply list_elem_of_further.
      * rewrite decide_False; [symmetry; by apply Hf|]. rewrite Hp. intros [->|?]%elem_of_cons; done.
  - rewrite Htl, !fmap_app, fmap_cons, !last_app. cbn [fst].
    destruct r as [|[z w] r]; [done|]. cbn [fmap list_fmap fst]. by rewrite last_cons_cons.
  - split; [rewrite Hp; by apply NoDup_cons|by rewrite fmap_app, fmap_cons|].
    rewrite <- Permutation_middle. apply Forall_cons. split; [by apply (node_ok_same clr_app _ (els s))|].
    eapply Forall_impl; [exact Hn|]. intros xv. by apply (node_ok_same clr_app).
  - eapply bp_ext; [|exact Hb]. intros y _. split_and!; by apply (same_but_fld _ clr_app).
Qed.

(** The store after [akbi_link], [p] being the element before [z]. *)
Definition akbi_store x z (p : option nat) m : gmap nat (element V) :=
  alter (set_hh (λ h, h <| prev := Some x |>)) z
    (alter_opt (λ h, h <| next := Some x |>) p
      (alter (set_hh (λ h, h <| prev := p |>)) x
        (alter (set_hh (λ h, h <| next := Some z |>)) x m))).

Lemma akbi_store_same x z p m : same_but clr_app m (akbi_store x z p m).
Proof.
  unfold akbi_store. etrans; [|by apply same_but_alter]. etrans; [|by apply same_but_alter_opt].
  etrans; by apply same_but_alter.
Qed.

Lemma akbi_store_dll x z (l r : list nat) m :
  NoDup (l ++ z :: r) → x ∉ l ++ z :: r → (∀ y, y ∈ x :: l ++ z :: r → is_Some (m !! y)) →
  dll (fld next m) (fld prev m) None (l ++ z :: r) None →
  let m' := akbi_store x z (last l) m in
  dll (fld next m') (fld prev m') None (l ++ x :: z :: r) None.
Proof.
  intros Hnd Hx Hex Hd m'.
  assert (x ≠ z) as Hxz by (intros ->; apply Hx; set_solver).
  assert (last l ≠ Some x) as Hlx.
  { intros E%last_Some_elem_of. apply Hx. set_solver. }
  assert (∀ y, y ∈ l ++ z :: r → y ≠ x ∧ is_Some (m !! y)) as Hin.
  { intros y Hy. split; [by intros ->|]. apply Hex. by apply list_elem_of_further. }
  assert (∀ u m0 y, is_Some (m0 !! y) → is_Some (alter (set_hh u) x m0 !! y)) as Hal
    by (intros; by apply alter_is_Some).
  destruct (Hex x) as [ex Ex]; [apply list_elem_of_here|].
  eapply dll_insert; [exact Hnd|exact Hd| | | |].
  - intros y Hy. destruct (Hin y Hy) as [Hyx Hy']. unfold m', akbi_store. rewrite fld_alter_id by done.
    rewrite (fld_alter_opt next _ _ _ _ (Some x)); [|done|by apply Hal, Hal].
    case_decide; [done|]. by fldsimp.
  - intros y Hy. destruct (Hin y Hy) as [Hyx Hy']. unfold m', akbi_store. cbn [list.head].
    case_decide as E.
    + injection E as <-. apply fld_alter_eq; [|done].
      apply (same_but_is_Some clr_app (alter (set_hh (λ h, h <| prev := last l |>)) x
        (alter (set_hh (λ h, h <| next := Some z |>)) x m))); [by apply same_but_alter_opt|by apply Hal, Hal].
    + rewrite fld_alter_ne by congruence. rewrite fld_alter_opt_id by done. by fldsimp.
  - unfold m', akbi_store. rewrite fld_alter_id by done. unfold fld at 1. rewrite alter_opt_ne by done.
    fold (fld next (alter (set_hh (λ h, h <| prev := last l |>)) x
      (alter (set_hh (λ h, h <| next := Some z |>)) x m)) x).
    rewrite fld_alter_id by done. apply fld_alter_eq; [by eauto|done].
  - unfold m', akbi_store. rewrite fld_alter_ne by congruence. rewrite fld_alter_opt_id by done.
    apply fld_alter_eq; [apply Hal; eauto|done].
Qed.

Lemma wp_akbi_link t T bs cs L l z w r ys F s x v e h0 Q :
  rep t T bs cs L (l ++ (z, w) :: r) ys F s → r_els F !! x = Some e → node_ok t (els s) (x, v) →
  Some h0 = list.head (l ++ (z, w) :: r).*1 →
  (∀ s', rep t T bs cs L (l ++ (x, v) :: (z, w) :: r) ys (rest_del x F) s' →
     fld hashv (els s') x = fld hashv (els s) x →
     Q (list.head (l ++ (x, v) :: (z, w) :: r).*1) s') →
  wp (akbi_link (Some h0) x z) Q s.
Proof.
  intros Hr HxF Hxn Hh0 HQ. pose proof (rp_app _ _ _ _ _ _ _ _ _ Hr) as [Hnd Hd _].
  pose proof (rp_els _ _ _ _ _ _ _ _ _ Hr x) as Hxe. rewrite HxF in Hxe.
  case_decide as Hx; [done|]. symmetry in Hxe.
  assert (∀ y, y ∈ (l ++ (z, w) :: r).*1 → is_Some (els s !! y)) as Hex by (intros; by eapply rp_is_Some).
  assert ((l ++ (z, w) :: r).*1 = l.*1 ++ z :: r.*1) as Eids by by rewrite fmap_app.
  rewrite Eids in Hnd, Hd, Hx, Hex, Hh0.
  assert (x ≠ z) as Hxz by (intros ->; apply Hx; set_solver).
  pose proof Hd as [_ (HPz & _ & _)]%dll_app. rewrite lasto_None in HPz.
  set (m' := akbi_store x z (last l.*1) (els s)).
  specialize (HQ (s <| els := m' |>)). unfold akbi_link.
  wpb. apply wp_st; [eauto|]. wpb. eapply wp_ld; [sred; by fldsimp|].
  wpb. apply wp_st; [sred; apply alter_is_Some; eauto|]. sred. wpb.
  assert (∀ Q', Q' (list.head (l ++ (x, v) :: (z, w) :: r).*1)
      (s <| els := alter_opt (λ h, h <| next := Some x |>) (last l.*1)
         (alter (set_hh (λ h, h <| prev := last l.*1 |>)) x
           (alter (set_hh (λ h, h <| next := Some z |>)) x (els s))) |>) →
    wp (match last l.*1 with
        | Some p' => st (λ h, h <| next := Some x |>) p';; mret (Some h0)
        | None => mret (Some x)
        end) Q' (s <| els := alter (set_hh (λ h, h <| prev := last l.*1 |>)) x
           (alter (set_hh (λ h, h <| next := Some z |>)) x (els s)) |>)) as Hn.
  { intros Q' HQ'. destruct (last l.*1) as [p|] eqn:El.
    - wpb. apply wp_st; [sred; rewrite !alter_is_Some; apply Hex|].
      { apply last_Some_elem_of in El. set_solver. }
      apply wp_ret. destruct l as [|[]]; [done|]. cbn in Hh0, HQ'. injection Hh0 as ->. exact HQ'.
    - apply last_None, fmap_nil_inv in El as ->. by apply wp_ret. }
  apply Hn. wpb. apply wp_st.
  { sred. apply (same_but_is_Some clr_app (els s)); [|apply Hex; set_solver].
    etrans; [|by apply same_but_alter_opt]. etrans; by apply same_but_alter. }
  apply wp_ret, HQ.
  - eapply rep_insert; [exact Hr|done|exact HxF|exact Hxn|apply akbi_store_same| |].
    + intros y Hyx Hy. rewrite Eids in Hy. unfold m', akbi_store.
      rewrite lookup_alter_ne by (intros ->; apply Hy; set_solver).
      rewrite alter_opt_ne by (intros E%last_Some_elem_of; apply Hy; set_solver).
      by rewrite !lookup_alter_ne by done.
    + rewrite fmap_cons. apply akbi_store_dll; [done|done| |done].
      intros y [->|Hy]%elem_of_cons; [eauto|by apply Hex].
  - sred. by apply (same_but_fld _ clr_app), akbi_store_same.
Qed.

End link.

(** ** The search for the place *)

Section search.
Context {V : Type} `{!HashEnv V} (cmpfcn : V → V → Z).
Implicit Types (x y z : nat) (v w : V) (s : store V) (xvs l r : list (nat * V)).

Lemma wp_akbi_loop t T bs cs L xvs ys F s x v e fuel : ∀ l z w r Q,
  rep t T bs cs L xvs ys F s → xvs = l ++ (z, w) :: r → r_els F !! x = Some e → val e = v →
  (length r < fuel)%nat →
  (∀ l' r', (z, w) :: r = l' ++ r' → Forall (λ yu, cmpfcn yu.2 v ≤ 0) l' →
     (∀ y u r2, r' = (y, u) :: r2 → 0 < cmpfcn u v) → Q (list.head r'.*1) s) →
  wp (HASH_AKBI_INNER_LOOP cmpfcn fuel z x) Q s.
Proof.
  induction fuel as [|fuel IH]; intros l z w r Q Hr -> HxF Hv Hf HQ; [lia|].
  pose proof (rp_els _ _ _ _ _ _ _ _ _ Hr x) as Hxe. rewrite HxF in Hxe.
  case_decide as Hx; [done|]. symmetry in Hxe.
  destruct (rp_node z w Hr) as [Hzv _ _ _]; [apply elem_middle|]. cbn in Hzv.
  destruct (els s !! z) as [ez|] eqn:Ez; [|done]. injection Hzv as Hzv.
  cbn [HASH_AKBI_INNER_LOOP]. wpb. eapply wp_ld_val; [exact Ez|]. wpb. eapply wp_ld_val; [exact Hxe|].
  rewrite Hzv, Hv. destruct (Z.ltb_spec 0 (cmpfcn w v)) as [Hc|Hc].
  - apply wp_ret. apply (HQ [] ((z, w) :: r)); [done|constructor|]. by intros y u r2 [= _ -> _].
  - pose proof (ap_dll _ _ _ (rp_app _ _ _ _ _ _ _ _ _ Hr)) as Hd.
    rewrite fmap_app, fmap_cons in Hd. apply dll_app in Hd as [_ (_ & HN & _)].
    rewrite onto_None in HN. wpb. eapply wp_ld; [exact HN|].
    destruct r as [|[z2 w2] r].
    + apply wp_ret. apply (HQ [(z, w)] []); [done|by repeat constructor|done].
    + cbn [length] in Hf. apply (IH (l ++ [(z, w)]) z2 w2 r); [exact Hr|by rewrite <- app_assoc|exact HxF|done|lia|].
      intros l' r' E Hl Hr'. apply (HQ ((z, w) :: l') r'); [by rewrite E|by constructor|done].
Qed.
End search.

(** ** The table after it *)

Section insertion.
Context {V : Type} `{!HashEnv V, !MemLimit V} (cmpfcn : V → V → Z).
Implicit Types (x : nat) (v : V) (s : store V) (xvs l r : list (nat * V)) (k : list Z).

(** The new element stands behind [l], none of which is greater, and in front of
    [r], which starts with a greater one. *)
Definition placed l r v : Prop :=
  Forall (λ yu, cmpfcn yu.2 v ≤ 0) l ∧ ∀ y u r', r = (y, u) :: r' → 0 < cmpfcn u v.

Lemma placed_sorted l r x v :
  cmp_order cmpfcn → placed l r v → StronglySorted (before cmpfcn) (l ++ r) →
  StronglySorted (before cmpfcn) (l ++ (x, v) :: r).
Proof.
  intros [Ht Htr] [Hl Hr] Hs. apply StronglySorted_app in Hs as (Hlr & Hsl & Hsr).
  rewrite Forall_forall in Hl.
  assert (Forall (before cmpfcn (x, v)) r) as Hxr.
  { destruct r as [|[y u] r]; [constructor|]. specialize (Hr y u r eq_refl).
    assert (cmpfcn v u ≤ 0) as Hvu by (destruct (Ht u v); [lia|done]).
    apply StronglySorted_cons in Hsr as [Hu _]. constructor; [done|].
    eapply Forall_impl; [exact Hu|]. intros [y' u'] Huu. by apply (Htr _ u). }
  apply StronglySorted_app. split_and!; [|done|by apply StronglySorted_cons].
  intros a b Ha [->|Hb]%elem_of_cons; [by apply Hl|by apply Hlr].
Qed.

(** What is left to do once [x] has its table. *)
Lemma wp_akbi_place t T bs cs L h0 xvs F s x e v k (Q : option nat → store V → Prop) :
  rep t T bs cs L xvs xvs.*1 (rest_add x e F) s → r_els F !! x = None → key_is v k →
  node_ok t (els s) (x, v) → Some h0 = head xvs.*1 →
  (∀ h' l r s', xvs = l ++ r → is_table h' (l ++ (x, v) :: r) F s' → placed l r v → Q h' s') →
  wp (hs_iter ← (λ s, HASH_AKBI_INNER_LOOP cmpfcn (S (size (els s))) h0 x s);
      match hs_iter with
      | Some z => akbi_link (Some h0) x z
      | None => HASH_APPEND_LIST (Some h0) x;; mret (Some h0)
      end) (λ hd, wp (HASH_ADD_TO_TABLE hd (HASH_JEN k (lenZ k)) x;; mret hd) Q) s.
Proof.
  intros Hr HF Hk Hxn Hh0 HQ. pose proof Hxn as [Hxv Htb Hky (k' & Hk' & Hkl & Hhv)]. cbn in *.
  rewrite (key_is_inj _ _ _ Hk' Hk) in *. clear k' Hk'.
  pose proof (rp_els _ _ _ _ _ _ _ _ _ Hr x) as Hxe. rewrite rest_add_eq in Hxe.
  case_decide as Hx; [done|]. rewrite <- Hxe in Hxv. injection Hxv as Hxv.
  assert (rest_del x (rest_add x e F) = F) as EF.
  { rewrite rest_del_add. unfold rest_del. rewrite delete_id by done. by destruct F. }
  destruct xvs as [|[h1 w1] xvs]; [done|]. injection Hh0 as ->.
  assert (is_table (Some h1) ((h1, w1) :: xvs) (rest_add x e F) s) as Hi
    by (split; [done|]; by exists t, T, bs, cs, L).
  pose proof (it_size _ _ _ _ Hi) as Hsz. clear Hi.
  wpb. eapply (wp_akbi_loop cmpfcn t T bs cs L _ _ _ s x v e (S (size (els s))) [] h1 w1 xvs);
    [exact Hr|done|apply rest_add_eq|done|cbn [length] in Hsz; lia|].
  intros l r E Hl Hrr. assert (placed l r v) as Hp by done.
  destruct r as [|[z w] r].
  - rewrite app_nil_r in E. subst l. wpb.
    eapply wp_append_list; [exact Hr|apply list_elem_of_here|apply rest_add_eq|exact Hxv|exact Hk|done..|].
    intros s2 T' Hr' Eh. apply wp_ret. wpb. rewrite EF in Hr'.
    eapply wp_add_finish; [exact Hr'|apply list_elem_of_here|rewrite fst_snoc; apply Permutation_cons_append|by rewrite Eh|].
    intros s3 Hi3. apply wp_ret. by apply (HQ _ ((h1, w1) :: xvs) []); [rewrite app_nil_r|..].
  - rewrite E in Hr. cbn [head fmap list_fmap fst].
    eapply wp_akbi_link; [exact Hr|apply rest_add_eq|exact Hxn|by rewrite <- E|].
    intros s2 Hr2 Eh. rewrite EF in Hr2.
    destruct (head (l ++ (x, v) :: (z, w) :: r).*1) as [h2|] eqn:Eh2; [|by destruct l].
    wpb. eapply wp_add_finish; [exact Hr2|by apply head_Some_elem_of| |by rewrite Eh|].
    { rewrite !fmap_app, !fmap_cons. apply Permutation_middle. }
    intros s3 Hi3. apply wp_ret. rewrite Eh2 in Hi3. by apply (HQ _ l ((z, w) :: r)).
Qed.

(** C38: [HASH_ADD_KEYPTR_INORDER] puts a new element behind all elements up to the first one that compares greater and in front of that one, changes nothing else of the order, and leaves a complete table; if the comparison function is a total preorder, a sorted table stays sorted. *)
Theorem hash_add_inorder_places h xvs F s x e v k :
  is_table h xvs (rest_add x e F) s → r_els F !! x = None → val e = v → key_is v k →
  wp (HASH_ADD_KEYPTR_INORDER cmpfcn h (lenZ k) x)
     (λ h' s', ∃ l r, xvs = l ++ r ∧ is_table h' (l ++ (x, v) :: r) F s' ∧ placed l r v ∧
        (cmp_order cmpfcn → StronglySorted (before cmpfcn) xvs →
         StronglySorted (before cmpfcn) (l ++ (x, v) :: r))) s.
Proof.
  intros Hi HF Hv Hk. pose proof (it_rest Hi (rest_add_eq x e F)) as Hx.
  unfold HASH_ADD_KEYPTR_INORDER. wpb. eapply wp_ld_val; [exact Hx|]. rewrite Hv, key_is_hash by done.
  unfold HASH_ADD_KEYPTR_BYHASHVALUE_INORDER.
  eapply wp_set_key; [exact Hi|exact Hv|]. clear s e Hi Hv Hx. intros s e Hi Hv Hke. wpb.
  assert (∀ h' l r s', xvs = l ++ r → is_table h' (l ++ (x, v) :: r) F s' → placed l r v →
    ∃ l r, xvs = l ++ r ∧ is_table h' (l ++ (x, v) :: r) F s' ∧ placed l r v ∧
        (cmp_order cmpfcn → StronglySorted (before cmpfcn) xvs →
         StronglySorted (before cmpfcn) (l ++ (x, v) :: r))) as HQ.
  { intros h' l r s' -> Hi' Hp. exists l, r. split_and!; [done..|]. intros Ho Hs. by apply placed_sorted. }
  destruct h as [h0|].
  - pose proof (it_head _ _ _ _ Hi) as Hh0.
    eapply wp_set_table; [exact Hi|done..|]. intros s' t T bs cs L e' Hr Hxn.
    by eapply wp_akbi_place.
  - assert (xvs = []) as -> by (destruct Hi as [Eh _]; by destruct xvs as [|[]]).
    eapply wp_link_first; [exact Hi|done..|]. intros s' t T bs cs Hr E. wpb.
    eapply wp_add_finish; [exact Hr|apply list_elem_of_here|done|done|].
    intros s2 Hi2. apply wp_ret. apply (HQ _ [] []); [done| |by split].
    unfold rest_del in Hi2. rewrite delete_id in Hi2 by done. by destruct F.
Qed.
End insertion.

(** Elements that are nothing but their key, compared by length. *)
#[local] Instance env_word : HashEnv (list Z) :=
  {| key_field := λ v, v; mem_fail := λ _ sz, 2 ^ 36 <=? sz |}.

#[local] Instance limit_word : MemLimit (list Z).
Proof. intros n sz H. by apply Z.leb_le. Qed.

(** A table of three words, sorted by length, and a further element. *)
Definition three_words : HM (list Z) (option nat * list hres * option nat) :=
  out ← run_ops 100 None (HAdd <$> [lit "a"; lit "bb"; lit "dddd"]);
  x ← malloc_element 100 (mkElement (lit "cc") handle_zero);
  mret (out, x).

Definition words : list (nat * list Z) := [(0, lit "a"); (3, lit "bb"); (4, lit "dddd")]%nat.

Lemma word_key t : no_nul (chars t) → lenZ (chars t) < 2 ^ 32 → key_is (lit t) (chars t).
Proof. intros Ht Hl. split; [by apply (cstr_ok _ [])|done]. Qed.

Lemma three_words_table :
  wp three_words
    (λ out s, out = (Some 0, [RElem (Some 0); RElem (Some 3); RElem (Some 4)], Some 5)%nat →
       is_table (Some 0%nat) words
         (rest_add 5%nat (mkElement (lit "cc") handle_zero) (rest_all store_empty)) s) store_empty.
Proof.
  eapply wp_mono; [|apply (run_adds_table 100 [lit "a"; lit "bb"; lit "dddd"] (lit "cc"))].
  - intros out s H ->. destruct (H ltac:(vm_decide) 5%nat eq_refl) as (xvs & [Hv Hr] & Hi).
    destruct xvs as [|[x1 v1] [|[x2 v2] [|[x3 v3] [|]]]]; try done. cbn in Hv, Hr. by simplify_eq.
  - repeat (apply Forall_cons; split; [eexists; apply word_key; vm_decide|]). constructor.
Qed.

Lemma hash_add_inorder_places_witness :
  ∃ s, three_words store_empty =
      Done (Some 0, [RElem (Some 0); RElem (Some 3); RElem (Some 4)], Some 5)%nat s ∧
    wp (HASH_ADD_KEYPTR_INORDER by_length (Some 0%nat) (lenZ (chars "cc")) 5%nat)
       (λ h' s', ∃ l r, words = l ++ r ∧ is_table h' (l ++ (5%nat, lit "cc") :: r) (rest_all store_empty) s' ∧
          placed by_length l r (lit "cc") ∧
          (cmp_order by_length → StronglySorted (before by_length) words →
           StronglySorted (before by_length) (l ++ (5%nat, lit "cc") :: r))) s.
Proof.
  pose proof three_words_table as H. unfold wp in H.
  assert (match three_words store_empty with
          | Done out _ => out = (Some 0, [RElem (Some 0); RElem (Some 3); RElem (Some 4)], Some 5)%nat
          | _ => False
          end) as E by (vm_compute; reflexivity).
  destruct (three_words store_empty) as [out s| | |]; [|destruct E..]. subst out.
  exists s. split; [reflexivity|].
  apply (hash_add_inorder_places by_length (Some 0%nat) words (rest_all store_empty) s 5%nat
           (mkElement (lit "cc") handle_zero) (lit "cc") (chars "cc")).
  - apply H. reflexivity.
  - reflexivity.
  - reflexivity.
  - apply word_key; vm_decide.
Defined.

(** "cc" goes behind "bb", which is as long. *)
Example inserted_behind_equal :
  match (out ← three_words; h ← HASH_ADD_KEYPTR_INORDER by_length out.1.1 2 5%nat;
         l ← HASH_ITER h [] (λ x h acc, mret (h, acc ++ [x])); mret l.2) store_empty with
  | Done l _ => l = [0; 3; 5; 4]%nat
  | _ => False
  end.
Proof. vm_compute. reflexivity. Qed.
