(* ===== verification/UtHashFuncs.v ===== *)
(** * The hash functions of src/utils/uthash.h

    [HASH_FUNCTION] is [HASH_JEN] (UtHash) unless it is defined otherwise; the
    header offers five more.  A key is the list of the bytes from its address on,
    so that a read past the object is undefined.  Shown is that each of them reads
    exactly the key, and which of them tell keys apart that differ in one byte. *)

From S2P Require Import Prelude CString UtHash.

(** ** The macros *)

(** A loop over the next [n] bytes of a key. *)
Fixpoint byte_loop (step : Z → Z → Z) (n : nat) (k : list Z) (hv : Z) : outcome Z :=
  match n with
  | O => Ok hv
  | S n => match k with
           | [] => UB OobRead
           | c :: k => byte_loop step n k (step hv c)
           end
  end.

(** The loops [for (i = 0; i < keylen; i++)] with an unsigned [i] of 32 bits,
    which comes round to 0 before it reaches a [keylen] of 2^32 or more.  [None]
    stands for a loop that is not over after [fuel] rounds. *)
Fixpoint hash_loop (step : Z → Z → Z) (fuel : nat) (k : list Z) (keylen i hv : Z)
    : option (outcome Z) :=
  if i <? keylen then
    match fuel with
    | O => None
    | S fuel => match k !! Z.to_nat i with
                | None => Some (UB OobRead)
                | Some c => hash_loop step fuel k keylen (u32 (i + 1)) (step hv c)
                end
    end
  else Some (Ok hv).

Definition ber_step (hv c : Z) : Z := u32 (u32 (u32 (Z.shiftl hv 5) + hv) + c).

Definition HASH_BER (k : list Z) (keylen : Z) : option (outcome Z) :=
  Some (byte_loop ber_step (Z.to_nat (u32 keylen)) k 0).

Definition sax_step (hv c : Z) : Z :=
  Z.lxor hv (u32 (u32 (u32 (Z.shiftl hv 5) + Z.shiftr hv 2) + c)).

Definition HASH_SAX (k : list Z) (keylen : Z) : option (outcome Z) :=
  hash_loop sax_step (Z.to_nat keylen) k keylen 0 0.

Definition fnv_step (hv c : Z) : Z := u32 (Z.lxor hv c * 16777619).

Definition HASH_FNV (k : list Z) (keylen : Z) : option (outcome Z) :=
  hash_loop fnv_step (Z.to_nat keylen) k keylen 0 2166136261.

Definition oat_step (hv c : Z) : Z :=
  let hv := u32 (hv + c) in
  let hv := u32 (hv + u32 (Z.shiftl hv 10)) in
  Z.lxor hv (Z.shiftr hv 6).

Definition oat_final (hv : Z) : Z :=
  let hv := u32 (hv + u32 (Z.shiftl hv 3)) in
  let hv := Z.lxor hv (Z.shiftr hv 11) in
  u32 (hv + u32 (Z.shiftl hv 15)).

Definition HASH_OAT (k : list Z) (keylen : Z) : option (outcome Z) :=
  (λ r : outcome Z, hv ← r; mret (oat_final hv)) <$> hash_loop oat_step (Z.to_nat keylen) k keylen 0 0.

Definition get16bits (k : list Z) : outcome Z :=
  match k with
  | c0 :: c1 :: _ => Ok (u32 (u32 (Z.shiftl c1 8) + c0))
  | _ => UB OobRead
  end.

(** A single byte of the key. *)
Definition get8bits (k : list Z) : outcome Z :=
  match k with c :: _ => Ok c | [] => UB OobRead end.

(** The main loop of [HASH_SFH], four bytes a round; with the rest of the key. *)
Fixpoint sfh_loop (n : nat) (k : list Z) (hv : Z) : outcome (list Z * Z) :=
  match n with
  | O => Ok (k, hv)
  | S n =>
      w ← get16bits k;
      let hv := u32 (hv + w) in
      w ← get16bits (drop 2 k);
      let tmp := Z.lxor (u32 (Z.shiftl w 11)) hv in
      let hv := Z.lxor (u32 (Z.shiftl hv 16)) tmp in
      sfh_loop n (drop 4 k) (u32 (hv + Z.shiftr hv 11))
  end.

(** [switch (_sfh_rem)] *)
Definition sfh_rest (rem : Z) (k : list Z) (hv : Z) : outcome Z :=
  if rem =? 3 then
    w ← get16bits k;
    let hv := u32 (hv + w) in
    let hv := Z.lxor hv (u32 (Z.shiftl hv 16)) in
    c ← get8bits (drop 2 k);
    let hv := Z.lxor hv (u32 (Z.shiftl c 18)) in
    mret (u32 (hv + Z.shiftr hv 11))
  else if rem =? 2 then
    w ← get16bits k;
    let hv := u32 (hv + w) in
    let hv := Z.lxor hv (u32 (Z.shiftl hv 11)) in
    mret (u32 (hv + Z.shiftr hv 17))
  else if rem =? 1 then
    c ← get8bits k;
    let hv := u32 (hv + c) in
    let hv := Z.lxor hv (u32 (Z.shiftl hv 10)) in
    mret (u32 (hv + Z.shiftr hv 1))
  else mret hv.

Definition sfh_final (hv : Z) : Z :=
  let hv := Z.lxor hv (u32 (Z.shiftl hv 3)) in
  let hv := u32 (hv + Z.shiftr hv 5) in
  let hv := Z.lxor hv (u32 (Z.shiftl hv 4)) in
  let hv := u32 (hv + Z.shiftr hv 17) in
  let hv := Z.lxor hv (u32 (Z.shiftl hv 25)) in
  u32 (hv + Z.shiftr hv 6).

Definition HASH_SFH (k : list Z) (keylen : Z) : option (outcome Z) :=
  let len := u32 keylen in
  Some ('(k', hv) ← sfh_loop (Z.to_nat (Z.shiftr len 2)) k 0xcafebabe;
        hv ← sfh_rest (Z.land len 3) k' hv;
        mret (sfh_final hv)).

(** Test vectors of the published functions: FNV-1a and Jenkins' one-at-a-time
    of "a", and the 33-fold sum. *)
Example fnv_of_a : HASH_FNV (chars "a") 1 = Some (Ok 0xe40c292c).
Proof. reflexivity. Qed.
Example oat_of_a : HASH_OAT (chars "a") 1 = Some (Ok 0xca2e9442).
Proof. reflexivity. Qed.
Example ber_of_ab : HASH_BER (chars "ab") 2 = Some (Ok (33 * 97 + 98)).
Proof. reflexivity. Qed.
Example sfh_overread : HASH_SFH (chars "abcdef") 7 = Some (UB OobRead).
Proof. reflexivity. Qed.
(** Of a length of 2^32 + 1 the Bernstein function sees 1. *)
Example ber_truncates : HASH_BER (chars "ab") (2 ^ 32 + 1) = Some (Ok 97).
Proof. reflexivity. Qed.

(** ** Arithmetic modulo 2^32 *)

Definition in32 (x : Z) : Prop := 0 ≤ x < 2 ^ 32.

Lemma u32_in32 x : in32 (u32 x).
Proof. unfold in32, u32, wrap. by apply Z.mod_pos_bound. Qed.

Lemma lxor_in32 a b : in32 a → in32 b → in32 (Z.lxor a b).
Proof.
  unfold in32. intros Ha Hb.
  assert (0 ≤ Z.lxor a b) as H0 by (apply Z.lxor_nonneg; lia). split; [done|].
  destruct (decide (Z.lxor a b = 0)) as [->|Hn]; [lia|]. apply Z.log2_lt_pow2; [lia|].
  eapply Z.le_lt_trans; [apply Z.log2_lxor; lia|].
  apply Z.max_lub_lt; (eapply Z.le_lt_trans; [apply (Z.log2_le_mono _ (2 ^ 32 - 1)); lia|done]).
Qed.

Lemma shiftr_in32 a n : 0 ≤ n → in32 a → in32 (Z.shiftr a n).
Proof.
  unfold in32. intros Hn Ha. rewrite Z.shiftr_div_pow2 by done.
  pose proof (Z.pow_pos_nonneg 2 n). pose proof (Z.div_pos a (2 ^ n)).
  pose proof (Z.div_le_upper_bound a (2 ^ n) a). nia.
Qed.

Lemma byte_in32 c : is_byte c → in32 c.
Proof. unfold is_byte, in32. lia. Qed.

#[local] Hint Resolve u32_in32 lxor_in32 shiftr_in32 byte_in32 : in32.

(** A multiplier with an inverse, and an added byte, lose nothing. *)
Lemma mul_inj i m a b :
  u32 (i * m) = 1 → in32 a → in32 b → u32 (m * a) = u32 (m * b) → a = b.
Proof.
  unfold in32, u32, wrap. intros Hi Ha Hb E.
  assert (∀ x, 0 ≤ x < 2 ^ 32 → x = (i * ((m * x) mod 2 ^ 32)) mod 2 ^ 32) as Hx.
  { intros x Hx. rewrite Z.mul_mod_idemp_r, Z.mul_assoc, <- Z.mul_mod_idemp_l, Hi by lia.
    by rewrite Z.mul_1_l, Z.mod_small. }
  by rewrite (Hx a Ha), (Hx b Hb), E.
Qed.

Lemma add_inj_l a b c : in32 a → in32 b → u32 (a + c) = u32 (b + c) → a = b.
Proof. unfold in32. unfold_u. intros Ha Hb E. zmod. Qed.

Lemma add_inj_r a c c' : in32 c → in32 c' → u32 (a + c) = u32 (a + c') → c = c'.
Proof. rewrite !(Z.add_comm a). apply add_inj_l. Qed.

(** [hv + (hv << n)] is a multiplication. *)
Lemma shift_add h n : 0 ≤ n → u32 (h + u32 (Z.shiftl h n)) = u32 ((2 ^ n + 1) * h).
Proof.
  intros Hn. unfold u32, wrap. rewrite Z.shiftl_mul_pow2, Z.add_mod_idemp_r by lia.
  f_equal. lia.
Qed.

(** [hv ^ (hv >> n)] can be undone. *)
Lemma xorshift_inj n a b :
  0 < n → in32 a → in32 b → Z.lxor a (Z.shiftr a n) = Z.lxor b (Z.shiftr b n) → a = b.
Proof.
  unfold in32. intros Hn Ha Hb E. apply Z.lxor_eq. set (d := Z.lxor a b).
  assert (d = Z.shiftr d n) as Hd.
  { apply Z.lxor_eq. unfold d. rewrite Z.shiftr_lxor.
    apply (f_equal (λ x, Z.lxor x (Z.lxor b (Z.shiftr b n)))) in E. rewrite Z.lxor_nilpotent in E.
    rewrite <- E. apply Z.bits_inj. intros i. rewrite !Z.lxor_spec. by destruct (Z.testbit a i),
      (Z.testbit b i), (Z.testbit (Z.shiftr a n) i), (Z.testbit (Z.shiftr b n) i). }
  assert (0 ≤ d) as H0 by (apply Z.lxor_nonneg; lia).
  destruct (decide (d = 0)); [done|]. rewrite Z.shiftr_div_pow2 in Hd by lia.
  pose proof (Z.div_lt d (2 ^ n)). pose proof (Z.pow_gt_1 2 n). lia.
Qed.

Lemma lxor_inj_l a b c : Z.lxor a c = Z.lxor b c → a = b.
Proof.
  intros E. apply (f_equal (λ x, Z.lxor x c)) in E.
  by rewrite !Z.lxor_assoc, !Z.lxor_nilpotent, !Z.lxor_0_r in E.
Qed.

(** ** Steps that lose nothing *)

Record lossless (step : Z → Z → Z) : Prop := {
  ll_range h c : in32 h → is_byte c → in32 (step h c);
  ll_hash h h' c : in32 h → in32 h' → is_byte c → step h c = step h' c → h = h';
  ll_byte h c c' : in32 h → is_byte c → is_byte c' → step h c = step h c' → c = c'
}.

Lemma ber_step_eq h c : ber_step h c = u32 (u32 (33 * h) + c).
Proof.
  unfold ber_step. by rewrite (Z.add_comm (u32 _) h), shift_add by lia.
Qed.

Lemma ber_lossless : lossless ber_step.
Proof.
  split.
  - intros h c _ _. apply u32_in32.
  - intros h h' c Hh Hh' Hc. rewrite !ber_step_eq. intros E%add_inj_l; [|auto with in32..].
    by apply (mul_inj 1041204193 33).
  - intros h c c' Hh Hc Hc'. rewrite !ber_step_eq. apply add_inj_r; auto with in32.
Qed.

Lemma fnv_lossless : lossless fnv_step.
Proof.
  assert (∀ a b, in32 a → in32 b → u32 (a * 16777619) = u32 (b * 16777619) → a = b) as Hm.
  { intros a b Ha Hb. rewrite !(Z.mul_comm _ 16777619). by apply (mul_inj 899433627 16777619). }
  split.
  - intros h c _ _. apply u32_in32.
  - intros h h' c Hh Hh' Hc E%Hm; [|auto with in32..]. by eapply lxor_inj_l.
  - intros h c c' Hh Hc Hc' E%Hm; [|auto with in32..].
    rewrite !(Z.lxor_comm h) in E. by eapply lxor_inj_l.
Qed.

(** The part of [oat_step] after the addition. *)
Lemma oat_mix_inj a b :
  in32 a → in32 b →
  (let h := u32 (a + u32 (Z.shiftl a 10)) in Z.lxor h (Z.shiftr h 6)) =
  (let h := u32 (b + u32 (Z.shiftl b 10)) in Z.lxor h (Z.shiftr h 6)) → a = b.
Proof.
  intros Ha Hb E%xorshift_inj; [|lia|auto with in32..]. rewrite !shift_add in E by lia.
  by apply (mul_inj 3222273025 1025).
Qed.

Lemma oat_lossless : lossless oat_step.
Proof.
  split; unfold oat_step.
  - intros h c _ _. apply lxor_in32; [|apply shiftr_in32; [lia|]]; apply u32_in32.
  - intros h h' c Hh Hh' Hc E%oat_mix_inj; [|auto with in32..]. by eapply add_inj_l.
  - intros h c c' Hh Hc Hc' E%oat_mix_inj; [|auto with in32..].
    eapply add_inj_r; eauto with in32.
Qed.

Lemma oat_final_inj a b : in32 a → in32 b → oat_final a = oat_final b → a = b.
Proof.
  intros Ha Hb. unfold oat_final. rewrite !shift_add by lia.
  intros E%(mul_inj 1073709057 32769); [|done|apply lxor_in32; [|apply shiftr_in32; [lia|]]; apply u32_in32..].
  apply xorshift_inj in E; [|lia|auto with in32..]. by apply (mul_inj 954437177 9).
Qed.

(** ** What is read *)

(** A hash of [n] bytes: it ends, is defined when the key has the bytes, and then
    by them alone. *)
Definition reads_key (n : nat) (f : list Z → option (outcome Z)) : Prop :=
  (∀ k, (length k < n)%nat → f k = Some (UB OobRead)) ∧
  (∀ k, length k = n → Forall is_byte k →
     ∃ hv, in32 hv ∧ ∀ r, f (k ++ r) = Some (Ok hv)).

Lemma byte_loop_short step n : ∀ k hv, (length k < n)%nat → byte_loop step n k hv = UB OobRead.
Proof.
  induction n as [|n IH]; intros k hv Hk; [lia|]. destruct k as [|c k]; [done|].
  apply IH. cbn in Hk. lia.
Qed.

Lemma byte_loop_app step k r : ∀ hv, byte_loop step (length k) (k ++ r) hv = Ok (foldl step hv k).
Proof. induction k as [|c k IH]; intros hv; [done|]. apply IH. Qed.

(** Below 2^32 the counter does not come round. *)
Lemma hash_loop_from step k keylen : keylen < 2 ^ 32 → ∀ fuel i hv,
  0 ≤ i ≤ keylen → keylen - i ≤ Z.of_nat fuel →
  hash_loop step fuel k keylen i hv =
    Some (byte_loop step (Z.to_nat (keylen - i)) (drop (Z.to_nat i) k) hv).
Proof.
  intros Hk. induction fuel as [|fuel IH]; intros i hv Hi Hf; cbn [hash_loop].
  { rewrite (proj2 (Z.ltb_ge _ _)) by lia. by replace (Z.to_nat (keylen - i)) with 0%nat by lia. }
  destruct (Z.ltb_spec i keylen).
  2:{ by replace (Z.to_nat (keylen - i)) with 0%nat by lia. }
  replace (Z.to_nat (keylen - i)) with (S (Z.to_nat (keylen - (i + 1)))) by lia. cbn [byte_loop].
  assert (u32 (i + 1) = i + 1) as -> by (unfold_u; apply Z.mod_small; lia).
  destruct (k !! Z.to_nat i) as [c|] eqn:E.
  - rewrite (drop_S _ _ _ E), IH by lia. by replace (Z.to_nat (i + 1)) with (S (Z.to_nat i)) by lia.
  - apply lookup_ge_None in E. by rewrite drop_ge.
Qed.

Lemma hash_loop_bytes step n k hv :
  Z.of_nat n < 2 ^ 32 →
  hash_loop step (Z.to_nat (Z.of_nat n)) k (Z.of_nat n) 0 hv = Some (byte_loop step n k hv).
Proof.
  intros Hn. rewrite hash_loop_from by lia. by rewrite Z.sub_0_r, Nat2Z.id, drop_0.
Qed.

(** From 2^32 on it never gets there: on a key of that many bytes the loop does
    not end. *)
Lemma hash_loop_endless step k keylen : 2 ^ 32 ≤ keylen → 2 ^ 32 ≤ lenZ k → ∀ fuel i hv,
  0 ≤ i < 2 ^ 32 → hash_loop step fuel k keylen i hv = None.
Proof.
  intros Hk Hl. induction fuel as [|fuel IH]; intros i hv Hi; cbn [hash_loop];
    rewrite (proj2 (Z.ltb_lt _ _)) by lia; [done|].
  destruct (lookup_lt_is_Some_2 k (Z.to_nat i)) as [c ->]; [unfold lenZ in Hl; lia|].
  apply IH. unfold u32, wrap. by apply Z.mod_pos_bound.
Qed.

Lemma foldl_in32 step k : ∀ hv,
  (∀ h c, in32 h → is_byte c → in32 (step h c)) →
  in32 hv → Forall is_byte k → in32 (foldl step hv k).
Proof.
  induction k as [|c k IH]; intros hv Hs Hh Hk; [done|]. apply Forall_cons in Hk as [Hc Hk].
  apply IH; auto.
Qed.

Lemma reads_loop step hv fin n :
  (∀ h c, in32 h → is_byte c → in32 (step h c)) → (∀ h, in32 h → in32 (fin h)) → in32 hv →
  reads_key n (λ k, Some (h ← byte_loop step n k hv; mret (fin h))).
Proof.
  intros Hs Hf Hh. split.
  - intros k Hk. by rewrite byte_loop_short.
  - intros k <- Hb. exists (fin (foldl step hv k)).
    split; [by apply Hf, foldl_in32|]. intros r. by rewrite byte_loop_app.
Qed.

Lemma reads_key_ext n f g : (∀ k, f k = g k) → reads_key n f → reads_key n g.
Proof.
  intros E [H1 H2]. split; [intros k Hk; rewrite <- E; auto|]. intros k Hk Hb.
  destruct (H2 k Hk Hb) as (hv & Hhv & Hr). exists hv. split; [done|]. intros r. by rewrite <- E.
Qed.

Lemma outcome_id {A} (m : outcome A) : (x ← m; mret x) = m.
Proof. by destruct m. Qed.

Lemma reads_loop_id step hv n :
  (∀ h c, in32 h → is_byte c → in32 (step h c)) → in32 hv →
  reads_key n (λ k, Some (byte_loop step n k hv)).
Proof.
  intros Hs Hh. apply (reads_key_ext n (λ k, Some (h ← byte_loop step n k hv; mret h)));
    [intros k; by rewrite outcome_id|by apply reads_loop].
Qed.

Lemma u32_nat n : Z.of_nat n < 2 ^ 32 → u32 (Z.of_nat n) = Z.of_nat n.
Proof. intros Hn. unfold_u. apply Z.mod_small. lia. Qed.

(** [HASH_SFH]: four bytes a round, then up to three. *)
Lemma sfh_loop_short n : ∀ k hv, (length k < 4 * n)%nat → sfh_loop n k hv = UB OobRead.
Proof.
  induction n as [|n IH]; intros k hv Hk; [lia|].
  destruct k as [|c0 [|c1 [|c2 [|c3 k]]]]; [done..|]. apply IH. cbn in Hk |- *.
  rewrite drop_0. lia.
Qed.

Lemma sfh_loop_app n : ∀ k hv, length k = (4 * n)%nat → in32 hv →
  ∃ hv', in32 hv' ∧ ∀ r, sfh_loop n (k ++ r) hv = Ok (r, hv').
Proof.
  induction n as [|n IH]; intros k hv Hk Hh.
  { apply length_zero_iff_nil in Hk as ->. by exists hv. }
  destruct k as [|c0 [|c1 [|c2 [|c3 k]]]]; [cbn in Hk; lia..|].
  edestruct (IH k) as (hv' & Hhv' & Hr); [cbn in Hk; lia|apply u32_in32|].
  exists hv'. split; [done|]. intros r. apply Hr.
Qed.

Lemma sfh_rest_short rem k hv :
  0 ≤ rem ≤ 3 → lenZ k < rem → sfh_rest rem k hv = UB OobRead.
Proof.
  intros Hr Hk. unfold sfh_rest, lenZ in *.
  destruct k as [|c0 [|c1 [|c2 k]]]; cbn [length] in Hk; [| | |lia];
    (destruct (Z.eqb_spec rem 3) as [->|]; [done|]);
    (destruct (Z.eqb_spec rem 2) as [->|]; [try done; cbn in Hk; lia|]);
    (destruct (Z.eqb_spec rem 1) as [->|]; [try done; cbn in Hk; lia|]); lia.
Qed.

Lemma sfh_rest_app rem k hv :
  lenZ k = rem → rem ≤ 3 → in32 hv → ∃ hv', in32 hv' ∧ ∀ r, sfh_rest rem (k ++ r) hv = Ok hv'.
Proof.
  intros <- Hr Hh. destruct k as [|c0 [|c1 [|c2 [|c3 k]]]]; [..|unfold lenZ in Hr; cbn in Hr; lia].
  - by exists hv.
  - eexists. split; [|intros r; reflexivity]. apply u32_in32.
  - eexists. split; [|intros r; reflexivity]. apply u32_in32.
  - eexists. split; [|intros r; reflexivity]. apply u32_in32.
Qed.

Lemma reads_sfh n : Z.of_nat n < 2 ^ 32 → reads_key n (λ k, HASH_SFH k (Z.of_nat n)).
Proof.
  intros H32. unfold HASH_SFH. rewrite (u32_nat n H32). cbv zeta. set (q := Z.to_nat (Z.shiftr (Z.of_nat n) 2)). set (r := Z.land (Z.of_nat n) 3).
  assert (Z.of_nat n = 4 * Z.of_nat q + r ∧ 0 ≤ r ≤ 3) as [Hn Hr].
  { assert (r = Z.of_nat n mod 4) as -> by exact (Z.land_ones (Z.of_nat n) 2 ltac:(lia)).
    unfold q. rewrite Z.shiftr_div_pow2 by lia. change (2 ^ 2) with 4. clear. zmod. }
  split.
  - intros k Hk. destruct (decide (length k < 4 * q)%nat) as [Hq|Hq].
    { by rewrite sfh_loop_short. }
    rewrite <- (take_drop (4 * q) k).
    destruct (sfh_loop_app q (take (4 * q) k) 0xcafebabe) as (hv & _ & Hs);
      [rewrite length_take; lia|unfold in32; lia|].
    rewrite Hs. cbn [mbind outcome_bind]. rewrite sfh_rest_short; [done|lia|].
    unfold lenZ. rewrite length_drop. lia.
  - intros k Hk _. destruct (sfh_loop_app q (take (4 * q) k) 0xcafebabe) as (hv & Hv & Hs);
      [rewrite length_take; lia|unfold in32; lia|].
    destruct (sfh_rest_app r (drop (4 * q) k) hv) as (hv' & Hv' & Hs');
      [unfold lenZ; rewrite length_drop; lia|lia|done|].
    exists (sfh_final hv'). split; [apply u32_in32|]. intros x.
    rewrite <- (take_drop (4 * q) k), <- app_assoc, Hs. cbn [mbind outcome_bind].
    by rewrite Hs'.
Qed.

Lemma sax_range h c : in32 h → is_byte c → in32 (sax_step h c).
Proof. intros Hh _. apply lxor_in32; [done|apply u32_in32]. Qed.

(** The macros to choose [HASH_FUNCTION] from, and those that lose nothing. *)
Definition hash_macros : list (list Z → Z → option (outcome Z)) :=
  [HASH_BER; HASH_SAX; HASH_FNV; HASH_OAT; HASH_SFH].

(** Each of the hash functions BER, SAX, FNV, OAT and SFH, on a key of less than 2^32 bytes, ends and reads exactly the bytes of the key: with fewer bytes in the object than the given length it reads past the end, and otherwise it gives a 32-bit value that depends on the key's bytes and on nothing behind them.  (On longer keys BER and SFH read a part only and the others do not end, [hash_loop_endless].) *)
Theorem hash_macros_read_the_key f n :
  f ∈ hash_macros → Z.of_nat n < 2 ^ 32 → reads_key n (λ k, f k (Z.of_nat n)).
Proof.
  assert (in32 0) as H0 by (unfold in32; lia).
  unfold hash_macros. rewrite !elem_of_cons, elem_of_nil.
  intros [->|[->|[->|[->|[->|[]]]]]] Hn.
  - unfold HASH_BER. rewrite u32_nat, Nat2Z.id by done. by apply reads_loop_id; [apply ber_lossless|].
  - apply (reads_key_ext n (λ k, Some (byte_loop sax_step n k 0))).
    { intros k. symmetry. by apply hash_loop_bytes. }
    by apply reads_loop_id; [apply sax_range|].
  - apply (reads_key_ext n (λ k, Some (byte_loop fnv_step n k 2166136261))).
    { intros k. symmetry. by apply hash_loop_bytes. }
    by apply reads_loop_id; [apply fnv_lossless|unfold in32; lia].
  - apply (reads_key_ext n (λ k, Some (h ← byte_loop oat_step n k 0; mret (oat_final h)))).
    { intros k. unfold HASH_OAT. by rewrite hash_loop_bytes. }
    apply reads_loop; [apply oat_lossless| |done]. intros h _. apply u32_in32.
  - by apply reads_sfh.
Qed.

Lemma hash_macros_read_the_key_witness :
  HASH_SFH ∈ hash_macros ∧ HASH_SFH (chars "abcdef") 7 = Some (UB OobRead).
Proof.
  assert (HASH_SFH ∈ hash_macros) as H by (unfold hash_macros; rewrite !elem_of_cons; tauto).
  split; [exact H|]. apply (proj1 (hash_macros_read_the_key HASH_SFH 7 H eq_refl) (chars "abcdef")).
  vm_decide.
Defined.

(** ** Keys that differ in one byte *)

Lemma foldl_inj step k : lossless step → Forall is_byte k → ∀ h h',
  in32 h → in32 h' → foldl step h k = foldl step h' k → h = h'.
Proof.
  intros Hs Hk. induction Hk as [|c k Hc Hk IH]; intros h h' Hh Hh' E; [done|].
  apply IH in E; [|by apply Hs..]. by eapply (ll_hash _ Hs).
Qed.

Lemma foldl_one_byte step hv k1 c c' k2 :
  lossless step → in32 hv → Forall is_byte (k1 ++ c :: k2) → is_byte c' →
  foldl step hv (k1 ++ c :: k2) = foldl step hv (k1 ++ c' :: k2) → c = c'.
Proof.
  intros Hs Hh Hb Hc'. apply Forall_app in Hb as [Hk1 [Hc Hk2]%Forall_cons].
  assert (in32 (foldl step hv k1)) as H1 by (apply foldl_in32; [apply Hs|done..]).
  rewrite !foldl_app. cbn [foldl]. intros E%(foldl_inj step); [|done|done|by apply Hs..].
  by eapply (ll_byte _ Hs).
Qed.

(** C40: The Bernstein, FNV and one-at-a-time functions tell keys of the same length below 2^32 apart that differ in a single byte: on both they end with a value, and the values differ, since every step is a bijection of the 32-bit values for each byte and loses no byte. (HASH_SAX and HASH_SFH give no such guarantee: their steps lose values.  From 2^32 bytes on Bernstein ignores a part of the key and the loops of the other two do not end.) *)
Theorem hash_separates_one_byte f k1 c c' k2 :
  f ∈ [HASH_BER; HASH_FNV; HASH_OAT] → lenZ (k1 ++ c :: k2) < 2 ^ 32 →
  Forall is_byte (k1 ++ c :: k2) → is_byte c' → c ≠ c' →
  ∃ v v', f (k1 ++ c :: k2) (lenZ (k1 ++ c :: k2)) = Some (Ok v) ∧
          f (k1 ++ c' :: k2) (lenZ (k1 ++ c' :: k2)) = Some (Ok v') ∧ v ≠ v'.
Proof.
  intros Hf Hlen Hb Hc' Hne. assert (in32 0) as H0 by (unfold in32; lia).
  assert (in32 2166136261) as H1 by (unfold in32; lia).
  assert (lenZ (k1 ++ c' :: k2) < 2 ^ 32) as Hlen' by (rewrite lenZ_app, lenZ_cons in *; done).
  assert (Forall is_byte (k1 ++ c' :: k2)) as Hb'
    by (apply Forall_app in Hb as [? [_ ?]%Forall_cons]; by apply Forall_app; split; [|apply Forall_cons]).
  assert (∀ step hv k, byte_loop step (length k) k hv = Ok (foldl step hv k)) as Hl.
  { intros step hv k. pose proof (byte_loop_app step k [] hv) as H. by rewrite app_nil_r in H. }
  unfold lenZ in *. revert Hf. rewrite !elem_of_cons, elem_of_nil. intros [->|[->|[->|[]]]].
  - eexists _, _. unfold HASH_BER. rewrite !u32_nat, !Nat2Z.id, !Hl by done. split_and!; [done|done|].
    intros E. apply Hne. exact (foldl_one_byte _ _ _ _ _ _ ber_lossless H0 Hb Hc' E).
  - eexists _, _. unfold HASH_FNV. rewrite !hash_loop_bytes, !Hl by done. split_and!; [done|done|].
    intros E. apply Hne. exact (foldl_one_byte _ _ _ _ _ _ fnv_lossless H1 Hb Hc' E).
  - eexists _, _. unfold HASH_OAT. rewrite !hash_loop_bytes, !Hl by done. split_and!; [done|done|].
    intros E%oat_final_inj; [|apply foldl_in32; [apply oat_lossless|done..]..].
    apply Hne. exact (foldl_one_byte _ _ _ _ _ _ oat_lossless H0 Hb Hc' E).
Qed.

Lemma hash_separates_one_byte_witness :
  Forall is_byte (chars "key1") ∧
  ∃ v v', HASH_FNV (chars "key1") 4 = Some (Ok v) ∧ HASH_FNV (chars "key2") 4 = Some (Ok v') ∧ v ≠ v'.
Proof.
  assert (Forall is_byte (chars "key1")) as H by vm_decide. split; [exact H|].
  refine (hash_separates_one_byte HASH_FNV (chars "key") 49 50 [] _ eq_refl H _ _);
    [rewrite !elem_of_cons; tauto|vm_decide|discriminate].
Defined.

(** [HASH_SAX] and [HASH_SFH] give some keys that differ in one byte the same
    value. *)
Example sax_collides : HASH_SAX (chars "h;.(^") 5 = HASH_SAX (chars "h;3(^") 5.
Proof. reflexivity. Qed.
Example sfh_collides : HASH_SFH (chars "d{?$gs5") 7 = HASH_SFH (chars "E{?$gs5") 7.
Proof. reflexivity. Qed.
