(* ===== verification/UtHashBloom.v ===== *)
(** * The bloom filter of src/utils/uthash.h

    With [HASH_BLOOM] defined, a table carries an array of 2^[HASH_BLOOM] bits; an
    insertion sets the bit its hash value selects, and a search looks at the chain
    only when the bit of its hash value is set.  The filter is a value of its own
    here, beside the store of UtHash.  Shown is what the filter decides, and that
    searches answer as they do without it. *)

From S2P Require Import Prelude CString UtHash.
From S2P Require Import UtHashRep UtHashTable.

(** ** The macros *)

Record bloom : Type := mkBloom {
  bloom_nbits : Z;        (* uint8_t *)
  bloom_bv : list Z       (* uint8_t, HASH_BLOOM_BYTELEN of them *)
}.

Section bloom_macros.
Context (HASH_BLOOM : Z).

Definition HASH_BLOOM_BITLEN : Z := u64 (Z.shiftl 1 HASH_BLOOM).
Definition HASH_BLOOM_BYTELEN : Z :=
  HASH_BLOOM_BITLEN / 8 + (if negb (HASH_BLOOM_BITLEN mod 8 =? 0) then 1 else 0).

(** A filter with all bits clear. *)
Definition bloom_zero : bloom :=
  mkBloom (u8 HASH_BLOOM) (replicate (Z.to_nat HASH_BLOOM_BYTELEN) 0).

Definition HASH_BLOOM_MAKE {V} `{!HashEnv V} : HM V bloom :=
  uthash_malloc HASH_BLOOM_BYTELEN;; mret bloom_zero.
End bloom_macros.

Definition HASH_BLOOM_BITSET (bv : list Z) (idx : Z) : outcome (list Z) :=
  match bv !! Z.to_nat (idx / 8) with
  | None => UB OobWrite
  | Some b => Ok (<[Z.to_nat (idx / 8) := u8 (Z.lor b (u32 (Z.shiftl 1 (idx mod 8))))]> bv)
  end.

Definition HASH_BLOOM_BITTEST (bv : list Z) (idx : Z) : outcome Z :=
  match bv !! Z.to_nat (idx / 8) with
  | None => UB OobRead
  | Some b => Ok (Z.land b (u32 (Z.shiftl 1 (idx mod 8))))
  end.

(** [(hashv) & (uint32_t)((1UL << (tbl)->bloom_nbits) - 1U)] *)
Definition bloom_index (f : bloom) (hv : Z) : Z :=
  Z.land hv (u32 (u64 (u64 (Z.shiftl 1 (bloom_nbits f)) - 1))).

Definition HASH_BLOOM_ADD (f : bloom) (hv : Z) : outcome bloom :=
  bv ← HASH_BLOOM_BITSET (bloom_bv f) (bloom_index f hv); mret (mkBloom (bloom_nbits f) bv).

Definition HASH_BLOOM_TEST (f : bloom) (hv : Z) : outcome Z :=
  HASH_BLOOM_BITTEST (bloom_bv f) (bloom_index f hv).

(** The searches as they are compiled with a filter. *)
Section bloom_find.
Context {V : Type} `{!HashEnv V}.

Definition of_outcome {A} (o : outcome A) : HM V A := λ s,
  match o with Ok a => Done a s | UB u => Undef u end.

Definition bloom_FIND_BYHASHVALUE (f : bloom) head (k : list Z) (klen hv : Z) : HM V (option nat) :=
  match head with
  | None => mret None
  | Some _ =>
      t ← tbl_of head; T ← ldT t;
      bit ← of_outcome (HASH_BLOOM_TEST f hv);
      if negb (bit =? 0) then
        b ← ldB (buckets T) (HASH_TO_BKT hv (num_buckets T));
        HASH_FIND_IN_BKT b k klen hv
      else mret None
  end.

Definition bloom_FIND_STR (f : bloom) head (k : list Z) : HM V (option nat) :=
  klen ← uthash_strlen k;
  match head with
  | None => mret None
  | Some _ => bloom_FIND_BYHASHVALUE f head k klen (HASH_JEN k klen)
  end.
End bloom_find.

(** A filter after the insertion of the hash values [hs]. *)
Fixpoint bloom_adds (f : bloom) (hs : list Z) : outcome bloom :=
  match hs with
  | [] => mret f
  | hv :: hs => f ← HASH_BLOOM_ADD f hv; bloom_adds f hs
  end.

(** A filter of 16 bits: the values are taken modulo 16. *)
Example small_filter :
  match bloom_adds (bloom_zero 4) [3; 0x12345678] with
  | Ok f => f = mkBloom 4 [8; 1] ∧ HASH_BLOOM_TEST f 3 = Ok 8 ∧
            HASH_BLOOM_TEST f 4 = Ok 0 ∧ HASH_BLOOM_TEST f 0x18 = Ok 1
  | UB _ => False
  end.
Proof. vm_compute. by repeat split. Qed.

(** ** What the filter decides *)

Lemma land_bit_zero b j : 0 ≤ j → (Z.land b (2 ^ j) =? 0) = negb (Z.testbit b j).
Proof.
  intros Hj. destruct (Z.eqb_spec (Z.land b (2 ^ j)) 0) as [E|E].
  - apply (f_equal (λ x, Z.testbit x j)) in E.
    rewrite Z.land_spec, Z.pow2_bits_true, Z.testbit_0_l, andb_true_r in E by done. by rewrite E.
  - destruct (Z.testbit b j) eqn:Eb; [done|]. destruct E. apply Z.bits_inj'. intros i Hi.
    rewrite Z.land_spec, Z.testbit_0_l, Z.pow2_bits_eqb by done.
    destruct (Z.eqb_spec j i) as [<-|]; [by rewrite Eb|apply andb_false_r].
Qed.

Section filter.
Context (n : Z) (Hn : 0 ≤ n ≤ 32).
Implicit Types (f : bloom) (hs : list Z) (hv i : Z).

(** The filter [f] has exactly the bits of the hash values [hs]. *)
Record filter_of f hs : Prop := {
  fo_nbits : bloom_nbits f = n;
  fo_len : lenZ (bloom_bv f) = HASH_BLOOM_BYTELEN n;
  fo_bit i b : 0 ≤ i < 2 ^ n → bloom_bv f !! Z.to_nat (i / 8) = Some b →
    Z.testbit b (i mod 8) = true ↔ ∃ hv, hv ∈ hs ∧ hv mod 2 ^ n = i
}.

Lemma pow_n : 1 ≤ 2 ^ n ≤ 2 ^ 32.
Proof.
  split; [pose proof (Z.pow_pos_nonneg 2 n); lia|by apply Z.pow_le_mono_r; lia].
Qed.

Lemma bitlen_eq : HASH_BLOOM_BITLEN n = 2 ^ n.
Proof.
  pose proof pow_n. unfold HASH_BLOOM_BITLEN, u64, wrap. rewrite Z.shiftl_mul_pow2, Z.mul_1_l by lia.
  apply Z.mod_small. lia.
Qed.

Lemma bytelen_bound i : 0 ≤ i < 2 ^ n → 0 ≤ i / 8 < HASH_BLOOM_BYTELEN n.
Proof.
  intros Hi. unfold HASH_BLOOM_BYTELEN. rewrite bitlen_eq. generalize dependent (2 ^ n). intros m Hi.
  destruct (Z.eqb_spec (m mod 8) 0); cbn [negb]; zmod.
Qed.

Lemma bytelen_nonneg : 0 ≤ HASH_BLOOM_BYTELEN n.
Proof. pose proof pow_n. pose proof (bytelen_bound 0). lia. Qed.

Lemma bloom_index_eq f hv : bloom_nbits f = n → bloom_index f hv = hv mod 2 ^ n.
Proof.
  intros Hf. pose proof pow_n. unfold bloom_index. rewrite Hf, Z.shiftl_mul_pow2 by lia.
  replace (u32 _) with (Z.ones n); [apply Z.land_ones; lia|].
  rewrite Z.ones_equiv, Z.mul_1_l. unfold u32, u64, wrap.
  rewrite (Z.mod_small (2 ^ n)), !(Z.mod_small (2 ^ n - 1)) by lia. lia.
Qed.

Lemma index_range hv : 0 ≤ hv mod 2 ^ n < 2 ^ n.
Proof. apply Z.mod_pos_bound. pose proof pow_n. lia. Qed.

Lemma bit_mask i : u32 (Z.shiftl 1 (i mod 8)) = 2 ^ (i mod 8).
Proof.
  pose proof (Z.mod_pos_bound i 8). rewrite Z.shiftl_mul_pow2, Z.mul_1_l by lia.
  apply Z.mod_small. split; [lia|]. apply Z.pow_lt_mono_r; lia.
Qed.

Lemma filter_byte f hs i :
  filter_of f hs → 0 ≤ i < 2 ^ n → ∃ b, bloom_bv f !! Z.to_nat (i / 8) = Some b.
Proof.
  intros Hf Hi. apply lookup_lt_is_Some_2. pose proof (bytelen_bound i Hi).
  pose proof (fo_len _ _ Hf). unfold lenZ in *. lia.
Qed.

Lemma filter_zero : filter_of (bloom_zero n) [].
Proof.
  pose proof bytelen_nonneg. split.
  - unfold bloom_zero, u8, wrap. cbn [bloom_nbits]. apply Z.mod_small. lia.
  - unfold bloom_zero, lenZ. cbn [bloom_bv]. rewrite length_replicate. lia.
  - intros i b _ [-> _]%lookup_replicate. rewrite Z.testbit_0_l. split; [done|].
    intros (hv & H0 & _). by apply not_elem_of_nil in H0.
Qed.

Lemma filter_add f hs hv :
  filter_of f hs → ∃ f', HASH_BLOOM_ADD f hv = Ok f' ∧ filter_of f' (hs ++ [hv]).
Proof.
  intros Hf. pose proof (index_range hv) as Hi. set (j := hv mod 2 ^ n) in *.
  destruct (filter_byte f hs j Hf Hi) as [b Hb].
  unfold HASH_BLOOM_ADD, HASH_BLOOM_BITSET. rewrite bloom_index_eq by apply Hf. fold j.
  rewrite Hb. eexists. split; [reflexivity|]. rewrite bit_mask. split; cbn [bloom_nbits bloom_bv].
  - apply Hf.
  - unfold lenZ. rewrite length_insert. apply Hf.
  - intros i c Hi2 Hc. pose proof (Z.mod_pos_bound i 8). pose proof (Z.mod_pos_bound j 8).
    assert ((∃ hv', hv' ∈ hs ++ [hv] ∧ hv' mod 2 ^ n = i) ↔
            (∃ hv', hv' ∈ hs ∧ hv' mod 2 ^ n = i) ∨ j = i) as ->.
    { setoid_rewrite elem_of_app. setoid_rewrite list_elem_of_singleton. naive_solver. }
    destruct (decide (Z.to_nat (j / 8) = Z.to_nat (i / 8))) as [Ej|Ej].
    + rewrite Ej in Hb, Hc. rewrite list_lookup_insert_eq in Hc by (by eapply lookup_lt_Some).
      injection Hc as <-. unfold u8, wrap. rewrite Z.mod_pow2_bits_low, Z.lor_spec by lia.
      rewrite orb_true_iff, (fo_bit _ _ Hf i b Hi2 Hb), Z.pow2_bits_eqb, Z.eqb_eq by lia.
      assert (j = i ↔ j mod 8 = i mod 8) as ->; [|done].
      split; [by intros ->|]. clear -Ej Hi Hi2. intros. zmod.
    + rewrite list_lookup_insert_ne in Hc by done. rewrite (fo_bit _ _ Hf i c Hi2 Hc).
      split; [by left|]. intros [Hx|Hx]; [done|]. by rewrite Hx in Ej.
Qed.

Lemma filter_adds hs : ∀ f hs0,
  filter_of f hs0 → ∃ f', bloom_adds f hs = Ok f' ∧ filter_of f' (hs0 ++ hs).
Proof.
  induction hs as [|hv hs IH]; intros f hs0 Hf.
  { exists f. by rewrite app_nil_r. }
  destruct (filter_add f hs0 hv Hf) as (f1 & E1 & Hf1).
  destruct (IH f1 _ Hf1) as (f2 & E2 & Hf2). exists f2. cbn [bloom_adds].
  rewrite E1. cbn [mbind outcome_bind]. split; [done|]. by rewrite <- app_assoc in Hf2.
Qed.

Lemma filter_test f hs hv :
  filter_of f hs → ∃ bit, HASH_BLOOM_TEST f hv = Ok bit ∧
    (bit ≠ 0 ↔ ∃ hv', hv' ∈ hs ∧ hv' mod 2 ^ n = hv mod 2 ^ n).
Proof.
  intros Hf. pose proof (index_range hv) as Hi.
  destruct (filter_byte f hs _ Hf Hi) as [b Hb]. pose proof (Z.mod_pos_bound (hv mod 2 ^ n) 8).
  unfold HASH_BLOOM_TEST, HASH_BLOOM_BITTEST. rewrite bloom_index_eq by apply Hf.
  rewrite Hb, bit_mask. eexists. split; [reflexivity|].
  rewrite <- (fo_bit _ _ Hf _ b Hi Hb), <- Z.eqb_neq, land_bit_zero by lia.
  by destruct (Z.testbit b _).
Qed.
End filter.

(** ** Searches never end the process *)

Section quiet.
Context {V : Type} `{!HashEnv V}.

Definition quiet {A} (m : HM V A) : Prop := ∀ s n sz, m s ≠ Exited n sz.

Lemma quiet_ret {A} (a : A) : quiet (mret a).
Proof. done. Qed.

Lemma quiet_bind {A B} (m : HM V A) (k : A → HM V B) :
  quiet m → (∀ a, quiet (k a)) → quiet (m ≫= k).
Proof.
  intros Hm Hk s n sz. unfold mbind, HM_bind. destruct (m s) eqn:E; [apply Hk| |done..].
  intros _. by apply (Hm s n0 sz0).
Qed.

Lemma quiet_ld {A} (f : UT_hash_handle → A) x : quiet (ld f x).
Proof. intros s n sz. unfold ld. by destruct (els s !! x). Qed.

Lemma quiet_ld_val x : quiet (ld_val x).
Proof. intros s n sz. unfold ld_val. by destruct (els s !! x). Qed.

Lemma quiet_ldT t : quiet (ldT t).
Proof. intros s n sz. unfold ldT. by destruct (tbls s !! t). Qed.

Lemma quiet_ldB a i : quiet (ldB a i).
Proof. intros s n sz. unfold ldB. destruct (arrs s !! a) as [bs|]; [|done]. by destruct (bs !! _). Qed.

Lemma quiet_deref p : quiet (deref p).
Proof. by destruct p. Qed.

Lemma quiet_memcmp_eq a b k : quiet (memcmp_eq a b k).
Proof. intros s n sz. unfold memcmp_eq. by repeat case_match. Qed.

Lemma quiet_strlen k : quiet (uthash_strlen k).
Proof. intros s n sz. unfold uthash_strlen. by case_match. Qed.

Hint Resolve quiet_ret quiet_bind quiet_ld quiet_ld_val quiet_ldT quiet_ldB quiet_deref
  quiet_memcmp_eq quiet_strlen : quiet.

Lemma quiet_find_loop k klen hv fuel : ∀ p, quiet (find_loop fuel p k klen hv).
Proof.
  induction fuel as [|fuel IH]; intros [x|]; cbn [find_loop]; try done.
  apply quiet_bind; [apply quiet_ld|]. intros hv'. apply quiet_bind; [apply quiet_ld|]. intros klen'.
  apply quiet_bind; [destruct (_ && _); auto 10 with quiet|]. intros []; auto with quiet.
Qed.

Lemma quiet_HASH_FIND_STR h kb : quiet (HASH_FIND_STR h kb).
Proof.
  apply quiet_bind; [apply quiet_strlen|]. intros klen. destruct h as [x|]; [|apply quiet_ret].
  apply quiet_bind; [unfold tbl_of; auto 10 with quiet|]. intros t.
  apply quiet_bind; [apply quiet_ldT|]. intros T. apply quiet_bind; [apply quiet_ldB|].
  intros b s. apply quiet_find_loop.
Qed.

Lemma quiet_done {A} (m : HM V A) a s :
  quiet m → wp m (λ a' s', a' = a ∧ s' = s) s → m s = Done a s.
Proof.
  intros Hq. unfold wp. destruct (m s) as [a' s'|k sz| |] eqn:E; [|by destruct (Hq s k sz)|done..].
  by intros [-> ->].
Qed.
End quiet.

(** ** Searches with the filter *)

Section bloom_search.
Context {V : Type} `{!HashEnv V} (n : Z) (Hn : 0 ≤ n ≤ 32).
Implicit Types (xvs : list (nat * V)) (f : bloom) (hs k kb : list Z) (s : store V).

(** The hash values of all keys of the table were added to the filter; those of
    elements since deleted may be there as well. *)
Definition covers hs xvs : Prop :=
  ∀ x v k, (x, v) ∈ xvs → key_is v k → HASH_JEN k (lenZ k) ∈ hs.

Lemma bloom_find_same f hs h xvs F s kb k :
  filter_of n f hs → covers hs xvs → is_table h xvs F s → cstr kb = Ok k → lenZ k < 2 ^ 32 →
  bloom_FIND_STR f h kb s = HASH_FIND_STR h kb s.
Proof.
  intros Hf Hc Hi Hkb Hlk.
  destruct (filter_test n Hn f hs (HASH_JEN k (lenZ k)) Hf) as (bit & Eb & Hbit).
  assert (strlen_list kb = Ok (lenZ k)) as Hlen by (unfold strlen_list; by rewrite Hkb).
  assert (u32 (lenZ k) = lenZ k) as Hu
    by (pose proof (lenZ_nonneg k); unfold u32, wrap; rewrite Z.mod_small; lia).
  assert (HASH_JEN kb (lenZ k) = HASH_JEN k (lenZ k)) as Hj.
  { destruct (cstr_inv _ _ Hkb) as (_ & r & ->). apply HASH_JEN_app. }
  destruct (decide (bit = 0)) as [->|Hb].
  - (* the bit is clear: no element has the key *)
    assert (∀ x v, (x, v) ∈ xvs → ¬ key_is v k) as Hno.
    { intros x v Hx Hk. apply Hbit; [|done]. exists (HASH_JEN k (lenZ k)). split; [by eapply Hc|done]. }
    assert (wp (HASH_FIND_STR h kb) (λ r s', r = None ∧ s' = s) s) as Hw.
    { eapply wp_HASH_FIND_STR; [exact Hi|done|done|]. intros [x|]; [|done].
      intros (v & _ & Hx & Hk). by destruct (Hno x v). }
    rewrite (quiet_done _ None s (quiet_HASH_FIND_STR h kb) Hw).
    revert Hw. unfold bloom_FIND_STR, HASH_FIND_STR, uthash_strlen, mbind, HM_bind, wp.
    rewrite Hlen, Hu, Hj. destruct h as [x|]; [|done].
    unfold bloom_FIND_BYHASHVALUE, HASH_FIND_BYHASHVALUE, mbind, HM_bind, of_outcome. rewrite Eb.
    unfold tbl_of, deref, ld, ldT, mbind, HM_bind. cbn [mret HM_ret].
    destruct (els s !! x) as [e|]; [|done]. destruct (tbl (hh e)) as [t|]; [|done].
    cbn [mret HM_ret]. by destruct (tbls s !! t).
  - unfold bloom_FIND_STR, HASH_FIND_STR, uthash_strlen, mbind, HM_bind.
    rewrite Hlen, Hu, Hj. destruct h as [x|]; [|done].
    unfold bloom_FIND_BYHASHVALUE, HASH_FIND_BYHASHVALUE, mbind, HM_bind, of_outcome. rewrite Eb.
    destruct (tbl_of (Some x) s) as [t s'| | |]; [|done..]. destruct (ldT t s') as [T s2| | |]; [|done..].
    by rewrite (proj2 (Z.eqb_neq bit 0) Hb).
Qed.

(** C39: After any hash values were added to an empty bloom filter of 2^n bits, which stays inside its array, the test of a hash value is positive exactly if one of the added values agrees with it modulo 2^n; and every search in a table whose keys were all added gives, with the filter, the same result as without it. *)
Theorem bloom_filter_is_transparent hs :
  ∃ f, bloom_adds (bloom_zero n) hs = Ok f ∧
    (∀ hv, ∃ bit, HASH_BLOOM_TEST f hv = Ok bit ∧
       (bit ≠ 0 ↔ ∃ hv', hv' ∈ hs ∧ hv' mod 2 ^ n = hv mod 2 ^ n)) ∧
    (∀ h xvs F s kb k, is_table h xvs F s → covers hs xvs → cstr kb = Ok k → lenZ k < 2 ^ 32 →
       bloom_FIND_STR f h kb s = HASH_FIND_STR h kb s).
Proof.
  destruct (filter_adds n Hn hs (bloom_zero n) [] (filter_zero n Hn)) as (f & E & Hf).
  exists f. split_and!; [done| |].
  - intros hv. by apply (filter_test n Hn f hs hv).
  - intros h xvs F s kb k Hi Hc. by apply (bloom_find_same f hs h xvs F).
Qed.
End bloom_search.

(** Two keys in a table, a filter of 16 bits: a search for a third key whose bit
    is clear does not look at the chain, and all answers are the same. *)
#[local] Instance env_bloom : HashEnv (list Z) :=
  {| key_field := λ v, v; mem_fail := λ _ sz, 2 ^ 36 <=? sz |}.

Lemma bloom_filter_is_transparent_witness :
  ∃ f, bloom_adds (bloom_zero 4) [HASH_JEN (chars "k") 1] = Ok f ∧
    ∃ bit, HASH_BLOOM_TEST f (HASH_JEN (chars "k") 1) = Ok bit ∧ bit ≠ 0.
Proof.
  destruct (bloom_filter_is_transparent (V := list Z) 4 ltac:(lia) [HASH_JEN (chars "k") 1])
    as (f & E & Ht & _).
  exists f. split; [exact E|]. destruct (Ht (HASH_JEN (chars "k") 1)) as (bit & Eb & Hb).
  exists bit. split; [exact Eb|]. apply Hb. exists (HASH_JEN (chars "k") 1).
  split; [apply list_elem_of_singleton|]; reflexivity.
Defined.

Example search_with_filter :
  match run_ops 100 None [HAdd (lit "k"); HAdd (lit "l")] store_empty,
        bloom_adds (bloom_zero 4) [HASH_JEN (chars "k") 1; HASH_JEN (chars "l") 1] with
  | Done out s, Ok f =>
      (λ t, bloom_FIND_STR f out.1 (lit t) s) <$> ["k"; "l"; "m"]%string =
      [Done (Some 0%nat) s; Done (Some 3%nat) s; Done None s]
  | _, _ => False
  end.
Proof. vm_compute. reflexivity. Qed.
