(* ===== verification/UtHashSelect.v ===== *)
(** * The selection [HASH_SELECT] of src/utils/uthash.h

    [HASH_SELECT] enters the elements of one table that meet a condition into a
    second one, through a second handle they carry.  An element with two handles
    is an element in each of two stores, under one number: the macro reads the
    store of the source and writes the store of the destination. *)

From S2P Require Import Prelude CString UtHash.
From S2P Require Import UtHashRep UtHashTable.
From S2P Require Import UtHashFsck.

Section select.
Context {V : Type} `{!HashEnv V}.
Implicit Types (x : nat) (p dst src last : option nat) (ss : store V) (cond : V → bool).

(** A read of the source [ss]. *)
Definition from {A} ss (m : HM V A) : HM V A := λ s,
  match m ss with
  | Done a _ => Done a s
  | Exited n sz => Exited n sz
  | Undef u => Undef u
  | NoFuel => NoFuel
  end.

(** Enters [x] into the destination [dst] after the element [last] that was
    entered before it; returns the new head. *)
Definition select_add ss dst last x : HM V (option nat) :=
  k ← from ss (ld key x); st (λ h, h <| key := k |>) x;;
  klen ← from ss (ld keylen x); st (λ h, h <| keylen := klen |>) x;;
  hv ← from ss (ld hashv x); st (λ h, h <| hashv := hv |>) x;;
  st (λ h, h <| prev := last |>) x;;
  st (λ h, h <| next := None |>) x;;
  match last with Some y => st (λ h, h <| next := Some x |>) y | None => mret tt end;;
  dst ← match dst with
        | None => HASH_MAKE_TABLE x;; mret (Some x)
        | Some _ => t ← tbl_of dst; st (λ h, h <| tbl := Some t |>) x;; mret dst
        end;
  t ← tbl_of (Some x); T ← ldT t;
  HASH_ADD_TO_BKT (buckets T) (HASH_TO_BKT hv (num_buckets T)) x;;
  t ← tbl_of dst; T ← ldT t;
  stT t (T <| num_items := u32 (num_items T + 1) |>);;
  mret dst.

(** The inner [for]: the chain from [p] on; returns the head and the last element
    entered. *)
Fixpoint select_chain (fuel : nat) cond ss p dst last : HM V (option nat * option nat) :=
  match p with
  | None => mret (dst, last)
  | Some x =>
      match fuel with
      | O => λ _, NoFuel
      | S fuel =>
          v ← from ss (ld_val x);
          '(dst, last) ← (if cond v then dst ← select_add ss dst last x; mret (dst, Some x)
                          else mret (dst, last));
          nxt ← from ss (ld hh_next x);
          select_chain fuel cond ss nxt dst last
      end
  end.

(** The outer [for]: the buckets from [i] on, [n] of them. *)
Fixpoint select_loop (n : nat) cond ss (a : nat) (i : Z) dst last : HM V (option nat) :=
  match n with
  | O => mret dst
  | S n =>
      b ← from ss (ldB a i);
      '(dst, last) ← select_chain (S (size (els ss))) cond ss (hh_head b) dst last;
      select_loop n cond ss a (i + 1) dst last
  end.

Definition HASH_SELECT dst src cond ss : HM V (option nat) :=
  match src with
  | None => mret dst
  | Some _ =>
      t ← from ss (tbl_of src); T ← from ss (ldT t);
      select_loop (Z.to_nat (num_buckets T)) cond ss (buckets T) 0 dst None
  end.

(** The destination before: the same elements, with no second handle in use. *)
Definition unselected ss : store V := mkStore (els ss) ∅ ∅ (snxt ss).
End select.

(** ** What a selection gives *)

#[local] Instance env_select : HashEnv (list Z) :=
  {| key_field := λ v, v; mem_fail := λ _ sz, 2 ^ 36 <=? sz |}.

Definition words : list (hop (list Z)) :=
  [HAdd (lit "one"); HAdd (lit "three"); HAdd (lit "two"); HAdd (lit "four"); HAdd (lit "six")].

(** The words of three letters and their terminator, and the text of a handle. *)
Definition is_short (v : list Z) : bool := lenZ v =? 4.

Definition listed (h : option nat) : HM (list Z) (list (list Z)) :=
  HASH_ITER h [] (λ x h acc, v ← ld_val x; mret (h, acc ++ [v])) ≫= λ r, mret r.2.

(** The selection runs through the source by buckets.  The new table holds the
    three short words, searches find them, and it passes the check. *)
Example select_short_words :
  match run_ops 100 None words store_empty with
  | Done out ss =>
      match HASH_SELECT None out.1 is_short ss (unselected ss) with
      | Done h s =>
          (match listed h s with Done l _ => length l = 3%nat ∧ Forall (λ v, is_short v = true) l
                               | _ => False end) ∧
          (match HASH_FIND_STR h (lit "six") s with Done (Some _) _ => True | _ => False end) ∧
          HASH_FIND_STR h (lit "four") s = Done None s ∧ HASH_FSCK h s = Done true s
      | _ => False
      end
  | _ => False
  end.
Proof. vm_compute. by repeat (apply Forall_cons || split). Qed.

(** But the selection does not advance the tail of the new table, which stays at
    the first element: the next addition is linked behind that one, and the
    elements in between leave the application order, although searches still find
    them. *)
Lemma select_then_add_loses_elements :
  match run_ops 100 None words store_empty with
  | Done out ss =>
      match (h ← HASH_SELECT None out.1 is_short ss;
             x ← malloc_element 100 (mkElement (lit "ten") handle_zero);
             match x with Some x => HASH_ADD_STR h x | None => mret h end) (unselected ss) with
      | Done h s =>
          (match listed h s with Done l _ => length l = 2%nat | _ => False end) ∧
          (match HASH_COUNT h s with Done n _ => n = 4 | _ => False end) ∧
          match HASH_FSCK h s with Done b _ => b = false | _ => False end
      | _ => False
      end
  | _ => False
  end.
Proof. vm_compute. by repeat split. Qed.
