(* ===== verification/DnsTracker.v ===== *)
(** * src/tracking/dns_tracker.c

    The tracker keeps one hash table (src/utils/uthash.h, files UtHash to
    UtHashTable) of the DNS exchanges seen, under a key printed from the first
    words of the addresses and the ports of a packet.  The head pointer
    [dns_table] is passed to and returned from the operations, the objects are in
    the store of UtHash, the time is an argument.  The proofs use the table
    through the contract [HashTable] only. *)

From S2P Require Import Prelude CString Types NetUtils UtHash UtHashRep UtHashTable.

Definition DNS_TRACKING_TIMEOUT : Z := 60.

(** ** Data *)

Record dns_conntrack_info_t : Type := mkInfo {
  valid : bool;
  client_ip : ip_addr;
  dns_server_ip : ip_addr;
  client_port : Z;
  dns_server_port : Z;
  timestamp : Z
}.

(** The fields of an entry other than its hash handle; [key] is a [char[128]]. *)
Record dns_conntrack_entry_t : Type := mkEntry {
  dkey : list Z;
  info : dns_conntrack_info_t;
  last_seen : Z
}.

#[export] Instance eta_entry : Eta dns_conntrack_entry_t := λ e,
  mkEntry (dkey e) (info e) (last_seen e).

Definition sizeof_dns_conntrack_entry_t : Z := 248.

(** ** The key *)

(** [%0wx] of an unsigned value: hexadecimal, padded with zeros to [w] digits. *)
Definition xdigit (d : Z) : Z := if d <? 10 then 48 + d else 87 + d.

Fixpoint hex (fuel : nat) (n : Z) : list Z :=
  match fuel with
  | O => []
  | S fuel => (if n <? 16 then [] else hex fuel (n / 16)) ++ [xdigit (n mod 16)]
  end.

Definition print_0x (w : nat) (n : Z) : list Z :=
  let ds := hex 16 n in replicate (w - length ds) 48 ++ ds.

(** [snprintf(buf, n, ...)] of the text [t] over the old bytes of [buf]. *)
Definition snprintf_into (n : nat) (t old : list Z) : list Z :=
  let t := take (n - 1) t in t ++ 0 :: drop (S (length t)) old.

Definition dns_key_text (ip1 ip2 port1 port2 : Z) : list Z :=
  print_0x 8 ip1 ++ [58] ++ print_0x 8 ip2 ++ [58] ++ print_0x 4 port1 ++ [58] ++ print_0x 4 port2.

(** The keys of a packet, in its own and in the opposite direction. *)
Definition key_fwd (p : packet_t) : list Z :=
  dns_key_text (w0 (src_ip p)) (w0 (dst_ip p)) (src_port p) (dst_port p).
Definition key_rev (p : packet_t) : list Z :=
  dns_key_text (w0 (dst_ip p)) (w0 (src_ip p)) (dst_port p) (src_port p).

(** ** Operations *)

(** Not a DNS packet: the test at the top of [dns_tracker_add]. *)
Definition is_dns (p : packet_t) : bool :=
  type_eqb (type p) PACKET_IPV4_UDP_DATA && ((src_port p =? 53) || (dst_port p =? 53)).

Definition new_info (p : packet_t) (now : Z) : dns_conntrack_info_t :=
  if src_port p =? 53
  then mkInfo true (dst_ip p) (src_ip p) (dst_port p) (src_port p) now
  else mkInfo true (src_ip p) (dst_ip p) (src_port p) (dst_port p) now.

Definition new_entry (p : packet_t) (now : Z) : dns_conntrack_entry_t :=
  mkEntry (snprintf_into 128 (key_fwd p) (replicate 128 0)) (new_info p now) now.

Definition dns_should_redirect (config : goodbyedpi_config_t) (packet : option packet_t) : Z :=
  match packet with
  | None => 0
  | Some p =>
      if negb (type_eqb (type p) PACKET_IPV4_UDP_DATA) || negb (dst_port p =? 53) then 0
      else if negb (dns_redirect_ipv4 config) then 0
      else 1
  end.

(** The return value and the values of [*server_ip] and [*server_port]; a null
    pointer is [None]. *)
Definition dns_get_configured_server (config : goodbyedpi_config_t) (server_ip server_port : option Z)
    : outcome (Z * option Z * option Z) :=
  match server_ip, server_port with
  | Some _, Some _ =>
      match dns_server_v4 config with
      | [] => UB OobRead
      | c :: _ =>
          if c =? 0 then Ok (-1, server_ip, server_port)
          else
            r ← parse_ipv4_address (Some (dns_server_v4 config)) server_ip;
            if negb (r.1 =? 0) then Ok (-1, r.2, server_port)
            else Ok (0, r.2, Some (dns_port_v4 config))
      end
  | _, _ => Ok (-1, server_ip, server_port)
  end.

(** [mfail n sz]: whether the [n]-th allocation, of [sz] bytes, fails; [stk]: the
    bytes the local key buffer of a lookup happens to hold. *)
Section tracker.
Context (mfail : nat → Z → bool) (stk : list Z).

#[local] Instance dns_env : HashEnv dns_conntrack_entry_t :=
  {| key_field := dkey; mem_fail := mfail |}.

Notation HM := (HM dns_conntrack_entry_t).
Implicit Types (dns_table : option nat) (now : Z).

(** The table that was there is forgotten, not freed. *)
Definition dns_tracker_init dns_table : HM (Z * option nat) := mret (0, None).

Definition dns_tracker_cleanup dns_table : HM (Z * option nat) :=
  HASH_ITER dns_table tt (λ current head _,
    head ← HASH_DEL head current; free_element current;; mret (head, tt));;
  mret (0, None).

Definition dns_tracker_add dns_table now (packet : option packet_t) : HM (Z * option nat) :=
  match packet with
  | None => mret (-1, dns_table)
  | Some p =>
      if negb (is_dns p) then mret (-1, dns_table)
      else
        entry ← malloc_element sizeof_dns_conntrack_entry_t (mkElement (new_entry p now) handle_zero);
        match entry with
        | None => mret (-1, dns_table)
        | Some entry => head ← HASH_ADD_STR dns_table entry; mret (0, head)
        end
  end.

(** The result of a lookup: the return value and what is stored in [*info];
    [infop] says that the pointer [info] is not null. *)
Definition dns_tracker_lookup dns_table now (packet : option packet_t) (infop : bool)
    : HM (Z * option dns_conntrack_info_t) :=
  match packet with
  | None => mret (-1, None)
  | Some p =>
      if negb infop then mret (-1, None)
      else if negb (is_dns p) then mret (-1, None)
      else
        let key := snprintf_into 128 (key_fwd p) stk in
        entry ← HASH_FIND_STR dns_table key;
        entry ← match entry with
                | Some _ => mret entry
                | None => HASH_FIND_STR dns_table (snprintf_into 128 (key_rev p) key)
                end;
        match entry with
        | Some x =>
            e ← ld_val x;
            st_val (e <| last_seen := now |>) x;;
            e ← ld_val x;
            mret (0, Some (info e))
        | None => mret (-1, None)
        end
  end.

Definition dns_tracker_update dns_table now (packet : option packet_t) : HM (Z * option nat) :=
  r ← dns_tracker_lookup dns_table now packet true;
  if r.1 =? 0 then mret (0, dns_table) else dns_tracker_add dns_table now packet.

Definition dns_tracker_cleanup_expired dns_table now : HM (Z * option nat) :=
  r ← HASH_ITER dns_table 0 (λ current head removed,
        e ← ld_val current;
        if DNS_TRACKING_TIMEOUT <? now - last_seen e then
          head ← HASH_DEL head current; free_element current;; mret (head, removed + 1)
        else mret (head, removed));
  mret (r.2, r.1).

(** The two out parameters may be null. *)
Definition dns_tracker_get_stats dns_table now (totalp activep : bool)
    : HM (option Z * option Z) :=
  total ← (if totalp then n ← HASH_COUNT dns_table; mret (Some n) else mret None);
  active ← (if activep then
              r ← HASH_ITER dns_table 0 (λ current head active,
                    e ← ld_val current;
                    mret (head, if now - last_seen e <=? DNS_TRACKING_TIMEOUT
                                then u64 (active + 1) else active));
              mret (Some r.2)
            else mret None);
  mret (total, active).

(** ** The table of entries

    What the operations do to the list of entries in the table. *)

Implicit Types (h : option nat) (xvs l r : list (nat * dns_conntrack_entry_t))
  (e : dns_conntrack_entry_t) (p : packet_t) (x : nat) (s : store dns_conntrack_entry_t).

Inductive dns_op : Type :=
  | DAdd (packet : option packet_t)
  | DLookup (packet : option packet_t) (infop : bool)
  | DUpdate (packet : option packet_t)
  | DExpire
  | DStats (totalp activep : bool)
  | DCleanup.

Inductive dns_res : Type :=
  | RInt (n : Z)
  | RInfo (n : Z) (i : option dns_conntrack_info_t)
  | RStats (total active : option Z).

(** An operation at time [now]; the new head and what it answers. *)
Definition run_dns (h : option nat) now (o : dns_op) : HM (option nat * dns_res) :=
  match o with
  | DAdd p => r ← dns_tracker_add h now p; mret (r.2, RInt r.1)
  | DLookup p i => r ← dns_tracker_lookup h now p i; mret (h, RInfo r.1 r.2)
  | DUpdate p => r ← dns_tracker_update h now p; mret (r.2, RInt r.1)
  | DExpire => r ← dns_tracker_cleanup_expired h now; mret (r.2, RInt r.1)
  | DStats t a => r ← dns_tracker_get_stats h now t a; mret (h, RStats r.1 r.2)
  | DCleanup => r ← dns_tracker_cleanup h; mret (r.2, RInt r.1)
  end.

Fixpoint run_dns_all (h : option nat) (os : list (Z * dns_op)) : HM (option nat * list dns_res) :=
  match os with
  | [] => mret (h, [])
  | (now, o) :: os => a ← run_dns h now o; b ← run_dns_all a.1 os; mret (b.1, a.2 :: b.2)
  end.

Definition expired now (xe : nat * dns_conntrack_entry_t) : bool :=
  DNS_TRACKING_TIMEOUT <? now - last_seen xe.2.

Definition keep (now : Z) xvs := base.filter (λ xe, expired now xe = false) xvs.

(** No entry for the packet, in either direction. *)
Definition untracked xvs p : Prop :=
  ∀ x e, (x, e) ∈ xvs → ¬ key_is e (key_fwd p) ∧ ¬ key_is e (key_rev p).

(** The entry [e] answers a lookup of [p]: the same direction comes first. *)
Definition answers xvs p e : Prop :=
  key_is e (key_fwd p) ∨
  ((∀ x e', (x, e') ∈ xvs → ¬ key_is e' (key_fwd p)) ∧ key_is e (key_rev p)).

Definition rejected (packet : option packet_t) : Prop :=
  ∀ p, packet = Some p → is_dns p = false.

(** Adding appends an entry, unless an allocation of an entry is refused. *)
Inductive add_step now p xvs : Z → list (nat * dns_conntrack_entry_t) → Prop :=
  | add_ok x : x ∉ xvs.*1 → add_step now p xvs 0 (xvs ++ [(x, new_entry p now)])
  | add_no_memory k : mfail k sizeof_dns_conntrack_entry_t = true → add_step now p xvs (-1) xvs.

Inductive dns_step now xvs : dns_op → dns_res → list (nat * dns_conntrack_entry_t) → Prop :=
  | ds_add_rejected packet : rejected packet → dns_step now xvs (DAdd packet) (RInt (-1)) xvs
  | ds_add p n xvs' :
      is_dns p = true → add_step now p xvs n xvs' → dns_step now xvs (DAdd (Some p)) (RInt n) xvs'
  | ds_lookup_rejected packet b :
      rejected packet ∨ b = false → dns_step now xvs (DLookup packet b) (RInfo (-1) None) xvs
  | ds_lookup_miss p :
      untracked xvs p → dns_step now xvs (DLookup (Some p) true) (RInfo (-1) None) xvs
  | ds_lookup_hit p l x e r :
      is_dns p = true → xvs = l ++ (x, e) :: r → answers xvs p e →
      dns_step now xvs (DLookup (Some p) true) (RInfo 0 (Some (info e)))
        (l ++ (x, e <| last_seen := now |>) :: r)
  | ds_update_rejected packet : rejected packet → dns_step now xvs (DUpdate packet) (RInt (-1)) xvs
  | ds_update_hit p l x e r :
      is_dns p = true → xvs = l ++ (x, e) :: r → answers xvs p e →
      dns_step now xvs (DUpdate (Some p)) (RInt 0) (l ++ (x, e <| last_seen := now |>) :: r)
  | ds_update_miss p n xvs' :
      is_dns p = true → untracked xvs p → add_step now p xvs n xvs' →
      dns_step now xvs (DUpdate (Some p)) (RInt n) xvs'
  | ds_expire :
      dns_step now xvs DExpire (RInt (lenZ xvs - lenZ (keep now xvs))) (keep now xvs)
  | ds_stats (t a : bool) :
      dns_step now xvs (DStats t a)
        (RStats (if t then Some (u32 (lenZ xvs)) else None)
                (if a then Some (u64 (lenZ (keep now xvs))) else None)) xvs
  | ds_cleanup : dns_step now xvs DCleanup (RInt 0) [].

Inductive dns_steps : list (nat * dns_conntrack_entry_t) → list (Z * dns_op) → list dns_res →
    list (nat * dns_conntrack_entry_t) → Prop :=
  | ds_nil xvs : dns_steps xvs [] [] xvs
  | ds_cons xvs now o res xvs' os ress xvs'' :
      dns_step now xvs o res xvs' → dns_steps xvs' os ress xvs'' →
      dns_steps xvs ((now, o) :: os) (res :: ress) xvs''.

(** ** Keys *)

Definition u32_ok (n : Z) : Prop := 0 ≤ n < 2 ^ 32.
Definition u16_ok (n : Z) : Prop := 0 ≤ n < 2 ^ 16.

(** Fields within their C types. *)
Definition packet_ok p : Prop :=
  u32_ok (w0 (src_ip p)) ∧ u32_ok (w0 (dst_ip p)) ∧ u16_ok (src_port p) ∧ u16_ok (dst_port p).

Fixpoint xdigits (w : nat) (n : Z) : list Z :=
  match w with O => [] | S w => xdigits w (n / 16) ++ [xdigit (n mod 16)] end.

Lemma length_xdigits w n : length (xdigits w n) = w.
Proof. revert n. induction w; intros n; cbn; [done|]. rewrite length_app, IHw. cbn. lia. Qed.

Lemma xdigits_0 w : xdigits w 0 = replicate w 48.
Proof.
  induction w as [|w IH]; [done|]. cbn [xdigits]. change (0 / 16) with 0.
  change (xdigit (0 mod 16)) with 48. rewrite IH. symmetry. by rewrite replicate_S_end.
Qed.

Lemma hex_length_pos fuel n : (0 < fuel → 0 < length (hex fuel n))%nat.
Proof. destruct fuel; [lia|]. intros _. cbn [hex]. rewrite length_app. cbn. lia. Qed.

Lemma print_0x_xdigits w n :
  (0 < w ≤ 16)%nat → 0 ≤ n < 16 ^ Z.of_nat w → print_0x w n = xdigits w n.
Proof.
  unfold print_0x. intros Hw. assert (∀ fuel, (0 < w ≤ fuel)%nat → ∀ n, 0 ≤ n < 16 ^ Z.of_nat w →
    replicate (w - length (hex fuel n)) 48 ++ hex fuel n = xdigits w n) as H; [|apply H; lia].
  clear n Hw. induction w as [|w IH]; intros fuel Hw n Hn; [lia|].
  destruct fuel as [|fuel]; [lia|]. cbn [hex xdigits].
  rewrite Nat2Z.inj_succ, Z.pow_succ_r in Hn by lia.
  destruct (Z.ltb_spec n 16) as [Hs|Hb].
  - cbn [length app]. replace (n / 16) with 0 by (symmetry; apply Z.div_small; lia).
    rewrite xdigits_0. f_equal. f_equal. lia.
  - rewrite <- (IH fuel); [|destruct w; cbn in Hn; lia|zmod].
    rewrite length_app, app_assoc. cbn [length]. do 2 f_equal. f_equal. lia.
Qed.

Lemma xdigit_inj a b : 0 ≤ a < 16 → 0 ≤ b < 16 → xdigit a = xdigit b → a = b.
Proof. unfold xdigit. zcases. Qed.

Lemma xdigits_inj w : ∀ a b, 0 ≤ a < 16 ^ Z.of_nat w → 0 ≤ b < 16 ^ Z.of_nat w →
  xdigits w a = xdigits w b → a = b.
Proof.
  induction w as [|w IH]; intros a b Ha Hb E; [cbn in Ha, Hb; lia|].
  rewrite Nat2Z.inj_succ, Z.pow_succ_r in Ha, Hb by lia. cbn [xdigits] in E.
  apply app_inj_tail in E as [E1 E2]. apply IH in E1; [|zmod..].
  apply xdigit_inj in E2; [|zmod..]. zmod.
Qed.

Lemma no_nul_xdigits w : ∀ n, no_nul (xdigits w n).
Proof.
  induction w as [|w IH]; intros n; [apply not_elem_of_nil|]. cbn [xdigits].
  apply no_nul_app. split; [done|]. apply no_nul_cons. split; [|apply not_elem_of_nil].
  unfold xdigit. assert (0 ≤ n mod 16) by (apply Z.mod_pos_bound; lia). zcases.
Qed.

Lemma dns_key_text_digits a b c d :
  u32_ok a → u32_ok b → u16_ok c → u16_ok d →
  dns_key_text a b c d =
    xdigits 8 a ++ [58] ++ xdigits 8 b ++ [58] ++ xdigits 4 c ++ [58] ++ xdigits 4 d.
Proof. unfold u32_ok, u16_ok. intros. unfold dns_key_text. by rewrite !print_0x_xdigits by (cbn; lia). Qed.

Lemma dns_key_text_ok a b c d :
  u32_ok a → u32_ok b → u16_ok c → u16_ok d →
  no_nul (dns_key_text a b c d) ∧ length (dns_key_text a b c d) = 27%nat.
Proof.
  intros. rewrite dns_key_text_digits by done. split.
  - rewrite !no_nul_app. repeat split; try apply no_nul_xdigits; by vm_decide.
  - by rewrite !length_app, !length_xdigits.
Qed.

(** Different exchanges have different keys. *)
Lemma dns_key_text_inj a b c d a' b' c' d' :
  u32_ok a → u32_ok b → u16_ok c → u16_ok d → u32_ok a' → u32_ok b' → u16_ok c' → u16_ok d' →
  dns_key_text a b c d = dns_key_text a' b' c' d' → a = a' ∧ b = b' ∧ c = c' ∧ d = d'.
Proof.
  intros. rewrite !dns_key_text_digits in * by done.
  repeat match goal with
  | H : _ ++ _ = _ ++ _ |- _ =>
      apply app_inj_1 in H as [? H]; [|by rewrite ?length_xdigits]
  end.
  unfold u32_ok, u16_ok in *. split_and!; eapply xdigits_inj; eauto; cbn; lia.
Qed.

(** The text survives the copy into a key buffer. *)
Lemma cstr_snprintf t old :
  no_nul t → (length t < 128)%nat → cstr (snprintf_into 128 t old) = Ok t.
Proof. intros Hn Hl. unfold snprintf_into. rewrite take_ge by lia. by apply cstr_ok. Qed.

Lemma key_fwd_ok p : packet_ok p → no_nul (key_fwd p) ∧ length (key_fwd p) = 27%nat.
Proof. intros (? & ? & ? & ?). by apply dns_key_text_ok. Qed.

Lemma key_rev_ok p : packet_ok p → no_nul (key_rev p) ∧ length (key_rev p) = 27%nat.
Proof. intros (? & ? & ? & ?). by apply dns_key_text_ok. Qed.

Lemma key_fwd_cstr p old : packet_ok p → cstr (snprintf_into 128 (key_fwd p) old) = Ok (key_fwd p).
Proof. intros [Hn Hl]%key_fwd_ok. apply cstr_snprintf; [done|lia]. Qed.

Lemma key_rev_cstr p old : packet_ok p → cstr (snprintf_into 128 (key_rev p) old) = Ok (key_rev p).
Proof. intros [Hn Hl]%key_rev_ok. apply cstr_snprintf; [done|lia]. Qed.

Lemma new_entry_key p now : packet_ok p → key_is (new_entry p now) (key_fwd p).
Proof.
  intros Hp. split; [by apply key_fwd_cstr|]. destruct (key_fwd_ok p Hp) as [_ E].
  unfold lenZ. rewrite E. lia.
Qed.

(** ** Each operation on the table *)

Context {Htab : HashTable dns_conntrack_entry_t}.
Implicit Types (F : rest (V := dns_conntrack_entry_t)).

Lemma found_None xvs k : found xvs xvs.*1 k None ↔ ∀ x e, (x, e) ∈ xvs → ¬ key_is e k.
Proof.
  cbn. split; intros H x e Hx; [|by eauto].
  apply (H x e); [|done]. by apply (list_elem_of_fmap_2 fst) in Hx.
Qed.

Lemma wp_dns_tracker_add h xvs F s now p Q :
  table h xvs F s → packet_ok p → is_dns p = true →
  (∀ n xvs' h' s', add_step now p xvs n xvs' → table h' xvs' F s' → Q (n, h') s') →
  wp (dns_tracker_add h now (Some p)) Q s.
Proof.
  intros Ht Hp Hd HQ. cbn [dns_tracker_add]. rewrite Hd. cbn [negb].
  wpb. eapply table_malloc; [exact Ht|..].
  - intros s' Ht' Hm. apply wp_ret. eapply HQ; [by eapply add_no_memory|done].
  - intros s' x Ht' HF Hx. wpb.
    eapply table_add; [exact Ht'|done|done|by apply new_entry_key|].
    intros h' s2 Ht2. apply wp_ret. eapply HQ; [by apply add_ok|done].
Qed.

Lemma wp_dns_tracker_lookup h xvs F s now p Q :
  table h xvs F s → packet_ok p → is_dns p = true →
  (untracked xvs p → Q (-1, None) s) →
  (∀ l x e r s', xvs = l ++ (x, e) :: r → answers xvs p e →
     table h (l ++ (x, e <| last_seen := now |>) :: r) F s' → Q (0, Some (info e)) s') →
  wp (dns_tracker_lookup h now (Some p) true) Q s.
Proof.
  intros Ht Hp Hd Hmiss Hhit. cbn [dns_tracker_lookup]. rewrite Hd. cbn [negb].
  assert (∀ k : list Z, length k = 27%nat → lenZ k < 2 ^ 32) as H27 by (unfold lenZ; lia).
  assert (∀ x e, (x, e) ∈ xvs → answers xvs p e → wp
    (e ← ld_val x; st_val (e <| last_seen := now |>) x;; e ← ld_val x; mret (0, Some (info e))) Q s) as Hread.
  { intros x e Hin He. pose proof (in_split_pair _ _ _ Hin) as (l & r & ->).
    wpb. eapply table_val; [exact Ht|exact Hin|]. wpb. eapply table_set; [exact Ht|done|].
    intros s' Ht'. wpb. eapply table_val; [exact Ht'|apply elem_middle|]. apply wp_ret.
    by eapply (Hhit l x e r s'). }
  wpb. eapply table_find; [done|by apply key_fwd_cstr|apply H27; by apply key_fwd_ok|].
  intros [x|] Hf.
  - destruct Hf as (e & _ & Hin & Hk). wpb. apply wp_ret. apply (Hread x e Hin). by left.
  - pose proof (proj1 (found_None xvs _) Hf) as Hf'. wpb.
    eapply table_find; [done|by apply key_rev_cstr|apply H27; by apply key_rev_ok|].
    intros [x|] Hr.
    + destruct Hr as (e & _ & Hin & Hk). apply (Hread x e Hin). by right.
    + pose proof (proj1 (found_None xvs _) Hr) as Hr'. apply wp_ret, Hmiss. intros x e Hin. split; [by eapply Hf'|by eapply Hr'].
Qed.

Lemma keep_snoc now xvs x e :
  keep now (xvs ++ [(x, e)]) = keep now xvs ++ (if expired now (x, e) then [] else [(x, e)]).
Proof.
  unfold keep. rewrite filter_app. f_equal. rewrite filter_cons, filter_nil.
  by destruct (expired now (x, e)).
Qed.

Lemma wp_dns_tracker_cleanup_expired h xvs F s now Q :
  table h xvs F s →
  (∀ h' s', table h' (keep now xvs) F s' → Q (lenZ xvs - lenZ (keep now xvs), h') s') →
  wp (dns_tracker_cleanup_expired h now) Q s.
Proof.
  intros Ht HQ. unfold dns_tracker_cleanup_expired. wpb.
  eapply (wp_HASH_ITER _ F (λ d l removed, l = keep now d ∧ removed = lenZ d - lenZ l));
    [|exact Ht|done|].
  - intros d l x e r h' removed s' Q' Ht' [El ->] HQ'.
    pose proof (elem_middle l (x, e) r) as Hin.
    assert (∀ n, lenZ (d ++ [(x, e)]) - n = lenZ d - n + 1) as Hlen.
    { intros n. rewrite lenZ_app. unfold lenZ. cbn [length]. lia. }
    wpb. eapply table_val; [exact Ht'|exact Hin|].
    pose proof (keep_snoc now d x e) as Hk. unfold expired in Hk. cbn [snd] in Hk.
    destruct (DNS_TRACKING_TIMEOUT <? now - last_seen e).
    + wpb. eapply table_del; [exact Ht'|]. intros h2 s2 e2 _ HF Ht2.
      wpb. eapply table_free; [exact Ht2|done|]. intros s3 Ht3. apply wp_ret.
      eapply (HQ' _ _ l); [exact Ht3|]. rewrite Hk, app_nil_r, <- El. split; [done|].
      by rewrite Hlen.
    + apply wp_ret. eapply (HQ' _ _ (l ++ [(x, e)])); [by rewrite <- app_assoc|].
      rewrite Hk, <- El. split; [done|]. rewrite Hlen, lenZ_app. unfold lenZ. cbn [length]. lia.
  - intros h' removed l s' Ht' [-> ->]. apply wp_ret. by apply HQ.
Qed.

Lemma u64_succ n : u64 (u64 n + 1) = u64 (n + 1).
Proof. unfold u64, wrap. by rewrite Zplus_mod_idemp_l. Qed.

Lemma wp_dns_tracker_get_stats h xvs F s now (t a : bool) Q :
  table h xvs F s →
  (∀ s', table h xvs F s' →
     Q (if t then Some (u32 (lenZ xvs)) else None,
        if a then Some (u64 (lenZ (keep now xvs))) else None) s') →
  wp (dns_tracker_get_stats h now t a) Q s.
Proof.
  intros Ht HQ. unfold dns_tracker_get_stats. wpb.
  assert (∀ total, (∀ s', table h xvs F s' →
      Q (total, if a then Some (u64 (lenZ (keep now xvs))) else None) s') →
    wp (active ← (if a then
              r ← HASH_ITER h 0 (λ current head active,
                    e ← ld_val current;
                    mret (head, if now - last_seen e <=? DNS_TRACKING_TIMEOUT
                                then u64 (active + 1) else active));
              mret (Some r.2)
            else mret None);
        mret (total, active)) Q s) as Hact.
  { intros total HQ'. destruct a; [|wpb; by apply wp_ret, wp_ret, HQ']. wpb. wpb.
    eapply (wp_HASH_ITER _ F (λ d l active, l = d ∧ active = u64 (lenZ (keep now d))));
      [|exact Ht|done|].
    - intros d l x e r h' active s' Q2 Ht' [-> ->] HQ2.
      wpb. eapply table_val; [exact Ht'|apply elem_middle|]. apply wp_ret.
      eapply (HQ2 _ _ (d ++ [(x, e)])); [by rewrite <- app_assoc|]. split; [done|].
      rewrite keep_snoc. unfold expired. cbn [snd].
      rewrite Z.leb_antisym. destruct (DNS_TRACKING_TIMEOUT <? now - last_seen e); cbn [negb].
      + by rewrite app_nil_r.
      + rewrite lenZ_app, u64_succ. done.
    - intros h' active l s' Ht' [-> ->]. apply wp_ret, wp_ret. apply HQ'.
      pose proof (table_head Ht') as E'. rewrite <- (table_head Ht) in E'. by subst. }
  destruct t.
  - wpb. eapply table_count; [exact Ht|]. by apply wp_ret, Hact.
  - by apply wp_ret, Hact.
Qed.

Lemma wp_dns_tracker_cleanup h xvs F s Q :
  table h xvs F s → (∀ s', table None [] F s' → Q (0, None) s') →
  wp (dns_tracker_cleanup h) Q s.
Proof.
  intros Ht HQ. unfold dns_tracker_cleanup. wpb.
  eapply (wp_HASH_ITER _ F (λ _ l _, l = [])); [|exact Ht|done|].
  - intros d l x e r h' [] s' Q' Ht' -> HQ'. cbn [app] in Ht'.
    wpb. eapply (table_del (l := [])); [exact Ht'|]. intros h2 s2 e2 _ HF Ht2.
    wpb. eapply table_free; [exact Ht2|done|]. intros s3 Ht3. apply wp_ret.
    by eapply (HQ' _ _ []).
  - intros h' _ l s' Ht' ->. apply wp_ret, HQ. by rewrite (table_head Ht') in Ht'.
Qed.

(** ** Sequences of operations *)

Definition packet_arg_ok (packet : option packet_t) : Prop :=
  match packet with Some p => packet_ok p | None => True end.

Definition dns_op_ok (o : Z * dns_op) : Prop :=
  match o.2 with
  | DAdd p | DLookup p _ | DUpdate p => packet_arg_ok p
  | _ => True
  end.

Lemma rejected_cases packet : rejected packet ∨ ∃ p, packet = Some p ∧ is_dns p = true.
Proof.
  destruct packet as [p|]; [|by left]. destruct (is_dns p) eqn:E; [right; eauto|].
  left. by intros ? [= <-].
Qed.

Lemma dns_tracker_add_rejected h now packet :
  rejected packet → dns_tracker_add h now packet = mret (-1, h).
Proof. destruct packet as [p|]; [|done]. intros H. cbn. by rewrite (H p eq_refl). Qed.

Lemma dns_tracker_lookup_rejected h now packet b :
  rejected packet ∨ b = false → dns_tracker_lookup h now packet b = mret (-1, None).
Proof.
  destruct packet as [p|]; [|done]. intros [H| ->]; cbn; [|done].
  destruct b; [|done]. by rewrite (H p eq_refl).
Qed.

Lemma wp_run_dns h xvs F s now o Q :
  table h xvs F s → dns_op_ok (now, o) →
  (∀ h' res xvs' s', dns_step now xvs o res xvs' → table h' xvs' F s' → Q (h', res) s') →
  wp (run_dns h now o) Q s.
Proof.
  intros Ht Ho HQ. destruct o as [pk|pk b|pk| |t a|]; cbn [run_dns dns_op_ok snd] in *; wpb.
  - destruct (rejected_cases pk) as [Hr|(p & -> & Hd)].
    + rewrite dns_tracker_add_rejected by done. apply wp_ret, wp_ret.
      eapply HQ; [by constructor|done].
    + eapply wp_dns_tracker_add; [done..|]. intros n xvs' h' s' Ha Ht'. apply wp_ret.
      eapply HQ; [by constructor|done].
  - destruct (rejected_cases pk) as [Hr|(p & -> & Hd)].
    + rewrite dns_tracker_lookup_rejected by (by left). apply wp_ret, wp_ret.
      eapply HQ; [constructor; by left|done].
    + destruct b.
      * eapply wp_dns_tracker_lookup; [done..| |].
        -- intros Hu. apply wp_ret. eapply HQ; [by apply ds_lookup_miss|done].
        -- intros l x e r s' E Ha Ht'. apply wp_ret. eapply HQ; [by eapply ds_lookup_hit|done].
      * rewrite dns_tracker_lookup_rejected by (by right). apply wp_ret, wp_ret.
        eapply HQ; [constructor; by right|done].
  - unfold dns_tracker_update. destruct (rejected_cases pk) as [Hr|(p & -> & Hd)].
    + rewrite dns_tracker_lookup_rejected by (by left). wpb. apply wp_ret. cbn [fst].
      change (-1 =? 0) with false. cbn match.
      rewrite dns_tracker_add_rejected by done. apply wp_ret, wp_ret.
      eapply HQ; [by constructor|done].
    + wpb. eapply wp_dns_tracker_lookup; [done..| |].
      * intros Hu. cbn [fst]. change (-1 =? 0) with false. cbn match.
        eapply wp_dns_tracker_add; [done..|]. intros n xvs' h' s' Ha Ht'. apply wp_ret.
        eapply HQ; [by apply ds_update_miss|done].
      * intros l x e r s' E Ha Ht'. apply wp_ret, wp_ret.
        eapply HQ; [by eapply ds_update_hit|done].
  - eapply wp_dns_tracker_cleanup_expired; [done|]. intros h' s' Ht'. apply wp_ret.
    eapply HQ; [constructor|done].
  - eapply wp_dns_tracker_get_stats; [done|]. intros s' Ht'. apply wp_ret.
    eapply HQ; [constructor|done].
  - eapply wp_dns_tracker_cleanup; [done|]. intros s' Ht'. apply wp_ret.
    eapply HQ; [constructor|done].
Qed.

Lemma wp_run_dns_all os : ∀ h xvs F s Q,
  table h xvs F s → Forall dns_op_ok os →
  (∀ h' ress xvs' s', dns_steps xvs os ress xvs' → table h' xvs' F s' → Q (h', ress) s') →
  wp (run_dns_all h os) Q s.
Proof.
  induction os as [|[now o] os IH]; intros h xvs F s Q Ht Hos HQ; cbn [run_dns_all].
  - apply wp_ret. eapply HQ; [constructor|done].
  - apply Forall_cons in Hos as [Ho Hos]. wpb. eapply wp_run_dns; [done..|].
    intros h' res xvs' s' Hst Ht'. wpb. eapply IH; [done..|].
    intros h2 ress xvs2 s2 Hsts Ht2. apply wp_ret. eapply HQ; [by econstructor|done].
Qed.

(** ** What the entries say *)

(** The exchange a packet belongs to, and the one an entry describes: first words
    of the client's and the server's address and their ports. *)
Definition exch p : Z * Z * Z * Z :=
  if src_port p =? 53 then (w0 (dst_ip p), w0 (src_ip p), dst_port p, src_port p)
  else (w0 (src_ip p), w0 (dst_ip p), src_port p, dst_port p).

Definition exch_info (i : dns_conntrack_info_t) : Z * Z * Z * Z :=
  (w0 (client_ip i), w0 (dns_server_ip i), client_port i, dns_server_port i).

(** An entry describes a packet it was made for. *)
Definition genuine e : Prop := ∃ q, packet_ok q ∧ is_dns q = true ∧
  key_is e (key_fwd q) ∧ exch_info (info e) = exch q ∧ valid (info e) = true.

Definition all_genuine xvs : Prop := ∀ x e, (x, e) ∈ xvs → genuine e.

Lemma key_fwd_inj p q :
  packet_ok p → packet_ok q → key_fwd p = key_fwd q →
  w0 (src_ip p) = w0 (src_ip q) ∧ w0 (dst_ip p) = w0 (dst_ip q) ∧
  src_port p = src_port q ∧ dst_port p = dst_port q.
Proof. intros (? & ? & ? & ?) (? & ? & ? & ?) E. by apply dns_key_text_inj in E. Qed.

Lemma key_rev_inj p q :
  packet_ok p → packet_ok q → key_rev p = key_fwd q →
  w0 (dst_ip p) = w0 (src_ip q) ∧ w0 (src_ip p) = w0 (dst_ip q) ∧
  dst_port p = src_port q ∧ src_port p = dst_port q.
Proof. intros (? & ? & ? & ?) (? & ? & ? & ?) E. by apply dns_key_text_inj in E. Qed.

Lemma genuine_new p now : packet_ok p → is_dns p = true → genuine (new_entry p now).
Proof.
  intros Hp Hd. exists p. split_and!; [done|done|by apply new_entry_key|..];
    unfold new_entry, new_info, exch; by destruct (src_port p =? 53).
Qed.

Lemma genuine_seen e now : genuine e → genuine (e <| last_seen := now |>).
Proof. done. Qed.

Lemma is_dns_port p : is_dns p = true → src_port p = 53 ∨ dst_port p = 53.
Proof. unfold is_dns. intros H. bprop. destruct H0; bprop; auto. Qed.

(** An entry with the key of a packet, in one direction or the other, describes
    its exchange. *)
Lemma genuine_fwd e p : genuine e → packet_ok p → key_is e (key_fwd p) → exch_info (info e) = exch p.
Proof.
  intros (q & Hq & _ & Hk & -> & _) Hp Hk'. pose proof (key_is_inj _ _ _ Hk' Hk) as E.
  apply key_fwd_inj in E as (E1 & E2 & E3 & E4); [|done..]. unfold exch. by rewrite E1, E2, E3, E4.
Qed.

Lemma genuine_rev e p :
  genuine e → packet_ok p → is_dns p = true → (src_port p ≠ 53 ∨ dst_port p ≠ 53) →
  key_is e (key_rev p) → exch_info (info e) = exch p.
Proof.
  intros (q & Hq & Hdq & Hk & -> & _) Hp Hd H53 Hk'. pose proof (key_is_inj _ _ _ Hk' Hk) as E.
  apply key_rev_inj in E as (E1 & E2 & E3 & E4); [|done..].
  apply is_dns_port in Hd. unfold exch. rewrite <- E1, <- E2, <- E3, <- E4.
  destruct (Z.eqb_spec (dst_port p) 53), (Z.eqb_spec (src_port p) 53); try done; lia.
Qed.

(** Conversely, packets of one exchange have the same two keys. *)
Lemma exch_keys p q :
  is_dns p = true → is_dns q = true → exch p = exch q →
  (key_fwd p = key_fwd q ∧ key_rev p = key_rev q) ∨
  (key_fwd p = key_rev q ∧ key_rev p = key_fwd q).
Proof.
  intros Hp%is_dns_port Hq%is_dns_port. unfold exch, key_fwd, key_rev.
  destruct (Z.eqb_spec (src_port p) 53), (Z.eqb_spec (src_port q) 53); intros [= -> -> -> ->]; auto.
Qed.

Lemma untracked_exch xvs p x e :
  untracked xvs p → (x, e) ∈ xvs → genuine e → is_dns p = true → exch_info (info e) ≠ exch p.
Proof.
  intros Hu Hin (q & Hq & Hdq & Hk & E & _) Hd E'. destruct (Hu x e Hin) as [H1 H2].
  rewrite E in E'. destruct (exch_keys q p Hdq Hd E') as [[E1 _]|[E1 _]];
    rewrite E1 in Hk; [by apply H1|by apply H2].
Qed.

(** ** Invariants of the table *)

Definition exchanges xvs : list (Z * Z * Z * Z) := (λ xe, exch_info (info xe.2)) <$> xvs.

(** Entries are genuine, and no two describe the same exchange. *)
Definition tracked_once xvs : Prop := all_genuine xvs ∧ NoDup (exchanges xvs).

Definition no_direct_add (o : Z * dns_op) : Prop := match o.2 with DAdd _ => False | _ => True end.

Lemma all_genuine_app l r : all_genuine (l ++ r) ↔ all_genuine l ∧ all_genuine r.
Proof.
  unfold all_genuine. setoid_rewrite elem_of_app. split.
  - intros H. split; intros; by eapply H; eauto.
  - intros [H1 H2] x e [H|H]; eauto.
Qed.

Lemma all_genuine_cons x e r : all_genuine ((x, e) :: r) ↔ genuine e ∧ all_genuine r.
Proof.
  unfold all_genuine. setoid_rewrite elem_of_cons. split.
  - intros H. split; intros; eapply H; eauto.
  - intros [H1 H2] y e' [[= -> ->]|H]; eauto.
Qed.

Lemma all_genuine_seen l x e r now :
  all_genuine (l ++ (x, e) :: r) → all_genuine (l ++ (x, e <| last_seen := now |>) :: r).
Proof. by rewrite !all_genuine_app, !all_genuine_cons. Qed.

Lemma exchanges_seen l x e r now :
  exchanges (l ++ (x, e <| last_seen := now |>) :: r) = exchanges (l ++ (x, e) :: r).
Proof. unfold exchanges. by rewrite !fmap_app. Qed.

Lemma keep_sublist now xvs : keep now xvs `sublist_of` xvs.
Proof. apply sublist_filter. Qed.

Lemma all_genuine_keep now xvs : all_genuine xvs → all_genuine (keep now xvs).
Proof. intros H x e [_ Hin]%list_elem_of_filter. by eapply H. Qed.

Lemma add_step_genuine now p xvs n xvs' :
  packet_ok p → is_dns p = true → add_step now p xvs n xvs' → all_genuine xvs → all_genuine xvs'.
Proof.
  intros Hp Hd [x _|k _] H; [|done]. apply all_genuine_app. split; [done|].
  apply all_genuine_cons. split; [by apply genuine_new|]. by intros ? ? ?%not_elem_of_nil.
Qed.

Lemma dns_step_genuine now xvs o res xvs' :
  dns_op_ok (now, o) → dns_step now xvs o res xvs' → all_genuine xvs → all_genuine xvs'.
Proof.
  intros Ho Hst H. destruct Hst; subst; try done; cbn in Ho;
    eauto using add_step_genuine, all_genuine_seen, all_genuine_keep.
  by intros ? ? ?%not_elem_of_nil.
Qed.

Lemma dns_steps_genuine xvs os ress xvs' :
  Forall dns_op_ok os → dns_steps xvs os ress xvs' → all_genuine xvs → all_genuine xvs'.
Proof.
  intros Hos Hst. induction Hst as [|xvs now o res xvs1 os ress xvs2 Hst _ IH]; [done|].
  apply Forall_cons in Hos as [Ho Hos]. intros H. apply IH; [done|]. by eapply dns_step_genuine.
Qed.

Lemma dns_step_once now xvs o res xvs' :
  dns_op_ok (now, o) → no_direct_add (now, o) → dns_step now xvs o res xvs' →
  tracked_once xvs → tracked_once xvs'.
Proof.
  intros Ho Hn Hst [Hg Hnd]. split; [by eapply dns_step_genuine|].
  destruct Hst as [| | | |p l x e r|  |p l x e r|p n xvs' Hd Hu Ha| | |]; subst; try done.
  - by rewrite exchanges_seen.
  - by rewrite exchanges_seen.
  - destruct Ha as [x Hx|]; [|done]. unfold exchanges. rewrite fmap_app.
    apply NoDup_app. split_and!; [done| |apply NoDup_singleton].
    intros c ([y e] & -> & Hin)%list_elem_of_fmap Hc%list_elem_of_singleton. cbn [snd] in Hc.
    destruct (genuine_new p now Ho Hd) as (q & _ & _ & _ & _ & _).
    eapply untracked_exch; [done..|by eapply Hg|done|]. rewrite Hc.
    unfold new_entry, new_info, exch. by destruct (src_port p =? 53).
  - eapply sublist_NoDup; [exact Hnd|]. apply fmap_sublist, keep_sublist.
  - constructor.
Qed.

Lemma dns_steps_once xvs os ress xvs' :
  Forall dns_op_ok os → Forall no_direct_add os → dns_steps xvs os ress xvs' →
  tracked_once xvs → tracked_once xvs'.
Proof.
  intros Hos Hns Hst. induction Hst as [|xvs now o res xvs1 os ress xvs2 Hst _ IH]; [done|].
  apply Forall_cons in Hos as [Ho Hos]. apply Forall_cons in Hns as [Hn Hns].
  intros H. apply IH; [done..|]. by eapply dns_step_once.
Qed.

Lemma dns_steps_app xvs os1 os2 ress xvs' :
  dns_steps xvs (os1 ++ os2) ress xvs' →
  ∃ ra1 ra2 xvs1, ress = ra1 ++ ra2 ∧ dns_steps xvs os1 ra1 xvs1 ∧ dns_steps xvs1 os2 ra2 xvs'.
Proof.
  revert xvs ress. induction os1 as [|o os1 IH]; intros xvs ress H.
  - exists [], ress, xvs. split_and!; [done|constructor|done].
  - inversion H as [|? now ? res xvs1 ? ress' ? Hst Hsts]; subst.
    destruct (IH _ _ Hsts) as (ra1 & ra2 & xvs2 & -> & H1 & H2).
    exists (res :: ra1), ra2, xvs2. split_and!; [done|by econstructor|done].
Qed.

(** A lookup after an update for the same exchange. *)
Lemma update_then_lookup xvs p p' t t' ress xvs' :
  all_genuine xvs → packet_ok p → packet_ok p' → is_dns p = true → is_dns p' = true →
  src_port p ≠ 53 ∨ dst_port p ≠ 53 → exch p' = exch p →
  dns_steps xvs [(t, DUpdate (Some p)); (t', DLookup (Some p') true)] ress xvs' →
  (∃ i, ress = [RInt 0; RInfo 0 (Some i)] ∧ exch_info i = exch p ∧ valid i = true) ∨
  ress = [RInt (-1); RInfo (-1) None] ∧ ∃ k, mfail k sizeof_dns_conntrack_entry_t = true.
Proof.
  intros Hg Hp Hp' Hd Hd' H53 Hx Hst.
  assert (src_port p' ≠ 53 ∨ dst_port p' ≠ 53) as H53'.
  { apply is_dns_port in Hd, Hd'. unfold exch in Hx.
    destruct (Z.eqb_spec (src_port p) 53), (Z.eqb_spec (src_port p') 53); injection Hx; lia. }
  inversion Hst as [|? ? ? r1 xvs1 ? ? ? H1 Hst1]; subst.
  inversion Hst1 as [|? ? ? r2 xvs2 ? ? ? H2 Hst2]; subst. inversion Hst2; subst. clear Hst Hst1 Hst2.
  assert (all_genuine xvs1) as Hg1 by (by eapply (dns_step_genuine t _ (DUpdate (Some p)))).
  (* the update leaves an entry for the exchange, or there is no memory *)
  assert (((∃ x e, (x, e) ∈ xvs1 ∧ (key_is e (key_fwd p) ∨ key_is e (key_rev p))) ∧ r1 = RInt 0) ∨
          (untracked xvs1 p ∧ r1 = RInt (-1) ∧ ∃ k, mfail k sizeof_dns_conntrack_entry_t = true)) as H1'.
  { inversion H1 as [| | | | |? Hr|? l x e r ? -> Ha|? ? ? ? Hu Ha| | |]; subst.
    - by rewrite (Hr p eq_refl) in Hd.
    - left. split; [|done]. exists x, (e <| last_seen := t |>). split; [apply elem_middle|].
      destruct Ha as [Ha|[_ Ha]]; [by left|by right].
    - destruct Ha as [x Hxn|k Hk]; [left|right; split_and!; [done|done|by exists k]]. split; [|done].
      exists x, (new_entry p t). split; [apply elem_middle|]. left. by apply new_entry_key. }
  destruct (exch_keys p' p Hd' Hd Hx) as [[E1 E2]|[E1 E2]].
  all: destruct H1' as [[(x & e & Hin & He) ->]|(Hu & -> & Hk)].
  all: inversion H2 as [| |? ? Hr|? Hm|? l y e' r ? -> Ha| | | | | |]; subst;
    try (destruct Hr as [Hr|]; [by rewrite (Hr p' eq_refl) in Hd'|done]).
  all: try (exfalso; destruct (Hm x e Hin) as [Hm1 Hm2]; rewrite ?E1, ?E2 in *; tauto).
  all: try by right.
  all: try (exfalso; destruct (Hu y e') as [Hu1 Hu2]; [apply elem_middle|];
            unfold answers in Ha; rewrite ?E1, ?E2 in *; tauto).
  all: left; exists (info e'); split_and!; [done| |].
  all: assert (genuine e') as Hge by (eapply Hg1; apply elem_middle).
  all: try (by destruct Hge as (? & _ & _ & _ & _ & ?)).
  all: rewrite <- Hx; destruct Ha as [Ha|[_ Ha]]; [by apply genuine_fwd|by apply genuine_rev].
Qed.
End tracker.

(** ** The tracker on the hash table of uthash.h *)

Section theorems.
Context (mfail : nat → Z → bool) (stk : list Z).
#[local] Instance env : HashEnv dns_conntrack_entry_t := dns_env mfail.
Notation run_all := (run_dns_all mfail stk).
Notation steps := (dns_steps mfail).

(** Single allocations of 64 GiB and more fail. *)
Hypothesis limit : ∀ n sz, 2 ^ 36 ≤ sz → mfail n sz = true.
#[local] Instance mem_limit_dns : MemLimit dns_conntrack_entry_t := limit.

(** C12: Every sequence of tracker operations (add, lookup, update, expiry, statistics, clean-up, each at its time) on the hash table acts as on a list of entries in insertion order: adding appends an entry for every UDP packet from or to port 53, and fails only if the system refuses to allocate an entry, a lookup takes an entry with the key of the packet or, only when there is none, of the opposite direction and refreshes it, an update that finds nothing adds, expiry removes exactly the entries not seen for more than 60 seconds and counts them, the statistics count all and the unexpired entries.  No run touches freed memory, the process exits only where the system refuses memory to the hash table, and whenever the list is empty, as after a clean-up, no entry, table or bucket array is left. *)
Theorem dns_tracker_refines_list os :
  Forall dns_op_ok os →
  wp (run_all None os)
     (λ out s, ∃ xvs, steps [] os out.2 xvs ∧ out.1 = head xvs.*1 ∧
        is_table out.1 xvs (rest_all store_empty) s ∧
        (xvs = [] → els s = ∅ ∧ tbls s = ∅ ∧ arrs s = ∅))
     store_empty.
Proof.
  intros Hos. eapply (wp_run_dns_all mfail stk os); [apply table_empty|done|].
  intros h ress xvs s Hst Ht. exists xvs. split_and!; [done|by apply (table_head Ht)|done|].
  intros ->. destruct (table_exact Ht) as [_ E]. by injection E as <- <- <-.
Qed.

(** C17: As long as entries come from [dns_tracker_update] only, no two entries of the table describe the same exchange, and every entry is marked valid and describes, by first address words and ports, the packet its key was printed from. *)
Theorem dns_update_tracks_exchanges_once os :
  Forall dns_op_ok os → Forall no_direct_add os →
  wp (run_all None os)
     (λ out s, ∃ xvs, is_table out.1 xvs (rest_all store_empty) s ∧ NoDup (exchanges xvs) ∧
        ∀ x e, (x, e) ∈ xvs → genuine mfail e)
     store_empty.
Proof.
  intros Hos Hns. eapply (wp_run_dns_all mfail stk os); [apply table_empty|done|].
  intros h ress xvs s Hst Ht. exists xvs.
  destruct (dns_steps_once mfail [] os ress xvs Hos Hns Hst) as [Hg Hnd]; [|done].
  split; [by intros ? ? ?%not_elem_of_nil|constructor].
Qed.

(** C16: After any operations, [dns_tracker_update] accepts every UDP packet of which one port is 53 and the other is not, and a lookup of a packet of the same exchange that follows, in either direction and however much later, finds an entry that describes this exchange; both report failure only if the system refuses to allocate an entry, and the process exits only where it refuses memory to the hash table. *)
Theorem dns_update_then_lookup os p p' t t' :
  Forall dns_op_ok os → packet_ok p → packet_ok p' → is_dns p = true → is_dns p' = true →
  src_port p ≠ 53 ∨ dst_port p ≠ 53 → exch p' = exch p →
  wp (run_all None (os ++ [(t, DUpdate (Some p)); (t', DLookup (Some p') true)]))
     (λ out _, ∃ ress,
        (∃ i, out.2 = ress ++ [RInt 0; RInfo 0 (Some i)] ∧ exch_info i = exch p ∧ valid i = true) ∨
        out.2 = ress ++ [RInt (-1); RInfo (-1) None] ∧
          ∃ k, mfail k sizeof_dns_conntrack_entry_t = true)
     store_empty.
Proof.
  intros Hos Hp Hp' Hd Hd' H53 Hx.
  eapply (wp_run_dns_all mfail stk); [apply table_empty| |].
  { apply Forall_app. split; [done|]. apply Forall_cons. split; [exact Hp|].
    apply Forall_cons. split; [exact Hp'|constructor]. }
  intros h ress xvs s Hst _. apply dns_steps_app in Hst as (ress1 & ress2 & xvs1 & -> & H1 & H2).
  exists ress1. cbn [snd].
  assert (all_genuine mfail xvs1) as Hg.
  { eapply dns_steps_genuine; [done|exact H1|]. by intros ? ? ?%not_elem_of_nil. }
  destruct (update_then_lookup mfail _ _ _ _ _ _ _ Hg Hp Hp' Hd Hd' H53 Hx H2)
    as [(i & -> & Hi)|[-> Hk]]; [left; by exists i|by right].
Qed.
End theorems.

(** *** Runs *)

Definition mfail_none (n : nat) (sz : Z) : bool := 2 ^ 36 <=? sz.
Definition stk_junk : list Z := replicate 128 170.

Lemma mfail_none_limit n sz : 2 ^ 36 ≤ sz → mfail_none n sz = true.
Proof. intros H. by apply Z.leb_le. Qed.

Definition udp (src dst sport dport : Z) : packet_t :=
  packet_zero <| type := PACKET_IPV4_UDP_DATA |> <| src_ip := mkIp src 0 0 0 |>
    <| dst_ip := mkIp dst 0 0 0 |> <| src_port := sport |> <| dst_port := dport |>.

Definition dns_query : packet_t := udp 0xC0A80102 0x08080808 5000 53.
Definition dns_reply : packet_t := udp 0x08080808 0xC0A80102 53 5000.
Definition dns_info (t : Z) : dns_conntrack_info_t :=
  mkInfo true (mkIp 0xC0A80102 0 0 0) (mkIp 0x08080808 0 0 0) 5000 53 t.

Example dns_query_key : key_fwd dns_query = chars "c0a80102:08080808:1388:0035".
Proof. vm_compute. reflexivity. Qed.

Lemma udp_ok a b c d : u32_ok a → u32_ok b → u16_ok c → u16_ok d → packet_ok (udp a b c d).
Proof. done. Qed.

Ltac udp_ok := apply udp_ok; unfold u32_ok, u16_ok; lia.

Definition dns_demo : list (Z * dns_op) :=
  [(10, DUpdate (Some dns_query)); (20, DLookup (Some dns_reply) true);
   (30, DUpdate (Some (udp 1 2 3 4))); (30, DUpdate (Some (udp 1 2 53 4))); (81, DStats true true);
   (81, DExpire); (85, DLookup (Some dns_query) true); (85, DCleanup)].

Lemma dns_demo_ok : Forall dns_op_ok dns_demo.
Proof.
  unfold dns_demo. repeat (apply Forall_cons; split); try constructor;
    cbn [dns_op_ok snd packet_arg_ok]; try udp_ok; exact I.
Qed.

Lemma dns_tracker_refines_list_witness :
  ∃ s, run_dns_all mfail_none stk_junk None dns_demo store_empty =
       Done (None, [RInt 0; RInfo 0 (Some (dns_info 10)); RInt (-1); RInt 0;
                    RStats (Some 2) (Some 1); RInt 1; RInfo (-1) None; RInt 0]) s ∧
       els s = ∅ ∧ tbls s = ∅ ∧ arrs s = ∅.
Proof.
  pose proof (dns_tracker_refines_list mfail_none stk_junk mfail_none_limit dns_demo dns_demo_ok) as H.
  unfold wp in H.
  assert (match run_dns_all mfail_none stk_junk None dns_demo store_empty with
          | Done out _ => out = (None, [RInt 0; RInfo 0 (Some (dns_info 10)); RInt (-1); RInt 0;
                    RStats (Some 2) (Some 1); RInt 1; RInfo (-1) None; RInt 0])
          | _ => False
          end) as E by (vm_compute; reflexivity).
  destruct (run_dns_all mfail_none stk_junk None dns_demo store_empty) as [out s| | |];
    [|destruct E..].
  destruct H as (xvs & _ & Hh & _ & Hnil). rewrite E in Hh |- *. clear E.
  exists s. split; [reflexivity|]. apply Hnil. destruct xvs; [reflexivity|discriminate Hh].
Defined.

Lemma dns_update_tracks_exchanges_once_witness :
  let os := [(1, DUpdate (Some dns_query)); (2, DUpdate (Some dns_reply));
             (3, DUpdate (Some (udp 0xC0A80102 0x08080808 5001 53))); (3, DStats true false)] in
  match run_dns_all mfail_none stk_junk None os store_empty with
  | Done out s =>
      out.2 = [RInt 0; RInt 0; RInt 0; RStats (Some 2) None] ∧
      ∃ xvs, is_table (HashEnv0 := dns_env mfail_none) out.1 xvs (rest_all store_empty) s ∧
        NoDup (exchanges xvs)
  | _ => False
  end.
Proof.
  intros os.
  assert (Forall dns_op_ok os) as Hos.
  { unfold os. repeat (apply Forall_cons; split); try constructor;
      cbn [dns_op_ok snd packet_arg_ok]; try udp_ok; exact I. }
  assert (Forall no_direct_add os) as Hns by (repeat (apply Forall_cons; split); done).
  pose proof (dns_update_tracks_exchanges_once mfail_none stk_junk mfail_none_limit os Hos Hns) as H.
  unfold wp in H.
  assert (match run_dns_all mfail_none stk_junk None os store_empty with
          | Done out _ => out.2 = [RInt 0; RInt 0; RInt 0; RStats (Some 2) None]
          | _ => False end) as E by (vm_compute; reflexivity).
  destruct (run_dns_all mfail_none stk_junk None os store_empty) as [out s| | |]; [|destruct E..].
  destruct H as (xvs & Ht & Hnd & _). split; [exact E|]. exists xvs. split; [exact Ht|exact Hnd].
Defined.

Lemma dns_update_then_lookup_witness :
  match run_dns_all mfail_none stk_junk None
          ([(1, DAdd (Some (udp 7 8 53 9)))] ++
           [(10, DUpdate (Some dns_query)); (40, DLookup (Some dns_reply) true)]) store_empty with
  | Done out _ => ∃ ress i, out.2 = ress ++ [RInt 0; RInfo 0 (Some i)] ∧
                  exch_info i = (0xC0A80102, 0x08080808, 5000, 53) ∧ valid i = true
  | _ => False
  end.
Proof.
  assert (Forall dns_op_ok [(1, DAdd (Some (udp 7 8 53 9)))]) as Hos.
  { apply Forall_cons; split; [|constructor]. cbn [dns_op_ok snd packet_arg_ok]. udp_ok. }
  pose proof (dns_update_then_lookup mfail_none stk_junk mfail_none_limit
    [(1, DAdd (Some (udp 7 8 53 9)))] dns_query dns_reply 10 40 Hos) as H.
  assert (packet_ok dns_query) as Hq by (unfold dns_query; udp_ok).
  assert (packet_ok dns_reply) as Hr by (unfold dns_reply; udp_ok).
  specialize (H Hq Hr eq_refl eq_refl ltac:(left; discriminate) eq_refl).
  unfold wp in H.
  assert (match run_dns_all mfail_none stk_junk None ([(1, DAdd (Some (udp 7 8 53 9)))] ++
           [(10, DUpdate (Some dns_query)); (40, DLookup (Some dns_reply) true)]) store_empty with
          | Done out _ => last out.2 = Some (RInfo 0 (Some (dns_info 10))) | _ => False end)
    as E by (vm_compute; reflexivity).
  destruct (run_dns_all _ _ _ _ _) as [out s| | |]; [|destruct E..].
  destruct H as (ress & [(i & E1 & E2 & E3)|[E1 _]]).
  - exists ress, i. split; [exact E1|]. split; [exact E2|exact E3].
  - exfalso. rewrite E1, last_app in E. discriminate E.
Defined.

(** ** Further facts *)

(** [dns_tracker_add] does not look for an entry with the key it adds. *)
Example dns_add_duplicates :
  ∃ out s, run_dns_all mfail_none stk_junk None
      [(1, DAdd (Some dns_query)); (1, DAdd (Some dns_query)); (1, DStats true false)] store_empty =
    Done (out, [RInt 0; RInt 0; RStats (Some 2) None]) s.
Proof. eexists _, _. vm_compute. reflexivity. Qed.

(** [dns_tracker_init] on a table in use leaves all of it allocated for good: a
    later clean-up frees nothing. *)
Lemma dns_tracker_init_leaks mfail h xvs F s :
  (∀ n sz, 2 ^ 36 ≤ sz → mfail n sz = true) →
  is_table (HashEnv0 := dns_env mfail) h xvs F s →
  wp (HashEnv0 := dns_env mfail) (r ← dns_tracker_init h; dns_tracker_cleanup r.2)
    (λ r s', r = (0, None) ∧ els s' = els s ∧ tbls s' = tbls s ∧ arrs s' = arrs s) s.
Proof.
  intros Hl Ht. pose (E := dns_env mfail). pose proof (Hl : @MemLimit _ E) as L.
  wpb. apply wp_ret. eapply wp_dns_tracker_cleanup; [by eapply it_forget|].
  intros s' (_ & _ & HE & HT & HA). done.
Qed.

(** Redirection is for UDP packets to port 53, when it is configured. *)
Lemma dns_should_redirect_spec config packet :
  dns_should_redirect config packet = 1 ↔
  ∃ p, packet = Some p ∧ type p = PACKET_IPV4_UDP_DATA ∧ dst_port p = 53 ∧
       dns_redirect_ipv4 config = true.
Proof.
  destruct packet as [p|]; cbn; [|split; [done|by intros (? & ? & _)]].
  unfold type_eqb. destruct (bool_decide_reflect (type p = PACKET_IPV4_UDP_DATA)) as [Ht|Ht]; cbn.
  - destruct (Z.eqb_spec (dst_port p) 53) as [Hd|Hd]; cbn.
    + destruct (dns_redirect_ipv4 config) eqn:Er; cbn; split; try done; [by eauto|].
      by intros (? & _ & _ & _ & ?).
    + split; [done|]. by intros (? & [= <-] & _ & ? & _).
  - split; [done|]. by intros (? & [= <-] & ? & _).
Qed.

(** The configured server is the address the string denotes; on a string that
    denotes none neither the address nor the port is written. *)
Lemma dns_get_configured_server_spec config t rst ip port :
  dns_server_v4 config = t ++ 0 :: rst → no_nul t →
  dns_get_configured_server config (Some ip) (Some port) =
    Ok (match inet_pton4 t with
        | Some [a; b; c; d] => (0, Some (ntohl (le32 a b c d)), Some (dns_port_v4 config))
        | _ => (-1, Some ip, Some port)
        end).
Proof.
  intros E Hn. unfold dns_get_configured_server. rewrite E.
  destruct t as [|c t]; [done|]. cbn [app]. apply no_nul_cons in Hn as [Hc Hn].
  rewrite (proj2 (Z.eqb_neq c 0)) by done. unfold parse_ipv4_address.
  change (c :: t ++ 0 :: rst) with ((c :: t) ++ 0 :: rst).
  rewrite cstr_ok by (by apply no_nul_cons). cbn [mbind outcome_bind].
  destruct (inet_pton4 (c :: t)) as [[|b1 [|b2 [|b3 [|b4 [|]]]]]|]; reflexivity.
Qed.
