(* ===== verification/Turkey.v ===== *)
(** * src/evasion/turkey_specific.c

    The region-specific techniques.  The global [config] and the value of
    [rand()] are arguments; local character arrays are lists, objects outside the
    heap.  The file is compiled with the fragment sizes of goodbyedpi.h: config.h
    defines the same macros with other values but is not included. *)

From S2P Require Import Prelude CString StringUtils Types Packet RawSocket Evasion Processor Sni.

Definition TURKEY_HTTP_FRAGMENT_SIZE : Z := 2.
Definition TURKEY_HTTPS_FRAGMENT_SIZE : Z := 2.
Definition TURKEY_MAX_FRAGMENT_SIZE : Z := 5.
Definition DEFAULT_HTTP_FRAGMENT_SIZE : Z := 40.
Definition DEFAULT_HTTPS_FRAGMENT_SIZE : Z := 40.

Definition turkish_services : list (list Z) :=
  [chars "discord.com"; chars "twitter.com"; chars "youtube.com"; chars "telegram.org";
   chars "facebook.com"; chars "instagram.com"; chars "reddit.com"; chars "wikipedia.org";
   chars "netflix.com"; chars "spotify.com"; chars "steamcommunity.com"].

(** ** Operations *)

(** The loop that copies [hostname] from index [i] on with alternating case into
    the local array [buf]; [n] is [space_pos - i].  The condition reads
    [hostname[i]] before it compares [i]. *)
Fixpoint mix_host_loop (n : nat) (i : Z) (hostname buf : list Z) : outcome (list Z) :=
  match hostname with
  | [] => UB OobRead
  | c :: hostname =>
      if c =? 0 then Ok buf
      else match n with
           | O => Ok buf
           | S n => mix_host_loop n (i + 1) hostname
                      (splice (6 + i) [if Z.even i then toupper c else tolower c] buf)
           end
  end.

(** What [turkey_header_obfuscation] writes to its local array [modified_host];
    [host] are the bytes from [host_header] to the end of their object. *)
Definition modified_host (host buf : list Z) (space_pos : Z) : outcome (list Z) :=
  h6 ← strncpy_bytes 6 host;
  let buf := splice 0 h6 buf in
  let hostname := drop 6 host in
  buf ← mix_host_loop (Z.to_nat space_pos) 0 hostname buf;
  let buf := splice (6 + space_pos) [32] buf in
  match hostname !! Z.to_nat space_pos with
  | None => UB OobRead
  | Some c =>
      let buf := splice (6 + space_pos + 1) [c] buf in
      rest ← strncpy_bytes (Z.to_nat (MAX_HOSTNAME_LEN - 6 - space_pos - 2))
               (drop (Z.to_nat (space_pos + 1)) hostname);
      Ok (splice (6 + space_pos + 1) rest buf)
  end.

Section turkey.
Variable config : goodbyedpi_config_t.

(** [junk] are the indeterminate bytes of the local array. *)
Definition turkey_header_obfuscation (rnd : Z) (junk : list Z) (packet : option packet_t) : M Z :=
  match packet with
  | None => mret (-1)
  | Some p =>
      http ← packet_is_http packet;
      if negb http then mret (-1) else
      if negb (host_mixedcase config) && negb (additional_space config) then
        l ← tail_bytes (payload p);
        host_header ← lift (strstr l (host_name ++ [0]));
        match host_header with
        | None => mret (-1)
        | Some i =>
            let host := drop i l in
            host_len ← lift (strlen_list host);
            if (6 <? host_len) && (host_len <? MAX_HOSTNAME_LEN - 10) then
              lift (modified_host host junk (rnd mod 8 + 2));;
              mret 0
            else mret (-1)
        end
      else mret (-1)
  end.

Definition turkey_tls_obfuscation (packet : option packet_t) : M Z :=
  match packet with
  | None => mret (-1)
  | Some p =>
      if negb (packet_is_https packet) then mret (-1) else
      extracted_hostname ← extract_sni_from_packet packet;
      hostname ← (if is_null extracted_hostname then mret (replicate 256 0)
                  else
                    l ← tail_bytes extracted_hostname;
                    bs ← lift (strncpy_bytes (Z.to_nat (MAX_HOSTNAME_LEN - 1)) l);
                    free extracted_hostname;;
                    mret (splice 0 bs (replicate 256 0)));
      if negb (byte_at hostname 0 =? 0) then mret 0 else mret (-1)
  end.

Definition turkey_enhanced_fragmentation (packet : option packet_t) : Z :=
  match packet with
  | None => -1
  | Some _ =>
      let frag_size := if packet_is_https packet then TURKEY_HTTPS_FRAGMENT_SIZE
                       else TURKEY_HTTP_FRAGMENT_SIZE in
      evasion_fragment_packet packet frag_size
  end.

(** The loop over [turkish_services]. *)
Fixpoint any_service (payload_str : list Z) (services : list (list Z)) : outcome bool :=
  match services with
  | [] => Ok false
  | s :: services =>
      r ← strstr payload_str (s ++ [0]);
      match r with Some _ => Ok true | None => any_service payload_str services end
  end.

(** The lower-case loop over a local array, up to its terminator. *)
Fixpoint lower_loop (l : list Z) : outcome (list Z) :=
  match l with
  | [] => UB OobRead
  | c :: l => if c =? 0 then Ok (c :: l) else (tolower c ::.) <$> lower_loop l
  end.

Definition turkey_is_blocked_service (packet : option packet_t) : M bool :=
  match packet with
  | None => mret false
  | Some p =>
      if is_null (payload p) then mret false else
      let payload_str := replicate 512 0 in
      let copy_len := if payload_len p <? 512 - 1 then payload_len p else 512 - 1 in
      l ← tail_bytes (payload p);
      bs ← lift (strncpy_bytes (Z.to_nat copy_len) l);
      let payload_str := splice 0 bs payload_str in
      payload_str ← lift (lower_loop payload_str);
      lift (any_service payload_str turkish_services)
  end.

Definition turkey_ttl (original_ttl : Z) : Z :=
  if 64 <? original_ttl then 64 else if 32 <? original_ttl then 32 else 1.

Definition turkey_ttl_manipulation (packet : option packet_t) : M (Z * option packet_t) :=
  match packet with
  | None => mret (-1, None)
  | Some p => packet_set_ttl packet (turkey_ttl (ttl p))
  end.

(** Only logs. *)
Definition turkey_generate_fake_service_traffic (packet : option packet_t) : Z :=
  match packet with None => -1 | Some _ => 0 end.

(** The result, the changes counted and the packet. *)
Definition turkey_apply_all_evasion (rnd : Z) (junk : list Z) (packet : option packet_t)
    : M (Z * Z * option packet_t) :=
  match packet with
  | None => mret (-1, 0, None)
  | Some p =>
      r ← turkey_header_obfuscation rnd junk packet;
      let changes_made := if r =? 0 then 1 else 0 in
      r ← (if packet_is_https packet then turkey_tls_obfuscation packet else mret (-1));
      let changes_made := if r =? 0 then changes_made + 1 else changes_made in
      let changes_made := if evasion_fragment_packet packet TURKEY_MAX_FRAGMENT_SIZE =? 0
                          then changes_made + 1 else changes_made in
      '(r, packet) ← turkey_ttl_manipulation packet;
      let changes_made := if r =? 0 then changes_made + 1 else changes_made in
      mret (0, changes_made, packet)
  end.

Definition turkey_should_apply_techniques (packet : option packet_t) : M bool :=
  match packet with None => mret false | Some _ => turkey_is_blocked_service packet end.

Definition turkey_get_optimal_fragment_size (packet : option packet_t) : M Z :=
  match packet with
  | None => mret TURKEY_MAX_FRAGMENT_SIZE
  | Some _ =>
      http ← packet_is_http packet;
      if http : bool then
        b ← turkey_is_blocked_service packet;
        mret (if b : bool then TURKEY_HTTP_FRAGMENT_SIZE else DEFAULT_HTTP_FRAGMENT_SIZE)
      else if packet_is_https packet then
        b ← turkey_is_blocked_service packet;
        mret (if b : bool then TURKEY_HTTPS_FRAGMENT_SIZE else DEFAULT_HTTPS_FRAGMENT_SIZE)
      else mret TURKEY_MAX_FRAGMENT_SIZE
  end.
End turkey.

(** ** Which services are recognised *)

(** The first [n] characters of a string in an object, up to its terminator. *)
Fixpoint upto_nul (l : list Z) : list Z :=
  match l with [] => [] | c :: l => if c =? 0 then [] else c :: upto_nul l end.

Lemma no_nul_upto l : no_nul (upto_nul l).
Proof.
  induction l as [|c l IH]; cbn; [apply not_elem_of_nil|].
  destruct (Z.eqb_spec c 0); [apply not_elem_of_nil|]. by apply no_nul_cons.
Qed.

Lemma length_upto l : (length (upto_nul l) ≤ length l)%nat.
Proof. induction l as [|c l IH]; cbn; [done|]. destruct (c =? 0); cbn; lia. Qed.

Lemma strncpy_bytes_upto n l :
  (n ≤ length l)%nat →
  strncpy_bytes n l = Ok (upto_nul (take n l) ++ replicate (n - length (upto_nul (take n l))) 0).
Proof.
  revert l. induction n as [|n IH]; intros l Hl; [done|]. destruct l as [|c l]; [cbn in Hl; lia|].
  cbn [strncpy_bytes take upto_nul]. destruct (Z.eqb_spec c 0) as [->|Hc]; [done|].
  rewrite IH by (cbn in Hl; lia). done.
Qed.

Lemma lower_loop_ok s rst : no_nul s → lower_loop (s ++ 0 :: rst) = Ok (lower s ++ 0 :: rst).
Proof.
  induction s as [|c s IH]; [done|]. intros [Hc Hs]%no_nul_cons. cbn.
  rewrite (proj2 (Z.eqb_neq c 0)) by done. by rewrite IH.
Qed.

Lemma no_nul_lower s : no_nul s → no_nul (lower s).
Proof.
  unfold no_nul. intros Hs (c & Hc & Hin)%list_elem_of_fmap. symmetry in Hc.
  apply tolower_nul in Hc as ->. done.
Qed.

Lemma find_sub_is_Some nd s : is_Some (find_sub nd s) ↔ ∃ i, nd `prefix_of` drop i s.
Proof.
  split.
  - intros [i E]. apply find_sub_Some in E as [E _]. eauto.
  - intros [i Hi]. destruct (find_sub nd s) as [j|] eqn:E; [eauto|]. exfalso.
    destruct (decide (i ≤ length s)%nat) as [Hl|Hl]; [by eapply find_sub_None|].
    rewrite drop_ge in Hi by lia. eapply (find_sub_None _ _ E (length s)); [done|].
    by rewrite drop_all.
Qed.

(** [s] occurs in [t]. *)
Definition occurs (s t : list Z) : Prop := ∃ i, s `prefix_of` drop i t.

Lemma any_service_ok t rst services :
  no_nul t → Forall no_nul services →
  ∃ b, any_service (t ++ 0 :: rst) services = Ok b ∧
       (b = true ↔ ∃ s, s ∈ services ∧ occurs s t).
Proof.
  intros Ht Hs. induction services as [|s services IH]; cbn.
  - exists false. split; [done|]. split; [done|]. by intros (s & ?%not_elem_of_nil & _).
  - apply Forall_cons in Hs as [Hs Hss]. unfold strstr.
    do 2 (rewrite cstr_ok by done; cbn [mbind outcome_bind mret outcome_ret]). destruct (find_sub s t) as [i|] eqn:E.
    + exists true. split; [done|]. split; [|done]. intros _. exists s.
      split; [apply list_elem_of_here|]. apply find_sub_is_Some. eauto.
    + destruct (IH Hss) as (b & -> & Hb). exists b. split; [done|]. rewrite Hb. split.
      * intros (s' & Hin & Ho). exists s'. split; [by apply list_elem_of_further|done].
      * intros (s' & [->|Hin]%elem_of_cons & Ho); [|by exists s'].
        apply find_sub_is_Some in Ho. rewrite E in Ho. by destruct Ho.
Qed.

Lemma services_no_nul : Forall no_nul turkish_services.
Proof. vm_decide. Qed.

(** What the program looks at: the first 511 payload bytes, up to a NUL, in
    lower case. *)
Definition looked_at (payload : list Z) : list Z := lower (upto_nul (take 511 payload)).

Lemma turkey_is_blocked_service_ok p h b d :
  payload p = Ptr b 0 → blocks h !! b = Some d → payload_len p = lenZ d →
  ∃ r, turkey_is_blocked_service (Some p) h = Ok (r, h) ∧
       (r = true ↔ ∃ s, s ∈ turkish_services ∧ occurs s (looked_at d)).
Proof.
  intros Hp Hb Hl. unfold turkey_is_blocked_service. rewrite Hp, Hl. cbn [is_null].
  erewrite bind_ok by (eapply tail_bytes_ok; [exact Hb|pose proof (lenZ_nonneg d); lia]).
  change (Z.to_nat 0) with 0%nat. rewrite drop_0.
  set (n := if _ <? _ then _ else _).
  assert (Z.to_nat n ≤ length d ∧ Z.to_nat n ≤ 511)%nat as [Hn Hn'].
  { unfold n, lenZ. zcases. }
  assert (take (Z.to_nat n) d = take 511 d) as En.
  { unfold n, lenZ. destruct (Z.ltb_spec (Z.of_nat (length d)) (512 - 1)); [|done].
    rewrite Nat2Z.id, !take_ge; [done|lia|lia]. }
  rewrite strncpy_bytes_upto by done. cbn [lift]. rewrite En.
  set (t := upto_nul (take 511 d)).
  assert (length t ≤ Z.to_nat n)%nat as Ht.
  { unfold t. rewrite <- En. etrans; [apply length_upto|]. rewrite length_take. lia. }
  erewrite bind_ok by done.
  assert (∃ rst, splice 0 (t ++ replicate (Z.to_nat n - length t) 0) (replicate 512 0) = t ++ 0 :: rst) as [rst Er].
  { rewrite splice_0, <- app_assoc, length_app, length_replicate.
    destruct (Z.to_nat n - length t)%nat as [|k] eqn:Ek.
    - rewrite drop_replicate. destruct (512 - (length t + 0))%nat as [|j] eqn:Ej; [lia|].
      exists (replicate j 0). done.
    - by eexists. }
  rewrite Er. erewrite bind_ok by (apply lift_ok, lower_loop_ok, no_nul_upto).
  destruct (any_service_ok (lower t) rst turkish_services) as (r & E & Hr).
  - apply no_nul_lower, no_nul_upto.
  - apply services_no_nul.
  - exists r. split; [|exact Hr]. unfold lift. by rewrite E.
Qed.

(** [turkey_is_blocked_service] terminates without leaving a buffer on every packet whose payload is an object of [payload_len] bytes, terminated or not, changes nothing, and answers true exactly if one of the listed host names occurs, up to case, in the first 511 payload bytes before any NUL. *)
Theorem turkey_is_blocked_service_decides p h b d :
  payload p = Ptr b 0 → blocks h !! b = Some d → payload_len p = lenZ d →
  ∃ r, turkey_is_blocked_service (Some p) h = Ok (r, h) ∧
       (r = true ↔ ∃ s, s ∈ turkish_services ∧ occurs s (looked_at d)).
Proof. apply turkey_is_blocked_service_ok. Qed.

Lemma turkey_is_blocked_service_decides_witness :
  let d := chars "GET / HTTP/1.1" ++ CRLF ++ chars "Host: www.YouTube.com" in
  let p := packet_zero <| payload := Ptr 0 0 |> <| payload_len := lenZ d |> in
  turkey_is_blocked_service (Some p) (heap1 d) = Ok (true, heap1 d) ∧
  ∃ s, s ∈ turkish_services ∧ occurs s (looked_at d).
Proof.
  intros d p.
  destruct (turkey_is_blocked_service_decides p (heap1 d) 0 d) as (r & E & Hr);
    [reflexivity|reflexivity|reflexivity|].
  assert (turkey_is_blocked_service (Some p) (heap1 d) = Ok (true, heap1 d)) as E'
    by (vm_compute; reflexivity).
  split; [exact E'|]. apply Hr. rewrite E in E'. by injection E'.
Defined.

(** ** Over-reads of the header obfuscation *)

Lemma packet_is_http_payload p h h' :
  packet_is_http (Some p) h = Ok (true, h') → h' = h ∧ ∃ b o, payload p = Ptr b o.
Proof.
  intros H. split; [by apply read_only in H|]. unfold packet_is_http in H.
  destruct (payload p) as [|b o]; [|eauto]. rewrite orb_true_r in H. discriminate H.
Qed.

Lemma strncpy_bytes_ub n l u : strncpy_bytes n l = UB u → u = OobRead.
Proof.
  revert l. induction n as [|n IH]; intros l; [done|]. destruct l as [|c l]; cbn; [by intros [= <-]|].
  destruct (c =? 0); [done|]. destruct (strncpy_bytes n l) eqn:E; [done|]. intros [= <-]. by eapply IH.
Qed.

Lemma mix_host_loop_ub n i hn buf u : mix_host_loop n i hn buf = UB u → u = OobRead.
Proof.
  revert i hn buf. induction n as [|n IH]; intros i hn buf; destruct hn as [|c hn]; cbn;
    try (by intros [= <-]); destruct (c =? 0); try done. apply IH.
Qed.

(** The local copy reads the character at [space_pos] of the host name, whether
    or not the string reaches so far. *)
Lemma modified_host_overread host buf space_pos :
  0 ≤ space_pos → lenZ host ≤ 6 + space_pos → modified_host host buf space_pos = UB OobRead.
Proof.
  intros Hs Hl. unfold modified_host.
  destruct (strncpy_bytes 6 host) as [h6|u] eqn:E6; cbn [mbind outcome_bind];
    [|by rewrite (strncpy_bytes_ub _ _ _ E6)].
  destruct (mix_host_loop _ _ _ _) as [buf'|u] eqn:Em; cbn [mbind outcome_bind];
    [|by rewrite (mix_host_loop_ub _ _ _ _ _ Em)].
  rewrite lookup_drop, lookup_ge_None_2; [done|]. unfold lenZ in Hl. lia.
Qed.

(** With neither host_mixedcase nor additional_space set, [turkey_header_obfuscation] leaves the payload buffer on every HTTP request without a NUL byte, since it searches the unterminated buffer with [strstr]; and where there is a terminator, it still does when the host name and what follows it in the buffer is no longer than the random position it reads. *)
Theorem turkey_header_obfuscation_overreads config rnd junk p b o d h :
  host_mixedcase config = false → additional_space config = false →
  packet_is_http (Some p) h = Ok (true, h) → payload p = Ptr b o → blocks h !! b = Some d →
  0 ≤ o ≤ lenZ d → 0 ≤ rnd →
  (no_nul (drop (Z.to_nat o) d) → turkey_header_obfuscation config rnd junk (Some p) h = UB OobRead) ∧
  (∀ s rest i, drop (Z.to_nat o) d = s ++ 0 :: rest → no_nul s → find_sub host_name s = Some i →
     6 < lenZ s - Z.of_nat i < MAX_HOSTNAME_LEN - 10 →
     lenZ s - Z.of_nat i + 1 + lenZ rest ≤ 6 + (rnd mod 8 + 2) →
     turkey_header_obfuscation config rnd junk (Some p) h = UB OobRead).
Proof.
  intros Hmix Hadd Hhttp Hp Hb Ho Hr. unfold turkey_header_obfuscation.
  rewrite (bind_ok _ _ _ _ _ Hhttp), Hmix, Hadd, Hp. cbn [negb andb].
  rewrite (bind_ok _ _ _ _ _ (tail_bytes_ok _ _ _ _ Hb Ho)). split.
  - intros Hn. apply bind_ub. unfold lift, strstr. by rewrite (cstr_oob (drop _ d)) by done.
  - intros s rest i Ed Hs Hi Hlen Hshort. rewrite Ed.
    assert (i ≤ length s)%nat as Hil by (unfold lenZ in Hlen; lia).
    erewrite bind_ok.
    2: { apply lift_ok. unfold strstr. rewrite (cstr_ok s) by done. cbn [mbind outcome_bind].
         rewrite (cstr_ok host_name []) by vm_decide. cbn [mbind outcome_bind mret outcome_ret].
         by rewrite Hi. }
    cbv zeta iota. rewrite drop_app_le by done. erewrite bind_ok.
    2: { apply lift_ok. unfold strlen_list. by rewrite cstr_ok by (by apply no_nul_drop). }
    assert (lenZ (drop i s) = lenZ s - Z.of_nat i) as El by (unfold lenZ; rewrite length_drop; lia).
    rewrite El, !(proj2 (Z.ltb_lt _ _)) by lia. cbn [andb]. apply bind_ub. unfold lift.
    assert (0 ≤ rnd mod 8 < 8) by (apply Z.mod_pos_bound; lia).
    rewrite modified_host_overread; [done|lia|]. rewrite lenZ_app, lenZ_cons, El. lia.
Qed.

Lemma turkey_header_obfuscation_overreads_witness :
  let req := chars "GET / HTTP/1.1" ++ CRLF ++ chars "Host: t.co" in
  let p := packet_zero <| type := PACKET_IPV4_TCP_DATA |> <| dst_port := 80 |>
             <| payload := Ptr 0 0 |> in
  turkey_header_obfuscation config_zero 7 [] (Some (p <| payload_len := lenZ req |>)) (heap1 req) = UB OobRead ∧
  turkey_header_obfuscation config_zero 7 [] (Some (p <| payload_len := lenZ req + 1 |>)) (heap1 (req ++ [0])) = UB OobRead.
Proof.
  intros req p. split.
  - apply (turkey_header_obfuscation_overreads config_zero 7 [] _ 0 0 req);
      [reflexivity|reflexivity|vm_compute; reflexivity|reflexivity|reflexivity
      |split; vm_compute; congruence|lia|]. vm_decide.
  - destruct (turkey_header_obfuscation_overreads config_zero 7 [] (p <| payload_len := lenZ req + 1 |>)
                0 0 (req ++ [0]) (heap1 (req ++ [0]))) as [_ H];
      [reflexivity|reflexivity|vm_compute; reflexivity|reflexivity|reflexivity
      |split; vm_compute; congruence|lia|].
    apply (H req [] 16%nat); [vm_compute; reflexivity|vm_decide|vm_compute; reflexivity
      |vm_compute; split; reflexivity|vm_compute; congruence].
Defined.

(** ** What the techniques write *)

(** A computation whose writes stay in the object of [q]. *)
Class WritesOnly (q : ptr) {A} (m : M A) : Prop :=
  writes_only : ∀ h a h', m h = Ok (a, h') → only_object q h h'.

#[export] Instance read_only_writes_only q {A} (m : M A) : ReadOnly m → WritesOnly q m | 10.
Proof. intros Hm h a h' H. rewrite (Hm _ _ _ H). apply only_object_refl. Qed.

#[export] Instance bind_writes_only q {A B} (m : M A) (k : A → M B) :
  WritesOnly q m → (∀ a, WritesOnly q (k a)) → WritesOnly q (m ≫= k) | 5.
Proof.
  intros Hm Hk h b h' H. minv H. eapply only_object_trans; [by eapply Hm|by eapply Hk].
Qed.

#[export] Instance if_writes_only q {A} (c : bool) (m1 m2 : M A) :
  WritesOnly q m1 → WritesOnly q m2 → WritesOnly q (if c then m1 else m2) | 5.
Proof. by destruct c. Qed.

#[export] Instance put_bytes_writes_only q bs : WritesOnly q (put_bytes q bs).
Proof. intros h a h' H. by eapply put_bytes_only. Qed.

#[export] Instance store8_padd_writes_only q n v : WritesOnly q (store8 (padd q n) v).
Proof. intros h a h' H. eapply only_object_padd. by eapply put_bytes_only. Qed.

#[export] Instance memcpy_writes_only q src n : WritesOnly q (memcpy q src n).
Proof. intros h a h' H. by eapply memmove_only. Qed.

#[export] Instance load_be16_read_only p : ReadOnly (load_be16 p).
Proof. unfold load_be16. apply _. Qed.

#[export] Instance parse_sni_writes_only e n q m : WritesOnly q (parse_sni_extension e n q m).
Proof. unfold parse_sni_extension. apply _. Qed.

#[export] Instance extension_loop_writes_only fuel base data e q m :
  WritesOnly q (extension_loop fuel base data e q m).
Proof. revert data. induction fuel; intros data; cbn [extension_loop]; apply _. Qed.

#[export] Instance extract_sni_writes_only d n q m : WritesOnly q (evasion_extract_sni d n q m).
Proof. unfold evasion_extract_sni, hello_fields. apply _. Qed.

#[export] Instance turkey_header_obfuscation_read_only config rnd junk p :
  ReadOnly (turkey_header_obfuscation config rnd junk p).
Proof.
  unfold turkey_header_obfuscation. destruct p as [p|]; [|apply _].
  apply bind_read_only; [apply _|]. intros []; cbn [negb]; [|apply _].
  apply if_read_only; [|apply _]. apply bind_read_only; [apply _|]. intros l.
  apply bind_read_only; [apply _|]. intros [i|]; apply _.
Qed.

Lemma delete_only_object b h0 h1 h2 :
  only_object (Ptr b 0) h1 h2 → blocks h0 !! b = None → delete b (blocks h1) = blocks h0 →
  is_Some (blocks h1 !! b) → is_Some (blocks h2 !! b) ∧ delete b (blocks h2) = blocks h0.
Proof.
  intros [D H] Hn Hd Hs. split.
  - apply elem_of_dom. rewrite D. by apply elem_of_dom.
  - rewrite <- Hd. apply map_eq. intros c. rewrite !lookup_delete. case_decide; [done|].
    apply H. cbn. by intros b' o' [= <- _].
Qed.

(** The extracted name is the only object an extraction leaves behind. *)
Lemma extract_sni_from_packet_cases p h q h' :
  heap_wf h → extract_sni_from_packet p h = Ok (q, h') →
  (q = Null ∧ blocks h' = blocks h) ∨
  (q = Ptr (nxt h) 0 ∧ is_Some (blocks h' !! nxt h) ∧ delete (nxt h) (blocks h') = blocks h).
Proof.
  intros Hwf. unfold extract_sni_from_packet. destruct p as [p|]; [|intros [= <- <-]; by left].
  destruct (_ || _); [intros [= <- <-]; by left|].
  intros H. minv H. rewrite malloc_eq in E. destruct (alloc_fails h _).
  { injection E as <- <-. injection H as <- <-. by left. }
  injection E as <- <-. cbn [is_null] in H. minv H.
  pose proof (fresh_None h Hwf) as Hn.
  apply (extract_sni_writes_only _ _ (Ptr (nxt h) 0)) in E. apply (delete_only_object _ h) in E as [Hs Hd];
    [|done|cbn; by rewrite delete_insert_id|rewrite alloc_lookup_new; eauto].
  destruct (a =? 0).
  - injection H as <- <-. by right.
  - destruct Hs as [bs Hs]. minv H. rewrite (free_ok _ _ bs) in E by done. injection E as _ <-.
    injection H as <- <-. left. by split.
Qed.

Lemma turkey_tls_obfuscation_blocks p h r h' :
  heap_wf h → turkey_tls_obfuscation p h = Ok (r, h') → blocks h' = blocks h.
Proof.
  intros Hwf. unfold turkey_tls_obfuscation. destruct p as [p|]; [|by intros [= _ <-]].
  destruct (negb _); [by intros [= _ <-]|]. intros H. minv H.
  apply extract_sni_from_packet_cases in E as [[-> E]|(-> & [bs Hs] & Hd)]; [| |done].
  - cbn [is_null] in H. minv H. injection E0 as <- <-.
    destruct (negb _) in H; by injection H as _ <-.
  - cbn [is_null] in H. minv H. mread E. mread E. minv E.
    rewrite (free_ok _ _ bs) in E2 by done. injection E2 as _ <-. injection E as <- <-.
    destruct (negb _) in H; by injection H as _ <-.
Qed.

(** Whenever [turkey_apply_all_evasion] returns, it returns 0 and has counted at most four changes; the only field of the packet that can differ is its TTL, and the only byte of memory that can is the TTL byte of the raw datagram of a TCP segment without data, which gets the value 64, 32 or 1 chosen from the packet's TTL.  For a segment with payload the techniques change nothing at all. *)
Theorem turkey_apply_all_changes_ttl_only config rnd junk p h r n q h' :
  heap_wf h → turkey_apply_all_evasion config rnd junk (Some p) h = Ok ((r, n, q), h') →
  r = 0 ∧ 0 ≤ n ≤ 4 ∧
  (q = Some p ∨ q = Some (p <| ttl := turkey_ttl (ttl p) |>)) ∧
  (blocks h' = blocks h ∨
   ∃ b o d i, raw_packet p = Ptr b o ∧ blocks h !! b = Some d ∧
     ((type p = PACKET_IPV4_TCP ∧ i = 8) ∨ (type p = PACKET_IPV6_TCP ∧ i = 7)) ∧
     blocks h' = <[b := splice (o + i) [turkey_ttl (ttl p)] d]> (blocks h)).
Proof.
  intros Hwf H. unfold turkey_apply_all_evasion in H. mread H. minv H.
  assert (blocks h0 = blocks h) as Hb0.
  { destruct (packet_is_https _); [by eapply turkey_tls_obfuscation_blocks|by injection E0 as _ <-]. }
  clear E E0. minv H. destruct a0 as [r' q']. injection H as <- <- <- ->.
  split; [done|]. split; [repeat destruct (_ =? 0); lia|].
  unfold turkey_ttl_manipulation, packet_set_ttl in E.
  destruct (raw_packet p) as [|b o] eqn:Hraw; cbn [is_null] in E.
  { injection E as _ <- <-. eauto. }
  change (type (p <| ttl := _ |>)) with (type p) in E.
  change (raw_packet (p <| ttl := _ |>)) with (raw_packet p) in E. rewrite Hraw in E.
  assert (∀ i, (store8 (padd (Ptr b o) i) (turkey_ttl (ttl p)) ;;
      mret (0, Some (p <| ttl := turkey_ttl (ttl p) |>))) h0 = Ok ((r', q'), h') →
    q' = Some (p <| ttl := turkey_ttl (ttl p) |>) ∧ ∃ d, blocks h !! b = Some d ∧
    blocks h' = <[b := splice (o + i) [turkey_ttl (ttl p)] d]> (blocks h)) as Hst.
  { intros i Hs. minv Hs. injection Hs as _ <- <-. split; [done|].
    unfold store8, put_bytes, obj in E0. cbn [padd] in E0. rewrite Hb0 in E0.
    destruct (blocks h !! b) as [d|]; [|done]. exists d. split; [done|].
    destruct (_ && _); [|done]. injection E0 as _ <-. cbn. by rewrite Hb0. }
  unfold type_eqb in E. destruct (bool_decide_reflect (type p = PACKET_IPV4_TCP)) as [Ht|_].
  - apply Hst in E as [-> (d & Hd & ->)]. split; [by right|]. right. exists b, o, d, 8. split_and!; [done|done|by left|done].
  - destruct (bool_decide_reflect (type p = PACKET_IPV6_TCP)) as [Ht|_].
    + apply Hst in E as [-> (d & Hd & ->)]. split; [by right|]. right. exists b, o, d, 7. split_and!; [done|done|by right|done].
    + injection E as _ <- <-. eauto.
Qed.

Lemma turkey_apply_all_changes_ttl_only_witness :
  let seg := take 40 sample_datagram in
  let p := packet_zero <| type := PACKET_IPV4_TCP |> <| ttl := 118 |> <| dst_port := 443 |>
             <| raw_packet := Ptr 0 0 |> <| raw_packet_len := 40 |> in
  ∃ n h', turkey_apply_all_evasion config_zero 0 [] (Some p) (heap1 seg) =
            Ok ((0, n, Some (p <| ttl := 64 |>)), h') ∧ n = 2 ∧
          blocks h' !! 0%nat = Some (splice 8 [64] seg).
Proof.
  intros seg p.
  destruct (turkey_apply_all_evasion config_zero 0 [] (Some p) (heap1 seg)) as [[[[r n] q] h']|u] eqn:E;
    [|vm_compute in E; discriminate E].
  destruct (turkey_apply_all_changes_ttl_only config_zero 0 [] p (heap1 seg) r n q h') as (-> & Hn & Hq & Hb);
    [apply heap1_wf|exact E|].
  exists n, h'. vm_compute in E. injection E as <- <- <-.
  split; [reflexivity|]. split; [reflexivity|]. vm_compute. reflexivity.
Defined.
