(* ===== verification/Logging.v ===== *)
(** * src/core/logging.c and src/include/logging.h

    The global [logging_config] is a record passed along.  A [FILE] pointer is
    [option nat]: null, or the number of an open stream.  A message is written as
    a line: where it goes and its bytes.  Formatting is done by the caller of the
    definitions, which get the formatted text; the time stamp is an argument. *)

From stdpp Require Import pretty.
From S2P Require Import Prelude CString Types Config.

(** Log levels. *)
Definition LOG_LEVEL_EMERG : Z := 0.
Definition LOG_LEVEL_ALERT : Z := 1.
Definition LOG_LEVEL_CRIT : Z := 2.
Definition LOG_LEVEL_ERR : Z := 3.
Definition LOG_LEVEL_WARNING : Z := 4.
Definition LOG_LEVEL_NOTICE : Z := 5.
Definition LOG_LEVEL_INFO : Z := 6.
Definition LOG_LEVEL_DEBUG : Z := 7.

Record logging_config_t : Type := mkLogging {
  level : Z;
  use_syslog : bool;
  use_file : bool;
  logging_file : list Z;      (* [log_file] of the code *)
  log_fp : option nat;
  debug_enabled : bool
}.

#[export] Instance eta_logging : Eta logging_config_t := λ c,
  mkLogging (level c) (use_syslog c) (use_file c) (logging_file c) (log_fp c) (debug_enabled c).

(** The static initialiser. *)
Definition logging_config : logging_config_t :=
  mkLogging LOG_LEVEL_INFO false false (replicate 256 0) None false.

(** Where a line goes. *)
Inductive sink : Type :=
  | Stderr
  | Stream (fp : nat)
  | Syslog (priority : Z).

#[export] Instance sink_eq_dec : EqDecision sink.
Proof. solve_decision. Defined.

Definition line : Type := sink * list Z.

(** ** Operations *)

Section logging.
(** What [strftime] makes of the time of the call. *)
Variable timestamp : list Z.
Implicit Types (c : logging_config_t) (text : list Z).

(** The lines written.  [fprintf] on a null stream is undefined. *)
Definition log_message c (priority : Z) text : outcome (list line) :=
  if level c <? priority then Ok [] else
  if use_syslog c then Ok [(Syslog priority, text)] else
  let entry := chars "[" ++ timestamp ++ chars "] " ++ text ++ [10] in
  if use_file c then
    match log_fp c with
    | None => UB NullDeref
    | Some fp => Ok [(Stream fp, entry)]
    end
  else Ok [(Stderr, entry)].

(** The macros of logging.h. *)
Definition log_error c text := log_message c LOG_LEVEL_ERR (chars "ERROR: " ++ text).
Definition log_warning c text := log_message c LOG_LEVEL_WARNING (chars "WARN: " ++ text).
Definition log_notice c text := log_message c LOG_LEVEL_NOTICE (chars "NOTICE: " ++ text).
Definition log_info c text := log_message c LOG_LEVEL_INFO (chars "INFO: " ++ text).
Definition log_debug c text :=
  if debug_enabled c then log_message c LOG_LEVEL_DEBUG (chars "DEBUG: " ++ text) else Ok [].

(** The functions go through a buffer of 1024 bytes. *)
Definition log_error_func c text := log_message c LOG_LEVEL_ERR (chars "ERROR: " ++ take 1023 text).
Definition log_info_func c text := log_message c LOG_LEVEL_INFO (chars "INFO: " ++ take 1023 text).
Definition log_debug_func c text :=
  if negb (debug_enabled c) then Ok []
  else log_message c LOG_LEVEL_DEBUG (chars "DEBUG: " ++ take 1023 text).

Definition yes_no (b : bool) : list Z := chars (if b then "yes" else "no").
Definition dec (z : Z) : list Z := chars (pretty z).

Definition log_packet_stats c (packets_processed packets_modified bytes_processed : Z) :=
  log_info c (chars "STATS: processed=" ++ dec packets_processed ++ chars ", modified=" ++
              dec packets_modified ++ chars ", bytes=" ++ dec bytes_processed).

(** [log_file] is null or points to a string; [opened] is what [fopen] returns
    for it.  The failure message goes to stderr directly. *)
Definition logging_init c (lvl : Z) (syslog : bool) (log_file : option (list Z)) (opened : option nat)
    : outcome (Z * logging_config_t * list line) :=
  let c := c <| level := lvl |> <| use_syslog := syslog |>
             <| debug_enabled := LOG_LEVEL_DEBUG <=? lvl |> in
  name ← match log_file with None => Ok [] | Some f => cstr f end;
  '(ok, c) ←
    match log_file with
    | Some f =>
        if 0 <? lenZ name then
          a ← copy_field f (logging_file c);
          Ok (bool_decide (is_Some opened),
              c <| logging_file := a |> <| use_file := true |> <| log_fp := opened |>)
        else Ok (true, c)
    | None => Ok (true, c)
    end;
  if negb ok then Ok (-1, c, []) else
  out ← log_info c (chars "Logging system initialized: level=" ++ dec lvl ++ chars ", syslog=" ++
                    yes_no syslog ++ chars ", file=" ++
                    match log_file with None => chars "none" | Some _ => name end);
  Ok (0, c, out).
End logging.

(** The stream closed, if any. *)
Definition logging_cleanup (c : logging_config_t) : logging_config_t * list nat :=
  match log_fp c with
  | Some fp => if use_file c then (c <| log_fp := None |>, [fp]) else (c, [])
  | None => (c, [])
  end.

Definition logging_set_level (lvl : Z) (c : logging_config_t) : logging_config_t :=
  c <| level := lvl |> <| debug_enabled := LOG_LEVEL_DEBUG <=? lvl |>.

Definition logging_set_debug (enable : bool) (c : logging_config_t) : logging_config_t :=
  c <| debug_enabled := enable |>.

(** ** Usable configurations

    The type invariant of [logging_config]: a configuration that logs to a file
    has one open.  It is what every log call relies on. *)

Definition logging_wf (c : logging_config_t) : Prop :=
  carray 256 (logging_file c) ∧ (use_file c = true → is_Some (log_fp c)).

Lemma logging_config_wf : logging_wf logging_config.
Proof. by repeat split. Qed.

(** The lines of a call that is defined. *)
Definition lines_of (ts : list Z) (c : logging_config_t) (priority : Z) (text : list Z) : list line :=
  match log_message ts c priority text with Ok l => l | UB _ => [] end.

Lemma log_message_ok ts c p text :
  use_syslog c = true ∨ level c < p ∨ (use_file c = true → is_Some (log_fp c)) →
  log_message ts c p text = Ok (lines_of ts c p text).
Proof.
  unfold lines_of, log_message. intros H.
  destruct (Z.ltb_spec (level c) p); [done|]. destruct (use_syslog c); [done|].
  destruct (use_file c); [|done]. destruct (log_fp c); [done|].
  destruct H as [|[?|H]]; [done|lia|]. by destruct (H eq_refl).
Qed.

Lemma log_message_wf ts c p text :
  logging_wf c → log_message ts c p text = Ok (lines_of ts c p text).
Proof. intros []. apply log_message_ok. auto. Qed.

Lemma log_message_null ts c p text :
  use_syslog c = false → use_file c = true → log_fp c = None → p ≤ level c →
  log_message ts c p text = UB NullDeref.
Proof.
  intros Hs Hf Hp Hl. unfold log_message. rewrite (proj2 (Z.ltb_ge _ _)), Hs, Hf, Hp by lia. done.
Qed.

Lemma logging_set_level_wf l c : logging_wf c → logging_wf (logging_set_level l c).
Proof. done. Qed.
Lemma logging_set_debug_wf b c : logging_wf c → logging_wf (logging_set_debug b c).
Proof. done. Qed.

Lemma copy_field_carray src a s n :
  cstr src = Ok s → length a = S n → ∃ a', copy_field src a = Ok a' ∧ carray (S n) a'.
Proof.
  intros Hc Hn. unfold copy_field. rewrite Hn. cbn [Nat.sub]. rewrite Nat.sub_0_r.
  unfold strncpy_field. erewrite strncpy_bytes_cstr by done. cbn.
  rewrite Hn, (proj2 (Nat.leb_le _ _)) by lia. cbn.
  set (b := _ ++ _). assert (length b = S n) as Hb.
  { unfold b. rewrite !length_app, length_take, length_replicate, length_drop. lia. }
  rewrite Hb. cbn. rewrite Nat.sub_0_r.
  destruct (set_char_last n b Hb) as (a' & -> & Hca & _). by exists a'.
Qed.

(** The argument of [logging_init] as a string: absent and empty are the same. *)
Definition named (log_file : option (list Z)) (name : list Z) : Prop :=
  match log_file with None => name = [] | Some f => cstr f = Ok name end.

Lemma logging_init_ok ts c lvl syslog log_file opened name :
  logging_wf c → named log_file name →
  ∃ r c' out, logging_init ts c lvl syslog log_file opened = Ok (r, c', out) ∧
    level c' = lvl ∧ use_syslog c' = syslog ∧ debug_enabled c' = (LOG_LEVEL_DEBUG <=? lvl) ∧
    carray 256 (logging_file c') ∧
    use_file c' = (if 0 <? lenZ name then true else use_file c) ∧
    log_fp c' = (if 0 <? lenZ name then opened else log_fp c) ∧
    r = (if (0 <? lenZ name) && bool_decide (opened = None) then -1 else 0).
Proof.
  intros [Ha Hf] Hn. unfold logging_init.
  destruct log_file as [f|]; cbn in Hn; [rewrite Hn|subst]; cbn [mbind outcome_bind].
  - destruct (0 <? lenZ name) eqn:E0; cbn [mbind outcome_bind andb].
    + destruct (copy_field_carray f (logging_file c) name 255 Hn) as (a' & Ea & Hca); [by destruct Ha|].
      cbn [logging_file upd]. rewrite Ea. cbn [mbind outcome_bind].
      destruct opened as [fp|]; cbn.
      * unfold log_info. rewrite log_message_ok by (cbn; eauto).
        eexists _, _, _. by split_and!.
      * eexists _, _, _. by split_and!.
    + cbn. unfold log_info. rewrite log_message_ok by (cbn; auto).
    eexists _, _, _. by split_and!.
  - cbn. unfold log_info. rewrite log_message_ok by (cbn; auto).
    eexists _, _, _. by split_and!.
Qed.

(** Configurations whose file has been closed. *)
Definition logging_closed (c : logging_config_t) : Prop := use_file c = true → log_fp c = None.

Lemma logging_cleanup_closes c :
  logging_wf c →
  ∃ c', logging_cleanup c = (c', if use_file c then option_list (log_fp c) else []) ∧
    logging_cleanup c' = (c', []) ∧ logging_closed c' ∧
    level c' = level c ∧ use_syslog c' = use_syslog c ∧ use_file c' = use_file c.
Proof.
  intros [_ Hf]. unfold logging_cleanup, logging_closed.
  destruct (use_file c) eqn:Eu.
  - destruct (Hf eq_refl) as [fp Efp]. rewrite Efp. eexists. split; [done|]. cbn. by rewrite Eu.
  - exists c. rewrite Eu. destruct (log_fp c); by rewrite ?Eu.
Qed.

Lemma log_message_closed ts c p text :
  logging_closed c →
  log_message ts c p text = UB NullDeref ↔ use_file c = true ∧ use_syslog c = false ∧ p ≤ level c.
Proof.
  intros Hc. split.
  - unfold log_message. destruct (Z.ltb_spec (level c) p); [done|].
    destruct (use_syslog c); [done|]. by destruct (use_file c).
  - intros (Hf & Hs & Hp). by apply log_message_null; auto.
Qed.

(** C32: The type invariant of the logging configuration, a stream is open whenever messages go to a file, holds initially, is established by every successful [logging_init] and kept by the setters, and makes every log call defined.  A failed [logging_init] says so and breaks it.  [logging_cleanup] closes the stream once and never again, but leaves the file switched on: from then on exactly the messages that pass the level filter and do not go to syslog write to a null stream. *)
Theorem logging_usable_until_cleanup ts c lvl syslog log_file opened name :
  logging_wf c → named log_file name →
  ∃ r c' out, logging_init ts c lvl syslog log_file opened = Ok (r, c', out) ∧
    (r = 0 ∨ r = -1) ∧
    (r = -1 ↔ name ≠ [] ∧ opened = None) ∧
    (r = -1 → ¬ logging_wf c') ∧
    (r = 0 → logging_wf c' ∧
      (∀ l b, logging_wf (logging_set_level l c') ∧ logging_wf (logging_set_debug b c')) ∧
      (∀ p text, ∃ ls, log_message ts c' p text = Ok ls) ∧
      let '(c'', closed) := logging_cleanup c' in
      closed = (if use_file c' then option_list (log_fp c') else []) ∧
      logging_cleanup c'' = (c'', []) ∧
      ∀ p text, log_message ts c'' p text = UB NullDeref ↔
                use_file c' = true ∧ syslog = false ∧ p ≤ lvl).
Proof.
  intros Hc Hn.
  destruct (logging_init_ok ts c lvl syslog log_file opened name Hc Hn)
    as (r & c' & out & E & Hl & Hs & Hd & Ha & Hu & Hp & Hr).
  exists r, c', out. split; [exact E|].
  assert ((0 <? lenZ name) = negb (bool_decide (name = []))) as En by (by destruct name).
  rewrite En in Hu, Hp, Hr. rewrite <- Hl, <- Hs. clear E Hd Hl Hs En Hn.
  assert (r = 0 → logging_wf c') as Hwf.
  { intros Hr0. split; [done|]. rewrite Hu, Hp. destruct Hc as [_ Hf].
    case_bool_decide; cbn in *; [done|]. destruct opened; [eauto|]. by rewrite Hr in Hr0. }
  split_and!.
  - rewrite Hr. destruct (_ && _); auto.
  - rewrite Hr. repeat case_bool_decide; cbn; naive_solver.
  - intros Hr1 [_ Hf]. rewrite Hu, Hp in Hf. rewrite Hr in Hr1.
    destruct (bool_decide (name = [])); [done|]. case_bool_decide as Ho; [|done].
    cbn in Hf. rewrite Ho in Hf. by destruct (Hf eq_refl).
  - intros Hr0. apply Hwf in Hr0 as Hw. split_and!; [done|by split| |].
    + intros p text. rewrite log_message_wf by done. by eexists.
    + destruct (logging_cleanup_closes c' Hw) as (c'' & -> & -> & Hcl & <- & <- & <-).
      split_and!; [done|done|]. intros p text. by apply log_message_closed.
Qed.

(** A log file that is opened; the daemon's last message then goes nowhere. *)
Lemma logging_usable_until_cleanup_witness :
  let f := lit "/tmp/g.log" in
  ∃ c' out, logging_init [] logging_config LOG_LEVEL_INFO false (Some f) (Some 3%nat) = Ok (0, c', out) ∧
    logging_wf c' ∧
    log_message [] (logging_cleanup c').1 LOG_LEVEL_INFO (chars "bye") = UB NullDeref.
Proof.
  intros f.
  destruct (logging_usable_until_cleanup [] logging_config LOG_LEVEL_INFO false (Some f) (Some 3%nat)
              (chars "/tmp/g.log")) as (r & c' & out & E & _ & H1 & _ & H0).
  - apply logging_config_wf.
  - done.
  - assert (r = 0) as -> by (vm_compute in E; by injection E as <- _ _).
    destruct (H0 eq_refl) as (Hw & _ & _ & Hcl). exists c', out. split; [exact E|]. split; [exact Hw|].
    destruct (logging_cleanup c') as [c'' cl]. cbn. destruct Hcl as (_ & _ & Hcl). apply Hcl.
    vm_compute in E. by injection E as <- _.
Defined.
