(* ===== verification/Daemon.v ===== *)
(** * src/service/daemon_funcs.c, and the state of the process

    The whole process as one state: what the log calls wrote, the flag [running],
    the PID file, the descriptors, and what main.c adds, the packet filter, the
    queue, the heap and the counters.  The operating system is the class [Os]: its
    answers to the calls of the daemon.  daemon.c, which has a second version of
    the same functions, is modelled in DaemonC. *)

From stdpp Require Import pretty.
From S2P Require Import Prelude CString Types RawSocket Netfilter Callback Config Logging.

(** ** The process *)

(** [F] is the state of the packet filter, which only its command knows. *)
Record world (F : Type) : Type := mkWorld {
  logcfg : logging_config_t;
  out : list line;                   (* lines written, in order *)
  running : bool;
  pid : Z;
  files : gmap (list Z) (list Z);    (* contents of the files by name *)
  fds : gmap nat (list Z);           (* open descriptors *)
  filter : F;
  nfq_ctx : netfilter_context_t;
  g_packet_callback : option unit;   (* is the callback registered *)
  acquired : list nfq_release;       (* ghost: the queue handles the library gave, *)
  released : list nfq_release;       (* and those given back *)
  mem : heap;
  counters : stats;
  verdicts : list verdict_msg;       (* given to the kernel, in order *)
  injected : list sent;              (* raw packets sent, in order *)
  cwd : list Z;                      (* working directory *)
  umask : Z
}.
Arguments mkWorld {F} _ _ _ _ _ _ _ _ _ _ _ _ _ _ _ _ _.
Arguments logcfg {F} _. Arguments out {F} _. Arguments running {F} _. Arguments pid {F} _.
Arguments files {F} _. Arguments fds {F} _. Arguments filter {F} _. Arguments nfq_ctx {F} _.
Arguments g_packet_callback {F} _. Arguments acquired {F} _. Arguments released {F} _. Arguments mem {F} _.
Arguments counters {F} _. Arguments verdicts {F} _. Arguments injected {F} _.
Arguments cwd {F} _. Arguments umask {F} _.

#[export] Instance eta_world F : Eta (world F) := λ w,
  mkWorld (logcfg w) (out w) (running w) (pid w) (files w) (fds w) (filter w) (nfq_ctx w)
    (g_packet_callback w) (acquired w) (released w) (mem w) (counters w) (verdicts w) (injected w) (cwd w) (umask w).

(** The answers of the operating system. *)
Class Os := {
  timestamp : nat → list Z;          (* of the [n]-th line *)
  strerror : list Z;
  sigaction_ret : Z → Z;
  fork_ret : Z;                      (* 0 in the child *)
  child_pid : Z;
  setsid_ret : Z;
  may_write : list Z → bool;         (* [fopen(name, "w")] succeeds *)
  may_unlink : list Z → bool;
  fopen_append : list Z → option nat (* [fopen(name, "a")] *)
}.

(** ** Runs

    A run returns, or it stops: [Exit] is [exit(code)], [Blocked] a call that
    never returns, [Fault] undefined behaviour. *)

Inductive stop (F : Type) : Type :=
  | Exit (code : Z) (w : world F)
  | Blocked (w : world F)
  | Fault (u : ub).
Arguments Exit {F} _ _.
Arguments Blocked {F} _.
Arguments Fault {F} _.

Inductive res (F A : Type) : Type :=
  | Ret (a : A) (w : world F)
  | Stop (e : stop F).
Arguments Ret {F A} _ _.
Arguments Stop {F A} _.

Definition PM (F A : Type) : Type := world F → res F A.

#[export] Instance PM_ret F : MRet (PM F) := λ A a w, Ret a w.
#[export] Instance PM_bind F : MBind (PM F) := λ A B k m w,
  match m w with Ret a w' => k a w' | Stop e => Stop e end.

Definition EXIT_SUCCESS : Z := 0.
Definition EXIT_FAILURE : Z := 1.
Definition SIGINT : Z := 2.
Definition SIGTERM : Z := 15.
Definition dev_null : list Z := chars "/dev/null".

(** The lowest free descriptor; [n] of them are tried. *)
Fixpoint lowest_free (n fd : nat) (m : gmap nat (list Z)) : nat :=
  match n with
  | O => fd
  | S n => match m !! fd with None => fd | Some _ => lowest_free n (S fd) m end
  end.
Definition new_fd (m : gmap nat (list Z)) : nat := lowest_free (size m) 0 m.

Section daemon.
Context {F : Type} `{OS : !Os}.
Notation PM := (PM F).
Implicit Types (w : world F).

Definition get {A} (f : world F → A) : PM A := λ w, Ret (f w) w.
Definition set (f : world F → world F) : PM unit := λ w, Ret tt (f w).
Definition exit {A} (code : Z) : PM A := λ w, Stop (Exit code w).
(** A call that never returns. *)
Definition block {A} : PM A := λ w, Stop (Blocked w).
Definition pure {A} (o : outcome A) : PM A := λ w,
  match o with Ok a => Ret a w | UB u => Stop (Fault u) end.

(** A log call with the process's configuration. *)
Definition log (call : list Z → logging_config_t → list Z → outcome (list line)) (text : list Z)
    : PM unit := λ w,
  match call (timestamp (length (out w))) (logcfg w) text with
  | Ok l => Ret tt (w <| out := out w ++ l |>)
  | UB u => Stop (Fault u)
  end.

Definition signal_handler (sig : Z) : PM unit :=
  if sig =? SIGINT then
    log log_info (chars "Received SIGINT, shutting down gracefully");;
    set (λ w, w <| running := false |>)
  else if sig =? SIGTERM then
    log log_info (chars "Received SIGTERM, shutting down gracefully");;
    set (λ w, w <| running := false |>)
  else mret tt.

Definition install_signal_handlers : PM Z :=
  if sigaction_ret SIGINT =? -1 then
    log log_error (chars "Failed to install SIGINT handler");; mret (-1)
  else if sigaction_ret SIGTERM =? -1 then
    log log_error (chars "Failed to install SIGTERM handler");; mret (-1)
  else mret 0.

(** [close], [open("/dev/null", O_RDWR)] and [dup(0)], whose results the code
    ignores. *)
Definition close_fd (fd : nat) : PM unit := set (λ w, w <| fds := delete fd (fds w) |>).
Definition open_null : PM unit := set (λ w, w <| fds := <[new_fd (fds w) := dev_null]> (fds w) |>).
Definition dup0 : PM unit := set (λ w,
  match fds w !! 0%nat with
  | Some f => w <| fds := <[new_fd (fds w) := f]> (fds w) |>
  | None => w
  end).

Definition daemonize : PM Z :=
  if fork_ret <? 0 then log log_error (chars "Failed to fork daemon");; mret (-1)
  else if 0 <? fork_ret then exit EXIT_SUCCESS
  else
    set (λ w, w <| pid := child_pid |>);;
    if setsid_ret <? 0 then log log_error (chars "Failed to create new session");; mret (-1)
    else
      close_fd 0;; close_fd 1;; close_fd 2;;
      open_null;; dup0;; dup0;;
      mret 0.

(** [pidfile] is the array that holds the name. *)
Definition create_pid_file (pidfile : list Z) : PM Z :=
  name ← pure (cstr pidfile);
  if may_write name then
    p ← get pid;
    set (λ w, w <| files := <[name := dec p ++ [10]]> (files w) |>);;
    log log_info (chars "Created PID file: " ++ name);; mret 0
  else
    log log_error (chars "Failed to create PID file " ++ name ++ chars ": " ++ strerror);; mret (-1).

Definition remove_pid_file (pidfile : list Z) : PM Z :=
  name ← pure (cstr pidfile);
  fs ← get files;
  if may_unlink name && bool_decide (is_Some (fs !! name)) then
    set (λ w, w <| files := delete name (files w) |>);;
    log log_info (chars "Removed PID file: " ++ name);; mret 0
  else
    log log_error (chars "Failed to remove PID file " ++ name ++ chars ": " ++ strerror);; mret (-1).

Definition is_running : PM bool := get running.
Definition stop_running : PM unit := set (λ w, w <| running := false |>).

(** ** Weakest preconditions

    [wp m Q X w]: a run of [m] from [w] that returns ends in [Q], one that stops
    in [X]. *)

Definition wp {A} (m : PM A) (Q : A → world F → Prop) (X : stop F → Prop) w : Prop :=
  match m w with Ret a w' => Q a w' | Stop e => X e end.

Lemma pwp_ret {A} (a : A) (Q : A → world F → Prop) X w : Q a w → wp (mret a) Q X w.
Proof. done. Qed.

Lemma pwp_bind {A B} (m : PM A) (k : A → PM B) Q X w :
  wp m (λ a, wp (k a) Q X) X w → wp (m ≫= k) Q X w.
Proof. unfold wp, mbind, PM_bind. by destruct (m w). Qed.

Lemma pwp_mono {A} (m : PM A) (Q Q' : A → world F → Prop) (X X' : stop F → Prop) w :
  wp m Q X w → (∀ a w', Q a w' → Q' a w') → (∀ e, X e → X' e) → wp m Q' X' w.
Proof. unfold wp. destruct (m w); auto. Qed.

Lemma wp_and {A} (m : PM A) (Q Q' : A → world F → Prop) (X X' : stop F → Prop) w :
  wp m Q X w → wp m Q' X' w → wp m (λ a w', Q a w' ∧ Q' a w') (λ e, X e ∧ X' e) w.
Proof. unfold wp. destruct (m w); auto. Qed.

Lemma wp_cases {A} (m : PM A) (Q : A → world F → Prop) X w :
  wp m Q X w → (∃ a w', m w = Ret a w' ∧ Q a w') ∨ (∃ e, m w = Stop e ∧ X e).
Proof. unfold wp. destruct (m w); eauto. Qed.

(** Two continuations that agree on what the first step can return. *)
Lemma wp_bind_ext {A B} (m : PM A) (k k' : A → PM B) Q X w :
  wp m Q X w → (∀ a w', Q a w' → k a w' = k' a w') → (m ≫= k) w = (m ≫= k') w.
Proof. unfold wp, mbind, PM_bind. destruct (m w); auto. Qed.

Lemma wp_get {A} (f : world F → A) (Q : A → world F → Prop) X w : Q (f w) w → wp (get f) Q X w.
Proof. done. Qed.

Lemma wp_set (f : world F → world F) (Q : unit → world F → Prop) X w : Q tt (f w) → wp (set f) Q X w.
Proof. done. Qed.

Lemma wp_pure {A} (o : outcome A) a (Q : A → world F → Prop) X w :
  o = Ok a → Q a w → wp (pure o) Q X w.
Proof. by intros ->. Qed.

(** A log call changes nothing but the lines written. *)
Definition logs (call : list Z → logging_config_t → list Z → outcome (list line)) : Prop :=
  ∀ ts c text, logging_wf c → ∃ l, call ts c text = Ok l.

Lemma log_error_logs : logs log_error.
Proof. intros ts c text Hc. unfold log_error. rewrite log_message_wf by done. eauto. Qed.
Lemma log_info_logs : logs log_info.
Proof. intros ts c text Hc. unfold log_info. rewrite log_message_wf by done. eauto. Qed.
Lemma log_debug_logs : logs log_debug.
Proof.
  intros ts c text Hc. unfold log_debug. destruct (debug_enabled c); [|eauto].
  rewrite log_message_wf by done. eauto.
Qed.

Lemma wp_log call text (Q : unit → world F → Prop) X w :
  logs call → logging_wf (logcfg w) → (∀ o, Q tt (w <| out := o |>)) → wp (log call text) Q X w.
Proof.
  intros Hc Hw HQ. unfold wp, log. destruct (Hc (timestamp (length (out w))) _ text Hw) as [l ->].
  apply HQ.
Qed.

(** *** The operations of the daemon *)

Lemma wp_install_signal_handlers (Q : Z → world F → Prop) X w :
  logging_wf (logcfg w) → (∀ r o, r = 0 ∨ r = -1 → Q r (w <| out := o |>)) →
  wp install_signal_handlers Q X w.
Proof.
  intros Hw HQ. unfold install_signal_handlers. do 2 (destruct (_ =? -1);
    [apply pwp_bind, wp_log; [auto using log_error_logs|done|]; intros o; apply pwp_ret, HQ; by right|]).
  apply pwp_ret. specialize (HQ 0 (out w)). destruct w. auto.
Qed.

Lemma wp_create_pid_file pidfile name (Q : Z → world F → Prop) X w :
  logging_wf (logcfg w) → cstr pidfile = Ok name →
  (∀ o, Q 0 (w <| files := <[name := dec (pid w) ++ [10]]> (files w) |> <| out := o |>)) →
  (∀ o, Q (-1) (w <| out := o |>)) →
  wp (create_pid_file pidfile) Q X w.
Proof.
  intros Hw Hn H0 H1. unfold create_pid_file. apply pwp_bind. eapply wp_pure; [done|].
  destruct (may_write name).
  - apply pwp_bind, wp_get, pwp_bind, wp_set, pwp_bind, wp_log; [auto using log_info_logs|done|].
    intros o. apply pwp_ret, H0.
  - apply pwp_bind, wp_log; [auto using log_error_logs|done|]. intros o. apply pwp_ret, H1.
Qed.

Lemma wp_remove_pid_file pidfile name (Q : Z → world F → Prop) X w :
  logging_wf (logcfg w) → cstr pidfile = Ok name →
  (∀ r o, Q r (w <| files := if may_unlink name then delete name (files w) else files w |>
                 <| out := o |>)) →
  wp (remove_pid_file pidfile) Q X w.
Proof.
  intros Hw Hn HQ. unfold remove_pid_file. apply pwp_bind. eapply wp_pure; [done|].
  apply pwp_bind, wp_get. destruct (may_unlink name) eqn:E; cbn [andb].
  - case_bool_decide as Hs.
    + apply pwp_bind, wp_set, pwp_bind, wp_log; [auto using log_info_logs|done|].
      intros o. apply pwp_ret, HQ.
    + apply pwp_bind, wp_log; [auto using log_error_logs|done|]. intros o. apply pwp_ret.
      specialize (HQ (-1) o). rewrite delete_id in HQ; [by destruct w|].
      by rewrite eq_None_not_Some.
  - apply pwp_bind, wp_log; [auto using log_error_logs|done|]. intros o. apply pwp_ret.
    specialize (HQ (-1) o). by destruct w.
Qed.

Lemma wp_daemonize (Q : Z → world F → Prop) X w :
  logging_wf (logcfg w) →
  (∀ p o, Q (-1) (w <| pid := p |> <| out := o |>)) →
  (0 < fork_ret → X (Exit EXIT_SUCCESS w)) →
  (∀ m, Q 0 (w <| pid := child_pid |> <| fds := m |>)) →
  wp daemonize Q X w.
Proof.
  intros Hw H1 HX H0. unfold daemonize. destruct (Z.ltb_spec fork_ret 0).
  { apply pwp_bind, wp_log; [auto using log_error_logs|done|]. intros o. apply pwp_ret.
    specialize (H1 (pid w) o). by destruct w. }
  destruct (Z.ltb_spec 0 fork_ret); [by apply HX|].
  apply pwp_bind, wp_set. destruct (setsid_ret <? 0).
  { apply pwp_bind, wp_log; [auto using log_error_logs|done|]. intros o. apply pwp_ret, H1. }
  unfold dup0. repeat (apply pwp_bind, wp_set). apply pwp_ret.
  repeat case_match; apply H0.
Qed.
End daemon.

#[export] Hint Resolve log_error_logs log_info_logs log_debug_logs : clog.

(** ** A process at its start, and a system that refuses nothing *)

Definition heap_empty : heap := mkHeap ∅ 0 (λ _, false) (λ _ _, 0).

Lemma heap_empty_wf : heap_wf heap_empty.
Proof. intros b [? H]. cbn in H. by rewrite lookup_empty in H. Qed.

Definition boot {F} (p : Z) (f : F) : world F :=
  mkWorld logging_config [] true p ∅ {[0%nat := chars "tty"; 1%nat := chars "tty"; 2%nat := chars "tty"]}
    f nf_context_zero None [] [] heap_empty (mkStats 0 0 0) [] [] (chars "/root") 18.

Definition willing_os : Os := {|
  timestamp := λ _, chars "2025-01-01 00:00:00";
  strerror := chars "error";
  sigaction_ret := λ _, 0;
  fork_ret := 0;
  child_pid := 4712;
  setsid_ret := 4712;
  may_write := λ _, true;
  may_unlink := λ _, true;
  fopen_append := λ _, Some 3%nat
|}.
