(* ===== verification/DaemonC.v ===== *)
(** * src/service/daemon.c

    The larger version of the daemon's functions, which the build leaves out in
    favour of daemon_funcs.c (Daemon).  It runs on the same process state; what
    more it asks the system is the class [Os2].  Reading a descriptor number from
    [sysconf] and closing up to it is a recursion on that number. *)

From stdpp Require Import pretty.
From S2P Require Import Prelude CString Types RawSocket Netfilter Callback Config Logging Daemon.

(** What the functions ask beyond [Os]: the second fork and its child, whether
    the root can be entered, /dev/null opened and a file read, the process
    numbers in use, and [sysconf(_SC_OPEN_MAX)]. *)
Class Os2 := {
  fork2_ret : Z;
  grandchild_pid : Z;
  chdir_ret : Z;
  open_max : Z;
  null_opens : bool;
  may_read : list Z → bool;
  kill_ret : Z → Z          (* [kill(pid, 0)] *)
}.

Definition SIGHUP : Z := 1.
Definition SIGUSR1 : Z := 10.

Section daemon.
Context {F : Type} `{OS : !Os, OS2 : !Os2}.
Notation PM := (PM F).
Implicit Types (w : world F).

Definition signal_handler (sig : Z) : PM unit :=
  if sig =? SIGINT then
    log log_info (chars "Received SIGINT, shutting down gracefully");;
    set (λ w, w <| running := false |>)
  else if sig =? SIGTERM then
    log log_info (chars "Received SIGTERM, shutting down gracefully");;
    set (λ w, w <| running := false |>)
  else if sig =? SIGHUP then
    log log_info (chars "Received SIGHUP, reloading configuration")
  else if sig =? SIGUSR1 then
    log log_info (chars "Received SIGUSR1, toggling debug mode");;
    set (λ w, w <| logcfg := logging_set_debug (negb (debug_enabled (logcfg w))) (logcfg w) |>)
  else log log_info (chars "Received signal " ++ dec sig).

(** The calls of [sigaction] in their order; SIGPIPE is then ignored. *)
Fixpoint install_each (sigs : list (Z * string)) : PM Z :=
  match sigs with
  | [] => log log_info (chars "Signal handlers installed");; mret 0
  | (sig, name) :: sigs =>
      if sigaction_ret sig =? -1 then
        log log_error (chars "Failed to install " ++ chars name ++ chars " handler: " ++ strerror);; mret (-1)
      else install_each sigs
  end.

Definition install_signal_handlers : PM Z :=
  install_each [(SIGINT, "SIGINT"); (SIGTERM, "SIGTERM"); (SIGHUP, "SIGHUP"); (SIGUSR1, "SIGUSR1")]%string.

(** [close] of [n - 1], ..., 0. *)
Fixpoint close_below (n : nat) : PM unit :=
  match n with O => mret tt | S n => close_fd n;; close_below n end.

Definition dup2 (oldfd newfd : nat) : PM unit := set (λ w,
  match fds w !! oldfd with
  | Some f => w <| fds := <[newfd := f]> (fds w) |>
  | None => w
  end).

(** The descriptor is the lowest free one. *)
Definition reopen_std : PM unit :=
  if null_opens then
    fd ← get (λ w, new_fd (fds w));
    open_null;;
    dup2 fd 0;; dup2 fd 1;; dup2 fd 2;;
    if (2 <? fd)%nat then close_fd fd else mret tt
  else mret tt.

(** A log call when the descriptors of the log are closed: only syslog, which
    connects again, still gets its lines. *)
Definition log_detached (call : list Z → logging_config_t → list Z → outcome (list line)) (text : list Z)
    : PM unit := λ w,
  match call (timestamp (length (out w))) (logcfg w) text with
  | Ok l => Ret tt (w <| out := out w ++ List.filter (λ x : line, match x.1 with Syslog _ => true | _ => false end) l |>)
  | UB u => Stop (Fault u)
  end.

Definition daemonize : PM Z :=
  if fork_ret <? 0 then log log_error (chars "First fork failed: " ++ strerror);; mret (-1)
  else if 0 <? fork_ret then exit EXIT_SUCCESS else
  set (λ w, w <| pid := child_pid |>);;
  if setsid_ret <? 0 then log log_error (chars "Failed to create new session: " ++ strerror);; mret (-1) else
  if fork2_ret <? 0 then log log_error (chars "Second fork failed: " ++ strerror);; mret (-1)
  else if 0 <? fork2_ret then exit EXIT_SUCCESS else
  set (λ w, w <| pid := grandchild_pid |>);;
  if chdir_ret <? 0 then log log_error (chars "Failed to change directory to /: " ++ strerror);; mret (-1) else
  set (λ w, w <| cwd := chars "/" |> <| umask := 0 |>);;
  close_below (Z.to_nat (open_max + 1));;
  reopen_std;;
  log_detached log_info (chars "Process daemonized successfully");;
  mret 0.

(** [fscanf(fp, "%d", &existing_pid)] on the contents of the file: [None] if no
    number is there. *)
Definition scan_int (s : list Z) : option Z :=
  let '(v, rest, _) := strtol s in
  if bool_decide (length rest < length s)%nat then Some (sint 32 v) else None.

(** The number of a running process in the file, if there is one. *)
Definition running_pid w (name : list Z) : option Z :=
  s ← files w !! name;
  if may_read name then
    existing ← scan_int s;
    if kill_ret existing =? 0 then Some existing else None
  else None.

Definition create_pid_file (pidfile : option (list Z)) : PM Z :=
  match pidfile with
  | None => mret (-1)
  | Some f =>
      name ← pure (cstr f);
      existing ← get (λ w, running_pid w name);
      match existing with
      | Some existing =>
          log log_error (chars "GoodbyeDPI is already running with PID " ++ dec existing);; mret (-1)
      | None =>
          if may_write name then
            p ← get pid;
            set (λ w, w <| files := <[name := dec p ++ [10]]> (files w) |>);;
            log log_info (chars "Created PID file " ++ name ++ chars " with PID " ++ dec p);; mret 0
          else
            log log_error (chars "Cannot create PID file " ++ name ++ chars ": " ++ strerror);; mret (-1)
      end
  end.

Definition remove_pid_file (pidfile : option (list Z)) : PM Z :=
  match pidfile with
  | None => mret (-1)
  | Some f =>
      name ← pure (cstr f);
      fs ← get files;
      if may_unlink name && bool_decide (is_Some (fs !! name)) then
        set (λ w, w <| files := delete name (files w) |>);;
        log log_info (chars "Removed PID file " ++ name);; mret 0
      else
        log log_error (chars "Failed to remove PID file " ++ name ++ chars ": " ++ strerror);; mret (-1)
  end.

Definition is_running : PM bool := get running.
Definition stop_running : PM unit := set (λ w, w <| running := false |>).
End daemon.

(** ** Reading back a process number *)

Lemma chars_digit d s : (d < 10)%N → chars (String (pretty_N_char d) s) = (48 + Z.of_N d) :: chars s.
Proof.
  intros Hd. assert (d ∈ N.of_nat <$> seq 0 10) as Hin.
  { apply list_elem_of_fmap. exists (N.to_nat d). split; [lia|apply elem_of_seq; lia]. }
  clear Hd. cbn [seq fmap list_fmap] in Hin. repeat (apply elem_of_cons in Hin as [->|Hin]; [reflexivity|]).
  by apply not_elem_of_nil in Hin.
Qed.

Lemma pretty_digits x s rest :
  ∃ ds, chars (pretty_N_go x s) = ds ++ chars s ∧ Forall (λ c, isdigit c = true) ds ∧
    digits 0 (ds ++ rest) = digits (Z.of_N x) rest ∧ ((0 < x)%N → ds ≠ []).
Proof.
  revert s rest. induction (N.lt_wf_0 x) as [x _ IH]. intros s rest. destruct (decide (0 < x)%N) as [Hx|Hx].
  - rewrite pretty_N_go_step by done.
    assert (x mod 10 < 10)%N as Hm by (by apply N.mod_lt).
    destruct (IH (x / 10)%N (N.div_lt x 10 Hx eq_refl) (String (pretty_N_char (x mod 10)) s)
                ((48 + Z.of_N (x mod 10)) :: rest)) as (ds & E & Hd & Hv & _).
    exists (ds ++ [48 + Z.of_N (x mod 10)]). rewrite E, chars_digit, <- !app_assoc by done. split; [done|].
    assert (isdigit (48 + Z.of_N (x mod 10)) = true) as Hdig.
    { clear - Hm. revert Hm. generalize (x mod 10)%N. intros d Hm. unfold isdigit. rewrite andb_true_iff, !Z.leb_le. lia. }
    split_and!; [by apply Forall_app; split; [|apply Forall_singleton]| |by destruct ds].
    cbn [app]. rewrite Hv. cbn [digits]. rewrite Hdig. f_equal.
    pose proof (N.div_mod x 10). lia.
  - exists []. assert (x = 0%N) as -> by lia. by rewrite pretty_N_go_0.
Qed.

Lemma scan_int_dec p : 0 < p < 2 ^ 31 → scan_int (dec p ++ [10]) = Some p.
Proof.
  intros Hp. destruct p as [|q|q]; try lia.
  assert (dec (Z.pos q) = chars (pretty_N_go (N.pos q) "")) as -> by done.
  destruct (pretty_digits (N.pos q) "" [10]) as (ds & -> & Hd & Hv & Hne).
  specialize (Hne eq_refl). change (chars "") with (@nil Z). rewrite app_nil_r.
  destruct ds as [|c ds]; [done|]. apply Forall_cons in Hd as [Hc _].
  assert (isspace c = false ∧ (c =? 45) = false ∧ (c =? 43) = false) as (Hs & H45 & H43).
  { unfold isdigit in Hc. apply andb_true_iff in Hc as [?%Z.leb_le ?%Z.leb_le].
    unfold isspace. split_and!; repeat zcases; done. }
  assert (strtol ((c :: ds) ++ [10]) = (Z.pos q, [10], false)) as E.
  { unfold strtol. cbn [skip_spaces app]. rewrite Hs, H45, H43, Hc. change (c :: ds ++ [10]) with ((c :: ds) ++ [10]).
    rewrite Hv. cbn [digits isdigit]. change (isdigit 10) with false. cbv iota.
    change (Z.of_N (N.pos q)) with (Z.pos q). unfold LONG_MAX, LONG_MIN.
    by rewrite (proj2 (Z.ltb_ge _ _)), (proj2 (Z.ltb_ge _ _)) by lia. }
  unfold scan_int. rewrite E. rewrite bool_decide_eq_true_2 by (cbn; rewrite length_app; cbn; lia).
  f_equal. unfold sint, wrap. rewrite Z.mod_small by lia. repeat zcases; done.
Qed.

(** ** The promises *)

Section promises.
Context {F : Type} `{OS : !Os, OS2 : !Os2}.
Implicit Types (w : world F).

Lemma wp_close_below n (Q : unit → world F → Prop) X w :
  (∀ m, (∀ fd, m !! fd = if decide (fd < n)%nat then None else fds w !! fd) → Q tt (w <| fds := m |>)) →
  wp (close_below n) Q X w.
Proof.
  revert w. induction n as [|n IH]; intros w HQ; cbn [close_below].
  - apply pwp_ret. specialize (HQ (fds w) (λ _, eq_refl)). by destruct w.
  - apply pwp_bind, wp_set, IH. intros m Hm. apply HQ. intros fd. rewrite Hm. cbn.
    destruct (decide (fd = n)) as [->|Hne].
    + rewrite lookup_delete_eq. by repeat case_decide; try lia.
    + rewrite lookup_delete_ne by done. repeat case_decide; try done; lia.
Qed.

(** The standard descriptors on /dev/null, and nothing else. *)
Definition std_null : gmap nat (list Z) := {[0%nat := dev_null; 1%nat := dev_null; 2%nat := dev_null]}.

Lemma wp_reopen_std (Q : unit → world F → Prop) X w :
  fds w = ∅ → Q tt (w <| fds := if null_opens then std_null else ∅ |>) → wp reopen_std Q X w.
Proof.
  intros Hw HQ. unfold reopen_std. destruct null_opens; [|apply pwp_ret; rewrite <- Hw in HQ; by destruct w].
  apply pwp_bind, wp_get. rewrite Hw. change (new_fd ∅) with 0%nat.
  unfold dup2, open_null. do 4 apply pwp_bind, wp_set. cbn [Nat.ltb Nat.leb]. apply pwp_ret.
  assert ((w <| fds := <[new_fd (fds w) := dev_null]> (fds w) |>) = w <| fds := <[0%nat := dev_null]> ∅ |>) as -> by by rewrite Hw.
  cbn [fds upd]. rewrite lookup_insert_eq. cbn [fds upd]. rewrite insert_insert_eq, lookup_insert_eq. cbn [fds upd].
  rewrite lookup_insert_ne, lookup_insert_eq by done.
  replace (<[2%nat:=_]> _) with std_null; [exact HQ|]. vm_compute. reflexivity.
Qed.

(** [daemonize] of daemon.c, when it returns 0, has left a process two forks down the line, in the root directory, with an empty creation mask, with every descriptor it had closed, and with the standard ones on /dev/null if that could be opened.  When it returns -1 the descriptors, the directory and the mask are as before; and whatever happens in the first two processes, they exit successfully without having touched them. *)
Theorem daemonize_detaches w :
  logging_wf (logcfg w) → (∀ fd, is_Some (fds w !! fd) → Z.of_nat fd ≤ open_max) →
  wp daemonize
     (λ r w', files w' = files w ∧ running w' = running w ∧ logcfg w' = logcfg w ∧
        (r = 0 ∧ pid w' = grandchild_pid ∧ cwd w' = chars "/" ∧ umask w' = 0 ∧
         fds w' = (if null_opens then std_null else ∅) ∨
         r = -1 ∧ pid w' ∈ [pid w; child_pid; grandchild_pid] ∧ cwd w' = cwd w ∧ umask w' = umask w ∧ fds w' = fds w))
     (λ e, ∃ p, e = Exit EXIT_SUCCESS (w <| pid := p |>) ∧
        (p = pid w ∧ 0 < fork_ret ∨ p = child_pid ∧ 0 < fork2_ret)) w.
Proof.
  intros Hw Hfd. unfold daemonize. match goal with |- wp _ ?Q ?X _ => set (P := Q); set (X0 := X) end.
  assert (∀ text p, p ∈ [pid w; child_pid; grandchild_pid] →
    wp (log log_error text;; mret (-1)) P X0 (w <| pid := p |>)) as Hfail.
  { intros text p Hp. apply pwp_bind, wp_log; [auto with clog|done|]. intros o. apply pwp_ret.
    split_and!; [done..|]. right. by split_and!. }
  assert (w = w <| pid := pid w |>) as Ew by by destruct w.
  destruct (Z.ltb_spec fork_ret 0); [rewrite Ew; apply Hfail; set_solver|].
  destruct (Z.ltb_spec 0 fork_ret); [exists (pid w); rewrite <- Ew; auto|].
  apply pwp_bind, wp_set. destruct (setsid_ret <? 0); [apply Hfail; set_solver|].
  destruct (Z.ltb_spec fork2_ret 0); [apply Hfail; set_solver|].
  destruct (Z.ltb_spec 0 fork2_ret); [exists child_pid; auto|].
  apply pwp_bind, wp_set. destruct (chdir_ret <? 0); [apply (Hfail _ grandchild_pid); set_solver|].
  apply pwp_bind, wp_set, pwp_bind, wp_close_below. intros m Hm.
  assert (m = ∅) as ->.
  { apply map_eq. intros fd. rewrite Hm, lookup_empty. case_decide as Hlt; [done|].
    apply eq_None_not_Some. intros Hs. apply Hfd in Hs. lia. }
  apply pwp_bind, wp_reopen_std; [done|]. apply pwp_bind. unfold wp at 1, log_detached.
  destruct (log_info_logs (timestamp (length (out w))) (logcfg w) (chars "Process daemonized successfully") Hw) as [l E].
  cbn [out logcfg upd]. rewrite E. apply pwp_ret. split_and!; [done..|]. left. by split_and!.
Qed.

(** C33: [create_pid_file] of daemon.c never takes the PID file of a running process: if the file names one, the call fails and leaves it.  Otherwise, if the file can be written, it holds the own number afterwards, and from then on, as long as this process runs and its file can be read, every further call, by whichever process, fails and leaves the file. *)
Theorem create_pid_file_excludes pidfile name w :
  logging_wf (logcfg w) → cstr pidfile = Ok name → 0 < pid w < 2 ^ 31 →
  match running_pid w name with
  | Some _ => ∃ o, create_pid_file (Some pidfile) w = Ret (-1) (w <| out := o |>)
  | None =>
      if may_write name then
        ∃ w1, create_pid_file (Some pidfile) w = Ret 0 w1 ∧
          files w1 = <[name := dec (pid w) ++ [10]]> (files w) ∧
          (may_read name = true → kill_ret (pid w) = 0 → ∀ w2, logging_wf (logcfg w2) → files w2 = files w1 →
             ∃ o, create_pid_file (Some pidfile) w2 = Ret (-1) (w2 <| out := o |>))
      else ∃ o, create_pid_file (Some pidfile) w = Ret (-1) (w <| out := o |>)
  end.
Proof.
  intros Hw Hn Hp.
  assert (∀ w pid', logging_wf (logcfg w) → running_pid w name = Some pid' →
    ∃ o, create_pid_file (Some pidfile) w = Ret (-1) (w <| out := o |>)) as Hrefuse.
  { intros w0 p Hw0 E. unfold create_pid_file. rewrite Hn.
    unfold mbind, PM_bind, get, pure, log. rewrite E.
    destruct (log_error_logs (timestamp (length (out w0))) (logcfg w0)
      (chars "GoodbyeDPI is already running with PID " ++ dec p) Hw0) as [l ->]. by eexists. }
  destruct (running_pid w name) as [p|] eqn:Er; [by eapply Hrefuse|].
  unfold create_pid_file at 1 3. rewrite Hn. unfold mbind, PM_bind, get, pure, log, set. rewrite Er.
  destruct (may_write name).
  - set (w0 := w <| files := _ |>).
    destruct (log_info_logs (timestamp (length (out w0))) (logcfg w0)
      (chars "Created PID file " ++ name ++ chars " with PID " ++ dec (pid w)) Hw) as [l ->].
    eexists. split; [reflexivity|]. split; [done|]. intros Hread Hkill w2 Hw2 Hf. apply (Hrefuse w2 (pid w) Hw2).
    unfold running_pid. rewrite Hf. cbn [files upd w0]. unfold w0. cbn [files upd]. rewrite lookup_insert_eq. cbn [mbind option_bind].
    rewrite Hread, scan_int_dec by done. cbn [mbind option_bind]. by rewrite Hkill.
  - destruct (log_error_logs (timestamp (length (out w))) (logcfg w)
      (chars "Cannot create PID file " ++ name ++ chars ": " ++ strerror) Hw) as [l ->]. by eexists.
Qed.
End promises.

(** ** Runs *)

Section runs.
#[local] Existing Instance willing_os.

(** A system that refuses nothing; the only other process is 4711. *)
#[local] Instance willing_os2 : Os2 := {|
  fork2_ret := 0;
  grandchild_pid := 4713;
  chdir_ret := 0;
  open_max := 63;
  null_opens := true;
  may_read := λ _, true;
  kill_ret := λ p, if p =? 4711 then 0 else -1
|}.

Lemma boot_fds fd : is_Some (fds (boot 4711 tt) !! fd) → Z.of_nat fd ≤ open_max.
Proof.
  destruct fd as [|[|[|fd]]]; [intros _; discriminate..|]. unfold boot. cbn [fds].
  rewrite 2!lookup_insert_ne, lookup_singleton_ne by discriminate. by intros ?%is_Some_None.
Qed.

Lemma daemonize_detaches_witness :
  ∃ w', daemonize (boot 4711 tt) = Ret 0 w' ∧ pid w' = 4713 ∧ fds w' = std_null.
Proof.
  pose proof (daemonize_detaches (boot 4711 tt) logging_config_wf boot_fds) as H.
  assert (wp (daemonize (F := unit)) (λ r _, r = 0) (λ _, False) (boot 4711 tt)) as Hv by (vm_compute; reflexivity).
  destruct (wp_cases _ _ _ _ (wp_and _ _ _ _ _ _ H Hv)) as [(r & w' & E & (_ & _ & _ & Hres) & ->)|(e & _ & _ & [])].
  exists w'. split; [exact E|]. destruct Hres as [(_ & Hp & _ & _ & Hf)|[Hr _]]; [|discriminate Hr].
  split; [exact Hp|exact Hf].
Defined.

(** The file of a process that is gone is taken over; then a second daemon is
    refused. *)
Lemma create_pid_file_excludes_witness :
  let name := chars "/run/g.pid" in
  let w := (boot 4711 tt) <| files := {[name := chars "99999"]} |> in
  ∃ w1 o, create_pid_file (Some (lit "/run/g.pid")) w = Ret 0 w1 ∧
    create_pid_file (Some (lit "/run/g.pid")) (w1 <| pid := 5000 |>) = Ret (-1) (w1 <| pid := 5000 |> <| out := o |>).
Proof.
  intros name w.
  pose proof (create_pid_file_excludes (lit "/run/g.pid") name w logging_config_wf eq_refl
    (conj eq_refl eq_refl)) as H.
  assert (running_pid w name = None) as Er by (vm_compute; reflexivity). rewrite Er in H.
  cbn [may_write willing_os] in H. destruct H as (w1 & E1 & Hf & Hnext).
  destruct (Hnext eq_refl eq_refl (w1 <| pid := 5000 |>)) as [o E2].
  - assert (wp (create_pid_file (Some (lit "/run/g.pid"))) (λ _ w', logcfg w' = logging_config) (λ _, False) w) as Hl
      by (vm_compute; reflexivity). unfold wp in Hl. rewrite E1 in Hl. cbn [logcfg upd]. rewrite Hl. apply logging_config_wf.
  - reflexivity.
  - exists w1, o. split; [exact E1|exact E2].
Defined.

(** SIGUSR1 toggles debug output and the program goes on. *)
Example signal_toggles_debug :
  match signal_handler SIGUSR1 (boot 4711 tt) with
  | Ret _ w' => debug_enabled (logcfg w') = true ∧ running w' = true
  | _ => False
  end.
Proof. vm_compute. by split. Qed.
End runs.
