(* ===== verification/Firewall.v ===== *)
(** * src/main.c: the firewall rules

    [system] and the packet filter its commands act on are the class
    [PacketFilter]; what iptables documents about them is [PacketFilterLaws]. *)

From stdpp Require Import pretty.
From S2P Require Import Prelude CString Types Config Logging Daemon.

(** ** The packet filter *)

Class PacketFilter (F : Type) := {
  system : string → F → Z * F;             (* the wait status, -1 on failure *)
  rules : F → string → list string         (* the rules of a chain, first match first *)
}.

Definition insert_cmd (chain rule : string) : string := "iptables -I " +:+ chain +:+ " " +:+ rule.
Definition delete_cmd (chain rule : string) : string :=
  "iptables -D " +:+ chain +:+ " " +:+ rule +:+ " 2>/dev/null".

(** The rules of the program. *)
Definition http_out : string := "-p tcp --dport 80 -j NFQUEUE --queue-num 0".
Definition https_out : string := "-p tcp --dport 443 -j NFQUEUE --queue-num 0".
Definition http_in : string := "-p tcp --sport 80 -j NFQUEUE --queue-num 0".
Definition https_in : string := "-p tcp --sport 443 -j NFQUEUE --queue-num 0".
Definition our_rules (chain : string) : list string :=
  if bool_decide (chain = "OUTPUT") then [http_out; https_out]
  else if bool_decide (chain = "INPUT") then [http_in; https_in] else [].

Definition WIFEXITED (status : Z) : bool := Z.land status 127 =? 0.
Definition WEXITSTATUS (status : Z) : Z := Z.land (Z.shiftr status 8) 255.

(** [execute_command] reports success. *)
Definition succeeded (status : Z) : bool :=
  negb (status =? -1) && negb (WIFEXITED status && negb (WEXITSTATUS status =? 0)).

Fixpoint remove_first (r : string) (l : list string) : list string :=
  match l with
  | [] => []
  | x :: l => if bool_decide (x = r) then l else x :: remove_first r l
  end.

(** system(3) and iptables(8): the command exits with a status, or it could not be
    run, which gives -1; no signal kills it.  [-I] exits with 0 and has put the
    rule first, or fails and changes nothing; [-D] exits with 0 and has removed
    the first rule that matches, or fails, be it for want of such a rule, of
    privileges or of the lock, and changes nothing. *)
Class PacketFilterLaws (F : Type) `{PF : PacketFilter F} := {
  system_exits : ∀ cmd f,
    (system cmd f).1 = -1 ∨ ∃ n, 0 ≤ n < 256 ∧ (system cmd f).1 = 256 * n;
  system_insert : ∀ chain r f, r ∈ our_rules chain →
    ∀ c, rules (system (insert_cmd chain r) f).2 c =
         (if bool_decide (c = chain) && ((system (insert_cmd chain r) f).1 =? 0)
          then r :: rules f c else rules f c);
  system_delete : ∀ chain r f, r ∈ our_rules chain →
    ∀ c, rules (system (delete_cmd chain r) f).2 c =
         (if bool_decide (c = chain) && ((system (delete_cmd chain r) f).1 =? 0)
          then remove_first r (rules f c) else rules f c)
}.

(** ** Commands of the program *)

Section commands.
Context {F : Type} `{!PacketFilter F} `{OS : !Os}.
Notation PM := (PM F).
Implicit Types (w : world F).

Definition run_system (cmd : string) : PM Z := λ w,
  let '(status, f) := system cmd (filter w) in Ret status (w <| filter := f |>).

Definition execute_command (cmd : string) : PM Z :=
  ret ← run_system cmd;
  if ret =? -1 then
    log log_error (chars "Failed to execute: " ++ chars cmd ++ chars ": " ++ strerror);; mret (-1)
  else if WIFEXITED ret && negb (WEXITSTATUS ret =? 0) then
    log log_debug (chars "Command exited with status " ++ dec (WEXITSTATUS ret) ++ chars ": " ++
                   chars cmd);; mret (-1)
  else mret 0.

Definition cleanup_firewall_rules : PM Z :=
  log log_info (chars "Cleaning up firewall rules");;
  run_system "iptables -D OUTPUT -p tcp --dport 80 -j NFQUEUE --queue-num 0 2>/dev/null";;
  run_system "iptables -D OUTPUT -p tcp --dport 443 -j NFQUEUE --queue-num 0 2>/dev/null";;
  run_system "iptables -D INPUT -p tcp --sport 80 -j NFQUEUE --queue-num 0 2>/dev/null";;
  run_system "iptables -D INPUT -p tcp --sport 443 -j NFQUEUE --queue-num 0 2>/dev/null";;
  log log_info (chars "Firewall rules cleaned up");;
  mret 0.

Definition setup_firewall_rules : PM Z :=
  log log_info (chars "Setting up firewall rules");;
  run_system "iptables -D OUTPUT -p tcp --dport 80 -j NFQUEUE --queue-num 0 2>/dev/null";;
  run_system "iptables -D OUTPUT -p tcp --dport 443 -j NFQUEUE --queue-num 0 2>/dev/null";;
  run_system "iptables -D INPUT -p tcp --sport 80 -j NFQUEUE --queue-num 0 2>/dev/null";;
  run_system "iptables -D INPUT -p tcp --sport 443 -j NFQUEUE --queue-num 0 2>/dev/null";;
  r ← execute_command "iptables -I OUTPUT -p tcp --dport 80 -j NFQUEUE --queue-num 0";
  if r <? 0 then
    log log_error (chars "Failed to add OUTPUT HTTP rule");;
    log log_error (chars "Make sure iptables is installed and you have root privileges");;
    mret (-1)
  else
  r ← execute_command "iptables -I OUTPUT -p tcp --dport 443 -j NFQUEUE --queue-num 0";
  if r <? 0 then
    log log_error (chars "Failed to add OUTPUT HTTPS rule");; cleanup_firewall_rules;; mret (-1)
  else
  r ← execute_command "iptables -I INPUT -p tcp --sport 80 -j NFQUEUE --queue-num 0";
  if r <? 0 then
    log log_error (chars "Failed to add INPUT HTTP rule");; cleanup_firewall_rules;; mret (-1)
  else
  r ← execute_command "iptables -I INPUT -p tcp --sport 443 -j NFQUEUE --queue-num 0";
  if r <? 0 then
    log log_error (chars "Failed to add INPUT HTTPS rule");; cleanup_firewall_rules;; mret (-1)
  else
  log log_info (chars "Firewall rules configured successfully");;
  log log_info (chars "  - OUTPUT: tcp dport 80,443 -> NFQUEUE:0");;
  log log_info (chars "  - INPUT:  tcp sport 80,443 -> NFQUEUE:0");;
  mret 0.
End commands.

(** ** The rules of the program in the packet filter *)

(** At most one occurrence. *)
Definition once (r : string) (l : list string) : Prop := r ∉ remove_first r l.

(** A chain without the program's rules. *)
Definition clean (chain : string) (l : list string) : list string :=
  base.filter (λ r, r ∉ our_rules chain) l.

Lemma remove_first_id r l : r ∉ l → remove_first r l = l.
Proof.
  induction l as [|x l IH]; [done|]. intros [Hx Hl]%not_elem_of_cons. cbn.
  rewrite bool_decide_eq_false_2 by done. by rewrite IH.
Qed.

Lemma remove_first_subseteq x r l : x ∈ remove_first r l → x ∈ l.
Proof.
  induction l as [|y l IH]; cbn; [done|]. case_bool_decide; [by right|].
  intros [->|Hx]%elem_of_cons; [left|right; auto].
Qed.

Lemma remove_first_comm x r l : remove_first r (remove_first x l) = remove_first x (remove_first r l).
Proof.
  induction l as [|y l IH]; [done|]. cbn [remove_first].
  repeat (case_bool_decide; cbn [remove_first]); congruence.
Qed.

Lemma once_remove_first x r l : once r l → once r (remove_first x l).
Proof. unfold once. rewrite remove_first_comm. intros H Hx%remove_first_subseteq. done. Qed.

Lemma once_absent r l : r ∉ l → once r l.
Proof. unfold once. intros H. by rewrite remove_first_id. Qed.

Lemma clean_remove_first c r l : r ∈ our_rules c → clean c (remove_first r l) = clean c l.
Proof.
  intros Hr. unfold clean. induction l as [|x l IH]; [done|]. cbn [remove_first].
  case_bool_decide as Hx; [subst; by rewrite filter_cons_False by auto|].
  destruct (decide (x ∉ our_rules c)).
  - rewrite !filter_cons_True by done. by rewrite IH.
  - by rewrite !filter_cons_False.
Qed.

Lemma clean_ours c l l' : (∀ r, r ∈ l → r ∈ our_rules c) → clean c (l ++ l') = clean c l'.
Proof.
  unfold clean. rewrite filter_app. induction l as [|x l IH]; intros Hf; [done|].
  rewrite filter_cons_False; [apply IH|]; set_solver.
Qed.

Lemma clean_absent c l : (∀ r, r ∈ our_rules c → r ∉ l) → clean c l = l.
Proof.
  unfold clean. induction l as [|x l IH]; intros Hf; [done|].
  rewrite filter_cons_True; [f_equal; apply IH|]; set_solver.
Qed.

Lemma once_NoDup r l l' : NoDup l → r ∉ l' → once r (l ++ l').
Proof.
  unfold once. induction 1 as [|x l Hx Hl IH]; intros Hr; cbn; [by rewrite remove_first_id|].
  case_bool_decide; [subst; set_solver|]. apply not_elem_of_cons. auto.
Qed.

(** What [execute_command] takes for success is the status 0, if the command
    exited. *)
Lemma succeeded_exit st : (st = -1 ∨ ∃ n, 0 ≤ n < 256 ∧ st = 256 * n) → succeeded st = (st =? 0).
Proof.
  intros [->|(n & Hn & ->)]; [done|]. unfold succeeded, WIFEXITED, WEXITSTATUS.
  change 127 with (Z.ones 7). change 255 with (Z.ones 8).
  rewrite !Z.land_ones, Z.shiftr_div_pow2 by lia.
  change (2 ^ 7) with 128. change (2 ^ 8) with 256.
  rewrite (Z.mul_comm 256 n), Z.div_mul, (Z.mod_small n) by lia.
  replace (n * 256) with (n * 2 * 128) by lia. rewrite Z.mod_mul by lia. lia.
Qed.

Lemma http_out_ours : http_out ∈ our_rules "OUTPUT". Proof. apply list_elem_of_here. Qed.
Lemma https_out_ours : https_out ∈ our_rules "OUTPUT". Proof. apply list_elem_of_further, list_elem_of_here. Qed.
Lemma http_in_ours : http_in ∈ our_rules "INPUT". Proof. apply list_elem_of_here. Qed.
Lemma https_in_ours : https_in ∈ our_rules "INPUT". Proof. apply list_elem_of_further, list_elem_of_here. Qed.
#[local] Hint Resolve http_out_ours https_out_ours http_in_ours https_in_ours : clog.

Section firewall.
Context {F : Type} `{PFL : PacketFilterLaws F} `{OS : !Os}.
Implicit Types (w : world F) (f : F).

(** Every rule of the program is there at most once: what one earlier run that
    was killed leaves. *)
Definition tidy f : Prop := ∀ c r, r ∈ our_rules c → once r (rules f c).

(** iptables once refused to delete the rule although it was there. *)
Definition refused (chain r : string) : Prop :=
  ∃ f, r ∈ rules f chain ∧ (system (delete_cmd chain r) f).1 ≠ 0.

(** The foreign rules of [f0] in their order, and no rule of the program but for
    those that iptables refused to delete. *)
Definition swept f0 f : Prop := ∀ c,
  clean c (rules f c) = clean c (rules f0 c) ∧
  ∀ r, r ∈ our_rules c → r ∉ rules f c ∨ refused c r.

(** Deleting a rule once is enough, or was refused before. *)
Definition settled f : Prop := ∀ c r, r ∈ our_rules c → once r (rules f c) ∨ refused c r.

Lemma tidy_settled f : tidy f → settled f.
Proof. intros H c r Hr. left. by apply H. Qed.

(** [swept] for the rules [D] only. *)
Definition deleted (D : list (string * string)) f0 f : Prop :=
  settled f ∧ ∀ c, clean c (rules f c) = clean c (rules f0 c) ∧
    ∀ r, r ∈ our_rules c → (c, r) ∈ D → r ∉ rules f c ∨ refused c r.

Lemma wp_run_delete chain r D f0 (Q : Z → world F → Prop) X w :
  r ∈ our_rules chain → deleted D f0 (filter w) →
  (∀ st f, deleted ((chain, r) :: D) f0 f → Q st (w <| filter := f |>)) →
  wp (run_system (delete_cmd chain r)) Q X w.
Proof.
  intros Hr [Hs Hd] HQ. unfold wp, run_system. pose proof (system_delete chain r (filter w) Hr) as H.
  assert (r ∈ rules (filter w) chain → (system (delete_cmd chain r) (filter w)).1 ≠ 0 →
          refused chain r) as Href by (intros; by eexists).
  destruct (system _ _) as [st f]. cbn [fst snd] in *. apply HQ.
  assert (∀ c, rules f c = rules (filter w) c ∨ c = chain ∧ rules f c = remove_first r (rules (filter w) c))
    as Hf by (intros c; rewrite H; case_bool_decide; cbn; [case_match|]; auto).
  split.
  { intros c r' Hr'. destruct (Hs c r' Hr') as [Ho|?]; [left|by right].
    destruct (Hf c) as [->|[_ ->]]; [done|by apply once_remove_first]. }
  intros c. split.
  { rewrite <- (proj1 (Hd c)). destruct (Hf c) as [->|[-> ->]]; [done|by apply clean_remove_first]. }
  intros r' Hr' [[= -> ->]|HD]%elem_of_cons.
  - rewrite H, bool_decide_eq_true_2 by done. cbn [andb]. destruct (Z.eqb_spec st 0).
    + by apply Hs.
    + destruct (decide (r ∈ rules (filter w) chain)); auto.
  - destruct (proj2 (Hd c) r' Hr' HD) as [Hn|?]; [left|by right].
    destruct (Hf c) as [->|[_ ->]]; [done|]. by intros ?%remove_first_subseteq.
Qed.

Lemma wp_run_insert chain r (Q : Z → world F → Prop) X w :
  r ∈ our_rules chain → logging_wf (logcfg w) →
  (∀ v f o, v = 0 ∨ v = -1 →
     (∀ c, rules f c = if bool_decide (c = chain) && (v =? 0) then r :: rules (filter w) c
                       else rules (filter w) c) → Q v (w <| filter := f |> <| out := o |>)) →
  wp (execute_command (insert_cmd chain r)) Q X w.
Proof.
  intros Hr Hw HQ. unfold execute_command. apply pwp_bind. unfold wp, run_system.
  pose proof (system_insert chain r (filter w) Hr) as H.
  rewrite <- (succeeded_exit _ (system_exits (insert_cmd chain r) (filter w))) in H.
  destruct (system _ _) as [st f]. cbn [fst snd] in H. unfold succeeded in H.
  destruct (st =? -1) eqn:E1; cbn [negb andb] in H.
  - apply pwp_bind, wp_log; [auto with clog|done|]. intros o.
    apply (HQ (-1) f o); [by right|]. intros c. by rewrite H.
  - destruct (WIFEXITED st && _) eqn:E2; cbn [negb andb] in H.
    + apply pwp_bind, wp_log; [auto with clog|done|]. intros o.
      apply (HQ (-1) f o); [by right|]. intros c. by rewrite H.
    + apply (HQ 0 f (out w)); [by left|]. intros c. by rewrite H.
Qed.

(** The four deletions with which [setup_firewall_rules] begins and of which
    [cleanup_firewall_rules] consists. *)
Lemma wp_deletes (m : PM F Z) (Q : Z → world F → Prop) X w :
  settled (filter w) →
  (∀ f, swept (filter w) f → wp m Q X (w <| filter := f |>)) →
  wp (run_system (delete_cmd "OUTPUT" http_out);; run_system (delete_cmd "OUTPUT" https_out);;
      run_system (delete_cmd "INPUT" http_in);; run_system (delete_cmd "INPUT" https_in);; m) Q X w.
Proof.
  intros Ht HQ. assert (deleted [] (filter w) (filter w)) as H0.
  { split; [done|]. intros c. split; [done|]. by intros r _ ?%not_elem_of_nil. }
  apply pwp_bind. eapply wp_run_delete; [auto with clog|exact H0|]. intros ? f1 H1.
  apply pwp_bind. eapply wp_run_delete; [auto with clog|exact H1|]. intros ? f2 H2.
  apply pwp_bind. eapply wp_run_delete; [auto with clog|exact H2|]. intros ? f3 H3.
  apply pwp_bind. eapply wp_run_delete; [auto with clog|exact H3|]. intros ? f4 [_ H4].
  apply HQ. intros c. destruct (H4 c) as [Hc Hd]. split; [done|].
  intros r Hr. apply Hd; [done|]. unfold our_rules in Hr.
  case_bool_decide; [subst; set_solver|]. case_bool_decide; [subst; set_solver|].
  by apply not_elem_of_nil in Hr.
Qed.

(** Chains that hold some of the program's rules in front of what was swept. *)
Definition fronted (front : string → list string) f0 f : Prop := ∀ c, ∃ old,
  rules f c = front c ++ old ∧ clean c old = clean c (rules f0 c) ∧
  (∀ r, r ∈ our_rules c → r ∉ old ∨ refused c r) ∧
  NoDup (front c) ∧ ∀ r, r ∈ front c → r ∈ our_rules c.

Lemma fronted_settled front f0 f : fronted front f0 f → settled f.
Proof.
  intros H c r Hr. destruct (H c) as (old & -> & _ & Ho & Hn & _).
  destruct (Ho r Hr); [left; by apply once_NoDup|by right].
Qed.

Lemma swept_fronted f0 f : swept f0 f → fronted (λ _, []) f0 f.
Proof.
  intros H c. destruct (H c) as [Hc Ho]. exists (rules f c).
  split_and!; [done|done|done|constructor|]. by intros r ?%not_elem_of_nil.
Qed.

Lemma fronted_nil f0 f : fronted (λ _, []) f0 f → swept f0 f.
Proof. intros H c. destruct (H c) as (old & -> & Hc & Ho & _). done. Qed.

(** Sweeping what a set-up has built up. *)
Lemma fronted_swept front f0 f f' : fronted front f0 f → swept f f' → swept f0 f'.
Proof.
  intros H Hs c. destruct (Hs c) as [-> Ho]. split; [|done].
  destruct (H c) as (old & -> & <- & _ & _ & Hf). by apply clean_ours.
Qed.

(** If nothing was refused, no rule of the program is left. *)
Lemma swept_clean f0 f c :
  (∀ r, r ∈ our_rules c → ¬ refused c r) → swept f0 f → rules f c = clean c (rules f0 c).
Proof.
  intros Hn H. destruct (H c) as [<- Ho]. symmetry. apply clean_absent.
  intros r Hr. destruct (Ho r Hr); [done|by destruct (Hn r)].
Qed.

Lemma wp_cleanup_firewall_rules (Q : Z → world F → Prop) X w :
  logging_wf (logcfg w) → settled (filter w) →
  (∀ f o, swept (filter w) f → Q 0 (w <| filter := f |> <| out := o |>)) →
  wp cleanup_firewall_rules Q X w.
Proof.
  intros Hw Ht HQ. unfold cleanup_firewall_rules.
  apply pwp_bind, wp_log; [auto with clog|done|]. intros o.
  apply wp_deletes; [done|]. intros f Hf.
  apply pwp_bind, wp_log; [auto with clog|done|]. intros o'. apply (HQ f o' Hf).
Qed.

Definition push (chain r : string) (front : string → list string) : string → list string :=
  λ c, if bool_decide (c = chain) then r :: front c else front c.

Lemma wp_insert_step chain r front f0 (Q : Z → world F → Prop) X w :
  fronted front f0 (filter w) → r ∈ our_rules chain → r ∉ front chain → logging_wf (logcfg w) →
  (∀ f o, fronted front f0 f → Q (-1) (w <| filter := f |> <| out := o |>)) →
  (∀ f o, fronted (push chain r front) f0 f → Q 0 (w <| filter := f |> <| out := o |>)) →
  wp (execute_command (insert_cmd chain r)) Q X w.
Proof.
  intros Hh Hr Hn Hw H1 H0. apply wp_run_insert; [done|done|].
  intros v f o [->| ->] Hf; [apply H0|apply H1]; intros c; rewrite Hf;
    destruct (Hh c) as (old & E & Hc & Ho & Hnd & Hs);
    [|rewrite andb_false_r; by exists old].
  exists old. unfold push. case_bool_decide as Hch; cbn [andb]; [subst|done].
  rewrite Z.eqb_refl. split_and!; [by rewrite E|done|done|by constructor|].
  intros r' [->|?]%elem_of_cons; auto.
Qed.

(** What [setup_firewall_rules] does when a rule cannot be added. *)
Lemma wp_give_up text front f0 (Q : Z → world F → Prop) X w :
  logging_wf (logcfg w) → fronted front f0 (filter w) →
  (∀ f o, swept f0 f → Q (-1) (w <| filter := f |> <| out := o |>)) →
  wp (log log_error text;; cleanup_firewall_rules;; mret (-1)) Q X w.
Proof.
  intros Hw Hh HQ. apply pwp_bind, wp_log; [auto with clog|done|]. intros o.
  apply pwp_bind, wp_cleanup_firewall_rules; [done|by eapply fronted_settled|].
  intros f o' Hf. apply (HQ f o'). by eapply fronted_swept.
Qed.

Lemma wp_setup_firewall_rules (Q : Z → world F → Prop) X w :
  logging_wf (logcfg w) → tidy (filter w) →
  (∀ v f o,
     v = 0 ∧ fronted (λ c, reverse (our_rules c)) (filter w) f ∨ v = -1 ∧ swept (filter w) f →
     Q v (w <| filter := f |> <| out := o |>)) →
  wp setup_firewall_rules Q X w.
Proof.
  intros Hw Ht%tidy_settled HQ. unfold setup_firewall_rules.
  apply pwp_bind, wp_log; [auto with clog|done|]. intros o0.
  apply wp_deletes; [done|]. intros f H0%swept_fronted. cbn [filter upd] in H0.
  apply pwp_bind. eapply (wp_insert_step "OUTPUT" http_out); [exact H0|auto with clog|cbn; set_solver|done| |].
  { intros f1 o1 H1. do 2 (apply pwp_bind, wp_log; [auto with clog|done|]; intros ?).
    apply (HQ (-1) f1). right. split; [done|]. by apply fronted_nil. }
  intros f1 o1 H1.
  apply pwp_bind. eapply (wp_insert_step "OUTPUT" https_out); [exact H1|auto with clog|cbn; set_solver|done| |].
  { intros f2 o2 H2. eapply wp_give_up; [done|exact H2|]. intros f' o Hf. apply (HQ (-1) f' o). auto. }
  intros f2 o2 H2.
  apply pwp_bind. eapply (wp_insert_step "INPUT" http_in); [exact H2|auto with clog|cbn; set_solver|done| |].
  { intros f3 o3 H3. eapply wp_give_up; [done|exact H3|]. intros f' o Hf. apply (HQ (-1) f' o). auto. }
  intros f3 o3 H3.
  apply pwp_bind. eapply (wp_insert_step "INPUT" https_in); [exact H3|auto with clog|cbn; set_solver|done| |].
  { intros f4 o4 H4. eapply wp_give_up; [done|exact H4|]. intros f' o Hf. apply (HQ (-1) f' o). auto. }
  intros f4 o4 H4.
  do 3 (apply pwp_bind, wp_log; [auto with clog|done|]; intros ?).
  apply (HQ 0 f4). left. split; [done|]. intros c. destruct (H4 c) as (old & E & Hr).
  exists old. rewrite E. unfold push, our_rules in *. clear -Hr.
  case_bool_decide; [subst; done|]. by case_bool_decide.
Qed.

(** C13: Whichever of its commands fail, the deletions included: if no rule of the program is in the packet filter more than once, [setup_firewall_rules] either returns 0, and OUTPUT and INPUT begin with exactly its four rules, followed by what the deletions left of the old ones, or it returns -1 and has swept the chains; and after a successful set-up [cleanup_firewall_rules] sweeps them.  Swept means that the foreign rules are there in their order and that a rule of the program is left only if iptables, asked to delete it while it was there, refused.  (Commands exit, no signal kills them, and one that fails changes nothing.) *)
Theorem firewall_rules_all_or_nothing w :
  logging_wf (logcfg w) → tidy (filter w) →
  wp setup_firewall_rules
     (λ r w',
        r = 0 ∧
          (∀ c, ∃ old, rules (filter w') c = reverse (our_rules c) ++ old ∧
                       clean c old = clean c (rules (filter w) c) ∧
                       ∀ r, r ∈ our_rules c → r ∉ old ∨ refused c r) ∧
          wp cleanup_firewall_rules (λ r' w'', r' = 0 ∧ swept (filter w) (filter w'')) (λ _, False) w' ∨
        r = -1 ∧ swept (filter w) (filter w'))
     (λ _, False) w.
Proof.
  intros Hw Ht. apply wp_setup_firewall_rules; [done|done|].
  intros v f o [[-> Hf]|[-> Hf]]; [left|right; by split].
  split_and!; [done|intros c; destruct (Hf c) as (old & ? & ? & ? & _); eauto|].
  apply wp_cleanup_firewall_rules; [done|by eapply fronted_settled|]. intros f' o' Hf'. split; [done|].
  by eapply fronted_swept.
Qed.
End firewall.

(** Without any law of the packet filter: the clean-up touches nothing else. *)
Lemma wp_cleanup_any {F} `{PF : PacketFilter F} `{OS : !Os} (Q : Z → world F → Prop) X w :
  logging_wf (logcfg w) → (∀ f o, Q 0 (w <| filter := f |> <| out := o |>)) →
  wp cleanup_firewall_rules Q X w.
Proof.
  intros Hw HQ. unfold cleanup_firewall_rules.
  apply pwp_bind, wp_log; [auto with clog|done|]. intros o.
  do 4 (apply pwp_bind; unfold wp at 1, run_system; cbn [filter upd]; destruct (system _ _)).
  apply pwp_bind, wp_log; [auto with clog|done|]. intros o'. apply HQ.
Qed.

(** ** A packet filter

    The chains and their rules; [fails] says which commands fail. *)

Section chains.
Variable fails : string → bool.

Definition program_rules : list (string * string) :=
  [("OUTPUT", http_out); ("OUTPUT", https_out); ("INPUT", http_in); ("INPUT", https_in)]%string.

Definition chain_table : Type := string → list string.

Fixpoint run_command (l : list (string * string)) (cmd : string) (f : chain_table) : Z * chain_table :=
  match l with
  | [] => (127 * 256, f)
  | (chain, r) :: l =>
      if bool_decide (cmd = insert_cmd chain r) then
        if fails cmd then (256, f)
        else (0, λ c, if bool_decide (c = chain) then r :: f c else f c)
      else if bool_decide (cmd = delete_cmd chain r) then
        if fails cmd || negb (bool_decide (r ∈ f chain)) then (256, f)
        else (0, λ c, if bool_decide (c = chain) then remove_first r (f c) else f c)
      else run_command l cmd f
  end.

#[export] Instance chain_filter : PacketFilter chain_table :=
  {| system := run_command program_rules; rules := λ f, f |}.

Lemma our_rules_program chain r : r ∈ our_rules chain → (chain, r) ∈ program_rules.
Proof.
  unfold our_rules. case_bool_decide; [subst; set_solver|]. case_bool_decide; [subst; set_solver|].
  by intros ?%not_elem_of_nil.
Qed.

Lemma run_command_insert chain r f : r ∈ our_rules chain →
  run_command program_rules (insert_cmd chain r) f =
    if fails (insert_cmd chain r) then (256, f)
    else (0, λ c, if bool_decide (c = chain) then r :: f c else f c).
Proof.
  intros Hr%our_rules_program. unfold program_rules in Hr |- *.
  repeat (apply elem_of_cons in Hr as [[= -> ->]|Hr]; [reflexivity|]). by apply not_elem_of_nil in Hr.
Qed.

Lemma run_command_delete chain r f : r ∈ our_rules chain →
  run_command program_rules (delete_cmd chain r) f =
    if fails (delete_cmd chain r) || negb (bool_decide (r ∈ f chain)) then (256, f)
    else (0, λ c, if bool_decide (c = chain) then remove_first r (f c) else f c).
Proof.
  intros Hr%our_rules_program. unfold program_rules in Hr |- *.
  repeat (apply elem_of_cons in Hr as [[= -> ->]|Hr]; [reflexivity|]). by apply not_elem_of_nil in Hr.
Qed.

#[export] Instance chain_filter_laws : PacketFilterLaws chain_table.
Proof.
  split.
  - intros cmd f. cbn [system chain_filter]. generalize program_rules. intros l.
    induction l as [|[chain r] l IH]; cbn [run_command]; [right; by exists 127|].
    do 2 (case_bool_decide; [case_match; [right; by exists 1|right; by exists 0]|]). exact IH.
  - intros chain r f Hr c. cbn [system rules chain_filter]. rewrite run_command_insert by done.
    destruct (fails _); cbn; [by rewrite andb_false_r|by rewrite andb_true_r].
  - intros chain r f Hr c. cbn [system rules chain_filter]. rewrite run_command_delete by done.
    destruct (_ || _); cbn; [by rewrite andb_false_r|by rewrite andb_true_r].
Qed.
End chains.

Definition stale_table : chain_table := λ c,
  if bool_decide (c = "OUTPUT") then ["-j LOG"; https_out; "-j DROP"]%string else [].

Lemma stale_table_tidy fails : tidy (PF := chain_filter fails) stale_table.
Proof.
  intros c r _. unfold once, stale_table. cbn. case_bool_decide; [|set_solver]. cbn.
  repeat case_bool_decide; set_solver.
Qed.

(** A filter whose commands all succeed refuses nothing. *)
Lemma nothing_refused chain r :
  r ∈ our_rules chain → ¬ refused (PF := chain_filter (λ _, false)) chain r.
Proof.
  intros Hr (f & Hin & Hst). apply Hst. cbn [system rules chain_filter] in *.
  rewrite run_command_delete by done. by rewrite bool_decide_eq_true_2.
Qed.

(** If iptables cannot delete it, the rule that a killed run has left stays, and
    the one that the set-up adds is left in its place by the clean-up. *)
Example refused_rule_stays :
  let PF := chain_filter (λ cmd, bool_decide (cmd = delete_cmd "OUTPUT" https_out)) in
  wp (setup_firewall_rules (OS := willing_os);; cleanup_firewall_rules (OS := willing_os))
     (λ _ w', filter w' "OUTPUT"%string = [https_out; "-j LOG"; https_out; "-j DROP"]%string)
     (λ _, False) (boot 1 stale_table).
Proof. vm_compute. reflexivity. Qed.

(** A rule that a killed run has left is replaced; the other rules stay. *)
Lemma firewall_rules_all_or_nothing_witness :
  let PF := chain_filter (λ _, false) in
  let w := boot 1 stale_table in
  wp (setup_firewall_rules (OS := willing_os))
     (λ r w', r = 0 ∧ filter w' "OUTPUT"%string = [https_out; http_out; "-j LOG"; "-j DROP"]%string)
     (λ _, False) w.
Proof.
  intros PF w.
  pose proof (firewall_rules_all_or_nothing (PFL := chain_filter_laws (λ _, false)) (OS := willing_os) w
                logging_config_wf (stale_table_tidy _)) as H.
  assert (wp (setup_firewall_rules (OS := willing_os)) (λ r _, r = 0) (λ _, False) w) as H0
    by (vm_compute; reflexivity).
  pose proof (wp_and _ _ _ _ _ _ H H0) as H1. clear H H0.
  refine (pwp_mono _ _ _ _ _ _ H1 _ (λ e He, proj1 He)). clear H1.
  intros r w' [[(-> & H & _)|[-> _]] E]; [|discriminate E]. split; [done|].
  destruct (H "OUTPUT"%string) as (old & Ho & Hc & Hr).
  etransitivity; [exact Ho|].
  assert (∀ r, r ∈ our_rules "OUTPUT" → r ∉ old) as Hn.
  { intros r' Hr'. destruct (Hr r' Hr') as [|Href]; [done|by destruct (nothing_refused "OUTPUT"%string r' Hr')]. }
  rewrite <- (clean_absent "OUTPUT" old Hn), Hc. vm_compute. reflexivity.
Defined.
