(* ===== verification/Main.v ===== *)
(** * src/main.c: main loop, start and end of the program

    What [recvfrom] delivers and which signals arrive is a list of turns, one for
    each pass through the main loop; when the list ends, the next [recvfrom] waits
    for ever.  Writes to stdout and the log calls of other files are left out. *)

From stdpp Require Import pretty.
From S2P Require Import Prelude CString Types Packet RawSocket Evasion Processor Netfilter Callback.
From S2P Require Import Config Logging Daemon Firewall.

(** ** Turns of the main loop *)

Record turn : Type := mkTurn {
  early : list Z;              (* signals between [is_running] and the wait *)
  received : Z;                (* result of [recv] *)
  again : bool;                (* [errno] is [EAGAIN] or [EWOULDBLOCK] *)
  message : option nfq_data;   (* the packet in it, for which the callback runs *)
  stale_id : Z;                (* the callback's uninitialised [packet_id] *)
  handled : Z;                 (* result of [nfq_handle_packet] *)
  late : list Z                (* signals while waiting or handling *)
}.

Section main.
Context {F : Type} `{!PacketFilter F} `{OS : !Os}.
Variable os_send : Z → list Z → Z.
Variable os_verdict : verdict_msg → Z.
Notation PM := (PM F).
Implicit Types (w : world F).

(** ** The main loop *)

Section loop.
Variable config : goodbyedpi_config_t.

Fixpoint deliver (sigs : list Z) : PM unit :=
  match sigs with
  | [] => mret tt
  | sig :: sigs => signal_handler sig;; deliver sigs
  end.

(** [nfq_handle_packet] runs the queue's callback on the packet.  The raw sockets
    are as the program starts with them: nothing in main.c opens them. *)
Definition callback_of (ctx : netfilter_context_t) (g : option unit) (st : stats) (stale : Z)
    (nfa : nfq_data) : M (Z * list verdict_msg * effects) :=
  netfilter_callback os_verdict
    ((λ _, packet_process_callback os_send os_verdict config raw_sockets_init ctx stale st) <$> g)
    ([], st) nfa.

Definition handle_message (stale : Z) (nfa : nfq_data) : PM unit := λ w,
  match callback_of (nfq_ctx w) (g_packet_callback w) (counters w) stale nfa (mem w) with
  | Ok ((_, vs, (sent, st)), h) =>
      Ret tt (w <| mem := h |> <| counters := st |> <| verdicts := verdicts w ++ vs |>
                <| injected := injected w ++ sent |>)
  | UB u => Stop (Fault u)
  end.

Definition receive_packet (t : turn) : PM Z :=
  ctx ← get nfq_ctx;
  let '(r, ctx') := netfilter_receive_packet (Some ctx) (received t) (again t) (handled t) in
  set (λ w, w <| nfq_ctx := default ctx ctx' |>);;
  match message t with
  | Some nfa =>
      if initialized ctx && (0 <=? received t) then handle_message (stale_id t) nfa else mret tt
  | None => mret tt
  end;;
  deliver (late t);;
  mret r.

Definition report_stats : PM unit :=
  st ← get counters;
  if (packets_processed st mod 1000 =? 0) && verbose_mode config then
    log (λ ts c _, log_packet_stats ts c (packets_processed st) (packets_modified st)
                     (bytes_processed st)) []
  else mret tt.

(** [lost] are the signals that arrive too late for the last test of
    [is_running] and too early to interrupt the wait. *)
Fixpoint main_loop (turns : list turn) (lost : list Z) : PM unit :=
  run ← is_running;
  if negb run then mret tt else
  match turns with
  | [] => deliver lost;; block
  | t :: turns =>
      deliver (early t);;
      r ← receive_packet t;
      if r <? 0 then
        log log_error (chars "Error receiving packet");;
        run ← is_running;
        if negb run then mret tt else main_loop turns lost
      else
        report_stats;;
        main_loop turns lost
  end.
End loop.

(** ** main *)

Variable euid : Z.
Variable open_file : list Z → option (list Z).
(** The answers of libnetfilter_queue to [netfilter_init]. *)
Variable nfq : nfq_answers.

Definition log_level (config : goodbyedpi_config_t) : Z :=
  if debug_mode config then LOG_LEVEL_DEBUG
  else if verbose_mode config then LOG_LEVEL_INFO else LOG_LEVEL_NOTICE.

Definition open_log (lvl : Z) (config : goodbyedpi_config_t) : PM Z := λ w,
  let file := if byte_at (log_file config) 0 =? 0 then None else Some (log_file config) in
  let opened := match cstr (log_file config) with Ok f => fopen_append f | UB _ => None end in
  match logging_init (timestamp (length (out w))) (logcfg w) lvl (systemd_mode config) file opened with
  | Ok (r, c, l) => Ret r (w <| logcfg := c |> <| out := out w ++ l |>)
  | UB u => Stop (Fault u)
  end.

Definition init_queue (config : goodbyedpi_config_t) : PM Z := λ w,
  let '(r, ctx, g, rel) :=
    netfilter_init nfq (Some (nfq_ctx w)) (nfqueue_num config) tt (g_packet_callback w) in
  Ret r (w <| nfq_ctx := default (nfq_ctx w) ctx |> <| g_packet_callback := g |>
           <| acquired := acquired w ++ opened nfq |> <| released := released w ++ rel |>).

Definition cleanup_queue : PM Z := λ w,
  let '(r, ctx, rel) := netfilter_cleanup (Some (nfq_ctx w)) in
  Ret r (w <| nfq_ctx := default (nfq_ctx w) ctx |> <| released := released w ++ rel |>).

Definition cleanup_logging : PM unit := set (λ w, w <| logcfg := (logging_cleanup (logcfg w)).1 |>).

Definition log_final_stats : PM unit :=
  st ← get counters;
  log log_info (chars "Final statistics:");;
  log log_info (chars "  Packets processed: " ++ dec (packets_processed st));;
  log log_info (chars "  Packets modified:  " ++ dec (packets_modified st));;
  log log_info (chars "  Bytes processed:   " ++ dec (bytes_processed st)).

(** From the main loop to the end of [main]. *)
Definition serve (config : goodbyedpi_config_t) (turns : list turn) (lost : list Z) : PM Z :=
  log log_info (chars "GoodbyeDPI started successfully");;
  log log_info (chars "Queue number: " ++ dec (nfqueue_num config));;
  log log_info (chars "Main loop started - processing packets");;
  main_loop config turns lost;;
  log log_info (chars "Main loop ended");;
  log_final_stats;;
  cleanup_queue;;
  cleanup_firewall_rules;;
  remove_pid_file (pid_file config);;
  cleanup_logging;;
  log log_info (chars "GoodbyeDPI stopped successfully");;
  mret EXIT_SUCCESS.

(** From the firewall rules on. *)
Definition set_up (config : goodbyedpi_config_t) (turns : list turn) (lost : list Z) : PM Z :=
  r ← setup_firewall_rules;
  if r <? 0 then
    log log_error (chars "Failed to setup firewall rules");;
    remove_pid_file (pid_file config);; mret EXIT_FAILURE
  else
  r ← init_queue config;
  if r <? 0 then
    log log_error (chars "Failed to initialize netfilter queue");;
    cleanup_firewall_rules;;
    remove_pid_file (pid_file config);; mret EXIT_FAILURE
  else serve config turns lost.

(** From the installation of the signal handlers on. *)
Definition start (config : goodbyedpi_config_t) (turns : list turn) (lost : list Z) : PM Z :=
  r ← install_signal_handlers;
  if r <? 0 then log log_error (chars "Failed to install signal handlers");; mret EXIT_FAILURE else
  r ← create_pid_file (pid_file config);
  if r <? 0 then log log_error (chars "Failed to create PID file");; mret EXIT_FAILURE else
  r ← (if daemon_mode config then daemonize else mret 0);
  if r <? 0 then
    log log_error (chars "Failed to daemonize");;
    remove_pid_file (pid_file config);; mret EXIT_FAILURE
  else set_up config turns lost.

(** [opts] is what [getopt_long] returns on the command line, [cl] the
    indeterminate line buffer of the configuration parser. *)
Definition main (opts : list getopt_result) (cl : config_line_t) (turns : list turn) (lost : list Z)
    : PM Z :=
  if negb (euid =? 0) then mret EXIT_FAILURE else
  '(r, cfg) ← pure (config_init (Some config_zero));
  let config := default config_zero cfg in
  if r <? 0 then mret EXIT_FAILURE else
  '(result, config) ← pure (parse_arguments open_file opts cl config);
  if 0 <? result then mret EXIT_SUCCESS else
  if result <? 0 then mret EXIT_FAILURE else
  v ← pure (config_validate (Some config));
  if v <? 0 then mret EXIT_FAILURE else
  r ← open_log (log_level config) config;
  if r <? 0 then mret EXIT_FAILURE else start config turns lost.
End main.

(** ** No raw packet is ever sent

    The sockets are those the program starts with, closed. *)

Lemma send_raw_closed os data len v6 h r s h' :
  send_raw_packet os raw_sockets_init data len v6 h = Ok ((r, s), h') → s = [].
Proof. unfold send_raw_packet. destruct v6; by intros [= _ <- _]. Qed.

Lemma inject_closed os config p h r s h' :
  evasion_inject_fake_packet os config raw_sockets_init p h = Ok ((r, s), h') → s = [].
Proof.
  unfold evasion_inject_fake_packet. destruct p as [p|]; [|by intros [= _ <- _]].
  intros H. minv H. destruct a as [[r1 fake] n]. minv H. destruct a as [r2 o]. minv H.
  injection H as _ <- _. destruct (_ && _); [by eapply send_raw_closed|by injection E0 as _ <- _].
Qed.

Lemma packet_process_closed os config p h r s h' :
  packet_process os config raw_sockets_init (Some p) h = Ok ((r, s), h') → s = [].
Proof.
  unfold packet_process. destruct (too_large config p); [by intros [= _ <- _]|].
  intros H. minv H. destruct a; [minv H; by injection H as _ <- _|].
  destruct (packet_is_https _); [|by injection H as _ <- _].
  unfold process_https in H. destruct (fake_packet config); [|by injection H as _ <- _].
  minv H. destruct a as [r1 o]. apply inject_closed in E0 as ->. by injection H as _ <- _.
Qed.

Lemma callback_sends_nothing os_send os_verdict config ctx stale st nfa h v vs s st' h' :
  packet_process_callback os_send os_verdict config raw_sockets_init ctx stale st nfa h =
    Ok ((v, vs, (s, st')), h') → s = [].
Proof.
  unfold packet_process_callback. destruct (netfilter_get_packet_metadata _ _) as [r0 id].
  destruct (r0 <? 0); [by intros [= _ _ <- _ _]|].
  destruct (netfilter_get_packet_data _) as [[r1 data] len].
  destruct (r1 <? 0); [by intros [= _ _ <- _ _]|].
  intros H. minv H. destruct a as [r [q|]]; [|done].
  destruct (r <? 0); [by injection H as _ _ <- _ _|].
  minv H. destruct a as [r2 o]. apply packet_process_closed in E0 as ->.
  minv H. destruct a as [[v1 vs1] st1]. minv H. by injection H as _ _ <- _ _.
Qed.

(** ** What the main loop keeps *)

Definition stop_signal (sig : Z) : bool := (sig =? SIGINT) || (sig =? SIGTERM).
(** A turn in which the program is told to stop. *)
Definition stop_turn (t : turn) : bool := existsb stop_signal (early t ++ late t).

(** The turns up to the first of them, which are all the loop takes. *)
Fixpoint used (turns : list turn) : list turn :=
  match turns with
  | [] => []
  | t :: turns => t :: if stop_turn t then [] else used turns
  end.

Definition messages (turns : list turn) : list nfq_data := omap message turns.

Section serving.
Context {F : Type} `{PF : PacketFilter F} `{OS : !Os}.
Context (os_send : Z → list Z → Z) (os_verdict : verdict_msg → Z).
Implicit Types (w : world F).

(** [w'] is [w] after at most [n] messages. *)
Record served (n : nat) w w' : Prop := {
  sv_logcfg : logcfg w' = logcfg w;
  sv_pid : pid w' = pid w;
  sv_files : files w' = files w;
  sv_fds : fds w' = fds w;
  sv_filter : filter w' = filter w;
  sv_acquired : acquired w' = acquired w;
  sv_released : released w' = released w;
  sv_callback : g_packet_callback w' = g_packet_callback w;
  sv_ctx : ∃ n, nfq_ctx w' = (nfq_ctx w) <| buffer_len := n |>;
  sv_blocks : blocks (mem w') = blocks (mem w);
  sv_wf : heap_wf (mem w');
  sv_injected : injected w' = injected w;
  sv_verdicts : ∃ vs, verdicts w' = verdicts w ++ vs ∧ (length vs ≤ n)%nat ∧
                      Forall (λ v, v.1.2 = NF_ACCEPT) vs
}.

Lemma ctx_id (c : netfilter_context_t) : c = c <| buffer_len := buffer_len c |>.
Proof. by destruct c. Qed.

Lemma served_out_running w o b : heap_wf (mem w) → served 0 w (w <| out := o |> <| running := b |>).
Proof.
  intros Hwf. split; try done; cbn; [eexists; apply ctx_id|].
  exists []. by rewrite app_nil_r.
Qed.

Lemma served_refl w : heap_wf (mem w) → served 0 w w.
Proof. intros Hwf. pose proof (served_out_running w (out w) (running w) Hwf) as H. by destruct w. Qed.

Lemma served_trans n1 n2 w1 w2 w3 : served n1 w1 w2 → served n2 w2 w3 → served (n1 + n2) w1 w3.
Proof.
  intros [] []. split; try congruence.
  - destruct sv_ctx0 as [? E], sv_ctx1 as [? ->]. rewrite E. by eexists.
  - done.
  - destruct sv_verdicts0 as (v1 & E1 & L1 & A1), sv_verdicts1 as (v2 & E2 & L2 & A2).
    exists (v1 ++ v2). rewrite E2, E1, <- app_assoc, length_app.
    split_and!; [done|lia|by apply Forall_app].
Qed.

Lemma served_mono n m w w' : (n ≤ m)%nat → served n w w' → served m w w'.
Proof.
  intros Hn []. split; try done. destruct sv_verdicts0 as (v & ? & ? & ?).
  exists v. split_and!; [done|lia|done].
Qed.

Lemma netfilter_callback_cases {A} cb (none : A) nfa h r h' :
  netfilter_callback os_verdict cb none nfa h = Ok (r, h') →
  (∃ id, r = (accept_unchanged os_verdict id, none)) ∧ h' = h ∨
  ∃ callback, cb = Some callback ∧ callback nfa h = Ok (r, h').
Proof.
  unfold netfilter_callback. destruct (_ =? 0); [intros [= <- <-]; eauto|].
  destruct cb; [eauto|intros [= <- <-]; eauto].
Qed.

(** The packet processing commits an undefined behaviour on one of the messages
    of [turns]; the objects of the program are those of [w]. *)
Definition processing_fault config (turns : list turn) (u : ub) w : Prop :=
  ∃ nfa ctx g st stale h, nfa ∈ messages turns ∧ blocks h = blocks (mem w) ∧ heap_wf h ∧
    callback_of os_send os_verdict config ctx g st stale nfa h = UB u.

Lemma processing_fault_mono config turns turns' u w w' :
  (∀ nfa, nfa ∈ messages turns → nfa ∈ messages turns') → blocks (mem w') = blocks (mem w) →
  processing_fault config turns u w' → processing_fault config turns' u w.
Proof.
  intros Ht Hb (nfa & ctx & g & st & stale & h & Hin & E & Hwf & H).
  exists nfa, ctx, g, st, stale, h. split_and!; [auto|congruence|done|done].
Qed.

Lemma wp_handle_message config stale nfa (Q : unit → world F → Prop) X w :
  heap_wf (mem w) →
  (∀ w', served 1 w w' → running w' = running w → Q tt w') →
  (∀ u, processing_fault config [mkTurn [] 0 false (Some nfa) stale 0 []] u w → X (Fault u)) →
  wp (handle_message os_send os_verdict config stale nfa) Q X w.
Proof.
  intros Hwf HQ HX. unfold wp, handle_message.
  destruct (callback_of _ _ _ _ _ _ _ _ _) as [[[[v vs] [s st]] h]|u] eqn:E; cbn.
  2:{ apply HX. do 6 eexists. split_and!; [apply list_elem_of_here|done|exact Hwf|exact E]. }
  assert (blocks h = blocks (mem w) ∧ heap_wf h ∧ s = [] ∧ (length vs ≤ 1)%nat ∧
          Forall (λ v, v.1.2 = NF_ACCEPT) vs) as (Hb & Hh & -> & Hl & Ha).
  { unfold callback_of in E. apply netfilter_callback_cases in E as [[[id [= -> -> -> ->]] ->]|(cb & Hcb & E)].
    - split_and!; [done|done|done|cbn; lia|by repeat constructor].
    - destruct (g_packet_callback w); [|done]. injection Hcb as <-.
      pose proof (callback_heap _ _ _ _ _ _ _ _ _ _ _ _ _ Hwf E) as [Hb Hvs].
      split_and!; [done|by eapply keeps_inv|by eapply callback_sends_nothing| |];
        (destruct Hvs as [->|[bs ->]]; [|]); cbn; [lia|lia|constructor|by repeat constructor]. }
  apply HQ; [|done]. split; try done; cbn; [eexists; apply ctx_id|by rewrite app_nil_r|eauto].
Qed.

Lemma wp_signal_handler sig (Q : unit → world F → Prop) X w :
  logging_wf (logcfg w) →
  (∀ o, Q tt (w <| out := o |> <| running := running w && negb (stop_signal sig) |>)) →
  wp (signal_handler sig) Q X w.
Proof.
  intros Hw HQ. unfold signal_handler, stop_signal in *.
  destruct (sig =? SIGINT); cbn [orb negb] in HQ.
  { apply pwp_bind, wp_log; [auto with clog|done|]. intros o. apply wp_set.
    specialize (HQ o). by rewrite andb_false_r in HQ. }
  destruct (sig =? SIGTERM); cbn [orb negb] in HQ.
  { apply pwp_bind, wp_log; [auto with clog|done|]. intros o. apply wp_set.
    specialize (HQ o). by rewrite andb_false_r in HQ. }
  apply pwp_ret. specialize (HQ (out w)). rewrite andb_true_r in HQ. by destruct w.
Qed.

Lemma wp_deliver sigs (Q : unit → world F → Prop) X w :
  logging_wf (logcfg w) →
  (∀ o, Q tt (w <| out := o |> <| running := running w && negb (existsb stop_signal sigs) |>)) →
  wp (deliver sigs) Q X w.
Proof.
  revert w. induction sigs as [|sig sigs IH]; intros w Hw HQ; cbn [deliver].
  - apply pwp_ret. specialize (HQ (out w)). cbn in HQ. rewrite andb_true_r in HQ. by destruct w.
  - apply pwp_bind, wp_signal_handler; [done|]. intros o. apply IH; [done|]. intros o'.
    specialize (HQ o'). cbn [existsb] in HQ. by rewrite negb_orb, andb_assoc in HQ.
Qed.

Lemma served_ctx w r ctx' again received handled :
  heap_wf (mem w) →
  netfilter_receive_packet (Some (nfq_ctx w)) received again handled = (r, ctx') →
  served 0 w (w <| nfq_ctx := default (nfq_ctx w) ctx' |>).
Proof.
  intros Hwf H. split; try done; cbn; [|exists []; by rewrite app_nil_r].
  unfold netfilter_receive_packet in H.
  repeat match type of H with context [if ?c then _ else _] => destruct c end;
    injection H as _ <-; cbn; eexists; solve [apply ctx_id|done].
Qed.

Lemma messages_cons t turns : messages (t :: turns) = option_list (message t) ++ messages turns.
Proof. unfold messages. cbn. by destruct (message t). Qed.

Lemma wp_receive_packet config t (Q : Z → world F → Prop) X w :
  logging_wf (logcfg w) → heap_wf (mem w) →
  (∀ r w', served (length (messages [t])) w w' →
     running w' = running w && negb (existsb stop_signal (late t)) → Q r w') →
  (∀ u, processing_fault config [t] u w → X (Fault u)) →
  wp (receive_packet os_send os_verdict config t) Q X w.
Proof.
  intros Hlog Hwf HQ HX. unfold receive_packet. apply pwp_bind, wp_get.
  destruct (netfilter_receive_packet _ _ _ _) as [r ctx'] eqn:E.
  apply served_ctx in E as H0; [|done]. apply pwp_bind, wp_set.
  set (w0 := w <| nfq_ctx := _ |>) in *.
  assert (∀ w', served (length (messages [t])) w w' → running w' = running w →
    wp (deliver (late t);; mret r) Q X w') as Hrest.
  { intros w' Hs Hr. apply pwp_bind, wp_deliver; [by rewrite (sv_logcfg _ _ _ Hs)|]. intros o.
    apply pwp_ret, HQ; [|by rewrite <- Hr].
    rewrite <- (Nat.add_0_r (length _)). eapply served_trans; [exact Hs|].
    apply served_out_running, (sv_wf _ _ _ Hs). }
  assert (wp (mret tt) (λ _ w', wp (deliver (late t);; mret r) Q X w') X w0) as Hskip.
  { apply pwp_ret, Hrest; [|done]. eapply served_mono; [|exact H0]. lia. }
  apply pwp_bind. destruct (message t) as [nfa|] eqn:Em; [|exact Hskip].
  destruct (initialized (nfq_ctx w) && _); [|exact Hskip].
  apply wp_handle_message; [done| |].
  - intros w' Hs Hr. apply Hrest; [|done]. unfold messages. cbn. rewrite Em.
    by apply (served_trans 0 1 w w0 w').
  - intros u Hu. apply HX. eapply processing_fault_mono; [|done|exact Hu].
    intros n. unfold messages. cbn. by rewrite Em.
Qed.

Lemma wp_report_stats config (Q : unit → world F → Prop) X w :
  logging_wf (logcfg w) → (∀ o, Q tt (w <| out := o |>)) → wp (report_stats config) Q X w.
Proof.
  intros Hw HQ. unfold report_stats. apply pwp_bind, wp_get. destruct (_ && _).
  - apply wp_log; [|done|done]. intros ts c text Hc. unfold log_packet_stats. by apply log_info_logs.
  - apply pwp_ret. specialize (HQ (out w)). by destruct w.
Qed.

Lemma main_loop_stopped config turns lost w :
  running w = false → main_loop os_send os_verdict config turns lost w = Ret tt w.
Proof.
  intros Hr. destruct turns; cbn [main_loop]; unfold mbind, PM_bind, is_running, get; by rewrite Hr.
Qed.

(** The loop takes the turns up to the first stop signal; it returns only when
    it has been told to stop and blocks only when it has not. *)
Lemma wp_main_loop config turns lost (Q : unit → world F → Prop) X w :
  logging_wf (logcfg w) → heap_wf (mem w) →
  (∀ w', served (length (messages (used turns))) w w' → running w' = false →
     running w = false ∨ existsb stop_turn turns = true → Q tt w') →
  (∀ w', served (length (messages (used turns))) w w' → existsb stop_turn turns = false →
     X (Blocked w')) →
  (∀ u, processing_fault config (used turns) u w → X (Fault u)) →
  wp (main_loop os_send os_verdict config turns lost) Q X w.
Proof.
  revert w. induction turns as [|t turns IH]; intros w Hlog Hwf HQ HB HX; cbn [main_loop].
  - apply pwp_bind, wp_get. destruct (running w) eqn:Er; cbn [negb].
    + apply pwp_bind, wp_deliver; [done|]. intros o. apply HB; [|done]. by apply served_out_running.
    + apply pwp_ret, HQ; [|done|by left]. by apply served_refl.
  - apply pwp_bind, wp_get. destruct (running w) eqn:Er; cbn [negb].
    2:{ apply pwp_ret, HQ; [|done|by left]. eapply (served_mono 0); [lia|].
        by apply served_refl. }
    apply pwp_bind, wp_deliver; [done|]. intros o.
    pose proof (served_out_running w o (running w && negb (existsb stop_signal (early t))) Hwf) as Hs0.
    set (w0 := _ <| running := _ |>) in *.
    apply pwp_bind, wp_receive_packet; [done|done| |].
    2:{ intros u Hu. apply HX. eapply processing_fault_mono; [|done|exact Hu].
        intros nfa. cbn [used]. rewrite !messages_cons, !elem_of_app. intros [?|H]; [by left|by apply not_elem_of_nil in H]. }
    intros r w1 Hs1 Hr1. cbn in Hr1. rewrite Er in Hr1. cbn [andb] in Hr1.
    assert (running w1 = negb (stop_turn t)) as Hrun.
    { rewrite Hr1. unfold stop_turn. rewrite existsb_app. by rewrite negb_orb. }
    pose proof (served_trans _ _ _ _ _ Hs0 Hs1) as Hs. cbn [Nat.add] in Hs. clear Hr1.
    assert (∀ w2, served (length (messages [t])) w w2 → running w2 = negb (stop_turn t) →
      wp (main_loop os_send os_verdict config turns lost) Q X w2) as Hcont.
    { intros w2 Hs2 Hr2. cbn [used existsb] in *. rewrite messages_cons, length_app in *.
      destruct (stop_turn t) eqn:Et; cbn [negb orb] in *.
      - unfold wp. rewrite main_loop_stopped by done. apply HQ; [|done|by right].
        eapply served_mono; [|exact Hs2]. cbn. lia.
      - apply IH; [by rewrite (sv_logcfg _ _ _ Hs2)|exact (sv_wf _ _ _ Hs2)| | |].
        + intros w3 Hs3 Hr3 [?|?]; [congruence|]. apply HQ; [|done|by right].
          eapply served_mono; [|by eapply served_trans]. cbn. lia.
        + intros w3 Hs3 Hn. apply HB; [|done]. eapply served_mono; [|by eapply served_trans]. cbn. lia.
        + intros u Hu. apply HX. eapply processing_fault_mono; [|exact (sv_blocks _ _ _ Hs2)|exact Hu].
          intros nfa. rewrite messages_cons, elem_of_app. by right. }
    clear IH HQ HB HX.
    assert (∀ o, served (length (messages [t])) w (w1 <| out := o |>)) as Hout.
    { intros o'. pose proof (served_out_running w1 o' (running w1) (sv_wf _ _ _ Hs)) as Hs'.
      rewrite <- (Nat.add_0_r (length _)). eapply served_trans; [exact Hs|]. by destruct w1. }
    assert (logging_wf (logcfg w1)) as Hlog1 by by rewrite (sv_logcfg _ _ _ Hs).
    destruct (r <? 0).
    + apply pwp_bind, wp_log; [auto with clog|done|]. intros o1. apply pwp_bind, wp_get. cbn.
      pose proof (Hcont (w1 <| out := o1 |>) (Hout o1) Hrun) as H.
      destruct (running w1) eqn:Er1; cbn [negb]; [exact H|].
      unfold wp in H. by rewrite main_loop_stopped in H.
    + apply pwp_bind, wp_report_stats; [done|]. intros o1. apply Hcont; [done|exact Hrun].
Qed.

(** Two loops agree if they agree after their first turn, and after a turn with a
    stop signal there is nothing to agree on. *)
Lemma main_loop_tail_ext config t l1 l2 lost1 lost2 w :
  logging_wf (logcfg w) → heap_wf (mem w) →
  (∀ w', logging_wf (logcfg w') → heap_wf (mem w') → running w' = negb (stop_turn t) →
     main_loop os_send os_verdict config l1 lost1 w' = main_loop os_send os_verdict config l2 lost2 w') →
  main_loop os_send os_verdict config (t :: l1) lost1 w =
  main_loop os_send os_verdict config (t :: l2) lost2 w.
Proof.
  intros Hw Hwf Hext. cbn [main_loop]. apply (wp_bind_ext _ _ _ (λ b w', b = running w ∧ w' = w) (λ _, True)).
  { by apply wp_get. }
  intros b w' [-> ->]. destruct (running w) eqn:Er; [|done]. cbn [negb].
  apply (wp_bind_ext _ _ _ (λ _ w', logcfg w' = logcfg w ∧ heap_wf (mem w') ∧
    running w' = negb (existsb stop_signal (early t))) (λ _, True)).
  { apply wp_deliver; [done|]. intros o. split_and!; [done|done|]. cbn. by rewrite Er. }
  intros [] w0 (E0 & Hwf0 & Hr0).
  apply (wp_bind_ext _ _ _ (λ _ w', logging_wf (logcfg w') ∧ heap_wf (mem w') ∧
    running w' = negb (stop_turn t)) (λ _, True)).
  { apply wp_receive_packet; [by rewrite E0|done| |done]. intros r w' Hs Hr.
    split_and!; [by rewrite (sv_logcfg _ _ _ Hs), E0|exact (sv_wf _ _ _ Hs)|].
    unfold stop_turn. by rewrite Hr, Hr0, existsb_app, negb_orb. }
  intros r w1 (Hw1 & Hwf1 & Hr1).
  destruct (r <? 0).
  - apply (wp_bind_ext _ _ _ (λ _ w', ∃ o, w' = w1 <| out := o |>) (λ _, True)).
    { apply wp_log; [auto with clog|done|eauto]. }
    intros [] w2 [o ->].
    apply (wp_bind_ext _ _ _ (λ _ w', w' = w1 <| out := o |>) (λ _, True)); [by apply wp_get|].
    intros run w' ->. destruct run; [by apply Hext|done].
  - apply (wp_bind_ext _ _ _ (λ _ w', ∃ o, w' = w1 <| out := o |>) (λ _, True)).
    { apply wp_report_stats; [done|eauto]. }
    intros [] w2 [o ->]. by apply Hext.
Qed.

Lemma main_loop_after_stop config pre t post lost w :
  logging_wf (logcfg w) → heap_wf (mem w) → stop_turn t = true →
  main_loop os_send os_verdict config (pre ++ t :: post) lost w =
  main_loop os_send os_verdict config (pre ++ [t]) [] w.
Proof.
  intros Hw Hwf Ht. revert w Hw Hwf. induction pre as [|t' pre IH]; intros w Hw Hwf; cbn [app];
    apply main_loop_tail_ext; [done|done| |done|done|auto].
  intros w' _ _ Hr. rewrite Ht in Hr. by rewrite !main_loop_stopped.
Qed.
End serving.

(** ** What is left when [main] ends *)

(** What the open handles of a context stand for. *)
Definition release_of (ctx : netfilter_context_t) : list nfq_release :=
  (if queue_handle ctx =? 0 then [] else [DestroyQueue (queue_handle ctx)]) ++
  (if nfq_handle ctx =? 0 then [] else [CloseHandle (nfq_handle ctx)]).

Section ending.
Context {F : Type} `{PFL : PacketFilterLaws F} `{OS : !Os}.
Context (os_send : Z → list Z → Z) (os_verdict : verdict_msg → Z) (nfq : nfq_answers).
Implicit Types (w : world F).

(** [w'] is what a run that started in [w] leaves; [name] is the PID file. *)
Record ended (name : list Z) w w' : Prop := {
  en_rules : (∀ c, rules (filter w') c = rules (filter w) c) ∨ swept (filter w) (filter w');
  en_files : ∀ n, n ≠ name → files w' !! n = files w !! n;
  en_pid_file : files w' !! name = None ∨ files w' !! name = files w !! name ∨
                may_unlink name = false;
  en_closed : initialized (nfq_ctx w') = false;
  en_released : ∃ l, acquired w' = acquired w ++ l ∧ released w' = released w ++ l;
  en_blocks : blocks (mem w') = blocks (mem w);
  en_injected : injected w' = injected w
}.

(** [w] is a run that started in [w0] and has set everything up: the rules are
    in place, the queue is open, the PID file is written. *)
Record started config (name : list Z) w0 w : Prop := {
  st_logcfg : logcfg w = logcfg w0;
  st_rules : fronted (λ c, reverse (our_rules c)) (filter w0) (filter w);
  st_pid : pid w = (if daemon_mode config then child_pid else pid w0);
  st_pid_file : files w !! name = Some (dec (pid w0) ++ [10]);
  st_files : ∀ n, n ≠ name → files w !! n = files w0 !! n;
  st_open : initialized (nfq_ctx w) = true;
  st_acquired : acquired w = acquired w0 ++ release_of (nfq_ctx w);
  st_released : released w = released w0;
  st_blocks : blocks (mem w) = blocks (mem w0);
  st_wf : heap_wf (mem w);
  st_injected : injected w = injected w0
}.

Lemma served_started config name n w0 w w' :
  started config name w0 w → served n w w' → started config name w0 w'.
Proof.
  intros [] [E1 E2 E3 E4 E5 Ea E6 E7 [b E8] E9 E10 E11 _]. split; try congruence; try done.
  - by rewrite E5.
  - intros ? ?. rewrite E3. auto.
  - by rewrite E8.
  - by rewrite E8, Ea.
Qed.

(** The last message of [main] passes the filter and goes to the log file, which
    has been closed by then. *)
Definition logs_after_close (c : logging_config_t) : Prop :=
  use_file c = true ∧ use_syslog c = false ∧ LOG_LEVEL_INFO ≤ level c.

(** How a run that does not return can stop once everything is set up: the loop
    waits without having been told to stop, the packet processing faults, or the
    last message is written to the closed log file. *)
Definition stopped_serving config turns name w (e : stop F) : Prop :=
  match e with
  | Exit _ _ => False
  | Blocked w' => existsb stop_turn turns = false ∧ started config name w w'
  | Fault u => processing_fault os_send os_verdict config (used turns) u w ∨
               u = NullDeref ∧ logs_after_close (logcfg w)
  end.

(** Before that, the parent of the daemon exits. *)
Definition stopped config turns name w (e : stop F) : Prop :=
  stopped_serving config turns name w e ∨
  ∃ w', e = Exit EXIT_SUCCESS w' ∧ 0 < fork_ret ∧ daemon_mode config = true ∧
        filter w' = filter w ∧ acquired w' = acquired w ∧ released w' = released w.

Lemma wp_log_final_stats (Q : unit → world F → Prop) X w :
  logging_wf (logcfg w) → (∀ o, Q tt (w <| out := o |>)) → wp log_final_stats Q X w.
Proof.
  intros Hw HQ. unfold log_final_stats. apply pwp_bind, wp_get.
  do 3 (apply pwp_bind, wp_log; [auto with clog|done|]; intros ?).
  apply wp_log; [auto with clog|done|]. intros ?. apply HQ.
Qed.

(** The end of [serve], after the loop; [P] is what the clean-up leaves of the
    packet filter. *)
Lemma wp_shutdown (P : F → Prop) config name (Q : Z → world F → Prop) X w :
  logging_wf (logcfg w) → cstr (pid_file config) = Ok name → initialized (nfq_ctx w) = true →
  (∀ (Q : Z → world F → Prop) w1, logging_wf (logcfg w1) → filter w1 = filter w →
     (∀ f o, P f → Q 0 (w1 <| filter := f |> <| out := o |>)) → wp cleanup_firewall_rules Q X w1) →
  (∀ f o, P f →
    ¬ logs_after_close (logcfg w) →
    Q EXIT_SUCCESS
      (w <| nfq_ctx := (nfq_ctx w) <| initialized := false |> |>
         <| released := released w ++ release_of (nfq_ctx w) |> <| filter := f |>
         <| files := if may_unlink name then delete name (files w) else files w |>
         <| logcfg := (logging_cleanup (logcfg w)).1 |> <| out := o |>)) →
  (logs_after_close (logcfg w) → X (Fault NullDeref)) →
  wp (log log_info (chars "Main loop ended");;
      log_final_stats;;
      cleanup_queue;;
      cleanup_firewall_rules;;
      remove_pid_file (pid_file config);;
      cleanup_logging;;
      log log_info (chars "GoodbyeDPI stopped successfully");;
      mret EXIT_SUCCESS) Q X w.
Proof.
  intros Hw Hn Hi Hclean HQ HX.
  apply pwp_bind, wp_log; [auto with clog|done|]. intros o1.
  apply pwp_bind, wp_log_final_stats; [done|]. intros o2.
  apply pwp_bind. unfold wp at 1, cleanup_queue, netfilter_cleanup. cbn [nfq_ctx upd]. rewrite Hi.
  cbn [negb].
  apply pwp_bind, Hclean; [done|done|]. intros f o3 Hf.
  apply pwp_bind. eapply wp_remove_pid_file; [done|exact Hn|]. intros r o4.
  apply pwp_bind, wp_set, pwp_bind. unfold wp at 1, log, log_info. cbn [out logcfg upd].
  destruct (logging_cleanup_closes (logcfg w) Hw) as (c' & E & _ & Hc & El & Es & Eu).
  pose proof (log_message_closed (timestamp (length o4)) c' LOG_LEVEL_INFO
    (chars "INFO: " ++ chars "GoodbyeDPI stopped successfully") Hc) as Hm.
  rewrite El, Es, Eu in Hm. fold (logs_after_close (logcfg w)) in Hm. rewrite E in *. cbn [fst] in *.
  destruct (log_message _ c' _ _) as [l|u] eqn:El'.
  - by apply pwp_ret, (HQ f (o4 ++ l)); [|intros H%Hm].
  - assert (u = NullDeref) as ->.
    { unfold log_message in El'. repeat case_match; congruence. }
    by apply HX, Hm.
Qed.

(** What removing the PID file leaves. *)
Lemma removed_others (name : list Z) (m m0 : gmap (list Z) (list Z)) :
  (∀ n : list Z, n ≠ name → m !! n = m0 !! n) →
  ∀ n : list Z, n ≠ name → (if may_unlink name then delete name m else m) !! n = m0 !! n.
Proof. intros Hm n Hn. destruct (may_unlink name); [rewrite lookup_delete_ne by done|]; auto. Qed.

Lemma removed_pid_file (name : list Z) (m m0 : gmap (list Z) (list Z)) :
  let m' := if may_unlink name then delete name m else m in
  m' !! name = None ∨ m' !! name = m0 !! name ∨ may_unlink name = false.
Proof. cbn. destruct (may_unlink name); [left; apply lookup_delete_eq|auto]. Qed.

Lemma wp_serve config turns lost name w0 w :
  logging_wf (logcfg w0) → cstr (pid_file config) = Ok name → started config name w0 w →
  wp (serve os_send os_verdict config turns lost)
     (λ r w', r = EXIT_SUCCESS ∧ ended name w0 w' ∧
              (running w = true → existsb stop_turn turns = true) ∧ ¬ logs_after_close (logcfg w0))
     (stopped_serving config turns name w0) w.
Proof.
  intros Hw Hn Hs. assert (logging_wf (logcfg w)) as Hw' by by rewrite (st_logcfg _ _ _ _ Hs).
  unfold serve. do 3 (apply pwp_bind, wp_log; [auto with clog|done|]; intros ?).
  apply pwp_bind, wp_main_loop; [done|exact (st_wf _ _ _ _ Hs)| | |].
  2:{ intros w1 H1 Hno. split; [done|]. eapply served_started; [|exact H1]. by destruct Hs. }
  2:{ intros u Hu. left. eapply processing_fault_mono; [done|exact (st_blocks _ _ _ _ Hs)|exact Hu]. }
  intros w1 H1 Hr1 Hstop. destruct H1 as [E1 E2 E3 E4 E5 Ea E6 E7 [b E8] E9 E10 E11 _]. cbn in E1, E2, E3, E4, E5, Ea, E6, E7, E8, E9, E11.
  pose proof (st_rules _ _ _ _ Hs) as Hrules.
  apply (wp_shutdown (swept (filter w)) config name); [by rewrite E1|done| | | |].
  - rewrite E8. cbn. exact (st_open _ _ _ _ Hs).
  - intros Q1 w2 Hw2 Ef HQ. apply wp_cleanup_firewall_rules; [done|rewrite Ef, E5|by rewrite Ef, E5].
    by eapply fronted_settled.
  - intros f o' Hf Hl. rewrite E1, (st_logcfg _ _ _ _ Hs) in Hl. split_and!; [done| | |done];
      [|intros Hr; destruct Hstop; [cbn in *; congruence|done]].
    split; cbn.
    + right. by eapply fronted_swept.
    + rewrite E3. apply removed_others, (st_files _ _ _ _ Hs).
    + apply removed_pid_file.
    + done.
    + exists (release_of (nfq_ctx w)). rewrite Ea, E6, (st_released _ _ _ _ Hs), E8.
      split; [exact (st_acquired _ _ _ _ Hs)|done].
    + by rewrite E9, (st_blocks _ _ _ _ Hs).
    + by rewrite E11, (st_injected _ _ _ _ Hs).
  - rewrite E1, (st_logcfg _ _ _ _ Hs). by right.
Qed.

Lemma wp_init_queue config (Q : Z → world F → Prop) X w :
  (∀ r ctx g, (r = 0 ∧ initialized ctx = true ∧ opened nfq = release_of ctx ∨
               r = -1 ∧ initialized ctx = false) →
     Q r (w <| nfq_ctx := ctx |> <| g_packet_callback := g |>
            <| acquired := acquired w ++ opened nfq |>
            <| released := released w ++ (if r =? 0 then [] else opened nfq) |>)) →
  wp (init_queue nfq config) Q X w.
Proof.
  intros HQ. unfold wp, init_queue.
  pose proof (netfilter_init_cases nfq (nfq_ctx w) (nfqueue_num config) tt (g_packet_callback w)) as H.
  destruct (netfilter_init _ _ _ _ _) as [[[r ctx] g] rel]. destruct (granted nfq).
  - destruct H as (-> & -> & -> & (c & -> & Hi & _) & Hc). apply (HQ 0 c). left. split_and!; [done|done|].
    unfold netfilter_cleanup in Hc. rewrite Hi in Hc. by destruct Hc as (_ & <- & _).
  - destruct H as (-> & -> & -> & [c ->] & Hc). apply (HQ (-1) c). right. split; [done|].
    unfold netfilter_cleanup in Hc. by destruct (initialized c).
Qed.

(** How [main] returns when its arguments were accepted. *)
Definition finished turns name w (r : Z) w' : Prop :=
  (r = EXIT_SUCCESS ∧ (running w = true → existsb stop_turn turns = true) ∧
   ¬ logs_after_close (logcfg w) ∨ r = EXIT_FAILURE) ∧ ended name w w'.

Section starting.
Context (config : goodbyedpi_config_t) (turns : list turn) (lost : list Z) (name : list Z) (w : world F).
Context (Hw : logging_wf (logcfg w)) (Hwf : heap_wf (mem w)) (Ht : tidy (filter w)).
Context (Hc : nfq_ctx w = nf_context_zero) (Hn : cstr (pid_file config) = Ok name).
(** The files once the PID file is written. *)
Let fs : gmap (list Z) (list Z) := <[name := dec (pid w) ++ [10]]> (files w).

Lemma fs_others n : n ≠ name → fs !! n = files w !! n.
Proof. intros Hne. by apply lookup_insert_ne. Qed.

(** The exits that remove the PID file. *)
Lemma wp_exit_removing w2 :
  logging_wf (logcfg w2) → files w2 = fs →
  ((∀ c, rules (filter w2) c = rules (filter w) c) ∨ swept (filter w) (filter w2)) →
  initialized (nfq_ctx w2) = false →
  (∃ l, acquired w2 = acquired w ++ l ∧ released w2 = released w ++ l) →
  mem w2 = mem w → injected w2 = injected w →
  wp (remove_pid_file (pid_file config);; mret EXIT_FAILURE)
     (finished turns name w) (stopped config turns name w) w2.
Proof.
  intros Hw2 Ef Hr Hi Hrel Hm Hj. apply pwp_bind. eapply wp_remove_pid_file; [done|done|].
  intros r o. apply pwp_ret. split; [by right|].
  split; cbn; [done| | |done|done|by rewrite Hm|done]; rewrite Ef;
    [apply removed_others, fs_others|apply removed_pid_file].
Qed.

Lemma wp_set_up p m o :
  p = (if daemon_mode config then child_pid else pid w) →
  wp (set_up os_send os_verdict nfq config turns lost)
     (finished turns name w) (stopped config turns name w)
     (w <| files := fs |> <| pid := p |> <| fds := m |> <| out := o |>).
Proof.
  intros Hp. apply pwp_bind, wp_setup_firewall_rules; [done|done|]. cbn [filter upd].
  intros v f o3 [[-> Hf]|[-> Hf]].
  2:{ apply pwp_bind, wp_log; [auto with clog|done|]. intros o4.
      apply wp_exit_removing; cbn; [done|done|by right|by rewrite Hc| |done|done].
      by exists []; rewrite !app_nil_r. }
  apply pwp_bind, wp_init_queue. intros r ctx g [(-> & Hi & Ho)|[-> Hi]].
  2:{ apply pwp_bind, wp_log; [auto with clog|done|]. intros o4.
      apply pwp_bind, wp_cleanup_firewall_rules; [done|by eapply fronted_settled|].
      intros f' o5 Hf'. apply wp_exit_removing; cbn; [done|done| |done|by eexists|done|done].
      right. by eapply fronted_swept. }
  eapply pwp_mono; [eapply (wp_serve config turns lost name w); [done|done|]| |].
  - split; cbn; try done; [apply lookup_insert_eq|apply fs_others|by rewrite Ho|by rewrite app_nil_r].
  - cbn. intros r w' (-> & He & Hs & Hl). split; [left; auto|done].
  - intros e He. by left.
Qed.

Lemma wp_start :
  wp (start os_send os_verdict nfq config turns lost)
     (finished turns name w) (stopped config turns name w) w.
Proof.
  assert (∀ o, ended name w (w <| out := o |>)) as Hsame.
  { intros o. split; cbn; [by left|done|by right; left|by rewrite Hc| |done|done].
    by exists []; rewrite !app_nil_r. }
  apply pwp_bind, wp_install_signal_handlers; [done|]. intros r o1 [-> | ->].
  2:{ apply pwp_bind, wp_log; [auto with clog|done|]. intros o. apply pwp_ret. split; [by right|apply Hsame]. }
  apply pwp_bind. eapply wp_create_pid_file; [done|done| |].
  2:{ intros o2. apply pwp_bind, wp_log; [auto with clog|done|]. intros o. apply pwp_ret.
      split; [by right|apply Hsame]. }
  intros o2. destruct (daemon_mode config) eqn:Ed; apply pwp_bind.
  - apply wp_daemonize; [done| | |].
    + intros p o3. apply pwp_bind, wp_log; [auto with clog|done|]. intros o4.
      apply wp_exit_removing; cbn; [done|done|by left|by rewrite Hc| |done|done].
      by exists []; rewrite !app_nil_r.
    + intros Hfork. right. by eexists.
    + intros m. apply wp_set_up. by rewrite Ed.
  - apply pwp_ret. apply (wp_set_up (pid w) (fds w) o2). by rewrite Ed.
Qed.
End starting.

(** The options that make the last message of [main] pass the filter and go to a
    file. *)
Definition noisy (config : goodbyedpi_config_t) : Prop :=
  byte_at (log_file config) 0 ≠ 0 ∧ systemd_mode config = false ∧
  (verbose_mode config = true ∨ debug_mode config = true).

Lemma log_level_info config :
  LOG_LEVEL_INFO ≤ log_level config ↔ verbose_mode config = true ∨ debug_mode config = true.
Proof.
  unfold log_level, LOG_LEVEL_INFO. destruct (debug_mode config), (verbose_mode config); cbn; split;
    unfold LOG_LEVEL_DEBUG, LOG_LEVEL_INFO, LOG_LEVEL_NOTICE; intuition (discriminate || lia).
Qed.

Lemma wp_open_log config (Q : Z → world F → Prop) X w :
  config_wf config → logcfg w = logging_config →
  (∀ r c o, r = -1 ∨ r = 0 ∧ logging_wf c ∧ (logs_after_close c ↔ noisy config) →
     Q r (w <| logcfg := c |> <| out := o |>)) →
  wp (open_log (log_level config) config) Q X w.
Proof.
  intros Hwf Hl HQ. destruct (carray_cstr _ _ (wf_log config Hwf)) as (s & Hs & _).
  unfold wp, open_log. rewrite Hl.
  set (file := if byte_at (log_file config) 0 =? 0 then None else Some (log_file config)).
  set (opened := match cstr _ with Ok f => fopen_append f | UB _ => None end).
  assert (named file (if byte_at (log_file config) 0 =? 0 then [] else s)) as Hn
    by (unfold file; by destruct (_ =? 0)).
  assert (byte_at (log_file config) 0 ≠ 0 → s ≠ []) as Hne.
  { intros Hb ->. apply Hb. unfold byte_at. destruct (log_file config) as [|x l]; [done|].
    cbn in Hs |- *. destruct (Z.eqb_spec x 0); [done|]. by destruct (cstr l). }
  destruct (logging_init_ok (timestamp (length (out w))) logging_config (log_level config)
    (systemd_mode config) file opened _ logging_config_wf Hn)
    as (r & c & l & -> & El & Es & _ & Ha & Eu & Ep & Er).
  apply HQ. clear Hn HQ. unfold logs_after_close, noisy, logging_wf.
  rewrite Eu, Ep, Es, El, log_level_info. destruct (Z.eqb_spec (byte_at (log_file config) 0) 0) as [E0|E0].
  - right. cbn in Er |- *. split_and!; [done|done|done|split; by intros [? _]].
  - destruct s as [|x s]; [by destruct (Hne E0)|]. cbn in Er |- *. destruct opened.
    + right. split_and!; [done|done|eauto|]. intuition.
    + by left.
Qed.

(** The state in which [main] is entered. *)
Definition at_entry w : Prop :=
  logcfg w = logging_config ∧ heap_wf (mem w) ∧ tidy (filter w) ∧ nfq_ctx w = nf_context_zero ∧
  running w = true.

(** The command line [opts] asks for the service with configuration [config]. *)
Definition accepted open_file opts cl config : Prop :=
  parse_arguments open_file opts cl config_defaults = Ok (0, config) ∧
  config_wf config ∧ config_validate (Some config) = Ok 0.

Lemma ended_logs name w w' c o :
  ended name (w <| logcfg := c |> <| out := o |>) w' → ended name w w'.
Proof. intros []. by split. Qed.

Lemma ended_early name w c o :
  nfq_ctx w = nf_context_zero → ended name w (w <| logcfg := c |> <| out := o |>).
Proof.
  intros Hc. split; cbn; [by left|done|by right; left|by rewrite Hc| |done|done].
  by exists []; rewrite !app_nil_r.
Qed.

(** The whole program: it returns early with nothing changed but the log, or it
    runs [start] with an accepted configuration. *)
Lemma wp_main euid open_file opts cl turns lost (Q : Z → world F → Prop) X w :
  line_wf cl → Forall opt_wf opts → at_entry w →
  (∀ code name w', code = EXIT_FAILURE ∨ code = EXIT_SUCCESS ∧
     (∃ c, parse_arguments open_file opts cl config_defaults = Ok (1, c)) →
     ended name w w' → Q code w') →
  (∀ config c o name, accepted open_file opts cl config → logging_wf c →
     (logs_after_close c ↔ noisy config) → cstr (pid_file config) = Ok name →
     wp (start os_send os_verdict nfq config turns lost) Q X (w <| logcfg := c |> <| out := o |>)) →
  wp (main os_send os_verdict euid open_file nfq opts cl turns lost) Q X w.
Proof.
  intros Hcl Hopts (Hl & Hwf & Ht & Hc & Hr) HQ HX. unfold main.
  assert (∀ code, code = EXIT_FAILURE ∨ code = EXIT_SUCCESS ∧
     (∃ c, parse_arguments open_file opts cl config_defaults = Ok (1, c)) → Q code w) as Hearly.
  { intros code Hcode. apply (HQ code [] w Hcode).
    pose proof (ended_early [] w (logcfg w) (out w) Hc) as H. by destruct w. }
  destruct (euid =? 0); cbn [negb]; [|by apply pwp_ret, Hearly; left].
  apply pwp_bind. eapply wp_pure; [apply config_init_defaults|]. cbn [default].
  destruct (parse_arguments_ok open_file opts cl config_defaults Hcl (proj1 config_defaults_ok) Hopts)
    as (result & config & E & Hcfg & Hres).
  apply pwp_bind. eapply wp_pure; [exact E|]. cbv beta iota.
  destruct Hres as [-> |[-> | ->]]; cbn [Z.ltb Z.compare].
  2:{ apply pwp_ret, Hearly. right. eauto. }
  2:{ apply pwp_ret, Hearly. by left. }
  destruct (config_validate_ok config Hcfg) as (v & Ev & Hv).
  apply pwp_bind. eapply wp_pure; [exact Ev|]. destruct Hv as [[-> _]|[-> _]].
  2:{ apply pwp_ret, Hearly. by left. }
  apply pwp_bind, wp_open_log; [done|done|]. intros r c o [-> |(-> & Hwc & Hn)].
  { apply pwp_ret, (HQ _ []); [by left|by apply ended_early]. }
  destruct (carray_cstr _ _ (wf_pid config Hcfg)) as (name & Hname & _).
  by apply (HX config c o name).
Qed.
End ending.

(** ** The promises of the main loop and of main *)

Lemma used_prefix pre t post :
  stop_turn t = true → used (pre ++ t :: post) `prefix_of` pre ++ [t].
Proof.
  intros Ht. induction pre as [|t' pre IH]; cbn [used app].
  - rewrite Ht. done.
  - apply prefix_cons. destruct (stop_turn t'); [apply prefix_nil|done].
Qed.

Lemma messages_prefix l l' :
  l `prefix_of` l' → (length (messages l) ≤ length (messages l'))%nat ∧
  ∀ nfa, nfa ∈ messages l → nfa ∈ messages l'.
Proof.
  intros [k ->]. unfold messages. rewrite omap_app, length_app. split; [lia|].
  intros nfa H. apply elem_of_app. by left.
Qed.

(** C34: With a log file, without syslog, and with verbose or debug output, the service never ends well: once it is told to stop, and unless the processing of a message before that commits an undefined behaviour, it runs to the last message of [main], which is written through the null pointer that [logging_cleanup] has left.  This holds from any state in which the service runs with an open queue, as a daemon or not, and whatever iptables does. *)
Theorem noisy_shutdown_crashes {F} `{PF : PacketFilter F} `{OS : !Os} os_send os_verdict
    config turns lost name (w : world F) :
  logging_wf (logcfg w) → heap_wf (mem w) → initialized (nfq_ctx w) = true →
  cstr (pid_file config) = Ok name → logs_after_close (logcfg w) →
  existsb stop_turn turns = true →
  (∀ u, ¬ processing_fault os_send os_verdict config (used turns) u w) →
  wp (serve os_send os_verdict config turns lost) (λ _ _, False) (λ e, e = Fault NullDeref) w.
Proof.
  intros Hw Hwf Hi Hn Hl Hs Hf. unfold serve.
  do 3 (apply pwp_bind, wp_log; [auto with clog|done|]; intros ?).
  apply pwp_bind, wp_main_loop; [done|done| | |].
  - intros w1 H1 _ _. destruct (sv_ctx _ _ _ H1) as [n E]. cbn in E.
    apply (wp_shutdown (λ _, True) config name); rewrite ?(sv_logcfg _ _ _ H1); [done|done| | |done|done].
    + by rewrite E.
    + intros Q w2 Hw2 _ HQ. by apply wp_cleanup_any; [|intros; apply HQ].
  - intros w1 _ Hno. congruence.
  - intros u Hu. destruct (Hf u). by eapply processing_fault_mono.
Qed.

Section promises.
Context {F : Type} `{PFL : PacketFilterLaws F} `{OS : !Os}.
Context (os_send : Z → list Z → Z) (os_verdict : verdict_msg → Z) (nfq : nfq_answers).
Implicit Types (w : world F).

(** However SIGINT or SIGTERM comes in, while the program waits, handles a packet or is about to wait, if [recv] returns in that turn the main loop ends with it: it is never left waiting, and what would follow makes no difference.  It can only fail to end if the processing of one of the messages up to then commits an undefined behaviour. *)
Theorem main_loop_stops_on_signal config pre t post lost w :
  logging_wf (logcfg w) → heap_wf (mem w) → stop_turn t = true →
  main_loop os_send os_verdict config (pre ++ t :: post) lost w =
    main_loop os_send os_verdict config (pre ++ [t]) [] w ∧
  wp (main_loop os_send os_verdict config (pre ++ t :: post) lost)
     (λ _ w', running w' = false ∧ served (length (messages (pre ++ [t]))) w w')
     (λ e, ∃ u, e = Fault u ∧ processing_fault os_send os_verdict config (pre ++ [t]) u w) w.
Proof.
  intros Hw Hwf Ht. split; [by apply main_loop_after_stop|].
  destruct (messages_prefix _ _ (used_prefix pre t post Ht)) as [Hlen Hin].
  apply wp_main_loop; [done|done| | |].
  - intros w' Hs Hr _. split; [done|]. by eapply served_mono.
  - intros w' _ Hn. rewrite existsb_app in Hn. cbn in Hn. by rewrite Ht, orb_true_r in Hn.
  - intros u Hu. exists u. split; [done|]. by eapply processing_fault_mono.
Qed.

(** Whatever the queue delivers, whenever signals come and whichever allocations fail, the main loop leaks nothing and injects nothing: each message gives at most one verdict, which accepts a packet, the objects of the heap, the files, the descriptors, the packet filter and the open queue stay as they are, and no raw packet is ever sent, since nothing opens the raw sockets.  The loop ends only when it has been told to stop and waits for ever only when it has not been told in a turn that ended. *)
Theorem main_loop_leaks_nothing config turns lost w :
  logging_wf (logcfg w) → heap_wf (mem w) →
  let n := length (messages turns) in
  wp (main_loop os_send os_verdict config turns lost)
     (λ _ w', served n w w' ∧ running w' = false ∧
              (running w = false ∨ existsb stop_turn turns = true))
     (λ e, match e with
           | Exit _ _ => False
           | Blocked w' => served n w w' ∧ existsb stop_turn turns = false
           | Fault u => processing_fault os_send os_verdict config turns u w
           end) w.
Proof.
  intros Hw Hwf n. assert (used turns `prefix_of` turns) as [Hlen Hin]%messages_prefix.
  { induction turns as [|t turns IH]; cbn [used]; [done|]. apply prefix_cons.
    destruct (stop_turn t); [apply prefix_nil|done]. }
  apply wp_main_loop; [done|done| | |].
  - intros w' Hs Hr Hstop. split_and!; [by eapply served_mono|done|done].
  - intros w' Hs Hn. split; [by eapply served_mono|done].
  - intros u Hu. by eapply processing_fault_mono.
Qed.

(** C4: Whatever the command line, the files it names and the answers of the operating system, of iptables and of libnetfilter_queue, when [main] returns it has released everything: the packet filter is untouched or swept, that is, the foreign rules are there in their order and a rule of the program is left only if iptables refused to delete it, the PID file is gone or as it was, unless the system refuses to remove it, exactly the queue handles that libnetfilter_queue gave have been released, and the heap has the objects it had.  It returns 0 only for the help text or after a stop signal.  If it does not return, the parent of the daemon has exited with everything untouched, or it waits in the main loop with everything set up and no stop signal received, or the processing of a packet has faulted, or its last message has gone to the log file that was closed just before.  (The program's rules are at most once in the packet filter at the start; no signal kills the iptables commands, and one that fails changes nothing.) *)
Theorem main_releases_everything euid open_file opts cl turns lost w :
  line_wf cl → Forall opt_wf opts → at_entry w →
  wp (main os_send os_verdict euid open_file nfq opts cl turns lost)
     (λ code w', (∃ name, ended name w w') ∧
        (code = EXIT_FAILURE ∨
         code = EXIT_SUCCESS ∧ ((∃ c, parse_arguments open_file opts cl config_defaults = Ok (1, c)) ∨
                                existsb stop_turn turns = true)))
     (λ e, ∃ config, accepted open_file opts cl config ∧
        match e with
        | Exit code w' => code = EXIT_SUCCESS ∧ 0 < fork_ret ∧ daemon_mode config = true ∧
                          filter w' = filter w ∧ acquired w' = acquired w ∧ released w' = released w
        | Blocked w' => existsb stop_turn turns = false ∧
            (∀ c, ∃ old, rules (filter w') c = reverse (our_rules c) ++ old ∧
                         clean c old = clean c (rules (filter w) c) ∧
                         ∀ r, r ∈ our_rules c → r ∉ old ∨ refused c r) ∧
            initialized (nfq_ctx w') = true ∧
            acquired w' = acquired w ++ release_of (nfq_ctx w') ∧ released w' = released w ∧
            blocks (mem w') = blocks (mem w)
        | Fault u => processing_fault os_send os_verdict config (used turns) u w ∨
                     u = NullDeref ∧ noisy config
        end) w.
Proof.
  intros Hcl Ho He. pose proof He as (_ & Hwf & Ht & Hc & Hr). apply wp_main; [done|done|done| |].
  - intros code name w' [->|[-> Hh]] Hn; (split; [by eexists|auto]).
  - intros config c o name Ha Hwc Hn Hname.
    eapply pwp_mono; [apply (wp_start _ _ _ config turns lost name); [done..|exact Hname]| |].
    + intros r w' [Hres Hen]. split; [exists name; by eapply ended_logs|].
      destruct Hres as [(-> & Hs & _)| ->]; [right; auto|by left].
    + intros e He'. exists config. split; [done|].
      destruct He' as [He'|(w' & -> & ? & ? & ? & ? & ?)]; [|done]. destruct e; cbn in He'; [done| |].
      * destruct He' as [? [? Hrules]]. split_and!; try done.
        intros ch. destruct (Hrules ch) as (old & ? & ? & ? & _). by exists old.
      * destruct He' as [?|[-> Hlog]]; [by left|right; split; [done|by apply Hn]].
Qed.

(** As a daemon the program writes its PID file before it forks: while the daemon is serving, the file names the parent, which has exited, and not the daemon. *)
Theorem daemon_pid_file_names_parent config turns lost name w :
  logging_wf (logcfg w) → heap_wf (mem w) → tidy (filter w) → nfq_ctx w = nf_context_zero →
  cstr (pid_file config) = Ok name → daemon_mode config = true →
  wp (start os_send os_verdict nfq config turns lost) (λ _ _, True)
     (λ e, match e with
           | Blocked w' => files w' !! name = Some (dec (pid w) ++ [10]) ∧ pid w' = child_pid
           | _ => True
           end) w.
Proof.
  intros Hw Hwf Ht Hc Hn Hd.
  eapply pwp_mono; [by eapply (wp_start _ _ _ config turns lost name)|done|].
  intros e [He|(w' & -> & _)]; [|done]. destruct e; [done| |done].
  destruct He as [_ Hs]. split; [exact (st_pid_file _ _ _ _ Hs)|].
  by rewrite (st_pid _ _ _ _ Hs), Hd.
Qed.
End promises.

(** ** Runs of the program on a system that refuses nothing *)

Section runs.
#[local] Existing Instance willing_os.
#[local] Instance all_succeed : PacketFilter chain_table := chain_filter (λ _, false).
#[local] Instance all_succeed_laws : PacketFilterLaws chain_table := chain_filter_laws (λ _, false).

Definition open_queue : nfq_answers := mkAnswers 8 0 0 0 0 9 0 7.
Definition no_send (fd : Z) (bs : list Z) : Z := -1.
Definition yes_verdict (v : verdict_msg) : Z := 0.

Definition no_rules : chain_table := λ _, [].
Lemma no_rules_tidy : tidy no_rules.
Proof. intros c r _ H. cbn in H. by apply not_elem_of_nil in H. Qed.

(** A message without a packet, nothing to read, and a signal that interrupts
    the wait. *)
Definition empty_message : nfq_data := mkNfqData (Some 16777216) 0 Null.
Definition message_turn : turn := mkTurn [] 20 false (Some empty_message) 0 0 [].
Definition idle_turn : turn := mkTurn [] (-1) true None 0 0 [].
Definition signal_turn (sig : Z) : turn := mkTurn [] (-1) false None 0 0 [sig].

Definition serving : world chain_table :=
  (boot 1 no_rules) <| nfq_ctx := mkNfContext 8 9 7 0 true 0 |> <| g_packet_callback := Some tt |>.

Lemma empty_message_no_fault config turns u (w : world chain_table) :
  (∀ nfa, nfa ∈ messages turns → nfa = empty_message) →
  ¬ processing_fault no_send yes_verdict config turns u w.
Proof. by intros Hm (nfa & ctx & g & st & stale & h & ->%Hm & _ & _ & H). Qed.

(** Two messages, then SIGTERM; what follows is never looked at. *)
Lemma main_loop_stops_on_signal_witness :
  ∃ w', main_loop no_send yes_verdict config_defaults
          ([message_turn; idle_turn; message_turn] ++ signal_turn SIGTERM :: [message_turn]) [] serving
        = Ret tt w' ∧ running w' = false ∧ length (verdicts w') = 2%nat.
Proof.
  destruct (main_loop_stops_on_signal no_send yes_verdict config_defaults
    [message_turn; idle_turn; message_turn] (signal_turn SIGTERM) [message_turn] [] serving) as [_ H].
  - apply logging_config_wf.
  - apply heap_empty_wf.
  - reflexivity.
  - assert (wp (main_loop no_send yes_verdict config_defaults
      ([message_turn; idle_turn; message_turn] ++ signal_turn SIGTERM :: [message_turn]) [])
      (λ _ w', length (verdicts w') = 2%nat) (λ _, True) serving) as Hv by (vm_compute; reflexivity).
    destruct (wp_cases _ _ _ _ (wp_and _ _ _ _ _ _ H Hv))
      as [([] & w' & E & [Hr _] & Hl)|(e & _ & (u & _ & Hf) & _)].
    + exists w'. exact (conj E (conj Hr Hl)).
    + apply empty_message_no_fault in Hf; [done|].
      intros nfa [Hm|[Hm|Hm]%elem_of_cons]%elem_of_cons; [exact Hm|exact Hm|].
      by apply not_elem_of_nil in Hm.
Defined.

(** A queue that goes silent: the loop waits, and has accepted the message. *)
Lemma main_loop_leaks_nothing_witness :
  ∃ w', main_loop no_send yes_verdict config_defaults [message_turn; idle_turn] [SIGINT] serving
        = Stop (Blocked w') ∧ blocks (mem w') = ∅ ∧ injected w' = [] ∧
        (length (verdicts w') ≤ 1)%nat.
Proof.
  pose proof (main_loop_leaks_nothing no_send yes_verdict config_defaults [message_turn; idle_turn]
    [SIGINT] serving logging_config_wf heap_empty_wf) as H.
  assert (wp (main_loop no_send yes_verdict config_defaults [message_turn; idle_turn] [SIGINT])
    (λ _ _, False) (λ e, match e with Blocked _ => True | _ => False end) serving) as Hv
    by (vm_compute; reflexivity).
  destruct (wp_cases _ _ _ _ (wp_and _ _ _ _ _ _ H Hv)) as [(? & ? & _ & _ & [])|([c w'|w'|u] & E & H1 & H2)];
    [destruct H2| |destruct H2]. destruct H1 as [Hs _]. exists w'. split; [exact E|].
  split; [exact (sv_blocks _ _ _ Hs)|]. split; [exact (sv_injected _ _ _ Hs)|].
  destruct (sv_verdicts _ _ _ Hs) as (vs & -> & Hl & _). exact Hl.
Defined.

Definition at_boot : world chain_table := boot 4711 no_rules.

Lemma at_boot_entry : at_entry at_boot.
Proof. split_and!; [done|apply heap_empty_wf|apply no_rules_tidy|done|done]. Qed.

(** No options, one message, SIGINT. *)
Lemma main_releases_everything_witness :
  ∃ w' name, main no_send yes_verdict 0 (λ _, None) open_queue [] some_line
               [message_turn; signal_turn SIGINT] [] at_boot = Ret EXIT_SUCCESS w' ∧
    ended name at_boot w'.
Proof.
  pose proof (main_releases_everything no_send yes_verdict open_queue 0 (λ _, None) [] some_line
    [message_turn; signal_turn SIGINT] [] at_boot ltac:(done) (Forall_nil_2 _) at_boot_entry) as H.
  assert (wp (main no_send yes_verdict 0 (λ _, None) open_queue [] some_line
    [message_turn; signal_turn SIGINT] []) (λ code _, code = EXIT_SUCCESS) (λ _, False) at_boot) as Hv
    by (vm_compute; reflexivity).
  destruct (wp_cases _ _ _ _ (wp_and _ _ _ _ _ _ H Hv)) as [(code & w' & E & [[name Hn] _] & ->)|(e & _ & _ & [])].
  exists w', name. exact (conj E Hn).
Defined.

(** A log file and verbose output, one message and SIGTERM. *)
Lemma noisy_shutdown_crashes_witness :
  let w := serving <| logcfg := mkLogging LOG_LEVEL_INFO false true (replicate 256 0) (Some 3%nat) false |> in
  serve no_send yes_verdict config_defaults [message_turn; signal_turn SIGTERM] [] w =
    Stop (Fault NullDeref).
Proof.
  intros w.
  assert (wp (serve no_send yes_verdict config_defaults [message_turn; signal_turn SIGTERM] [])
    (λ _ _, False) (λ e, e = Fault NullDeref) w) as H.
  { apply (noisy_shutdown_crashes no_send yes_verdict config_defaults
      [message_turn; signal_turn SIGTERM] [] (chars "/run/goodbyedpi.pid") w).
    - split; [done|eauto].
    - apply heap_empty_wf.
    - reflexivity.
    - vm_compute. reflexivity.
    - done.
    - reflexivity.
    - intros u. apply empty_message_no_fault.
      intros nfa [Hm|Hm]%elem_of_cons; [exact Hm|by apply not_elem_of_nil in Hm]. }
  destruct (wp_cases _ _ _ _ H) as [(? & ? & _ & [])|(e & E & ->)]. exact E.
Defined.

(** The daemon of process 4711 is process 4712. *)
Lemma daemon_pid_file_names_parent_witness :
  ∃ w', start no_send yes_verdict open_queue (config_defaults <| daemon_mode := true |>) [] [] at_boot
        = Stop (Blocked w') ∧
        files w' !! chars "/run/goodbyedpi.pid" = Some (chars "4711" ++ [10]) ∧ pid w' = 4712.
Proof.
  assert (wp (start no_send yes_verdict open_queue (config_defaults <| daemon_mode := true |>) [] [])
    (λ _ _, True)
    (λ e, match e with
          | Blocked w' => files w' !! chars "/run/goodbyedpi.pid" = Some (dec (pid at_boot) ++ [10]) ∧
                          pid w' = child_pid
          | _ => True
          end) at_boot) as H.
  { apply daemon_pid_file_names_parent.
    - apply logging_config_wf.
    - apply heap_empty_wf.
    - apply no_rules_tidy.
    - reflexivity.
    - vm_compute. reflexivity.
    - reflexivity. }
  assert (wp (start no_send yes_verdict open_queue (config_defaults <| daemon_mode := true |>) [] [])
    (λ _ _, False) (λ e, match e with Blocked _ => True | _ => False end) at_boot) as Hv
    by (vm_compute; exact I).
  destruct (wp_cases _ _ _ _ (wp_and _ _ _ _ _ _ H Hv)) as [(? & ? & _ & _ & [])|([c w'|w'|u] & E & H1 & H2)];
    [destruct H2| |destruct H2]. exists w'. exact (conj E H1).
Defined.
End runs.
