(* ===== verification/Signals.v ===== *)
(** * src/main.c: the main loop with signals at any moment

    Main gives the main loop as a function of a list of turns, with the signals
    sorted into those that come before the wait and those that come after.  Here
    it is a step relation between the points of the loop at which a signal can
    come in; reading a message and handling it is one step, since the handler
    shares no state with it ([signal_commutes]).  The two agree
    ([steps_refine_main_loop]), and the step relation says what happens at every
    moment. *)

From S2P Require Import Prelude CString Types Packet RawSocket Evasion Processor Netfilter Callback.
From S2P Require Import Config Logging Daemon Firewall Main.

(** ** The steps *)

Inductive point : Type :=
  | Testing      (* before the test of the loop *)
  | Calling      (* the test was true, [recv] does not wait yet *)
  | Waiting      (* in [recv] *)
  | Failed       (* [netfilter_receive_packet] has returned a negative value *)
  | Retesting    (* before the second test *)
  | Reporting    (* before the statistics *)
  | Ended.

#[export] Instance point_eq_dec : EqDecision point.
Proof. solve_decision. Defined.

(** What [recv] and [nfq_handle_packet] answer. *)
Record delivery : Type := mkDelivery {
  d_received : Z;
  d_again : bool;
  d_message : option nfq_data;
  d_stale : Z;
  d_handled : Z
}.

Definition turn_of (early : list Z) (d : delivery) (late : list Z) : turn :=
  mkTurn early (d_received d) (d_again d) (d_message d) (d_stale d) (d_handled d) late.

(** [recv] fails without a message: with [EINTR], or it is not even called. *)
Definition interrupted : delivery := mkDelivery (-1) false None 0 0.

Inductive event : Type :=
  | Silent
  | Signal (sig : Z)
  | Receive (d : delivery).

Inductive conf (F : Type) : Type :=
  | At (p : point) (w : world F)
  | Halted (e : stop F).
Arguments At {F} _ _.
Arguments Halted {F} _.

(** After the run of [m], at the point [next] says. *)
Definition go {F A} (m : PM F A) (next : A → point) (w : world F) : conf F :=
  match m w with Ret a w' => At (next a) w' | Stop e => Halted e end.

Section signals.
Context {F : Type} `{PF : PacketFilter F} `{OS : !Os}.
Context (os_send : Z → list Z → Z) (os_verdict : verdict_msg → Z).
Variable config : goodbyedpi_config_t.
Notation PM := (PM F).
Notation conf := (conf F).
Implicit Types (w : world F) (c : conf) (p : point) (d : delivery) (tr : list event).

Notation receive := (receive_packet os_send os_verdict config).
Notation main_loop := (main_loop os_send os_verdict config).

Definition returned (r : Z) : point := if r <? 0 then Failed else Reporting.

(** The handlers are installed without SA_RESTART for SIGINT and SIGTERM: a signal
    that comes while [recv] waits makes it fail. *)
Inductive step : conf → event → conf → Prop :=
  | step_test w :
      step (At Testing w) Silent (go is_running (λ run : bool, if run then Calling else Ended) w)
  | step_wait w :
      initialized (nfq_ctx w) = true → step (At Calling w) Silent (At Waiting w)
  | step_refuse w :
      initialized (nfq_ctx w) = false →
      step (At Calling w) Silent (go (receive (turn_of [] interrupted [])) returned w)
  | step_receive d w :
      step (At Waiting w) (Receive d) (go (receive (turn_of [] d [])) returned w)
  | step_error w :
      step (At Failed w) Silent (go (log log_error (chars "Error receiving packet")) (λ _, Retesting) w)
  | step_retest w :
      step (At Retesting w) Silent (go is_running (λ run : bool, if run then Testing else Ended) w)
  | step_report w :
      step (At Reporting w) Silent (go (report_stats config) (λ _, Testing) w)
  | step_signal p sig w :
      stop_signal sig = true → p ≠ Waiting → p ≠ Ended →
      step (At p w) (Signal sig) (go (signal_handler sig) (λ _, p) w)
  | step_interrupt sig w :
      stop_signal sig = true →
      step (At Waiting w) (Signal sig)
        (go (signal_handler sig;; receive (turn_of [] interrupted [])) returned w).

(** Executions, with what happened. *)
Inductive steps : conf → list event → conf → Prop :=
  | steps_refl c : steps c [] c
  | steps_step c e c1 tr c2 : step c e c1 → steps c1 tr c2 → steps c (e :: tr) c2.

Lemma steps_trans c tr c1 tr1 c2 : steps c tr c1 → steps c1 tr1 c2 → steps c (tr ++ tr1) c2.
Proof. induction 1; intros; [done|]. eapply steps_step; eauto. Qed.

Lemma steps_one c e c1 : step c e c1 → steps c [e] c1.
Proof. intros. eapply steps_step; [done|constructor]. Qed.

Definition signals_in tr : list Z := omap (λ e, match e with Signal s => Some s | _ => None end) tr.
Definition received_in tr : list nfq_data :=
  omap (λ e, match e with Receive d => d_message d | _ => None end) tr.
Definition receives (e : event) : bool := match e with Receive _ => true | _ => false end.
Definition silent (e : event) : bool := match e with Silent => true | _ => false end.
Definition count (f : event → bool) tr : nat := length (List.filter f tr).

(** Where an execution may stay: the loop has ended, waits, or has halted. *)
Definition resting c : Prop := match c with At Ended _ | At Waiting _ | Halted _ => True | _ => False end.

Definition result_of c : res F unit :=
  match c with At Ended w => Ret tt w | At _ w => Stop (Blocked w) | Halted e => Stop e end.

(** ** Worlds up to the order of the log

    The order in which the handler and the loop write their lines does not
    matter to anything else; the time stamp of a line changes with its place. *)

Definition stamped (n : nat) (text : list Z) : list Z :=
  chars "[" ++ timestamp n ++ chars "] " ++ text ++ [10].

Definition has_stamp (s : sink) : bool := match s with Syslog _ => false | _ => true end.

(** The same lines, in another order and with other time stamps. *)
Inductive same_lines : list line → list line → Prop :=
  | same_order o o' : o ≡ₚ o' → same_lines o o'
  | same_stamp pre s text n n' post : has_stamp s = true →
      same_lines (pre ++ (s, stamped n text) :: post) (pre ++ (s, stamped n' text) :: post)
  | same_trans o1 o2 o3 : same_lines o1 o2 → same_lines o2 o3 → same_lines o1 o3.

#[local] Instance same_lines_equiv : Equivalence same_lines.
Proof.
  split.
  - intros o. by apply same_order.
  - intros o o'. induction 1; [by apply same_order|by apply same_stamp|by eapply same_trans].
  - intros o1 o2 o3. apply same_trans.
Qed.

Lemma same_lines_app o1 o1' o2 o2' :
  same_lines o1 o1' → same_lines o2 o2' → same_lines (o1 ++ o2) (o1' ++ o2').
Proof.
  intros H1 H2. transitivity (o1' ++ o2); [clear H2|clear H1].
  - induction H1 as [o o' H|pre s text n n' post|]; [by apply same_order; rewrite H| |by etrans].
    rewrite <- !app_assoc. by apply same_stamp.
  - induction H2 as [o o' H|pre s text n n' post|]; [by apply same_order; rewrite H| |by etrans].
    rewrite !app_assoc. by apply same_stamp.
Qed.

Lemma same_lines_swap o l1 l2 l1' l2' :
  same_lines l1 l1' → same_lines l2 l2' → same_lines ((o ++ l1) ++ l2) ((o ++ l2') ++ l1').
Proof.
  intros H1 H2. transitivity ((o ++ l1') ++ l2').
  - by repeat apply same_lines_app.
  - apply same_order. rewrite <- !app_assoc. by rewrite (Permutation_app_comm l1').
Qed.

(** A line without its time stamp, which ends with the first bracket. *)
Fixpoint behind_bracket (l : list Z) : list Z :=
  match l with [] => [] | c :: l => if c =? 93 then l else behind_bracket l end.

Definition unstamp (l : line) : line := if has_stamp l.1 then (l.1, behind_bracket l.2) else l.

Lemma behind_bracket_app l l' : 93 ∉ l → behind_bracket (l ++ 93 :: l') = l'.
Proof.
  induction l as [|c l IH]; [done|]. intros [Hc Hl]%not_elem_of_cons. cbn.
  rewrite (proj2 (Z.eqb_neq c 93)) by done. by apply IH.
Qed.

(** If time stamps hold no bracket, the lines are the same but for their order
    and their time stamps. *)
Lemma same_lines_texts o o' :
  (∀ n, 93 ∉ timestamp n) → same_lines o o' → unstamp <$> o ≡ₚ unstamp <$> o'.
Proof.
  intros Ht. induction 1 as [o o' H|pre s text n n' post Hs|]; [by rewrite H| |by etrans].
  assert (∀ n, unstamp (s, stamped n text) = (s, chars " " ++ text ++ [10])) as E.
  { intros k. unfold unstamp. cbn [fst snd]. rewrite Hs. unfold stamped.
    change (chars "] " ++ text ++ [10]) with (93 :: chars " " ++ text ++ [10]).
    rewrite app_assoc, behind_bracket_app; [done|]. apply not_elem_of_app. split; [vm_decide|done]. }
  by rewrite !fmap_app, !fmap_cons, !E.
Qed.

(** Equal but for the order and the time stamps of the lines. *)
Definition same_log w w' : Prop :=
  logging_wf (logcfg w) ∧ ∃ o, w' = w <| out := o |> ∧ same_lines (out w) o.
Infix "≈" := same_log (at level 70).

#[local] Instance same_log_sym : Symmetric same_log.
Proof. intros w w' [Hw (o & -> & Ho)]. split; [done|]. exists (out w). by destruct w. Qed.

#[local] Instance same_log_trans : Transitive same_log.
Proof.
  intros w1 w2 w3 [Hw (o & -> & Ho)] [_ (o' & -> & Ho')]. split; [done|]. exists o'.
  split; [done|]. by etrans.
Qed.

Lemma same_log_refl w : logging_wf (logcfg w) → w ≈ w.
Proof. intros Hw. split; [done|]. exists (out w). by destruct w. Qed.

Lemma same_log_out w o o' :
  logging_wf (logcfg w) → same_lines o o' → w <| out := o |> ≈ w <| out := o' |>.
Proof. intros Hw Ho. split; [done|]. by exists o'. Qed.

Definition stop_rel (e e' : stop F) : Prop :=
  match e, e' with
  | Exit c w, Exit c' w' => c = c' ∧ w ≈ w'
  | Blocked w, Blocked w' => w ≈ w'
  | Fault u, Fault u' => u = u'
  | _, _ => False
  end.

Definition res_rel {A} (r r' : res F A) : Prop :=
  match r, r' with
  | Ret a w, Ret a' w' => a = a' ∧ w ≈ w'
  | Stop e, Stop e' => stop_rel e e'
  | _, _ => False
  end.

Lemma stop_rel_trans e1 e2 e3 : stop_rel e1 e2 → stop_rel e2 e3 → stop_rel e1 e3.
Proof.
  destruct e1, e2, e3; cbn; try done; [|by etrans|by intros ->].
  intros [-> H1] [-> H2]. split; [done|]. by etrans.
Qed.

Lemma res_rel_trans {A} (r1 r2 r3 : res F A) : res_rel r1 r2 → res_rel r2 r3 → res_rel r1 r3.
Proof.
  destruct r1, r2, r3; cbn; try done; [|apply stop_rel_trans].
  intros [-> H1] [-> H2]. split; [done|]. by etrans.
Qed.

(** Programs that do not look at the lines written. *)
Class LogBlind {A} (m : PM A) : Prop := log_blind w w' : w ≈ w' → res_rel (m w) (m w').

#[local] Instance ret_blind {A} (a : A) : LogBlind (mret a).
Proof. intros w w' H. by split. Qed.

#[local] Instance bind_blind {A B} (m : PM A) (k : A → PM B) :
  LogBlind m → (∀ a, LogBlind (k a)) → LogBlind (m ≫= k).
Proof.
  intros Hm Hk w w' H. specialize (Hm w w' H). unfold mbind, PM_bind.
  destruct (m w), (m w'); try done. destruct Hm as [-> Hw]. by apply Hk.
Qed.

#[local] Instance block_blind {A} : LogBlind (block (A := A)).
Proof. by intros w w' H. Qed.

Lemma get_blind {A} (f : world F → A) : (∀ w o, f (w <| out := o |>) = f w) → LogBlind (get f).
Proof. intros Hf w w' [Hw (o & -> & Ho)]. cbn. rewrite Hf. split; [done|]. split; [done|by exists o]. Qed.

Lemma set_blind (f : world F → world F) :
  (∀ w o, f (w <| out := o |>) = (f w) <| out := o |>) → (∀ w, logcfg (f w) = logcfg w) →
  (∀ w, out (f w) = out w) → LogBlind (set f).
Proof.
  intros Hf Hc Ho w w' [Hw (o & -> & Hs)]. cbn. split; [done|]. split; [by rewrite Hc|].
  exists o. by rewrite Hf, Ho.
Qed.

(** A log call writes the same lines whatever was written before. *)
Definition stamps (call : list Z → logging_config_t → list Z → outcome (list line)) : Prop :=
  logs call ∧ ∀ n n' (lc : logging_config_t) text l l',
    call (timestamp n) lc text = Ok l → call (timestamp n') lc text = Ok l' →
    same_lines l l'.

Lemma log_message_stamps n n' (lc : logging_config_t) priority text l l' :
  log_message (timestamp n) lc priority text = Ok l →
  log_message (timestamp n') lc priority text = Ok l' → same_lines l l'.
Proof.
  unfold log_message. destruct (_ <? _); [by intros [= <-] [= <-]|].
  destruct (use_syslog lc); [by intros [= <-] [= <-]|].
  destruct (use_file lc); [destruct (log_fp lc); [|done]|];
    intros [= <-] [= <-]; by apply (same_stamp [] _ _ _ _ []).
Qed.

Lemma log_info_stamps : stamps log_info.
Proof. split; [apply log_info_logs|]. intros n n' lc text l l'. apply log_message_stamps. Qed.
Lemma log_error_stamps : stamps log_error.
Proof. split; [apply log_error_logs|]. intros n n' lc text l l'. apply log_message_stamps. Qed.
Lemma log_packet_stats_stamps n1 n2 n3 : stamps (λ ts lc _, log_packet_stats ts lc n1 n2 n3).
Proof.
  split; [intros ts lc _; apply log_info_logs|]. intros n n' lc _ l l'. apply log_message_stamps.
Qed.

(** [m] only writes lines, the same whatever was written before and whether the
    loop is to go on. *)
Class Writes (m : PM unit) : Prop :=
  writes w : logging_wf (logcfg w) → ∃ l, ∀ o b, ∃ l', same_lines l l' ∧
    m (w <| out := o |> <| running := b |>) = Ret tt (w <| out := o ++ l' |> <| running := b |>).

Lemma log_writes call text : stamps call → Writes (log call text).
Proof.
  intros [Hc Hs] w Hw. destruct (Hc (timestamp 0) (logcfg w) text Hw) as [l E]. exists l. intros o b.
  destruct (Hc (timestamp (length o)) (logcfg w) text Hw) as [l' E']. exists l'.
  split; [by eapply Hs|]. unfold log. cbn. by rewrite E'.
Qed.

#[local] Instance log_error_writes text : Writes (log log_error text).
Proof. apply log_writes, log_error_stamps. Qed.
#[local] Instance log_info_writes text : Writes (log log_info text).
Proof. apply log_writes, log_info_stamps. Qed.
#[local] Instance report_stats_writes : Writes (report_stats config).
Proof.
  intros w Hw. unfold report_stats, mbind, PM_bind, get.
  destruct ((packets_processed (counters w) mod 1000 =? 0) && verbose_mode config) eqn:E.
  - destruct (log_writes _ [] (log_packet_stats_stamps (packets_processed (counters w))
      (packets_modified (counters w)) (bytes_processed (counters w))) w Hw) as [l H].
    exists l. intros o b. destruct (H o b) as (l' & Hl & E'). exists l'. split; [done|].
    cbn [counters upd] in *. by rewrite E.
  - exists []. intros o b. exists []. split; [done|]. cbn [counters upd] in *. rewrite E. by rewrite app_nil_r.
Qed.

Lemma writes_run (m : PM unit) `{!Writes m} w :
  logging_wf (logcfg w) → ∃ l, m w = Ret tt (w <| out := out w ++ l |>).
Proof.
  intros Hw. destruct (writes w Hw) as [l H]. destruct (H (out w) (running w)) as (l' & _ & E).
  exists l'. by destruct w.
Qed.

Lemma writes_blind (m : PM unit) : Writes m → LogBlind m.
Proof.
  intros Hm w w' [Hw (o & -> & Ho)]. destruct (Hm w Hw) as [l H].
  destruct (H (out w) (running w)) as (l1 & H1 & E1). destruct (H o (running w)) as (l2 & H2 & E2).
  assert (m w = Ret tt (w <| out := out w ++ l1 |>)) as -> by (rewrite <- E1 at 1; by destruct w).
  assert (m (w <| out := o |>) = Ret tt (w <| out := o ++ l2 |>)) as -> by by destruct w.
  split; [done|]. apply same_log_out; [done|]. apply same_lines_app; [done|]. by etrans.
Qed.

#[local] Instance is_running_blind : LogBlind is_running.
Proof. by apply get_blind. Qed.
#[local] Instance log_info_blind text : LogBlind (log log_info text).
Proof. apply writes_blind, _. Qed.
#[local] Instance log_error_blind text : LogBlind (log log_error text).
Proof. apply writes_blind, _. Qed.

#[local] Instance signal_handler_blind sig : LogBlind (signal_handler sig).
Proof.
  unfold signal_handler. destruct (_ =? _); [|destruct (_ =? _); [|apply _]];
    (apply bind_blind; [apply _|intros _; by apply set_blind]).
Qed.

#[local] Instance deliver_blind sigs : LogBlind (deliver sigs).
Proof. induction sigs; cbn [deliver]; apply _. Qed.

#[local] Instance handle_message_blind stale nfa :
  LogBlind (handle_message os_send os_verdict config stale nfa).
Proof.
  intros w w' [Hw (o & -> & Ho)]. unfold handle_message. cbn.
  destruct (callback_of _ _ _ _ _ _ _ _ _) as [[[[v vs] [s st]] h]|u]; [|done].
  split; [done|]. split; [done|]. by exists o.
Qed.

#[local] Instance receive_blind t : LogBlind (receive t).
Proof.
  unfold receive_packet. apply bind_blind; [by apply get_blind|]. intros ctx.
  destruct (netfilter_receive_packet _ _ _ _) as [r ctx'].
  apply bind_blind; [by apply set_blind|]. intros _. apply bind_blind; [|apply _].
  destruct (message t); [|apply _]. destruct (_ && _); apply _.
Qed.

#[local] Instance report_stats_blind : LogBlind (report_stats config).
Proof. apply writes_blind, _. Qed.

#[local] Instance main_loop_blind turns lost : LogBlind (main_loop turns lost).
Proof.
  induction turns as [|t turns IH]; cbn [Main.main_loop]; apply bind_blind; [apply _| |apply _|];
    intros run; (destruct (negb run); [apply _|]); [apply _|].
  apply bind_blind; [apply _|]. intros _. apply bind_blind; [apply _|]. intros r.
  destruct (r <? 0); apply bind_blind; [apply _| |apply _|intros _; exact IH].
  intros _. apply bind_blind; [apply _|]. intros run'. destruct (negb run'); [apply _|exact IH].
Qed.

(** ** What the pieces of the loop do to the log and the flag *)

Lemma signal_handler_sets sig w :
  logging_wf (logcfg w) →
  ∃ l, ∀ o b, ∃ l', same_lines l l' ∧
    signal_handler sig (w <| out := o |> <| running := b |>) =
      Ret tt (w <| out := o ++ l' |> <| running := b && negb (stop_signal sig) |>).
Proof.
  intros Hw. unfold signal_handler, stop_signal.
  destruct (log_info_writes (chars "Received SIGINT, shutting down gracefully") w Hw) as [l1 H1].
  destruct (log_info_writes (chars "Received SIGTERM, shutting down gracefully") w Hw) as [l2 H2].
  destruct (sig =? SIGINT); [|destruct (sig =? SIGTERM)]; cbn [orb negb].
  - exists l1. intros o b. destruct (H1 o b) as (l' & Hl & E). exists l'. split; [done|].
    unfold mbind, PM_bind. rewrite E, andb_false_r. done.
  - exists l2. intros o b. destruct (H2 o b) as (l' & Hl & E). exists l'. split; [done|].
    unfold mbind, PM_bind. rewrite E, andb_false_r. done.
  - exists []. intros o b. exists []. split; [done|]. by rewrite app_nil_r, andb_true_r.
Qed.

Lemma deliver_sets sigs w :
  logging_wf (logcfg w) →
  ∃ l, ∀ o b, ∃ l', same_lines l l' ∧
    deliver sigs (w <| out := o |> <| running := b |>) =
      Ret tt (w <| out := o ++ l' |> <| running := b && negb (existsb stop_signal sigs) |>).
Proof.
  intros Hw. induction sigs as [|sig sigs [l IH]]; cbn [deliver existsb].
  - exists []. intros o b. exists []. split; [done|]. by rewrite app_nil_r, andb_true_r.
  - destruct (signal_handler_sets sig w Hw) as [l0 H0]. exists (l0 ++ l). intros o b.
    destruct (H0 o b) as (l1 & Hl1 & E1). destruct (IH (o ++ l1) (b && negb (stop_signal sig))) as (l2 & Hl2 & E2).
    exists (l1 ++ l2). split; [by apply same_lines_app|]. unfold mbind, PM_bind. rewrite E1, E2.
    by rewrite negb_orb, andb_assoc, app_assoc.
Qed.

Lemma deliver_run sigs w :
  logging_wf (logcfg w) →
  ∃ l, deliver sigs w =
    Ret tt (w <| out := out w ++ l |> <| running := running w && negb (existsb stop_signal sigs) |>).
Proof.
  intros Hw. destruct (deliver_sets sigs w Hw) as [l H]. destruct (H (out w) (running w)) as (l' & _ & E).
  exists l'. by destruct w.
Qed.

(** Signals may come before or after a line is written. *)
Lemma writes_commutes (m k : PM unit) sigs w w1 :
  Writes m → LogBlind k → logging_wf (logcfg w) → m w = Ret tt w1 →
  res_rel ((deliver sigs;; m;; k) w) ((deliver sigs;; k) w1).
Proof.
  intros Hm Hk Hw E. destruct (Hm w Hw) as [lm Lm]. destruct (deliver_sets sigs w Hw) as [ld Ld].
  destruct (Lm (out w) (running w)) as (l1 & H1 & E1).
  assert (w = w <| out := out w |> <| running := running w |>) as Ew by by destruct w.
  rewrite <- Ew, E in E1. injection E1 as ->.
  destruct (Ld (out w ++ l1) (running w)) as (l2 & H2 & E2).
  destruct (Ld (out w) (running w)) as (l3 & H3 & E3). rewrite <- Ew in E3.
  unfold mbind, PM_bind. rewrite E2, E3.
  destruct (Lm (out w ++ l3) (running w && negb (existsb stop_signal sigs))) as (l4 & H4 & ->).
  apply Hk. split; [done|]. eexists. split; [done|]. cbn.
  apply same_lines_swap; [by etrans|by etrans].
Qed.

(** A log call looks at the log and its configuration only. *)
Lemma log_at call text w :
  logs call → logging_wf (logcfg w) →
  ∃ o, ∀ w', logcfg w' = logcfg w → out w' = out w → log call text w' = Ret tt (w' <| out := o |>).
Proof.
  intros Hc Hw. destruct (Hc (timestamp (length (out w))) _ text Hw) as [l E].
  exists (out w ++ l). intros w' Ec Eo. unfold log. by rewrite Ec, Eo, E.
Qed.

Lemma signal_handler_at sig w :
  logging_wf (logcfg w) →
  ∃ o b, ∀ w', logcfg w' = logcfg w → out w' = out w → running w' = running w →
    signal_handler sig w' = Ret tt (w' <| out := o |> <| running := b |>).
Proof.
  intros Hw. unfold signal_handler.
  destruct (log_at log_info (chars "Received SIGINT, shutting down gracefully") w log_info_logs Hw) as [o1 E1].
  destruct (log_at log_info (chars "Received SIGTERM, shutting down gracefully") w log_info_logs Hw) as [o2 E2].
  destruct (sig =? SIGINT); [|destruct (sig =? SIGTERM)].
  - exists o1, false. intros w' Hc Ho _. unfold mbind, PM_bind. by rewrite E1.
  - exists o2, false. intros w' Hc Ho _. unfold mbind, PM_bind. by rewrite E2.
  - exists (out w), (running w). intros w' _ <- <-. by destruct w'.
Qed.

(** The handler also commutes with the handling of a message: they touch
    different parts of the state. *)
Lemma signal_commutes sig stale nfa w :
  logging_wf (logcfg w) →
  (signal_handler sig;; handle_message os_send os_verdict config stale nfa) w =
  (handle_message os_send os_verdict config stale nfa;; signal_handler sig) w.
Proof.
  intros Hw. destruct (signal_handler_at sig w Hw) as (o & b & Hs).
  unfold mbind, PM_bind, handle_message. rewrite (Hs w) by done. cbn.
  destruct (callback_of _ _ _ _ _ _ _ _ _) as [[[[v vs] [s st]] h]|u]; [|done].
  by rewrite Hs.
Qed.

(** ** From executions to turns *)

(** The loop from the point after [netfilter_receive_packet] on. *)
Definition turn_rest (r : Z) (turns : list turn) (lost : list Z) : PM unit :=
  if r <? 0 then
    log log_error (chars "Error receiving packet");;
    run ← is_running;
    if negb run then mret tt else main_loop turns lost
  else report_stats config;; main_loop turns lost.

(** The loop from a point on: [sigs] are the signals still to come before the
    next test, the turns what happens after it. *)
Definition resume p (sigs : list Z) (turns : list turn) (lost : list Z) : PM unit :=
  match p with
  | Testing => deliver sigs;; main_loop turns lost
  | Calling | Waiting =>
      match turns with
      | [] => deliver lost;; block
      | t :: turns => deliver (early t);; r ← receive t; turn_rest r turns lost
      end
  | Failed => deliver sigs;; turn_rest (-1) turns lost
  | Retesting => deliver sigs;; run ← is_running; if negb run then mret tt else main_loop turns lost
  | Reporting => deliver sigs;; turn_rest 0 turns lost
  | Ended => mret tt
  end.

Definition turn_signals (turns : list turn) : list Z := concat ((λ t, early t ++ late t) <$> turns).

(** [sigs], [turns] and [lost] stand for what happens in [tr] from [p] on. *)
Record plan p tr (sigs : list Z) (turns : list turn) (lost : list Z) : Prop := mkPlan {
  pl_signals : signals_in tr = sigs ++ turn_signals turns ++ lost;
  pl_received : received_in tr = messages turns;
  pl_calling : p = Calling ∨ p = Waiting ∨ p = Ended → sigs = [];
  pl_waiting : p = Waiting → match turns with [] => lost = [] | t :: _ => early t = [] end
}.

Definition simulated c tr c' : Prop :=
  match c with
  | Halted e => tr = [] ∧ c' = Halted e
  | At p w => logging_wf (logcfg w) →
      ∃ sigs turns lost, plan p tr sigs turns lost ∧ res_rel (resume p sigs turns lost w) (result_of c')
  end.

Lemma main_loop_unfold turns lost w :
  running w = true → main_loop turns lost w = resume Calling [] turns lost w.
Proof.
  intros Hr. destruct turns; cbn [Main.main_loop resume]; unfold mbind at 1, PM_bind at 1, is_running, get;
    by rewrite Hr.
Qed.

(** The late signals of a turn come after the rest of it. *)
Lemma receive_late d sigs w :
  receive (turn_of [] d sigs) w = (r ← receive (turn_of [] d []); deliver sigs;; mret r) w.
Proof.
  unfold receive_packet, turn_of. cbn [received again handled message stale_id late deliver].
  unfold mbind, PM_bind, get, set.
  destruct (netfilter_receive_packet _ _ _ _) as [r ctx'].
  destruct (d_message d) as [nfa|]; [|done]. destruct (_ && _); [|done].
  by destruct (handle_message _ _ _ _ nfa _).
Qed.

Lemma turn_rest_returned r turns lost sigs w :
  (deliver sigs;; turn_rest r turns lost) w = resume (returned r) sigs turns lost w.
Proof. unfold returned, turn_rest. by destruct (r <? 0) eqn:E. Qed.

Lemma steps_halted e tr c' : steps (Halted e) tr c' → tr = [] ∧ c' = Halted e.
Proof. inversion 1 as [|? ? ? ? ? Hs]; [done|inversion Hs]. Qed.

Lemma steps_ended w tr c' : steps (At Ended w) tr c' → tr = [] ∧ c' = At Ended w.
Proof. inversion 1 as [|? ? ? ? ? Hs]; [done|by inversion Hs]. Qed.

Lemma sim_test w tr c' :
  steps (go is_running (λ run : bool, if run then Calling else Ended) w) tr c' →
  simulated (go is_running (λ run : bool, if run then Calling else Ended) w) tr c' →
  simulated (At Testing w) (Silent :: tr) c'.
Proof.
  cbn. intros Hs Hsim Hw. destruct (running w) eqn:Er.
  - destruct (Hsim Hw) as (sigs & turns & lost & [H1 H2 H3 _] & H). rewrite H3 in H1 by auto.
    exists [], turns, lost. split; [by split|]. cbn. unfold mbind, PM_bind. cbn.
    by rewrite main_loop_unfold.
  - apply steps_ended in Hs as [-> ->]. exists [], [], []. split; [by split|].
    cbn. unfold mbind, PM_bind, is_running, get. cbn. rewrite Er. split; [done|by apply same_log_refl].
Qed.

Lemma resume_turn p d sigs turns lost w :
  p = Calling ∨ p = Waiting →
  resume p [] (turn_of [] d sigs :: turns) lost w =
  (r ← receive (turn_of [] d []); resume (returned r) sigs turns lost) w.
Proof.
  intros Hp. transitivity ((r ← receive (turn_of [] d sigs); turn_rest r turns lost) w).
  { by destruct Hp as [-> | ->]. }
  unfold mbind, PM_bind. rewrite receive_late. unfold mbind, PM_bind.
  destruct (receive _ w) as [r w1|e]; [|done]. rewrite <- turn_rest_returned.
  unfold mbind, PM_bind. by destruct (deliver sigs w1).
Qed.

(** A turn without early signals, of which [receive] is the first step. *)
Lemma sim_turn p d e w tr c' :
  p = Calling ∨ p = Waiting → signals_in [e] = [] → received_in [e] = option_list (d_message d) →
  steps (go (receive (turn_of [] d [])) returned w) tr c' →
  simulated (go (receive (turn_of [] d [])) returned w) tr c' →
  simulated (At p w) (e :: tr) c'.
Proof.
  intros Hp Hes Her Hs Hsim Hw. pose proof (receive_blind (turn_of [] d []) w w (same_log_refl w Hw)) as Hb.
  change (e :: tr) with ([e] ++ tr). unfold signals_in, received_in in Hes, Her.
  unfold go in *. destruct (receive (turn_of [] d []) w) as [r w1|e'] eqn:E.
  - destruct Hb as [_ [Hw1 _]]. destruct (Hsim Hw1) as (sigs & turns & lost & [H1 H2 H3 _] & H).
    exists [], (turn_of [] d sigs :: turns), lost. split.
    + split; [| |done|done]; unfold signals_in, received_in in *; rewrite omap_app.
      * rewrite Hes, H1. unfold turn_signals. cbn. by rewrite <- app_assoc.
      * by rewrite Her, H2, messages_cons.
    + rewrite resume_turn by done. unfold mbind, PM_bind. by rewrite E.
  - apply steps_halted in Hs as [-> ->]. exists [], [turn_of [] d []], []. split.
    + split; [| |done|done]; unfold signals_in, received_in; rewrite omap_app.
      * by rewrite Hes.
      * by rewrite Her, messages_cons.
    + rewrite resume_turn by done. unfold mbind, PM_bind. by rewrite E.
Qed.

(** A step that writes a line. *)
Lemma sim_line p p1 (m : PM unit) (k : list turn → list Z → PM unit) w tr c' :
  Writes m → (∀ turns lost, LogBlind (k turns lost)) →
  p ∉ [Calling; Waiting; Ended] → 
  (∀ sigs turns lost, resume p sigs turns lost = (deliver sigs;; m;; k turns lost)) →
  (∀ sigs turns lost, resume p1 sigs turns lost = (deliver sigs;; k turns lost)) →
  simulated (go m (λ _, p1) w) tr c' → simulated (At p w) (Silent :: tr) c'.
Proof.
  intros Hm Hk Hp Ep Ep1 Hsim Hw. destruct (writes_run m w Hw) as [o E]. unfold go in Hsim. rewrite E in Hsim.
  destruct (Hsim Hw) as (sigs & turns & lost & [H1 H2 _ _] & H). exists sigs, turns, lost. split.
  - split; [done|done| |]; intros; exfalso; apply Hp; set_solver.
  - rewrite Ep. rewrite Ep1 in H. eapply res_rel_trans; [|exact H]. by apply writes_commutes.
Qed.

Lemma sim_error w tr c' :
  simulated (go (log log_error (chars "Error receiving packet")) (λ _, Retesting) w) tr c' →
  simulated (At Failed w) (Silent :: tr) c'.
Proof.
  eapply sim_line with (k := λ turns lost, run ← is_running; if negb run then mret tt else main_loop turns lost);
    try done; [apply _| |vm_decide].
  intros. apply bind_blind; [apply _|]. intros run. destruct (negb run); apply _.
Qed.

Lemma sim_report w tr c' :
  simulated (go (report_stats config) (λ _, Testing) w) tr c' → simulated (At Reporting w) (Silent :: tr) c'.
Proof. eapply sim_line with (k := main_loop); try done; [apply _|apply _|vm_decide]. Qed.

Lemma sim_retest w tr c' :
  steps (go is_running (λ run : bool, if run then Testing else Ended) w) tr c' →
  simulated (go is_running (λ run : bool, if run then Testing else Ended) w) tr c' →
  simulated (At Retesting w) (Silent :: tr) c'.
Proof.
  cbn. intros Hs Hsim Hw. destruct (running w) eqn:Er.
  - destruct (Hsim Hw) as (sigs & turns & lost & [H1 H2 _ _] & H). exists sigs, turns, lost. split.
    { split; [done|done|by intros [|[]]|done]. }
    cbn [resume] in *. destruct (deliver_run sigs w Hw) as [o E].
    unfold mbind, PM_bind in *. rewrite E in *. cbn.
    destruct (running w && _) eqn:Er'; cbn [negb]; [done|]. by rewrite main_loop_stopped in H.
  - apply steps_ended in Hs as [-> ->]. exists [], [], []. split; [split; by try intros [|[]]|].
    cbn. unfold mbind, PM_bind, is_running, get. cbn. rewrite Er. split; [done|by apply same_log_refl].
Qed.

Lemma receive_interrupted w : receive (turn_of [] interrupted []) w = Ret (-1) w.
Proof.
  unfold receive_packet, mbind, PM_bind, get, set. cbn. destruct (initialized (nfq_ctx w)); by destruct w.
Qed.

(** The first of the signals still to come. *)
Lemma resume_signal p sig sigs turns lost w w1 :
  p ∉ [Calling; Waiting; Ended] → signal_handler sig w = Ret tt w1 →
  resume p (sig :: sigs) turns lost w = resume p sigs turns lost w1.
Proof.
  intros Hp E. destruct p; try (exfalso; apply Hp; vm_decide); cbn [resume deliver];
    unfold mbind, PM_bind; by rewrite E.
Qed.

Lemma go_handler sig (next : unit → point) w :
  logging_wf (logcfg w) →
  ∃ w1, signal_handler sig w = Ret tt w1 ∧ logging_wf (logcfg w1) ∧ go (signal_handler sig) next w = At (next tt) w1.
Proof.
  intros Hw. destruct (signal_handler_at sig w Hw) as (o & b & E). specialize (E w eq_refl eq_refl eq_refl).
  eexists. split; [exact E|]. split; [done|]. unfold go. by rewrite E.
Qed.

Lemma sim_signal p sig w tr c' :
  p ≠ Waiting → p ≠ Ended →
  simulated (go (signal_handler sig) (λ _, p) w) tr c' → simulated (At p w) (Signal sig :: tr) c'.
Proof.
  intros Hp1 Hp2 Hsim Hw. destruct (go_handler sig (λ _, p) w Hw) as (w1 & E & Hw1 & Eg).
  rewrite Eg in Hsim. destruct (Hsim Hw1) as (sigs & turns & lost & [H1 H2 H3 _] & H).
  assert (signals_in (Signal sig :: tr) = sig :: signals_in tr) as Hsig by done.
  destruct (decide (p = Calling)) as [->|Hp3].
  - rewrite H3 in H1 by auto. cbn [resume] in H. destruct turns as [|t turns].
    + exists [], [], (sig :: lost). split; [split; [by rewrite Hsig, H1|done..]|].
      cbn [resume deliver]. unfold mbind, PM_bind in *. by rewrite E.
    + exists [], (mkTurn (sig :: early t) (received t) (again t) (message t) (stale_id t) (handled t) (late t) :: turns), lost.
      split; [split; [by rewrite Hsig, H1|done..]|].
      cbn [resume deliver early]. unfold mbind, PM_bind in *. by rewrite E.
  - exists (sig :: sigs), turns, lost. split.
    + split; [by rewrite Hsig, H1|done|naive_solver|naive_solver].
    + rewrite (resume_signal p sig _ _ _ _ w1); [done| |done].
      rewrite !elem_of_cons, elem_of_nil. naive_solver.
Qed.

Lemma sim_interrupt sig w tr c' :
  simulated (go (signal_handler sig;; receive (turn_of [] interrupted [])) returned w) tr c' →
  simulated (At Waiting w) (Signal sig :: tr) c'.
Proof.
  intros Hsim Hw. destruct (go_handler sig (λ _, Failed) w Hw) as (w1 & E & Hw1 & _).
  unfold go, mbind, PM_bind in Hsim. rewrite E, receive_interrupted in Hsim.
  destruct (Hsim Hw1) as (sigs & turns & lost & [H1 H2 _ _] & H).
  exists [], (turn_of [] interrupted (sig :: sigs) :: turns), lost. split.
  - split; [|done..]. change (signals_in (Signal sig :: tr)) with (sig :: signals_in tr).
    rewrite H1. unfold turn_signals. cbn. by rewrite <- app_assoc.
  - rewrite resume_turn by auto. unfold mbind, PM_bind. rewrite receive_interrupted.
    by rewrite (resume_signal Failed sig _ _ _ _ w1) by (done || vm_decide).
Qed.

Lemma steps_simulated c tr c' : steps c tr c' → resting c' → simulated c tr c'.
Proof.
  induction 1 as [c|c e c1 tr c' Hstep Hs IH]; intros Hrest.
  - destruct c as [p w|e]; [|done]. intros Hw. exists [], [], [].
    destruct p; try done; (split; [by split|]); cbn; [|split; [done|]]; by apply same_log_refl.
  - specialize (IH Hrest). destruct Hstep.
    + by apply sim_test.
    + intros Hw. destruct (IH Hw) as (sigs & turns & lost & [H1 H2 H3 _] & Hr). rewrite H3 in * by auto.
      exists [], turns, lost. split; [by split|done].
    + eapply (sim_turn _ interrupted); [by left|done|done|done|done].
    + eapply (sim_turn _ d); [by right|done|cbn; by destruct (d_message d)|done|done].
    + by apply sim_error.
    + by apply sim_retest.
    + by apply sim_report.
    + by apply sim_signal.
    + by apply sim_interrupt.
Qed.

(** ** From turns to executions *)

Definition delivery_of (t : turn) : delivery :=
  mkDelivery (received t) (again t) (message t) (stale_id t) (handled t).

(** The log is usable and the queue is open. *)
Definition ready w : Prop := logging_wf (logcfg w) ∧ initialized (nfq_ctx w) = true.

(** What an execution shows of a run: the signals that matter and the messages
    read, in the order in which they came. *)
Definition visible tr : list event := List.filter (λ e, negb (silent e)) tr.
Definition stops (sigs : list Z) : list event := Signal <$> List.filter stop_signal sigs.
Definition events_of (t : turn) : list event :=
  stops (early t) ++ [Receive (delivery_of t)] ++ stops (late t).
Definition events (turns : list turn) : list event := concat (events_of <$> turns).

(** [es] is what the loop with result [r] makes of the turns: a loop that ends
    has taken some of them, one that waits all of them, and one that faults has
    met the fault at a message. *)
Definition explains (turns : list turn) (lost : list Z) (r : res F unit) (es : list event) : Prop :=
  match r with
  | Ret _ _ => ∃ n, es = events (take n turns)
  | Stop (Blocked _) => es = events turns ++ stops lost
  | Stop (Fault _) => ∃ n t, turns !! n = Some t ∧
      es = events (take n turns) ++ stops (early t) ++ [Receive (delivery_of t)]
  | Stop (Exit _ _) => False
  end.

Lemma explains_cons t turns lost r es :
  explains turns lost r es → explains (t :: turns) lost r (events_of t ++ es).
Proof.
  destruct r as [a w|[code w|w|u]]; cbn; [|done| |].
  - intros [n ->]. by exists (S n).
  - intros ->. unfold events. cbn. by rewrite <- !app_assoc.
  - intros (n & t' & Ht & ->). exists (S n), t'. split; [done|]. unfold events. cbn. by rewrite <- !app_assoc.
Qed.

(** [r] is what some execution from [c] comes to rest with, and what it shows
    satisfies [P]. *)
Definition realised c (r : res F unit) (P : list event → Prop) : Prop :=
  ∃ tr c', steps c tr c' ∧ resting c' ∧ result_of c' = r ∧ P (visible tr).

Lemma visible_app tr tr' : visible (tr ++ tr') = visible tr ++ visible tr'.
Proof. apply List.filter_app. Qed.

Lemma realised_steps c tr c1 r P :
  steps c tr c1 → realised c1 r (λ es, P (visible tr ++ es)) → realised c r P.
Proof.
  intros Hs (tr' & c' & H & Hr & He & HP). exists (tr ++ tr'), c'.
  split_and!; [by eapply steps_trans|done|done|]. by rewrite visible_app.
Qed.

Lemma realised_step c c1 r P : step c Silent c1 → realised c1 r P → realised c r P.
Proof. intros Hs%steps_one. apply (realised_steps _ _ _ _ _ Hs). Qed.

Lemma realised_resting c (P : list event → Prop) : resting c → P [] → realised c (result_of c) P.
Proof. intros Hr HP. exists [], c. split_and!; [constructor|done|done|done]. Qed.

Lemma realised_mono c r (P P' : list event → Prop) :
  realised c r P → (∀ es, P es → P' es) → realised c r P'.
Proof. intros (tr & c' & H & Hr & He & HP) Himp. exists tr, c'. auto. Qed.

Lemma steps_deliver p sigs w :
  p ≠ Waiting → p ≠ Ended → ready w →
  ∃ tr w1, deliver sigs w = Ret tt w1 ∧ steps (At p w) tr (At p w1) ∧ ready w1 ∧ visible tr = stops sigs.
Proof.
  intros Hp1 Hp2. revert w. induction sigs as [|sig sigs IH]; intros w [Hw Hi].
  { exists [], w. split; [done|]. split; [constructor|by split]. }
  destruct (signal_handler_at sig w Hw) as (o & b & E). specialize (E w eq_refl eq_refl eq_refl).
  set (w1 := w <| out := o |> <| running := b |>) in *.
  destruct (IH w1 (conj Hw Hi)) as (tr & w2 & E2 & Hs & Hr2 & Hv).
  unfold stops in *. cbn [List.filter].
  assert (deliver (sig :: sigs) w = Ret tt w2) as ->.
  { cbn [deliver]. unfold mbind, PM_bind. by rewrite E. }
  destruct (stop_signal sig) eqn:Es.
  - exists (Signal sig :: tr), w2. split; [done|]. split; [|split; [done|exact (f_equal (cons (Signal sig)) Hv)]].
    eapply steps_step; [by apply step_signal|]. unfold go. by rewrite E.
  - exists tr, w2. split; [done|]. split; [|done]. unfold stop_signal in Es.
    apply orb_false_iff in Es as [E1' E2']. unfold signal_handler in E. rewrite E1', E2' in E.
    injection E as E. by rewrite E.
Qed.

Lemma receive_initialized ctx received again handled r ctx' :
  netfilter_receive_packet (Some ctx) received again handled = (r, ctx') →
  initialized (default ctx ctx') = initialized ctx.
Proof. unfold netfilter_receive_packet. repeat case_match; by intros [= <- <-]. Qed.

Lemma receive_ready d r w w1 : ready w → receive (turn_of [] d []) w = Ret r w1 → ready w1.
Proof.
  intros [Hw Hi] E. pose proof (receive_blind (turn_of [] d []) w w (same_log_refl w Hw)) as Hb.
  rewrite E in Hb. destruct Hb as [_ [Hw1 _]]. split; [done|].
  unfold receive_packet, turn_of in E. cbn [received again handled message stale_id late deliver] in E.
  unfold mbind, PM_bind, get, set in E.
  destruct (netfilter_receive_packet _ _ _ _) as [r0 ctx'] eqn:En. apply receive_initialized in En.
  set (w0 := w <| nfq_ctx := _ |>) in E. assert (initialized (nfq_ctx w0) = true) as H0 by by rewrite <- Hi.
  clearbody w0. destruct (d_message d) as [nfa|]; [destruct (_ && _)|]; [|by injection E as _ <-..].
  unfold handle_message in E. destruct (callback_of _ _ _ _ _ _ _ _ _) as [[[[v vs] [s st]] h]|u]; [|done].
  by injection E as _ <-.
Qed.

Lemma receive_stop d e w : receive (turn_of [] d []) w = Stop e → ∃ u, e = Fault u.
Proof.
  unfold receive_packet, turn_of. cbn [received again handled message stale_id late deliver].
  unfold mbind, PM_bind, get, set. destruct (netfilter_receive_packet _ _ _ _) as [r0 ctx'].
  destruct (d_message d) as [nfa|]; [destruct (_ && _)|]; [|done..].
  unfold handle_message. destruct (callback_of _ _ _ _ _ _ _ _ _) as [[[[v vs] [s st]] h]|u]; [done|].
  intros [= <-]. eauto.
Qed.

Lemma realised_rest r turns lost w :
  (∀ w, ready w → realised (At Testing w) (main_loop turns lost w) (explains turns lost (main_loop turns lost w))) →
  ready w →
  realised (At (returned r) w) (turn_rest r turns lost w) (explains turns lost (turn_rest r turns lost w)).
Proof.
  intros IH [Hw Hi]. unfold returned, turn_rest. destruct (r <? 0).
  - destruct (writes_run (log log_error (chars "Error receiving packet")) w Hw) as [o E].
    unfold mbind, PM_bind, is_running, get. rewrite E. cbn.
    eapply realised_step; [constructor|]. unfold go. rewrite E.
    eapply realised_step; [constructor|]. cbn.
    destruct (running w); cbn [negb]; [by apply IH|].
    apply (realised_resting (At Ended _)); [done|]. by exists 0%nat.
  - destruct (writes_run (report_stats config) w Hw) as [o E].
    unfold mbind, PM_bind. rewrite E.
    eapply realised_step; [constructor|]. unfold go. rewrite E. by apply IH.
Qed.

(** A turn of the loop, from the point before the wait. *)
Lemma realised_turn t turns lost w :
  (∀ w, ready w → realised (At Testing w) (main_loop turns lost w) (explains turns lost (main_loop turns lost w))) →
  ready w →
  let r := (deliver (early t);; r ← receive t; turn_rest r turns lost) w in
  realised (At Calling w) r (explains (t :: turns) lost r).
Proof.
  intros IH Hw. cbv zeta.
  destruct (steps_deliver Calling (early t) w) as (tr & w1 & E & Hs & Hw1 & Hv); [done..|].
  unfold mbind at 1 3, PM_bind at 1 3. rewrite E. eapply realised_steps; [exact Hs|]. rewrite Hv. clear Hv Hs E.
  eapply realised_step; [apply step_wait, Hw1|].
  eapply realised_steps; [apply steps_one, (step_receive (delivery_of t))|].
  change (receive_packet (F := F) os_send os_verdict config t) with
    (receive_packet (F := F) os_send os_verdict config (turn_of [] (delivery_of t) (late t))).
  unfold mbind, PM_bind. rewrite receive_late. unfold go, mbind, PM_bind.
  destruct (receive (turn_of [] (delivery_of t) []) w1) as [r w2|e] eqn:Er.
  2:{ apply receive_stop in Er as [u ->]. apply (realised_resting (Halted (Fault u))); [done|].
      exists 0%nat, t. split; [done|]. by rewrite app_nil_r. }
  apply receive_ready in Er as Hw2; [|done].
  destruct (steps_deliver (returned r) (late t) w2) as (tr2 & w3 & E3 & Hs3 & Hw3 & Hv3);
    [unfold returned; by destruct (r <? 0)..|done|].
  eapply realised_steps; [exact Hs3|]. rewrite E3, Hv3.
  eapply realised_mono; [by apply realised_rest|]. intros es He%(explains_cons t).
  unfold events_of in He. by rewrite <- !app_assoc in He.
Qed.

Lemma main_loop_realised turns lost w :
  ready w → realised (At Testing w) (main_loop turns lost w) (explains turns lost (main_loop turns lost w)).
Proof.
  revert w. induction turns as [|t turns IH]; intros w Hw;
    (eapply realised_step; [constructor|]); cbn [go is_running get];
    (destruct (running w) eqn:Er;
      [|rewrite main_loop_stopped by done; apply (realised_resting (At Ended w)); [done|by exists 0%nat]]);
    rewrite main_loop_unfold by done; cbn [resume]; [|by apply realised_turn].
  destruct (steps_deliver Calling lost w) as (tr & w1 & E & Hs & Hw1 & Hv); [done..|].
  unfold mbind, PM_bind. rewrite E.
  eapply realised_steps; [exact Hs|]. eapply realised_step; [apply step_wait, Hw1|].
  apply (realised_resting (At Waiting w1)); [done|]. by rewrite Hv, app_nil_r.
Qed.

(** ** Every moment of an execution *)

Lemma go_wp {A} (m : PM A) next (P : conf → Prop) w :
  wp m (λ a w', P (At (next a) w')) (λ e, P (Halted e)) w → P (go m next w).
Proof. unfold wp, go. by destruct (m w). Qed.

(** Turns that carry messages and nothing else. *)
Definition carrying (l : list nfq_data) : list turn := (λ nfa, mkTurn [] 0 false (Some nfa) 0 0 []) <$> l.

Lemma messages_carrying l : messages (carrying l) = l.
Proof. induction l as [|nfa l IH]; [done|]. unfold carrying in *. rewrite fmap_cons, messages_cons. by rewrite IH. Qed.

(** [c] is what [w] has become after the events [tr]. *)
Definition reached w tr c : Prop :=
  match c with
  | At _ w' => served (length (received_in tr)) w w' ∧
               running w' = running w && bool_decide (signals_in tr = [])
  | Halted e => ∃ u, e = Fault u ∧
                processing_fault os_send os_verdict config (carrying (received_in tr)) u w
  end.

Lemma reached_out p w o b tr :
  heap_wf (mem w) → b = running w && bool_decide (signals_in tr = []) →
  reached w tr (At p (w <| out := o |> <| running := b |>)).
Proof.
  intros Hwf ->. split; [|done]. eapply (served_mono 0); [lia|]. by apply served_out_running.
Qed.

Lemma reached_log p w o : heap_wf (mem w) → reached w [Silent] (At p (w <| out := o |>)).
Proof.
  intros Hwf. pose proof (reached_out p w o (running w) [Silent] Hwf (eq_sym (andb_true_r _))) as H.
  by destruct w.
Qed.

Lemma reached_same p w : heap_wf (mem w) → reached w [Silent] (At p w).
Proof. intros Hwf. pose proof (reached_log p w (out w) Hwf) as H. by destruct w. Qed.

Lemma reached_receive d e w :
  logging_wf (logcfg w) → heap_wf (mem w) → signals_in [e] = [] →
  received_in [e] = option_list (d_message d) →
  reached w [e] (go (receive (turn_of [] d [])) returned w).
Proof.
  intros Hw Hwf Hs Hr. assert (messages [turn_of [] d []] = received_in [e]) as Hm.
  { rewrite Hr. unfold messages. cbn. by destruct (d_message d). }
  apply go_wp, wp_receive_packet; [done|done| |].
  - intros r w' Hsv Hrun. cbn [late turn_of existsb negb] in Hrun. unfold reached. rewrite Hs.
    split; [by rewrite <- Hm|by rewrite Hrun].
  - intros u Hu. exists u. split; [done|]. eapply processing_fault_mono; [|done|exact Hu].
    by rewrite messages_carrying, Hm.
Qed.

Lemma reached_step p w e c :
  logging_wf (logcfg w) → heap_wf (mem w) → step (At p w) e c → reached w [e] c.
Proof.
  intros Hw Hwf Hs. inversion Hs as [| | | | | | |? ? ? Hsig|? ? Hsig]; subst.
  - by apply reached_same.
  - by apply reached_same.
  - by apply reached_receive.
  - apply reached_receive; [done..|]. cbn. by destruct (d_message d).
  - apply go_wp, wp_log; [auto with clog|done|]. intros o. by apply reached_log.
  - by apply reached_same.
  - apply go_wp, wp_report_stats; [done|]. intros o. by apply reached_log.
  - apply go_wp, wp_signal_handler; [done|]. intros o. apply reached_out; [done|].
    by rewrite Hsig.
  - apply go_wp, pwp_bind, wp_signal_handler; [done|]. intros o. unfold wp. rewrite receive_interrupted.
    apply reached_out; [done|]. by rewrite Hsig.
Qed.

Lemma reached_trans w tr1 p w1 tr2 c :
  reached w tr1 (At p w1) → reached w1 tr2 c → reached w (tr1 ++ tr2) c.
Proof.
  intros [Hs1 Hr1] H2. unfold reached, received_in, signals_in in *. rewrite !omap_app.
  destruct c as [p' w'|e].
  - destruct H2 as [Hs2 Hr2]. rewrite length_app. split; [by eapply served_trans|].
    rewrite Hr2, Hr1, <- andb_assoc. f_equal. rewrite <- bool_decide_and. apply bool_decide_ext.
    split; [by intros [-> ->]|apply app_nil].
  - destruct H2 as (u & -> & Hu). exists u. split; [done|].
    eapply processing_fault_mono; [|exact (sv_blocks _ _ _ Hs1)|exact Hu].
    intros nfa. rewrite !messages_carrying, elem_of_app. by right.
Qed.

Lemma reached_steps p w tr c :
  logging_wf (logcfg w) → heap_wf (mem w) → steps (At p w) tr c → reached w tr c.
Proof.
  intros Hw Hwf Hs. remember (At p w) as c0 eqn:E. revert p w E Hw Hwf.
  induction Hs as [c|c e c1 tr c2 H1 H2 IH]; intros p w -> Hw Hwf.
  { split; [by apply served_refl|]. by rewrite andb_true_r. }
  apply reached_step in H1 as Hr; [|done..]. destruct c1 as [p1 w1|e1].
  - change (e :: tr) with ([e] ++ tr). eapply reached_trans; [exact Hr|]. destruct Hr as [Hs1 _].
    eapply IH; [done|by rewrite (sv_logcfg _ _ _ Hs1)|exact (sv_wf _ _ _ Hs1)].
  - apply steps_halted in H2 as [-> ->]. exact Hr.
Qed.

(** ** After a stop signal *)

(** How many messages the loop still reads, and how many steps of its own it
    still makes, once it has been told to stop. *)
Definition reads p : nat := match p with Calling | Waiting => 1 | _ => 0 end.
Definition rank p : nat :=
  match p with Calling => 3 | Waiting | Failed | Reporting => 2 | Testing | Retesting => 1 | Ended => 0 end.

Definition reads_of c : nat := match c with At p _ => reads p | Halted _ => 0 end.
Definition rank_of c : nat := match c with At p _ => rank p | Halted _ => 0 end.

Lemma go_bound {A} (m : PM A) next w r k :
  (∀ a, reads (next a) ≤ r ∧ rank (next a) ≤ k)%nat →
  (reads_of (go m next w) ≤ r ∧ rank_of (go m next w) ≤ k)%nat.
Proof. unfold go. destruct (m w); cbn; [auto|lia]. Qed.

Lemma returned_bound r : (reads (returned r) ≤ 0 ∧ rank (returned r) ≤ 2)%nat.
Proof. unfold returned. destruct (_ <? _); cbn; lia. Qed.

Lemma stopped_step p w e c :
  running w = false → step (At p w) e c →
  (count receives [e] + reads_of c ≤ reads p ∧ count silent [e] + rank_of c ≤ rank p)%nat.
Proof.
  intros Hr Hs. inversion Hs; subst; unfold count; cbn [List.filter receives silent length reads rank].
  - cbn. rewrite Hr. cbn. lia.
  - cbn. lia.
  - destruct (go_bound (receive (turn_of [] interrupted [])) returned w 0 2); [apply returned_bound|lia].
  - destruct (go_bound (receive (turn_of [] d [])) returned w 0 2); [apply returned_bound|lia].
  - destruct (go_bound (log log_error (chars "Error receiving packet")) (λ _, Retesting) w 0 1); [cbn; lia|lia].
  - cbn. rewrite Hr. cbn. lia.
  - destruct (go_bound (report_stats config) (λ _, Testing) w 0 1); [cbn; lia|lia].
  - destruct (go_bound (signal_handler sig) (λ _, p) w (reads p) (rank p)); [done|lia].
  - destruct (go_bound (signal_handler sig;; receive (turn_of [] interrupted [])) returned w 0 2);
      [apply returned_bound|lia].
Qed.

Lemma count_cons f e tr : count f (e :: tr) = (count f [e] + count f tr)%nat.
Proof. unfold count. cbn. by destruct (f e). Qed.

Lemma stopped_steps p w tr c :
  logging_wf (logcfg w) → heap_wf (mem w) → running w = false → steps (At p w) tr c →
  (count receives tr + reads_of c ≤ reads p ∧ count silent tr + rank_of c ≤ rank p)%nat.
Proof.
  intros Hw Hwf Hrun Hs. remember (At p w) as c0 eqn:E. revert p w E Hw Hwf Hrun.
  induction Hs as [c|c e c1 tr c2 H1 H2 IH]; intros p w -> Hw Hwf Hrun; [done|].
  apply reached_step in H1 as Hr; [|done..]. apply stopped_step in H1 as [Ha Hb]; [|done].
  rewrite !(count_cons _ e tr). destruct c1 as [p1 w1|e1].
  - destruct Hr as [Hs1 Hr1]. rewrite Hrun in Hr1. cbn [reads_of rank_of] in Ha, Hb.
    destruct (IH p1 w1) as [Hc Hd]; [done|by rewrite (sv_logcfg _ _ _ Hs1)|exact (sv_wf _ _ _ Hs1)|done|]. lia.
  - apply steps_halted in H2 as [-> ->]. change (count ?f []) with 0%nat. cbn [reads_of rank_of] in *. lia.
Qed.

(** The loop never gets stuck but in [recv]. *)
Lemma progress p w : p ≠ Ended → p ≠ Waiting → ∃ c, step (At p w) Silent c.
Proof.
  intros H1 H2. destruct p; try done; try by eexists; constructor.
  destruct (initialized (nfq_ctx w)) eqn:E; eexists; by constructor.
Qed.

Lemma no_reads tr : count receives tr = 0%nat → received_in tr = [].
Proof.
  induction tr as [|e tr IH]; [done|]. rewrite count_cons. intros H. destruct e; cbn in H; [| |lia]; by apply IH.
Qed.

Lemma progress_of c :
  resting c ∨ ∃ c', step c Silent c'.
Proof.
  destruct c as [p w|e]; [|by left]. destruct (decide (p = Ended)) as [->|H1]; [by left|].
  destruct (decide (p = Waiting)) as [->|H2]; [by left|]. right. by apply progress.
Qed.

(** ** The promises *)

(** C5: The main loop of Main and the steps agree.  Every execution, with signals between any two steps, that has ended, waits or has halted ends like the run of the loop on some turns with the same messages in the same order and the same signals in the same order: same final state, but for the order and the time stamps of the lines in the log, of which none is lost, added or changed.  Conversely every run of the loop on turns is an execution with the same final state, log included, which shows the turns: the stop signals and the deliveries in their order, of the turns that the loop took if it ended, of all turns and then the late signals if it waits, and up to the message that faulted otherwise.  (The log can be written and the queue is open.) *)
Theorem steps_refine_main_loop w :
  ready w →
  (∀ tr c, steps (At Testing w) tr c → resting c →
     ∃ first turns lost, signals_in tr = first ++ turn_signals turns ++ lost ∧
       received_in tr = messages turns ∧
       res_rel ((deliver first;; main_loop turns lost) w) (result_of c)) ∧
  (∀ turns lost, ∃ tr c, steps (At Testing w) tr c ∧ resting c ∧ result_of c = main_loop turns lost w ∧
     explains turns lost (result_of c) (visible tr)).
Proof.
  intros Hr. split.
  - intros tr c Hs Hc. destruct (steps_simulated _ _ _ Hs Hc (proj1 Hr)) as (sigs & turns & lost & [H1 H2 _ _] & H).
    exists sigs, turns, lost. split_and!; [exact H1|exact H2|exact H].
  - intros turns lost. destruct (main_loop_realised turns lost w Hr) as (tr & c & H1 & H2 & H3 & H4).
    exists tr, c. split_and!; [done..|]. by rewrite H3.
Qed.

(** C14: At every moment of every execution, between any two steps and whatever signals came when, the objects of the heap, the files, the descriptors, the packet filter, the queue and the raw sockets are as at the start of the loop, each message received so far has had at most one verdict, which accepts it, and the flag says exactly whether a stop signal has come; an execution that does not go on has met an undefined behaviour in the processing of a message it received. *)
Theorem every_moment_leaks_nothing w tr c :
  logging_wf (logcfg w) → heap_wf (mem w) → steps (At Testing w) tr c →
  match c with
  | At _ w' => served (length (received_in tr)) w w' ∧
               running w' = running w && bool_decide (signals_in tr = [])
  | Halted e => ∃ u, e = Fault u ∧
                processing_fault os_send os_verdict config (carrying (received_in tr)) u w
  end.
Proof. intros Hw Hwf Hs. exact (reached_steps _ _ _ _ Hw Hwf Hs). Qed.

(** C6: A stop signal that comes at any point but one ends the loop: it reads no further message, makes at most two more steps of its own, is never stuck and never waits.  Between the test of the loop and the wait of [recv] the signal is lost: the loop waits although it has been told to stop, and only a message or another signal wakes it. *)
Theorem stop_signal_lost_only_before_wait p sig w :
  ready w → heap_wf (mem w) → stop_signal sig = true → p ≠ Ended →
  (p ≠ Calling → ∀ c1 tr c, step (At p w) (Signal sig) c1 → steps c1 tr c →
     count receives tr = 0%nat ∧ (count silent tr ≤ 2)%nat ∧
     ∃ p' w', c = At p' w' ∧ running w' = false ∧ (p' = Ended ∨ ∃ c', step c Silent c')) ∧
  (p = Calling → ∃ w', steps (At p w) [Signal sig; Silent] (At Waiting w') ∧ running w' = false ∧
     ∀ e c, step (At Waiting w') e c → silent e = false).
Proof.
  intros [Hw Hi] Hwf Hsig Hp. split.
  - intros Hp2 c1 tr c H1 Hs. apply reached_step in H1 as Hr1; [|done..].
    destruct (go_handler sig (λ _, p) w Hw) as (wh & Eh & Hwh & _).
    assert (∃ p1 w1, c1 = At p1 w1 ∧ reads p1 = 0%nat ∧ (rank p1 ≤ 2)%nat) as (p1 & w1 & -> & Hp1 & Hk).
    { inversion H1; subst; unfold go, mbind, PM_bind; rewrite Eh, ?receive_interrupted; eexists _, _;
        (split; [done|]); [destruct p; cbn; (done || lia)|destruct (returned_bound (-1)); lia]. }
    destruct Hr1 as [Hs1 Hrun]. rewrite bool_decide_eq_false_2, andb_false_r in Hrun by done.
    assert (logging_wf (logcfg w1)) as Hw1 by by rewrite (sv_logcfg _ _ _ Hs1).
    apply stopped_steps in Hs as Hst; [|done|exact (sv_wf _ _ _ Hs1)|done].
    destruct Hst as [Hc Hd]. rewrite Hp1 in Hc. split; [lia|]. split; [lia|].
    apply reached_steps in Hs as Hr; [|done|exact (sv_wf _ _ _ Hs1)].
    destruct c as [p' w'|e].
    + exists p', w'. split; [done|]. destruct Hr as [_ Hr]. rewrite Hrun in Hr. split; [done|].
      destruct (progress_of (At p' w')) as [Hrest|?]; [|by right].
      destruct p'; try done; [cbn in Hc; lia|by left].
    + destruct Hr as (u & _ & nfa & _ & _ & _ & _ & _ & Hin & _).
      rewrite messages_carrying, no_reads in Hin by lia. by apply not_elem_of_nil in Hin.
  - intros ->. destruct (signal_handler_at sig w Hw) as (o & b & E). specialize (E w eq_refl eq_refl eq_refl).
    eexists. split_and!.
    + eapply steps_step; [by apply step_signal|]. unfold go. rewrite E.
      apply steps_one, step_wait. exact Hi.
    + assert (reached w [Signal sig] (go (signal_handler sig) (λ _, Calling) w)) as Hr.
      { by apply (reached_step Calling); [..|apply step_signal]. }
      unfold go in Hr. rewrite E in Hr. destruct Hr as [_ Hr].
      by rewrite bool_decide_eq_false_2, andb_false_r in Hr.
    + intros e c H. by inversion H.
Qed.
End signals.

(** ** Runs *)

Section runs.
#[local] Existing Instance willing_os.
#[local] Instance all_succeed : PacketFilter chain_table := chain_filter (λ _, false).
Notation step := (step no_send yes_verdict config_defaults).
Notation steps := (steps no_send yes_verdict config_defaults).

Lemma serving_ready : ready serving.
Proof. split; [apply logging_config_wf|done]. Qed.

(** A signal between the test and the wait, and one during the wait. *)
Lemma steps_refine_main_loop_witness :
  (∃ tr c, steps (At Testing serving) tr c ∧ resting c ∧
     result_of c = main_loop no_send yes_verdict config_defaults [message_turn] [SIGINT] serving ∧
     visible tr = [Receive (delivery_of message_turn); Signal SIGINT]) ∧
  ∀ tr c, steps (At Testing serving) tr c → resting c →
    ∃ first turns lost, signals_in tr = first ++ turn_signals turns ++ lost ∧ received_in tr = messages turns ∧
      res_rel ((deliver first;; main_loop no_send yes_verdict config_defaults turns lost) serving) (result_of c).
Proof.
  destruct (steps_refine_main_loop no_send yes_verdict config_defaults serving serving_ready) as [H1 H2].
  split; [|exact H1]. destruct (H2 [message_turn] [SIGINT]) as (tr & c & Hs & Hr & Hres & He).
  exists tr, c. split; [exact Hs|]. split; [exact Hr|]. split; [exact Hres|].
  assert (∃ w', main_loop no_send yes_verdict config_defaults [message_turn] [SIGINT] serving =
                Stop (Blocked w')) as [w' E] by (vm_compute; eexists; reflexivity).
  rewrite Hres, E in He. rewrite He. reflexivity.
Defined.

(** A message has been handled; the statistics are next. *)
Lemma every_moment_leaks_nothing_witness :
  ∃ w', steps (At Testing serving) [Silent; Silent; Receive (delivery_of message_turn)] (At Reporting w') ∧
        served 1 serving w' ∧ running w' = true.
Proof.
  assert (∃ w', steps (At Testing serving) [Silent; Silent; Receive (delivery_of message_turn)] (At Reporting w'))
    as [w' Hs].
  { eexists. eapply steps_step; [apply step_test|]. eapply steps_step; [by apply step_wait|].
    apply steps_one. refine (eq_rect _ (λ c, step _ _ c) (step_receive _ _ _ _ _) _ _). vm_compute. reflexivity. }
  exists w'. split; [exact Hs|].
  destruct (every_moment_leaks_nothing no_send yes_verdict config_defaults serving _ _ logging_config_wf
              heap_empty_wf Hs) as [H1 H2]. split; [exact H1|]. rewrite H2. reflexivity.
Defined.

Lemma stop_signal_lost_only_before_wait_witness :
  ∃ w', steps (At Calling serving) [Signal SIGTERM; Silent] (At Waiting w') ∧ running w' = false.
Proof.
  destruct (stop_signal_lost_only_before_wait no_send yes_verdict config_defaults Calling SIGTERM serving
              serving_ready heap_empty_wf eq_refl) as [_ H]; [discriminate|].
  destruct (H eq_refl) as (w' & Hs & Hr & _). exists w'. split; [exact Hs|exact Hr].
Defined.
End runs.
