(* ===== verification/Service.v ===== *)
(** * What the program does with a stream of packets

    The parts together: the messages of the queue go through the main loop, the
    queue's callback and the packet processing; here are the verdicts the kernel
    gets and the counters at the end. *)

From S2P Require Import Prelude CString Types Packet RawSocket Evasion Processor Netfilter Callback.
From S2P Require Import Config Logging Daemon Firewall Main Signals.

(** ** A captured datagram and what becomes of it *)

(** The packet id in network order, and the object that holds the datagram. *)
Record captured : Type := mkCaptured {
  packet_id : Z;
  object : nat;
  datagram : list Z
}.

Definition message_of (c : captured) : nfq_data :=
  mkNfqData (Some (packet_id c)) (lenZ (datagram c)) (Ptr (object c) 0).

(** A turn in which [recv] delivers the message of [c] and no stop signal comes;
    what [nfq_handle_packet] returns does not matter. *)
Definition carries (t : turn) (c : captured) : Prop :=
  message t = Some (message_of c) ∧ 0 ≤ received t ∧ stop_turn t = false.

(** The object holds a TCP datagram with an empty payload or one of six bytes at
    least. *)
Definition held (h : heap) (c : captured) : Prop :=
  blocks h !! object c = Some (datagram c) ∧ tcp_datagram (datagram c) ∧
  (tcp_payload (datagram c) = [] ∨ 6 ≤ lenZ (tcp_payload (datagram c))).

Definition verdict_for (config : goodbyedpi_config_t) (c : captured) : list verdict_msg :=
  if reported_modified config (datagram c) then [] else [(ntohl (packet_id c), NF_ACCEPT, datagram c)].

Definition counted (config : goodbyedpi_config_t) (st : stats) (c : captured) : stats :=
  let st := count_received (lenZ (datagram c)) st in
  if reported_modified config (datagram c) then st
  else st <| packets_modified := u64 (packets_modified st + 1) |>.

Section service.
Context {F : Type} `{PF : PacketFilter F} `{OS : !Os}.
Context (os_send : Z → list Z → Z) (os_verdict : verdict_msg → Z).
Variable config : goodbyedpi_config_t.
Hypothesis Hplain : fragment_only config.
Implicit Types (w : world F) (c : captured).

Notation receive := (receive_packet os_send os_verdict config).
Notation main_loop := (main_loop os_send os_verdict config).

(** The loop serves: it runs, its queue is open and its callback registered, and
    memory does not run out. *)
Record in_service w : Prop := {
  is_log : logging_wf (logcfg w);
  is_run : running w = true;
  is_open : initialized (nfq_ctx w) = true;
  is_callback : g_packet_callback w = Some tt;
  is_wf : heap_wf (mem w);
  is_memory : no_oom (mem w)
}.

(** [w'] is [w] after the packets [cs]. *)
Record after (cs : list captured) w w' : Prop := {
  af_service : in_service w';
  af_blocks : blocks (mem w') = blocks (mem w);
  af_verdicts : verdicts w' = verdicts w ++ concat (verdict_for config <$> cs);
  af_counters : counters w' = foldl (counted config) (counters w) cs
}.

Lemma after_refl w : in_service w → after [] w w.
Proof. intros Hs. split; [done|done|by rewrite app_nil_r|done]. Qed.

Lemma after_trans cs1 cs2 w1 w2 w3 : after cs1 w1 w2 → after cs2 w2 w3 → after (cs1 ++ cs2) w1 w3.
Proof.
  intros [] []. split; [done|congruence| |].
  - by rewrite af_verdicts1, af_verdicts0, fmap_app, concat_app, <- app_assoc.
  - by rewrite af_counters1, af_counters0, foldl_app.
Qed.

Lemma after_out w o : in_service w → after [] w (w <| out := o |>).
Proof. intros []. split; [by split|done|cbn; by rewrite app_nil_r|done]. Qed.

Lemma deliver_nothing sigs w : existsb stop_signal sigs = false → deliver sigs w = Ret tt w.
Proof.
  induction sigs as [|sig sigs IH]; [done|]. cbn [existsb deliver].
  intros [Hs%orb_false_iff Hr]%orb_false_iff. unfold mbind, PM_bind, signal_handler.
  destruct Hs as [-> ->]. by apply IH.
Qed.

Lemma handle_message_ok stale c w :
  in_service w → held (mem w) c →
  ∃ w', handle_message os_send os_verdict config stale (message_of c) w = Ret tt w' ∧ after [c] w w'.
Proof.
  intros [Hlog Hrun Hi Hcb Hwf Hoom] (Hb & Hd & Hp).
  destruct (callback_verdict os_send os_verdict config raw_sockets_init (nfq_ctx w) stale (counters w)
              (mem w) (object c) (datagram c) (packet_id c)) as (v & h' & E & Hb'); [done..|].
  unfold handle_message, callback_of, netfilter_callback. rewrite Hcb. cbn [fmap option_fmap option_map].
  assert (u32 (nfq_payload_ret (message_of c)) =? 0 = false) as ->.
  { cbn. destruct Hd. unfold u32, wrap. rewrite Z.mod_small by lia. apply Z.eqb_neq. lia. }
  change (message_of c) with (mkNfqData (Some (packet_id c)) (lenZ (datagram c)) (Ptr (object c) 0)).
  rewrite E. eexists. split; [reflexivity|].
  split; [split| | |]; cbn; try done.
  - by eapply keeps_inv.
  - by eapply keeps_inv.
  - by rewrite app_nil_r.
Qed.

Lemma receive_ok t c w :
  carries t c → in_service w → held (mem w) c → ∃ r w', receive t w = Ret r w' ∧ after [c] w w'.
Proof.
  intros (Hm & Hr & Hs) Hw Hh. unfold stop_turn in Hs. rewrite existsb_app in Hs.
  apply orb_false_iff in Hs as [_ Hl]. unfold receive_packet.
  unfold mbind, PM_bind, get, set, netfilter_receive_packet. rewrite (is_open _ Hw), Hm.
  rewrite (proj2 (Z.ltb_ge (received t) 0)), (proj2 (Z.leb_le 0 (received t))) by done. cbn [negb andb].
  destruct (handled t <? 0); cbn [default from_option id];
    match goal with |- context [handle_message _ _ _ _ _ ?v] => set (w0 := v) end;
    (assert (in_service w0) as Hw0 by by destruct Hw);
    destruct (handle_message_ok (stale_id t) c w0 Hw0 Hh) as (w1 & E & [Ha Hb Hc Hd]);
    rewrite E, deliver_nothing by done; eexists _, _; (split; [reflexivity|]); by split.
Qed.

Lemma turn_ok t c turns lost w :
  carries t c → in_service w → held (mem w) c →
  ∃ w', main_loop (t :: turns) lost w = main_loop turns lost w' ∧ after [c] w w'.
Proof.
  intros Ht Hw Hh. destruct (receive_ok t c w Ht Hw Hh) as (r & w1 & E & Ha).
  destruct Ht as (_ & _ & Hs). unfold stop_turn in Hs. rewrite existsb_app in Hs.
  apply orb_false_iff in Hs as [He _]. pose proof (af_service _ _ _ Ha) as [Hlog Hrun _ _ _ _].
  cbn [Main.main_loop]. unfold mbind at 1, PM_bind at 1, is_running at 1, get at 1. rewrite (is_run _ Hw). cbn [negb].
  unfold mbind at 1, PM_bind at 1. rewrite deliver_nothing by done.
  unfold mbind at 1, PM_bind at 1. rewrite E.
  assert (∀ o, after [c] w (w1 <| out := o |>)) as Hout.
  { intros o. apply (after_trans [c] [] w w1); [done|]. apply after_out, Ha. }
  destruct (r <? 0).
  - destruct (writes_run (log log_error (chars "Error receiving packet")) (Writes0 := log_error_writes _) w1 Hlog) as [o El].
    unfold mbind, PM_bind. rewrite El. cbn. rewrite Hrun. cbn [negb]. eauto.
  - destruct (writes_run (report_stats config) (Writes0 := report_stats_writes config) w1 Hlog) as [o El].
    unfold mbind, PM_bind. rewrite El. eauto.
Qed.

End service.

(** Two datagrams: a reply, and a request that a fragment size is configured for
    and that therefore gets no verdict. *)
Section run.
#[local] Existing Instance willing_os.
#[local] Instance no_filter : PacketFilter chain_table := chain_filter (λ _, false).

Definition reply : list Z := take 40 sample_datagram.
Definition request : list Z := reply ++ chars "GET / HTTP/1.1".
Definition stream : list captured := [mkCaptured 16777216 0 reply; mkCaptured 33554432 1 request].
Definition splitting : goodbyedpi_config_t := config_zero <| http_fragment_size := 2 |>.
Definition busy : world chain_table :=
  serving <| mem := mkHeap {[0%nat := reply; 1%nat := request]} 2 (λ _, false) (λ _ _, 0) |>.
Definition stream_turns : list turn :=
  (λ c, mkTurn [] 80 false (Some (message_of c)) 0 0 []) <$> stream.

Lemma busy_wf : heap_wf (mem busy).
Proof.
  change (mem busy) with (mkHeap (<[0%nat := reply]> {[1%nat := request]}) 2 (λ _, false) (λ _ _, 0)).
  intros b [l Hl]. cbn [blocks] in Hl. cbn [nxt].
  apply lookup_insert_Some in Hl as [[<- _]|[_ Hl]]; [lia|]. apply lookup_singleton_Some in Hl as [<- _]. lia.
Qed.

Lemma stream_held : Forall (held (mem busy)) stream.
Proof.
  assert (tcp_datagram reply) as H1 by (split; [vm_decide|vm_compute; congruence..]).
  assert (tcp_datagram request) as H2 by (split; [vm_decide|vm_compute; congruence..]).
  apply Forall_cons. split; [|apply Forall_singleton].
  - split; [reflexivity|]. split; [exact H1|left; reflexivity].
  - split; [reflexivity|]. split; [exact H2|right; vm_compute; congruence].
Qed.

End run.
