(* ===== verification/Privileges.v ===== *)
(** * src/service/privileges.c

    The credentials of the process are a record that the system calls change; what
    the system answers is the class [PrivOs].  [original_privs] is passed along.
    Log calls are left out.  Nothing in the program calls these functions. *)

From S2P Require Import Prelude CString Types.

(** What the functions use of the credentials. *)
Record creds : Type := mkCreds {
  uid : Z;
  euid : Z;
  gid : Z;
  groups : list Z
}.

#[export] Instance eta_creds : Eta creds := λ c, mkCreds (uid c) (euid c) (gid c) (groups c).

Record original_privs_t : Type := mkPrivs {
  orig_uid : Z;
  orig_gid : Z;
  privilege_dropped : bool
}.

#[export] Instance eta_privs : Eta original_privs_t := λ p,
  mkPrivs (orig_uid p) (orig_gid p) (privilege_dropped p).

Definition original_privs : original_privs_t := mkPrivs 0 0 false.

Record passwd : Type := mkPasswd { pw_uid : Z; pw_gid : Z }.

(** The system: the user data base, whether a call is refused, and [access]. *)
Class PrivOs := {
  getpwnam : list Z → option passwd;
  setgroups_ret : Z;
  setgid_ret : Z;
  setuid_ret : Z;
  socket_ret : bool → Z;             (* raw socket, IPv6 or IPv4 *)
  can_write : list Z → bool;         (* [access(name, W_OK) == 0] *)
  strdup_fails : bool;
  dirname : list Z → list Z
}.

Section privileges.
Context `{PO : PrivOs}.
Implicit Types (c : creds) (p : original_privs_t).

Definition setup_privileges c p : Z * original_privs_t :=
  (0, p <| orig_uid := uid c |> <| orig_gid := gid c |> <| privilege_dropped := false |>).

Definition is_running_as_root c : bool := euid c =? 0.

(** The account to change to: [Some None] is "keep the privileges". *)
Definition target_user (username : option (list Z)) : outcome (option (option passwd)) :=
  name ← match username with None => Ok [] | Some u => cstr u end;
  Ok (if 0 <? lenZ name
      then match getpwnam name with None => None | Some pw => Some (Some pw) end
      else match getpwnam (chars "nobody") with None => Some None | Some pw => Some (Some pw) end).

(** The result, the credentials and [original_privs]. *)
Definition drop_privileges (username : option (list Z)) c p : outcome (Z * creds * original_privs_t) :=
  if privilege_dropped p then Ok (0, c, p) else
  if negb (is_running_as_root c) then Ok (0, c, p) else
  pw ← target_user username;
  match pw with
  | None => Ok (-1, c, p)
  | Some None => Ok (0, c, p)
  | Some (Some pw) =>
      if negb (setgroups_ret =? 0) then Ok (-1, c, p) else
      let c := c <| groups := [] |> in
      if negb (setgid_ret =? 0) then Ok (-1, c, p) else
      let c := c <| gid := pw_gid pw |> in
      if negb (setuid_ret =? 0) then Ok (-1, c, p) else
      let c := c <| uid := pw_uid pw |> <| euid := pw_uid pw |> in
      Ok (0, c, p <| privilege_dropped := true |>)
  end.

Definition restore_privileges p : Z := if negb (privilege_dropped p) then 0 else -1.

(** The result and the descriptors closed. *)
Definition has_network_capabilities : bool * list Z :=
  let sock := socket_ret false in
  if sock <? 0 then (false, []) else
  let sock6 := socket_ret true in
  if sock6 <? 0 then (false, [sock]) else (true, [sock; sock6]).

Definition has_firewall_capabilities c : bool := is_running_as_root c.

(** The values stored through the pointers that are not null. *)
Definition get_privilege_info c (uidp gidp privp : bool) : option Z * option Z * option bool :=
  (if uidp then Some (uid c) else None, if gidp then Some (gid c) else None,
   if privp then Some (is_running_as_root c) else None).

Definition can_write_pid_file (pid_file : option (list Z)) : outcome bool :=
  match pid_file with
  | None => Ok false
  | Some f =>
      name ← cstr f;
      if strdup_fails then Ok false else Ok (can_write (dirname name))
  end.

Definition can_write_log_file (log_file : option (list Z)) : outcome bool :=
  match log_file with
  | None => Ok false
  | Some f =>
      name ← cstr f;
      if can_write name then Ok true else
      if strdup_fails then Ok false else Ok (can_write (dirname name))
  end.

Definition validate_privileges (config : goodbyedpi_config_t) : outcome Z :=
  let issues := if has_network_capabilities.1 then 0 else 1 in
  w ← (if negb (byte_at (pid_file config) 0 =? 0) then can_write_pid_file (Some (pid_file config))
       else Ok true);
  let issues := if w : bool then issues else issues + 1 in
  w ← (if negb (byte_at (log_file config) 0 =? 0) then can_write_log_file (Some (log_file config))
       else Ok true);
  let issues := if w : bool then issues else issues + 1 in
  Ok (if 0 <? issues then -1 else 0).

(** ** Dropping the privileges *)

(** What the process is after a complete drop to [pw]. *)
Definition dropped_to (pw : passwd) c : Prop :=
  uid c = pw_uid pw ∧ euid c = pw_uid pw ∧ gid c = pw_gid pw ∧ groups c = [].

(** C31: A root process that calls [drop_privileges] either becomes the user it names, with the user's group and no supplementary groups, and remembers it, so that a second call changes nothing; or it stays root, with the flag unset, and then the result is -1, except that 0 is returned as well when no user is named and there is no user nobody.  The user id is the last thing to change: no failure leaves a process that is no longer root with a group of root's. *)
Theorem drop_privileges_all_or_root username name c p :
  match username with None => name = [] | Some u => cstr u = Ok name end →
  euid c = 0 → privilege_dropped p = false →
  ∃ r c' p', drop_privileges username c p = Ok (r, c', p') ∧
    ((r = 0 ∧ privilege_dropped p' = true ∧
      (∃ pw, getpwnam (match name with [] => chars "nobody" | _ => name end) = Some pw ∧ dropped_to pw c') ∧
      drop_privileges username c' p' = Ok (0, c', p')) ∨
     (euid c' = 0 ∧ uid c' = uid c ∧ p' = p ∧
      (r = -1 ∨ r = 0 ∧ name = [] ∧ getpwnam (chars "nobody") = None ∧ c' = c))).
Proof.
  intros Hn He Hp.
  assert (target_user username = Ok (match getpwnam (match name with [] => chars "nobody" | _ => name end),
      name with None, [] => Some None | None, _ => None | Some pw, _ => Some (Some pw) end)) as Ht.
  { unfold target_user. destruct username as [u|]; [rewrite Hn|subst name]; cbn [mbind outcome_bind].
    - destruct name as [|x s]; [by destruct (getpwnam _)|].
      rewrite (proj2 (Z.ltb_lt 0 (lenZ (x :: s)))) by (unfold lenZ; cbn; lia). by destruct (getpwnam _).
    - by destruct (getpwnam _). }
  unfold drop_privileges at 1. rewrite Hp. unfold is_running_as_root. rewrite He. cbn [negb Z.eqb].
  rewrite Ht. cbn [mbind outcome_bind]. destruct (getpwnam _) as [pw|] eqn:Epw.
  - destruct (setgroups_ret =? 0); cbn [negb].
    2:{ eexists _, _, _. split; [done|]. right. auto. }
    destruct (setgid_ret =? 0); cbn [negb]; [|eexists _, _, _; split; [done|right; auto]].
    destruct (setuid_ret =? 0); cbn [negb]; [|eexists _, _, _; split; [done|right; auto]].
    eexists _, _, _. split; [done|]. left. split_and!; [done|done|by exists pw|done].
  - destruct name as [|x s].
    + eexists _, _, _. split; [done|]. right. split_and!; auto.
    + eexists _, _, _. split; [done|]. right. auto.
Qed.

(** A configured name is a non-empty one. *)
Lemma configured a s : cstr a = Ok s → negb (byte_at a 0 =? 0) = negb (bool_decide (s = [])).
Proof.
  destruct a as [|x a]; [done|]. cbn. unfold byte_at. cbn. destruct (Z.eqb_spec x 0) as [->|].
  - by intros [= <-].
  - destruct (cstr a); [|done]. intros [= <-].
    change (default 0 ((x :: a) !! Z.to_nat 0)) with x. by rewrite (proj2 (Z.eqb_neq x 0)).
Qed.

(** [validate_privileges] accepts exactly if both raw sockets can be opened, the
    directory of the PID file is writable, if one is configured, and the log file
    or its directory is, if one is configured. *)
Theorem validate_privileges_decides config pn ln :
  cstr (pid_file config) = Ok pn → cstr (log_file config) = Ok ln → strdup_fails = false →
  validate_privileges config =
    Ok (if (0 <=? socket_ret false) && (0 <=? socket_ret true) &&
           (bool_decide (pn = []) || can_write (dirname pn)) &&
           (bool_decide (ln = []) || can_write ln || can_write (dirname ln)) then 0 else -1).
Proof.
  intros Hp Hl Hs. unfold validate_privileges.
  rewrite (configured _ _ Hp), (configured _ _ Hl). unfold can_write_pid_file, can_write_log_file.
  rewrite Hp, Hl, Hs. cbn [mbind outcome_bind]. unfold has_network_capabilities.
  rewrite !(Z.ltb_antisym 0). destruct (0 <=? socket_ret false), (0 <=? socket_ret true),
    (bool_decide (pn = [])), (bool_decide (ln = [])), (can_write (dirname pn)), (can_write ln),
    (can_write (dirname ln)); reflexivity.
Qed.
End privileges.

(** A system where the account of the group cannot be changed. *)
Definition refusing : PrivOs := {|
  getpwnam := λ n, if bool_decide (n = chars "nobody") then Some (mkPasswd 65534 65534) else None;
  setgroups_ret := 0; setgid_ret := -1; setuid_ret := 0;
  socket_ret := λ _, 3; can_write := λ _, true; strdup_fails := false; dirname := λ n, n
|}.

Lemma drop_privileges_all_or_root_witness :
  let c := mkCreds 0 0 0 [0; 27] in
  ∃ c' p', drop_privileges (PO := refusing) None c original_privs = Ok (-1, c', p') ∧ euid c' = 0 ∧
           groups c' = [].
Proof.
  intros c.
  destruct (drop_privileges_all_or_root (PO := refusing) None [] c original_privs eq_refl eq_refl eq_refl)
    as (r & c' & p' & E & H).
  assert (r = -1 ∧ groups c' = []) as [-> Hg] by (vm_compute in E; by injection E as <- <- _).
  destruct H as [(? & _)|(He & _)]; [discriminate|]. exists c', p'. auto.
Defined.
