(* ===== verification/Systemd.v ===== *)
(** * src/service/systemd.c

    [enabled] is whether the file is compiled with ENABLE_SYSTEMD.  The functions
    return the messages they hand to [sd_notify] and the entries they give to the
    journal; the environment of the process is an argument.  Log calls are left
    out.  Nothing in the program calls these functions. *)

From S2P Require Import Prelude CString Types Config Logging.

(** What goes to systemd. *)
Inductive sd_event : Type :=
  | Notify (state : list Z)
  | Journal (priority : Z) (message : list Z).

Section systemd.
Variable enabled : bool.
(** [getenv]: the string, if the variable is set. *)
Variable getenv : string → option (list Z).

Definition notify (state : string) : Z * list sd_event :=
  if enabled then (0, [Notify (chars state)]) else (-1, []).

Definition systemd_init : Z * list sd_event := notify "READY=1".
Definition systemd_cleanup : Z * list sd_event := notify "STOPPING=1".
Definition systemd_notify_ready : Z * list sd_event := notify "READY=1".
Definition systemd_notify_stopping : Z * list sd_event := notify "STOPPING=1".
Definition systemd_watchdog_ping : Z * list sd_event := notify "WATCHDOG=1".

(** [snprintf] into a buffer of 256 bytes. *)
Definition systemd_notify_status (status : option (list Z)) : outcome (Z * list sd_event) :=
  if negb enabled then Ok (-1, []) else
  match status with
  | None => Ok (-1, [])
  | Some s => text ← cstr s; Ok (0, [Notify (take 255 (chars "STATUS=" ++ text))])
  end.

(** The [switch]: the syslog constants LOG_EMERG to LOG_DEBUG are 0 to 7, the
    default is LOG_INFO. *)
Definition sd_priority (priority : Z) : Z :=
  if priority =? LOG_LEVEL_EMERG then 0
  else if priority =? LOG_LEVEL_ALERT then 1
  else if priority =? LOG_LEVEL_CRIT then 2
  else if priority =? LOG_LEVEL_ERR then 3
  else if priority =? LOG_LEVEL_WARNING then 4
  else if priority =? LOG_LEVEL_NOTICE then 5
  else if priority =? LOG_LEVEL_INFO then 6
  else if priority =? LOG_LEVEL_DEBUG then 7
  else 6.

Definition systemd_log_message (priority : Z) (message : option (list Z)) : outcome (Z * list sd_event) :=
  if negb enabled then Ok (-1, []) else
  match message with
  | None => Ok (-1, [])
  | Some m => text ← cstr m; Ok (0, [Journal (sd_priority priority) text])
  end.

Definition systemd_is_active : bool :=
  enabled && bool_decide (is_Some (getenv "WATCHDOG_USEC")).

Definition systemd_get_watchdog_timeout : outcome Z :=
  if negb enabled then Ok 0 else
  match getenv "WATCHDOG_USEC" with
  | Some watchdog => s ← cstr watchdog; Ok (atoi s)
  | None => Ok 0
  end.

Definition systemd_setup_watchdog : outcome Z :=
  if negb enabled then Ok (-1) else
  timeout ← systemd_get_watchdog_timeout;
  Ok (if 0 <? timeout then 0 else -1).

Definition systemd_is_available : bool := enabled.
Definition systemd_get_unit_name : option (list Z) := if enabled then getenv "SYSTEMD_UNIT" else None.
Definition systemd_get_service_name : option (list Z) := if enabled then getenv "SYSTEMD_SERVICE" else None.
Definition systemd_setup_socket_activation : Z := -1.

(** Without systemd nothing is sent and every function that can says so. *)
Lemma systemd_disabled status priority message :
  enabled = false →
  systemd_init = (-1, []) ∧ systemd_cleanup = (-1, []) ∧ systemd_watchdog_ping = (-1, []) ∧
  systemd_notify_status status = Ok (-1, []) ∧ systemd_log_message priority message = Ok (-1, []) ∧
  systemd_setup_watchdog = Ok (-1) ∧ systemd_is_active = false.
Proof.
  intros E. unfold systemd_init, systemd_cleanup, systemd_watchdog_ping, notify, systemd_notify_status,
    systemd_log_message, systemd_setup_watchdog, systemd_is_active. by rewrite E.
Qed.

(** Every log level keeps its number in the journal; other priorities become
    LOG_INFO. *)
Lemma sd_priority_level p :
  sd_priority p = if (LOG_LEVEL_EMERG <=? p) && (p <=? LOG_LEVEL_DEBUG) then p else LOG_LEVEL_INFO.
Proof.
  unfold sd_priority, LOG_LEVEL_EMERG, LOG_LEVEL_ALERT, LOG_LEVEL_CRIT, LOG_LEVEL_ERR,
    LOG_LEVEL_WARNING, LOG_LEVEL_NOTICE, LOG_LEVEL_INFO, LOG_LEVEL_DEBUG.
  destruct (Z.leb_spec 0 p), (Z.leb_spec p 7); cbn [andb];
    repeat match goal with |- context [p =? ?n] => destruct (Z.eqb_spec p n); [lia|] end; lia.
Qed.

(** A status never fills the datagram of [sd_notify] beyond its 255 characters. *)
Lemma systemd_notify_status_bounded s text :
  enabled = true → cstr s = Ok text →
  ∃ m, systemd_notify_status (Some s) = Ok (0, [Notify m]) ∧ (length m ≤ 255)%nat ∧
       m `prefix_of` chars "STATUS=" ++ text.
Proof.
  intros E Hs. unfold systemd_notify_status. rewrite E, Hs. cbn [negb mbind outcome_bind].
  eexists. split; [done|]. split; [rewrite length_take; lia|apply prefix_take].
Qed.
End systemd.

(** A watchdog of an hour does not fit an [int]: it counts as not enabled. *)
Example hour_watchdog_ignored :
  systemd_setup_watchdog true
    (λ v, if bool_decide (v = "WATCHDOG_USEC"%string) then Some (lit "3600000000") else None) = Ok (-1).
Proof. vm_compute. reflexivity. Qed.
