(* ===== verification/StringReplace.v ===== *)
(** * src/utils/string_utils.c: [string_replace_all]

    The string is an object of the heap that the function rewrites in place; the
    two patterns are the bytes of terminated strings. *)

From S2P Require Import Prelude CString.

(** The offset of a pointer in its object. *)
Definition offset (p : ptr) : Z := match p with Null => 0 | Ptr _ o => o end.

(** The [while] loop; [find_len] and [replace_len] are its locals.  Each round
    passes a character of the string at least; running out of [fuel] counts as
    undefined. *)
Fixpoint replace_loop (fuel : nat) (str : ptr) (str_size : Z) (find replace : list Z)
    (find_len replace_len : Z) (pos : ptr) (count : Z) : M Z :=
  match fuel with
  | O => throw OobRead
  | S fuel =>
      if is_null pos || negb (offset pos + replace_len <? offset str + str_size) then mret count else
      room ← (if negb (replace_len =? find_len) then
                n ← strlen pos;
                let remaining := u64 (u64 (n - find_len) + 1) in
                total ← strlen str;
                if str_size <=? u64 (u64 (total + replace_len) - find_len) then mret false
                else memmove (padd pos replace_len) (padd pos find_len) remaining;; mret true
              else mret true);
      if negb room then mret count else
      put_bytes pos (take (Z.to_nat replace_len) replace);;
      l ← tail_bytes (padd pos replace_len);
      r ← lift (strstr l find);
      replace_loop fuel str str_size find replace find_len replace_len
        (match r with None => Null | Some i => padd pos (replace_len + Z.of_nat i) end) (count + 1)
  end.

Definition string_replace_all (str : ptr) (str_size : Z) (find replace : option (list Z)) : M Z :=
  match find, replace with
  | Some find, Some replace =>
      if is_null str || (str_size =? 0) then mret (-1) else
      find_len ← lift (strlen_list find);
      replace_len ← lift (strlen_list replace);
      if find_len =? 0 then mret 0 else
      l ← tail_bytes str;
      r ← lift (strstr l find);
      replace_loop (S (length l)) str str_size find replace find_len replace_len
        (match r with None => Null | Some i => padd str (Z.of_nat i) end) 0
  | _, _ => mret (-1)
  end.

(** ** What it computes *)

(** The first [n] occurrences of [f] in [s], from the left and not overlapping,
    replaced by [r]; and what is left of [s] behind them. *)
Fixpoint subst (n : nat) (f r s : list Z) : list Z :=
  match n with
  | O => s
  | S n => match find_sub f s with
           | None => s
           | Some i => take i s ++ r ++ subst n f r (drop (i + length f) s)
           end
  end.

Fixpoint behind (n : nat) (f s : list Z) : list Z :=
  match n with
  | O => s
  | S n => match find_sub f s with
           | None => s
           | Some i => behind n f (drop (i + length f) s)
           end
  end.

Lemma find_sub_split f s i :
  f ≠ [] → find_sub f s = Some i →
  s = take i s ++ f ++ drop (i + length f) s ∧ (i + length f ≤ length s)%nat.
Proof.
  intros Hf [[t Ht] _]%find_sub_Some. rewrite <- drop_drop, Ht, drop_app_length.
  assert (length (drop i s) = length f + length t)%nat as Hl by by rewrite Ht, length_app.
  rewrite length_drop in Hl. destruct f; [done|]. cbn [length] in *.
  split; [by rewrite <- Ht, take_drop|lia].
Qed.

Lemma splice_adjacent {A} (o : nat) (r x l : list A) :
  (o + length r ≤ length l)%nat →
  splice (Z.of_nat o) r (splice (Z.of_nat (o + length r)) x l) =
  take o l ++ r ++ x ++ drop (o + length r + length x) l.
Proof.
  intros Hl. unfold splice. rewrite !Nat2Z.id.
  rewrite take_app_le by (rewrite length_take; lia). rewrite take_take, Nat.min_l by lia.
  rewrite drop_app_length' by (rewrite length_take; lia). done.
Qed.

(** Moving the tail [t] of a string from behind [f] to where [r] will end, and
    then writing [r]. *)
Lemma splice_move {A} (d f r t junk : list A) z :
  (length d + length r + length t < length (d ++ f ++ t ++ z :: junk))%nat →
  ∃ junk', splice (lenZ d) r (splice (lenZ d + lenZ r) (t ++ [z]) (d ++ f ++ t ++ z :: junk)) =
             d ++ r ++ t ++ z :: junk' ∧
           junk' = drop (length d + length r + length t + 1) (d ++ f ++ t ++ z :: junk).
Proof.
  intros Hl. eexists. split; [|reflexivity]. unfold lenZ. rewrite <- Nat2Z.inj_add, splice_adjacent by lia.
  by rewrite take_app_length, length_app, <- !app_assoc, !Nat.add_assoc.
Qed.

Lemma drop_behind {A} (d r t junk : list A) z n :
  (length d + length r + length t < n)%nat →
  drop n (d ++ r ++ t ++ z :: junk) = drop (n - (length d + length r + length t + 1)) junk.
Proof.
  intros Hn. change (z :: junk) with ([z] ++ junk). rewrite !app_assoc, drop_app_ge.
  - f_equal. rewrite !length_app. cbn. lia.
  - rewrite !length_app. cbn. lia.
Qed.

Section replacing.
Context (h : heap) (b : nat) (size : Z) (find replace f r : list Z).
Context (Hf : cstr find = Ok f) (Hr : cstr replace = Ok r) (Hne : f ≠ []).

(** The heap with contents [l] of the string's object. *)
Definition holds (l : list Z) : heap := with_blocks h (<[b := l]> (blocks h)).

Lemma holds_lookup l : blocks (holds l) !! b = Some l.
Proof. apply lookup_insert_eq. Qed.

Lemma put_holds o new l :
  0 ≤ o → o + lenZ new ≤ lenZ l → put_bytes (Ptr b o) new (holds l) = Ok (tt, holds (splice o new l)).
Proof.
  intros Ho Hl. erewrite put_bytes_ok by (apply holds_lookup || done).
  unfold holds, with_blocks. cbn. by rewrite insert_insert_eq.
Qed.

Lemma tail_holds o d l : o = lenZ d → tail_bytes (Ptr b o) (holds (d ++ l)) = Ok (l, holds (d ++ l)).
Proof.
  intros ->.
  erewrite tail_bytes_ok; [|apply holds_lookup|rewrite lenZ_app; pose proof (lenZ_nonneg d); pose proof (lenZ_nonneg l); lia].
  by rewrite to_nat_lenZ, drop_app_length.
Qed.

Lemma strlen_holds o d s junk :
  o = lenZ d → no_nul s →
  strlen (Ptr b o) (holds (d ++ s ++ 0 :: junk)) = Ok (lenZ s, holds (d ++ s ++ 0 :: junk)).
Proof.
  intros Ho Hs. unfold strlen. erewrite bind_ok by by apply tail_holds. unfold strlen_list.
  by rewrite cstr_ok.
Qed.

(** Making room: the tail of the string moves. *)
Lemma memmove_holds d t junk :
  lenZ d + lenZ r + lenZ t < lenZ (d ++ f ++ t ++ 0 :: junk) →
  memmove (Ptr b (lenZ d + lenZ r)) (Ptr b (lenZ d + lenZ f)) (lenZ t + 1)
          (holds (d ++ f ++ t ++ 0 :: junk)) =
  Ok (tt, holds (splice (lenZ d + lenZ r) (t ++ [0]) (d ++ f ++ t ++ 0 :: junk))).
Proof.
  intros Hl. pose proof (lenZ_nonneg d). pose proof (lenZ_nonneg f).
  pose proof (lenZ_nonneg r). pose proof (lenZ_nonneg t). pose proof (lenZ_nonneg junk).
  unfold memmove. rewrite (proj2 (Z.eqb_neq _ _)) by lia.
  erewrite bind_ok by (apply get_bytes_ok; [apply holds_lookup|lia|lia|rewrite !lenZ_app, lenZ_cons; lia]).
  replace (slice _ _ _) with (t ++ [0]); [apply put_holds; [lia|rewrite lenZ_app, lenZ_cons; change (lenZ []) with 0; lia]|].
  unfold slice. replace (Z.to_nat (lenZ d + lenZ f)) with (length d + length f)%nat by (unfold lenZ; lia).
  rewrite <- drop_drop, !drop_app_length. change (0 :: junk) with ([0] ++ junk). rewrite app_assoc.
  rewrite take_app_length'; [done|]. rewrite length_app. unfold lenZ. cbn. lia.
Qed.

(** The search for the next occurrence, behind the replacement just written. *)
Lemma next_occurrence {A} (k : option nat → M A) d t junk :
  no_nul t →
  (l ← tail_bytes (Ptr b (lenZ d + lenZ r)); o ← lift (strstr l find); k o)
    (holds (d ++ r ++ t ++ 0 :: junk)) =
  k (find_sub f t) (holds (d ++ r ++ t ++ 0 :: junk)).
Proof.
  intros Ht. rewrite app_assoc. erewrite bind_ok by (apply tail_holds; by rewrite lenZ_app).
  erewrite bind_ok; [done|]. apply lift_ok. unfold strstr. rewrite cstr_ok by done. cbn. by rewrite Hf.
Qed.

Lemma take_replace : take (Z.to_nat (lenZ r)) replace = r.
Proof. destruct (cstr_inv _ _ Hr) as [_ [rest ->]]. by rewrite to_nat_lenZ, take_app_length. Qed.

(** The test for room, and the move when there is. *)
Lemma make_room_ok d t junk :
  no_nul (d ++ f ++ t) → size ≤ lenZ (d ++ f ++ t ++ 0 :: junk) < 2 ^ 63 → lenZ r < 2 ^ 63 →
  (n ← strlen (Ptr b (lenZ d));
   let remaining := u64 (u64 (n - lenZ f) + 1) in
   total ← strlen (Ptr b 0);
   if size <=? u64 (u64 (total + lenZ r) - lenZ f) then mret false
   else memmove (padd (Ptr b (lenZ d)) (lenZ r)) (padd (Ptr b (lenZ d)) (lenZ f)) remaining;; mret true)
    (holds (d ++ f ++ t ++ 0 :: junk)) =
  if size <=? lenZ (d ++ r ++ t) then Ok (false, holds (d ++ f ++ t ++ 0 :: junk))
  else Ok (true, holds (splice (lenZ d + lenZ r) (t ++ [0]) (d ++ f ++ t ++ 0 :: junk))).
Proof.
  intros Hn [Hsz H63] Hr63.
  pose proof (lenZ_nonneg d). pose proof (lenZ_nonneg f). pose proof (lenZ_nonneg r).
  pose proof (lenZ_nonneg t). pose proof (lenZ_nonneg junk).
  apply no_nul_app in Hn as Hn'. destruct Hn' as [Hd Hft].
  assert (d ++ f ++ t ++ 0 :: junk = d ++ (f ++ t) ++ 0 :: junk) as E1 by by rewrite <- !app_assoc.
  assert (d ++ f ++ t ++ 0 :: junk = [] ++ (d ++ f ++ t) ++ 0 :: junk) as E2 by by cbn; rewrite <- !app_assoc.
  erewrite bind_ok by (rewrite E1; by apply strlen_holds). cbv zeta.
  erewrite bind_ok by (rewrite <- E1, E2; by apply strlen_holds). rewrite <- E2.
  rewrite !lenZ_app in *. rewrite lenZ_cons in *. 
  replace (u64 (u64 (_ + _ - _) + 1)) with (lenZ t + 1) by (unfold_u; zmod).
  replace (u64 (u64 (_ + _) - _)) with (lenZ d + (lenZ r + lenZ t)) by (unfold_u; zmod).
  destruct (Z.leb_spec size (lenZ d + (lenZ r + lenZ t))); [done|].
  erewrite bind_ok; [done|]. apply memmove_holds. rewrite !lenZ_app, lenZ_cons. lia.
Qed.

(** One round at an occurrence, when the result fits: the occurrence is
    replaced, and the bytes from [size] on are left alone. *)
Lemma replace_loop_step fuel d t junk count :
  no_nul (d ++ f ++ t) → lenZ (d ++ f ++ t) < size → lenZ (d ++ r ++ t) < size →
  size ≤ lenZ (d ++ f ++ t ++ 0 :: junk) < 2 ^ 63 → no_nul r →
  ∃ junk',
    replace_loop (S fuel) (Ptr b 0) size find replace (lenZ f) (lenZ r) (Ptr b (lenZ d)) count
                 (holds (d ++ f ++ t ++ 0 :: junk)) =
    replace_loop fuel (Ptr b 0) size find replace (lenZ f) (lenZ r)
      (match find_sub f t with None => Null | Some i => Ptr b (lenZ d + (lenZ r + Z.of_nat i)) end)
      (count + 1) (holds (d ++ r ++ t ++ 0 :: junk')) ∧
    length (d ++ r ++ t ++ 0 :: junk') = length (d ++ f ++ t ++ 0 :: junk) ∧
    drop (Z.to_nat size) (d ++ r ++ t ++ 0 :: junk') = drop (Z.to_nat size) (d ++ f ++ t ++ 0 :: junk).
Proof.
  intros Hn Hl1 Hl2 [Hsz H63] Hnr.
  pose proof (lenZ_nonneg d). pose proof (lenZ_nonneg f). pose proof (lenZ_nonneg r).
  pose proof (lenZ_nonneg t). pose proof (lenZ_nonneg junk).
  apply no_nul_app in Hn as Hn'. destruct Hn' as [_ [_ Ht]%no_nul_app].
  assert (lenZ d + lenZ r < size) by (rewrite !lenZ_app in Hl2; lia).
  cbn [replace_loop is_null offset orb]. rewrite (proj2 (Z.ltb_lt _ _)) by lia. cbn [negb].
  destruct (Z.eqb_spec (lenZ r) (lenZ f)) as [E|E]; cbn [negb].
  - exists junk. rewrite bind_ok with (a := true) (h' := holds (d ++ f ++ t ++ 0 :: junk)) by done.
    cbn [negb]. rewrite take_replace.
    erewrite bind_ok by (apply put_holds; rewrite ?lenZ_app, ?lenZ_cons in *; lia).
    rewrite splice_after, drop_app_length' by (done || unfold lenZ in E; lia).
    split; [by apply next_occurrence|]. unfold lenZ in *. split; [rewrite !length_app; lia|].
    rewrite !length_app in *. rewrite !drop_behind by lia. do 2 f_equal. lia.
  - edestruct (splice_move d f r t junk 0) as [junk' [Es Ej]];
      [unfold lenZ in *; rewrite !length_app in *; lia|].
    exists junk'. erewrite bind_ok.
    2:{ rewrite make_room_ok; [|done|done|rewrite !lenZ_app in *; lia].
        by rewrite (proj2 (Z.leb_gt _ _)) by done. }
    cbn [negb]. rewrite take_replace.
    assert (length (splice (lenZ d + lenZ r) (t ++ [0]) (d ++ f ++ t ++ 0 :: junk)) =
            length (d ++ f ++ t ++ 0 :: junk)) as El
      by (apply length_splice; unfold lenZ in *; rewrite !length_app in *; cbn [length] in *; lia).
    erewrite bind_ok by (apply put_holds; unfold lenZ in *; rewrite ?El, !length_app in *; cbn [length] in *; lia).
    rewrite Es. split; [by apply next_occurrence|]. clear El Es. unfold lenZ in *.
    rewrite !length_app in *. cbn [length] in *. subst junk'. split.
    + rewrite length_drop, !length_app. cbn [length]. lia.
    + rewrite drop_behind, drop_drop by lia. f_equal. lia.
Qed.

(** Without room for the next replacement the loop ends. *)
Lemma replace_loop_full fuel d t junk count :
  no_nul (d ++ f ++ t) → lenZ (d ++ f ++ t) < size → size ≤ lenZ (d ++ r ++ t) →
  size ≤ lenZ (d ++ f ++ t ++ 0 :: junk) < 2 ^ 63 → lenZ r < 2 ^ 63 →
  replace_loop (S fuel) (Ptr b 0) size find replace (lenZ f) (lenZ r) (Ptr b (lenZ d)) count
               (holds (d ++ f ++ t ++ 0 :: junk)) =
  Ok (count, holds (d ++ f ++ t ++ 0 :: junk)).
Proof.
  intros Hn Hl1 Hl2 Hsz Hr63. cbn [replace_loop is_null offset orb].
  destruct (Z.ltb_spec (lenZ d + lenZ r) (0 + size)); [|done]. cbn [negb].
  rewrite (proj2 (Z.eqb_neq (lenZ r) (lenZ f))) by (rewrite !lenZ_app in *; lia). cbn [negb].
  erewrite bind_ok; [|rewrite make_room_ok; [by rewrite (proj2 (Z.leb_le _ _)) by done|done..]].
  done.
Qed.

Lemma replace_loop_ok fuel d s junk count :
  (length s < fuel)%nat → no_nul (d ++ s) → lenZ (d ++ s) < size →
  size ≤ lenZ (d ++ s ++ 0 :: junk) < 2 ^ 63 → no_nul r → lenZ r < 2 ^ 63 →
  ∃ (k : nat) junk',
    replace_loop fuel (Ptr b 0) size find replace (lenZ f) (lenZ r)
      (match find_sub f s with None => Null | Some i => Ptr b (lenZ d + Z.of_nat i) end)
      count (holds (d ++ s ++ 0 :: junk)) =
    Ok (count + Z.of_nat k, holds (d ++ subst k f r s ++ 0 :: junk')) ∧
    length (d ++ subst k f r s ++ 0 :: junk') = length (d ++ s ++ 0 :: junk) ∧
    drop (Z.to_nat size) (d ++ subst k f r s ++ 0 :: junk') = drop (Z.to_nat size) (d ++ s ++ 0 :: junk) ∧
    lenZ (d ++ subst k f r s) < size ∧
    (∀ j, (j < k)%nat → is_Some (find_sub f (behind j f s)) ∧ lenZ (d ++ subst (S j) f r s) < size) ∧
    (find_sub f (behind k f s) = None ∨
     is_Some (find_sub f (behind k f s)) ∧ size ≤ lenZ (d ++ subst (S k) f r s)).
Proof.
  revert d s junk count. induction fuel as [|fuel IH]; intros d s junk count Hfu Hn Hlen Hsz Hnr Hr63; [lia|].
  destruct (find_sub f s) as [i|] eqn:E.
  2:{ exists O, junk. split; [by rewrite Z.add_0_r|]. split; [done|]. split; [done|]. split; [done|].
      split; [intros j Hj; lia|by left]. }
  destruct (find_sub_split _ _ _ Hne E) as [Es Hi]. set (a := take i s) in *. set (t := drop _ s) in *.
  assert (lenZ d + Z.of_nat i = lenZ (d ++ a)) as -> by (rewrite lenZ_app; unfold lenZ, a; rewrite length_take; lia).
  assert (∀ l : list Z, d ++ s ++ l = (d ++ a) ++ f ++ t ++ l) as Ed by (intros; rewrite Es, <- !app_assoc; done).
  assert (d ++ s = (d ++ a) ++ f ++ t) as Ed' by (by rewrite Es, <- !app_assoc).
  assert (∀ k, subst (S k) f r s = a ++ r ++ subst k f r t) as Esub by (intros; cbn; by rewrite E).
  assert (∀ k, behind (S k) f s = behind k f t) as Ebeh by (intros; cbn; by rewrite E).
  clearbody a t. rewrite Ed in *. rewrite Ed' in *.
  destruct (Z.le_gt_cases size (lenZ ((d ++ a) ++ r ++ t))) as [Hfull|Hroom].
  - rewrite replace_loop_full by done. exists O, junk. rewrite Esub. change (subst 0 f r) with (λ x : list Z, x).
    cbn [behind]. cbv beta. rewrite Ed, Ed', Z.add_0_r.
    do 4 (split; [done|]). split; [intros j Hj; lia|]. right.
    rewrite E. split; [done|]. by rewrite <- app_assoc in Hfull.
  - destruct (replace_loop_step fuel (d ++ a) t junk count) as (j1 & -> & Hj1 & Hj2); [done..|].
    assert (lenZ ((d ++ a) ++ r) = lenZ (d ++ a) + lenZ r) as El by apply lenZ_app.
    destruct (IH ((d ++ a) ++ r) t j1 (count + 1)) as (k & j2 & Hrun & Hk1 & Hk2 & Hk3 & Hk4 & Hk5).
    { rewrite Es, !length_app in Hfu. destruct f; [done|]. cbn in Hfu. lia. }
    { rewrite !no_nul_app in *. naive_solver. }
    { by rewrite <- app_assoc. }
    { rewrite <- app_assoc. unfold lenZ in *. by rewrite Hj1. }
    { done. }
    { done. }
    exists (S k), j2. rewrite !Esub, Ebeh. rewrite El in Hrun. rewrite <- !app_assoc in *.
    rewrite Hk1, Hk2, Hj1, Hj2. split; [etransitivity; [|etransitivity; [exact Hrun|]]|].
    + destruct (find_sub f t); [|done]. by rewrite Z.add_assoc.
    + do 2 f_equal. lia.
    + do 3 (split; [done|]). split; [|done].
      intros [|j] Hj; rewrite Esub; [cbn [behind subst]; rewrite E; by eauto|].
      rewrite Ebeh. destruct (Hk4 j) as [H1 H2]; [lia|]. split; [done|]. by rewrite <- !app_assoc in H2.
Qed.
End replacing.

Lemma holds_same h b l : blocks h !! b = Some l → holds h b l = h.
Proof. intros E. unfold holds. rewrite insert_id by done. by destruct h. Qed.

(** C30: [string_replace_all], on a terminated string [s] in a buffer of at
    least [str_size] bytes, returns the number [k] of replacements it made and
    leaves in the buffer [s] with its first [k] non-overlapping occurrences of the
    pattern replaced, terminated within [str_size]; bytes from [str_size] on, and
    every other object, are as before.  [k] is exact: each of the [k] occurrences
    was there and its replacement fitted, and either no further occurrence is left
    or there is one and replacing it would not have fitted. *)
Theorem string_replace_all_replaces h b (size : Z) (find replace f r s junk : list Z) :
  cstr find = Ok f → cstr replace = Ok r → f ≠ [] → lenZ r < 2 ^ 63 →
  blocks h !! b = Some (s ++ 0 :: junk) → no_nul s → lenZ s < size →
  size ≤ lenZ (s ++ 0 :: junk) < 2 ^ 63 →
  ∃ (k : nat) junk',
    string_replace_all (Ptr b 0) size (Some find) (Some replace) h =
      Ok (Z.of_nat k, holds h b (subst k f r s ++ 0 :: junk')) ∧
    length (subst k f r s ++ 0 :: junk') = length (s ++ 0 :: junk) ∧
    drop (Z.to_nat size) (subst k f r s ++ 0 :: junk') = drop (Z.to_nat size) (s ++ 0 :: junk) ∧
    lenZ (subst k f r s) < size ∧
    (∀ j, (j < k)%nat → is_Some (find_sub f (behind j f s)) ∧ lenZ (subst (S j) f r s) < size) ∧
    (find_sub f (behind k f s) = None ∨
     is_Some (find_sub f (behind k f s)) ∧ size ≤ lenZ (subst (S k) f r s)).
Proof.
  intros Hf Hr Hne Hr63 Hb Hs Hlen Hsz. pose proof (lenZ_nonneg s). pose proof (lenZ_nonneg f).
  destruct (replace_loop_ok h b size find replace f r Hf Hr Hne (S (length (s ++ 0 :: junk))) [] s junk 0)
    as (k & junk' & Hrun & Hpost); [rewrite length_app; lia|done|done|done| |done|].
  { by destruct (cstr_inv _ _ Hr). }
  exists k, junk'. cbn [app] in *. split; [|exact Hpost]. rewrite (holds_same h b (s ++ _)) in Hrun by done.
  cbn [string_replace_all is_null orb]. rewrite (proj2 (Z.eqb_neq size 0)) by lia.
  unfold strlen_list. rewrite Hf, Hr. erewrite bind_ok by reflexivity. cbv beta.
  erewrite bind_ok by reflexivity. cbv beta.
  rewrite (proj2 (Z.eqb_neq (lenZ f) 0)) by (destruct f; [done|rewrite lenZ_cons; pose proof (lenZ_nonneg f); lia]).
  erewrite bind_ok by (apply tail_bytes_ok; [done|lia]). change (Z.to_nat 0) with 0%nat. rewrite drop_0.
  erewrite bind_ok; [|apply lift_ok; unfold strstr; rewrite cstr_ok by done; cbn; by rewrite Hf].
  exact Hrun.
Qed.

(** Two replacements of a longer word in a buffer of twelve bytes, since a third
    would not have fitted; and none in a string without the word. *)
Lemma string_replace_all_replaces_witness :
  let h := mkHeap {[0%nat := chars "a-b-c-d" ++ 0 :: replicate 6 255]} 1 (λ _, false) (λ _ _, 0) in
  (∃ junk', string_replace_all (Ptr 0 0) 12 (Some (lit "-")) (Some (lit "==>")) h =
     Ok (2, holds h 0 (chars "a==>b==>c-d" ++ 0 :: junk'))) ∧
  (∃ junk', string_replace_all (Ptr 0 0) 12 (Some (lit "+")) (Some (lit "==>")) h =
     Ok (0, holds h 0 (chars "a-b-c-d" ++ 0 :: junk'))).
Proof.
  intros h. split.
  - destruct (string_replace_all_replaces h 0 12 (lit "-") (lit "==>") (chars "-") (chars "==>")
      (chars "a-b-c-d") (replicate 6 255)) as (k & j & H1 & _ & _ & _ & Hk & Hend);
      [reflexivity|reflexivity|discriminate|reflexivity|reflexivity|vm_decide|reflexivity|
       split; [discriminate|reflexivity]|].
    destruct k as [|[|[|k]]].
    + destruct Hend as [Hn|[_ Hl]]; [discriminate Hn|by destruct Hl].
    + destruct Hend as [Hn|[_ Hl]]; [discriminate Hn|by destruct Hl].
    + exists j. exact H1.
    + destruct (Hk 2%nat) as [_ Hl]; [lia|discriminate Hl].
  - destruct (string_replace_all_replaces h 0 12 (lit "+") (lit "==>") (chars "+") (chars "==>")
      (chars "a-b-c-d") (replicate 6 255)) as (k & j & H1 & _ & _ & _ & Hk & _);
      [reflexivity|reflexivity|discriminate|reflexivity|reflexivity|vm_decide|reflexivity|
       split; [discriminate|reflexivity]|].
    destruct k as [|k]; [exists j; exact H1|].
    destruct (Hk 0%nat) as [[i Hi] _]; [lia|discriminate Hi].
Defined.

Example replace_twice :
  (let h := mkHeap {[0%nat := chars "a-b-c-d" ++ 0 :: replicate 6 255]} 1 (λ _, false) (λ _ _, 0) in
   (λ '(n, h), (n, blocks h !! 0%nat)) <$> string_replace_all (Ptr 0 0) 12 (Some (lit "-")) (Some (lit "==>")) h) =
  Ok (2, Some (chars "a==>b==>c-d" ++ [0; 255; 255])).
Proof. vm_compute. reflexivity. Qed.
