(* ===== verification/Routes.v ===== *)
(** * src/utils/net_utils.c: [get_default_interface]

    The routing table of /proc/net/route is the contents of a file, [None] if it
    cannot be opened. *)

From S2P Require Import Prelude CString StringUtils Config.

(** ** [sscanf(line, "%31s %lx", ...)] *)

(** [%s] with a width: the characters up to the next white space, at most [n]. *)
Fixpoint scan_word (n : nat) (s : list Z) : list Z * list Z :=
  match n, s with
  | S n, c :: s' => if isspace c then ([], s) else let '(w, r) := scan_word n s' in (c :: w, r)
  | _, _ => ([], s)
  end.

Definition xdigit (c : Z) : option Z :=
  if (48 <=? c) && (c <=? 57) then Some (c - 48)
  else if (97 <=? c) && (c <=? 102) then Some (c - 87)
  else if (65 <=? c) && (c <=? 70) then Some (c - 55)
  else None.

Fixpoint xdigits (acc : Z) (s : list Z) : Z :=
  match s with
  | c :: s => match xdigit c with Some d => xdigits (acc * 16 + d) s | None => acc end
  | [] => acc
  end.

Definition ULONG_MAX : Z := 2 ^ 64 - 1.

(** [%lx]: white space, a sign, a prefix 0x, hexadecimal digits.  [None] is a
    matching failure; values out of range saturate and negative ones wrap
    around, as in [strtoul]. *)
Definition scan_hex (s : list Z) : option Z :=
  let t := skip_spaces s in
  let '(neg, t) := match t with
                   | c :: t' => if c =? 45 then (true, t') else if c =? 43 then (false, t') else (false, t)
                   | [] => (false, t)
                   end in
  let t := match t with
           | a :: x :: t' => if (a =? 48) && ((x =? 120) || (x =? 88)) then t' else t
           | _ => t
           end in
  match t with
  | c :: _ => match xdigit c with
              | Some _ => let v := xdigits 0 t in
                          Some (if ULONG_MAX <? v then ULONG_MAX else if neg : bool then u64 (- v) else v)
              | None => None
              end
  | [] => None
  end.

(** The two values stored if both conversions succeed. *)
Definition sscanf_route (s : list Z) : option (list Z * Z) :=
  match scan_word 31 (skip_spaces s) with
  | ([], _) => None
  | (iface_name, r) => destination ← scan_hex r; Some (iface_name, destination)
  end.

(** ** The function *)

(** The loop over the lines; a round reads a byte at least, so the length of
    the file bounds the number of rounds.  The result is [found]. *)
Fixpoint route_loop (fuel : nat) (file : list Z) (interface : ptr) (interface_len : Z) : M bool :=
  match fuel with
  | O => mret false
  | S fuel =>
      match fgets 255 file with
      | ([], _) => mret false
      | (line, rest) =>
          s ← lift (cstr (line ++ [0]));
          match sscanf_route s with
          | Some (iface_name, destination) =>
              if destination =? 0
              then safe_string_copy interface (Some (iface_name ++ [0])) interface_len;; mret true
              else route_loop fuel rest interface interface_len
          | None => route_loop fuel rest interface interface_len
          end
      end
  end.

(** The result and whether the stream was closed. *)
Definition get_default_interface (file : option (list Z)) (interface : ptr) (interface_len : Z)
    : M (Z * bool) :=
  if is_null interface || (interface_len =? 0) then mret (-1, false) else
  match file with
  | None => mret (-1, false)
  | Some file =>
      match fgets 255 file with
      | ([], _) => mret (-1, true)
      | (_, rest) =>
          found ← route_loop (length rest) rest interface interface_len;
          mret (if found : bool then 0 else -1, true)
      end
  end.

(** ** The routing table *)

(** A line of the table: the interface, the destination and the other columns. *)
Record route : Type := mkRoute { iface : list Z; dest : Z; columns : list Z }.

Definition hexchar (d : Z) : Z := if d <? 10 then 48 + d else 55 + d.

(** ["%08X"]. *)
Definition hex8 (d : Z) : list Z :=
  (λ i, hexchar (d / 16 ^ (7 - Z.of_nat i) mod 16)) <$> seq 0 8.

(** The line the kernel prints, without its newline. *)
Definition route_line (r : route) : list Z := iface r ++ 9 :: hex8 (dest r) ++ 9 :: columns r.

Definition route_ok (r : route) : Prop :=
  iface r ≠ [] ∧ (length (iface r) ≤ 15)%nat ∧ Forall (λ c, isspace c = false ∧ 0 < c) (iface r) ∧
  0 ≤ dest r < 2 ^ 32 ∧ Forall (λ c, c ≠ 0 ∧ c ≠ 10) (columns r) ∧ (length (columns r) ≤ 200)%nat.

Definition default_route (rs : list route) : option route := head (filter (λ r, dest r = 0) rs).

Lemma xdigit_hexchar d : 0 ≤ d < 16 → xdigit (hexchar d) = Some d.
Proof.
  intros Hd. assert (d ∈ Z.of_nat <$> seq 0 16) as Hin.
  { apply list_elem_of_fmap. exists (Z.to_nat d). split; [lia|apply elem_of_seq; lia]. }
  revert d Hin Hd. assert (Forall (λ d, xdigit (hexchar d) = Some d) (Z.of_nat <$> seq 0 16)) as H by vm_decide.
  intros d Hin _. by rewrite Forall_forall in H; apply H.
Qed.

Lemma xdigits_hexchar acc d s : 0 ≤ d < 16 → xdigits acc (hexchar d :: s) = xdigits (acc * 16 + d) s.
Proof. intros Hd. cbn [xdigits]. by rewrite xdigit_hexchar. Qed.

Lemma xdigits_hex8 d s : 0 ≤ d < 2 ^ 32 → xdigits 0 (hex8 d ++ 9 :: s) = d.
Proof.
  intros Hd. unfold hex8. cbn [seq fmap list_fmap app].
  rewrite !xdigits_hexchar by (apply Z.mod_pos_bound; lia). cbn [xdigits xdigit Z.leb Z.compare andb].
  change (xdigit 9) with (@None Z). cbv iota.
  change (16 ^ (7 - Z.of_nat 0)) with 268435456. change (16 ^ (7 - Z.of_nat 1)) with 16777216.
  change (16 ^ (7 - Z.of_nat 2)) with 1048576. change (16 ^ (7 - Z.of_nat 3)) with 65536.
  change (16 ^ (7 - Z.of_nat 4)) with 4096. change (16 ^ (7 - Z.of_nat 5)) with 256.
  change (16 ^ (7 - Z.of_nat 6)) with 16. change (16 ^ (7 - Z.of_nat 7)) with 1.
  zmod.
Qed.

Lemma hexchar_range d : 0 ≤ d < 16 → 48 ≤ hexchar d ≤ 57 ∨ 65 ≤ hexchar d ≤ 70.
Proof. intros Hd. unfold hexchar. destruct (Z.ltb_spec d 10); lia. Qed.

Lemma scan_hex_hex8 d s : 0 ≤ d < 2 ^ 32 → scan_hex (9 :: hex8 d ++ 9 :: s) = Some d.
Proof.
  intros Hd. pose proof (xdigits_hex8 d s Hd) as Hx.
  assert (∃ a b t, hex8 d ++ 9 :: s = hexchar a :: hexchar b :: t ∧ 0 ≤ a < 16 ∧ 0 ≤ b < 16) as (a & b & t & E & Ha & Hb).
  { unfold hex8. cbn [seq fmap list_fmap app]. eexists _, _, _. split; [reflexivity|].
    split; apply Z.mod_pos_bound; lia. }
  rewrite E in *. pose proof (hexchar_range a Ha). pose proof (hexchar_range b Hb).
  unfold scan_hex. change (skip_spaces (9 :: ?l)) with (skip_spaces l).
  assert (skip_spaces (hexchar a :: hexchar b :: t) = hexchar a :: hexchar b :: t) as ->.
  { cbn. unfold isspace. repeat zcases; done. }
  rewrite (proj2 (Z.eqb_neq (hexchar a) 45)), (proj2 (Z.eqb_neq (hexchar a) 43)) by lia.
  rewrite (proj2 (Z.eqb_neq (hexchar b) 120)), (proj2 (Z.eqb_neq (hexchar b) 88)) by lia.
  rewrite andb_false_r, xdigit_hexchar by done. rewrite Hx. unfold ULONG_MAX. by rewrite (proj2 (Z.ltb_ge _ _)) by lia.
Qed.

Lemma scan_word_name n w c s :
  Forall (λ c, isspace c = false ∧ 0 < c) w → (length w < n)%nat → isspace c = true →
  scan_word n (w ++ c :: s) = (w, c :: s).
Proof.
  intros Hw Hn Hc. revert n Hn. induction Hw as [|x w [Hx _] _ IH]; intros [|n] Hn; cbn in *; try lia.
  - by rewrite Hc.
  - by rewrite Hx, IH by lia.
Qed.

Lemma sscanf_route_line r t : route_ok r → sscanf_route (route_line r ++ t) = Some (iface r, dest r).
Proof.
  intros (Hne & Hl & Hi & Hd & _ & _). unfold sscanf_route, route_line. rewrite <- app_assoc. cbn [app].
  rewrite <- app_assoc. cbn [app].
  assert (∀ l, skip_spaces (iface r ++ l) = iface r ++ l) as ->.
  { intros l. destruct (iface r) as [|x w]; [done|]. apply Forall_cons in Hi as [[Hx _] _]. cbn. by rewrite Hx. }
  rewrite scan_word_name by (done || lia). destruct (iface r); [done|].
  by rewrite scan_hex_hex8.
Qed.

Lemma hex8_chars d : 0 ≤ d → Forall (λ c, 48 ≤ c ≤ 70) (hex8 d) ∧ length (hex8 d) = 8%nat.
Proof.
  intros Hd. split; [|done]. unfold hex8. apply Forall_fmap, Forall_forall. intros i _. cbn.
  pose proof (hexchar_range (d / 16 ^ (7 - Z.of_nat i) mod 16)) as H.
  specialize (H (Z.mod_pos_bound _ 16 ltac:(lia))). lia.
Qed.

Lemma route_line_ok r : route_ok r → no_nul (route_line r) ∧ 10 ∉ route_line r ∧ (length (route_line r) < 255)%nat.
Proof.
  intros (Hne & Hl & Hi & [Hd _] & Hc & Hcl). destruct (hex8_chars _ Hd) as [Hx Hxl].
  assert (Forall (λ c, c ≠ 0 ∧ c ≠ 10) (route_line r)) as H.
  { unfold route_line. rewrite Forall_app. split; [|apply Forall_cons; split; [done|]; rewrite Forall_app; split; [|apply Forall_cons; done]].
    - eapply Forall_impl; [exact Hi|]. intros c [Hs H0]. split; [lia|]. by intros ->.
    - eapply Forall_impl; [exact Hx|]. cbn. lia. }
  rewrite Forall_forall in H. split; [|split].
  - intros Hin. by destruct (H _ Hin).
  - intros Hin. by destruct (H _ Hin).
  - unfold route_line. rewrite length_app. cbn [length]. rewrite length_app. cbn [length]. lia.
Qed.

Lemma route_loop_ok fuel rs interface len h :
  Forall route_ok rs → (length (unlines (route_line <$> rs)) ≤ fuel)%nat →
  route_loop fuel (unlines (route_line <$> rs)) interface len h =
  match default_route rs with
  | Some r => (safe_string_copy interface (Some (iface r ++ [0])) len;; mret true) h
  | None => Ok (false, h)
  end.
Proof.
  intros Hrs. revert fuel h. induction Hrs as [|r rs Hr Hrs IH]; intros fuel h Hf.
  { by destruct fuel. }
  rewrite fmap_cons in *. change (unlines (?a :: ?l)) with ((a ++ [10]) ++ unlines l) in *.
  rewrite !length_app in Hf. cbn [length] in Hf. destruct (route_line_ok r Hr) as (Hn & H10 & Hl).
  destruct fuel as [|fuel]; [lia|].
  cbn [route_loop]. rewrite <- app_assoc. cbn [app]. rewrite fgets_line by done.
  destruct (route_line r ++ [10]) as [|x l] eqn:E; [by destruct (route_line r)|]. rewrite <- E.
  erewrite bind_ok by (apply lift_ok, cstr_ok; apply no_nul_app; split; [done|vm_decide]).
  rewrite sscanf_route_line by done. unfold default_route. rewrite filter_cons.
  destruct (Z.eqb_spec (dest r) 0) as [Hd|Hd].
  - by rewrite decide_True by done.
  - rewrite decide_False by done. apply IH. lia.
Qed.

(** [get_default_interface] finds the default route in the routing table the
    kernel prints (a header and a line for each route): it copies the name of the
    interface of the first route with destination 0, cut to the buffer and
    terminated there, and returns 0; without such a route it returns -1 and
    leaves the buffer alone.  The stream is closed. *)
Theorem get_default_interface_finds_default header rs h b old len :
  10 ∉ header → (length header < 255)%nat → Forall route_ok rs →
  blocks h !! b = Some old → 0 < len ≤ lenZ old →
  ∃ r bs, get_default_interface (Some (header ++ 10 :: unlines (route_line <$> rs))) (Ptr b 0) len h =
            Ok ((r, true), with_blocks h (<[b := bs]> (blocks h))) ∧
    length bs = length old ∧
    match default_route rs with
    | Some rt => r = 0 ∧ cstr bs = Ok (take (Z.to_nat (len - 1)) (iface rt)) ∧
                 drop (Z.to_nat len) bs = drop (Z.to_nat len) old
    | None => r = -1 ∧ bs = old
    end.
Proof.
  intros H10 Hhl Hrs Hb Hlen. unfold get_default_interface. cbn [is_null].
  rewrite (proj2 (Z.eqb_neq len 0)) by lia. cbn [orb]. rewrite fgets_line by done.
  destruct (header ++ [10]) eqn:E; [by destruct header|]. clear E.
  unfold mbind at 1, M_bind at 1. rewrite route_loop_ok by done.
  destruct (default_route rs) as [rt|] eqn:Ed.
  - assert (route_ok rt) as (_ & _ & Hi & _).
    { apply (Forall_forall route_ok rs); [done|]. apply head_Some_elem_of in Ed.
      by apply list_elem_of_filter in Ed as [_ ?]. }
    destruct (safe_string_copy_terminates_dest h b old (iface rt) [] len) as (bs & Ec & Hs & Hl & Hd); [done| |done|].
    { intros Hin. rewrite Forall_forall in Hi. destruct (Hi _ Hin). lia. }
    erewrite bind_ok by exact Ec. exists 0, bs. split; [done|]. done.
  - exists (-1), old. split; [|done]. rewrite insert_id by done. by destruct h.
Qed.

Definition some_routes : list route :=
  [mkRoute (chars "docker0") 4384 (chars "00000000"); mkRoute (chars "wlp0s20f3") 0 (chars "0101A8C0");
   mkRoute (chars "eth0") 0 (chars "0101A8C0")].

Lemma get_default_interface_finds_default_witness :
  let file := chars "Iface" ++ 9 :: chars "Destination" ++ 10 :: unlines (route_line <$> some_routes) in
  ∃ r bs, get_default_interface (Some file) (Ptr 0 0) 8 (heap1 (replicate 16 7)) = Ok ((r, true), heap1 bs) ∧
    r = 0 ∧ cstr bs = Ok (chars "wlp0s20").
Proof.
  intros file.
  destruct (get_default_interface_finds_default (chars "Iface" ++ 9 :: chars "Destination") some_routes
              (heap1 (replicate 16 7)) 0 (replicate 16 7) 8) as (r & bs & E & _ & Hr).
  - vm_decide.
  - cbn. lia.
  - unfold some_routes, route_ok. cbn [iface dest columns].
    repeat first [apply Forall_cons; split|apply Forall_nil_2]; split_and!; vm_decide.
  - reflexivity.
  - split; vm_decide.
  - exists r, bs. rewrite heap1_insert in E. destruct Hr as (-> & Hc & _). split; [exact E|]. split; [reflexivity|].
    rewrite Hc. vm_compute. reflexivity.
Defined.
